(* ===== verification/_CoqProject ===== *)
-Q . S2P
Prelude.v
Mem.v
Dlist.v
RbTree.v
RbSpec.v
RbHeap.v
RbInsert.v
RbErase.v
RbCorrect.v
PollerState.v
TimerTree.v
Poller.v
PollerTimer.v
PollerWrite.v
PollerTable.v
PollerExpire.v
PollerLife.v
Mpoller.v
MpollerSpec.v
MsgQueue.v
MsgQueueFifo.v
MsgQueueSteps.v
ThrdPool.v
ThrdPoolSpec.v
ThrdPoolLeave.v
SubTask.v
SubTaskSpec.v
IoService.v
IoServiceSpec.v
Examples.v
Comm.v
CommSpec.v
CommFrame.v
CommHandle.v
CommMessage.v
CommRequest.v
Communicator.v
MapSum.v
CommRefs.v
CommStill.v
CommCount.v
CommCountHandlers.v
CommCountAccept.v
CommCountInterface.v
CommCountSteps.v
CommIdle.v
CommReceive.v
CommTyped.v
CommConnect.v
CommWatch.v
CommLife.v
CommLifeHandlers.v
CommLifeRun.v
CommRunExamples.v
CommunicatorSpec.v
KernelExamples.v
Properties.v
KernelProperties.v
CommProperties.v
CommRunProperties.v
CommLifeProperties.v
CommunicatorProperties.v
