(* ===== verification/Prelude.v ===== *)
(** * A verification of the workflow kernel (src/src/kernel)

    The kernel is the run-time layer of an asynchronous framework. From the bottom:

    - intrusive circular lists (list.h) and red-black trees (rbtree.c) link the
      nodes of everything above;
    - a poller (poller.cc) is a thread around an epoll descriptor. It keeps a
      node per file descriptor, queues the nodes by deadline in a tree and two
      lists, and calls its client with the result of each read, write, accept,
      connect, datagram, event, timeout or deletion;
    - an mpoller (mpoller.cc) spreads descriptors over several pollers that share
      one table;
    - the message queue (msgqueue.cc) has one list to get from and one to put to,
      swapped when the first is empty; the thread pool (thrdpool.cc) feeds its
      threads through such a queue;
    - subtask.cc chains tasks in series and runs them in parallel;
    - the I/O service (ioservice_linux.cc) gives disk requests to the kernel's aio
      interface and keeps a list of the sessions in flight;
    - the communicator (communicator.cc) runs client and server connections over
      an mpoller and a thread pool: sessions, targets and services with reference
      counts, timeouts, sending and receiving messages.

    ** How the code is modelled

    Code is a function of the monad [M] below: explicit state, with an outcome
    that tells a normal end from undefined behaviour ([UB]: NULL, a freed or
    missing object, an index out of range, a mutex misused), from waiting for
    ever ([Blocked]) and from a loop cut short ([NoFuel]). A pointer is an
    [option positive]; objects are finite maps from addresses to records; integers
    are [Z] with their wrap-around written out ([u32], [i32], [u64], [i64]).
    Mutual exclusion is modelled where the order of operations matters: the
    operations run whole, and in the queue, the pool, the poller's removal and the
    mpoller their critical sections are steps of a relation that interleaves any
    number of threads.

    ** Files

    - [Mem]: the link memory, a cell per object with the fields of [struct list]
      and [struct rb_node], which poller.cc overlaps in a union.
    - [Dlist]: list.h ([list_init], [list_add_tail], [list_add_list],
      [list_add_front], [list_delete]), with segments and rings of the memory.
      [list_add_tail] links wrongly, so rings are described in both directions.
    - [RbTree]: rbtree.h and rbtree.c. [RbSpec]: the functional tree, its zipper,
      rebalancing and its invariants. [RbHeap]: the shape of a tree in memory.
      [RbInsert], [RbErase], [RbCorrect]: the heap code computes the functional
      one, and what it promises a client.
    - [PollerState]: poller.h and the data of poller.cc, the system and the client.
      [TimerTree]: [__poller_tree_insert] and [__poller_tree_erase]. [Poller]: every
      other function of poller.cc but the thread's entry, whose loop is here.
    - [PollerTimer], [PollerExpire]: deadlines, the timerfd, expiry. [PollerWrite]:
      the write handler. [PollerTable]: the table of descriptors as an invariant of
      all operations. [PollerLife]: creation, the descriptor check, stopping, the
      race of [__poller_remove_node].
    - [Mpoller], [MpollerSpec]: mpoller.cc and mpoller.h over [Poller], through a
      view of one poller with the shared table.
    - [MsgQueue]: msgqueue.cc on a memory of words, with the owners of the mutexes.
      [MsgQueueFifo]: its abstract state and the refinement. [MsgQueueSteps]: the
      interleaving of threads, with the history of the operations that completed.
    - [ThrdPool]: thrdpool.cc over [MsgQueue]. [ThrdPoolSpec]: creation and
      destruction. [ThrdPoolLeave]: the protocol of leaving and joining, with a
      pool terminated from outside or by one of its own threads.
    - [SubTask]: subtask.cc, with [dispatch] and [subtask_done] recursive through
      each other. [SubTaskSpec]: its invariants, termination and progress.
    - [IoService]: ioservice_linux.cc and .h, with the iocb as 64 bytes.
      [IoServiceSpec]: round trips through these bytes, errors and the drain.
    - [Comm]: communicator.h and communicator.cc up to [send_message].
      [CommSpec]: what sending, timeouts and draining promise.
    - [CommHandle]: the handlers of poller results, [handle_incoming_request] to
      [handle_sleep_result]. [CommMessage]: the callbacks of the poller threads,
      [append_message] to [recvfrom]. [CommRequest]: the interface,
      [nonblock_connect] to [unsleep]. [Communicator]: the whole class over the
      queue, the pool, the mpoller and the I/O services: [handle_aio_result], the
      thread that handles results, [init], [deinit], more and fewer threads.
    - [CommFrame]: code that leaves alone what one looks at of a state ([leaves]), on
      which every proof about a run of the communicator steps over what it need not
      see.
    - [MapSum], [CommRefs]: references to targets and services as sums over the
      maps of objects, the invariant [counted], and the moves of a reference.
      [CommStill]: the code that moves none. [CommCount], [CommCountHandlers],
      [CommCountAccept], [CommCountInterface]: each operation keeps the counts;
      [CommCountSteps]: runs as a step relation.
    - [CommIdle]: the idle connections of a target. [CommReceive]: datagrams.
      [CommTyped]: types of the objects, and the sessions that were replied to.
      [CommConnect]: what making a connection takes and gives back.
    - [CommWatch]: the life of a client's connection as a machine of its own: what the
      poller still has to deliver for it, its state, the idle list, what its session
      was told; the invariant [well] and its moves. [CommLife]: sending and [request]
      make such moves. [CommLifeHandlers]: so do the handlers of connect, write and
      read results and the callbacks for replies. [CommLifeRun]: runs of the client
      side as a step relation.
    - [CommunicatorSpec]: creation, and the handling of queued results.
    - [Examples], [KernelExamples], [CommRunExamples]: concrete states.
      [Properties], [KernelProperties], [CommProperties], [CommRunProperties],
      [CommLifeProperties], [CommunicatorProperties]: the properties C1, C2, ... (in
      the order of importance, so not in the order of the files), each with its
      instance at a concrete state, and smaller ones without a number.

    ** What the theorems show

    - Trees and timers (C1, C2, C7, C20 - C24, C39, C40): insertion, erasure and
      traversal of the red-black tree on the heap; the timer tree is a queue sorted
      by deadline, first come first served; deadlines do not overflow; the timerfd
      is armed for the earlier of the list's first node and the tree's earliest, which
      is the earliest of all while the list is sorted, as [ordered] says (the second
      node that expires last unsorts it); expiry takes exactly the expired nodes of the
      tree, of which [list_add_tail] loses all but two, and is undefined behaviour when
      the list's first has expired.
    - Poller (C8, C19): the table invariant and the write loop.
    - Queue, pool, tasks (C6, C11, C14, C18, C25 - C30): refinement of a FIFO sequence.
      In every interleaving, [msgqueue_put_head] included, the completed operations are
      a history of one sequence (C6); that operation is the only one that can be
      undefined behaviour, exactly while messages wait to be got (C25), and the only one
      to exceed the capacity (C26). Joining is exactly once, and termination can be
      completed exactly for pools made with no threads (C14, C28), since
      [thrdpool_create] counts threads it does not make; destruction (C27). Tasks run
      once, end, and none is left.
    - Mpoller, I/O (C15, C31 - C33, C38): routing, no leak of descriptors; what the
      kernel reads is what was prepared, where a request goes on the list, what it leaves
      when it fails; the drain ends.
    - Communicator (C3 - C5, C9, C10, C12, C13, C16, C17, C34 - C37). Over whole
      runs: each request is told its outcome once (C3); while the links between the
      objects are in order the reference counts are right, but for the reference a failed
      [bind] leaves, and nothing in use is freed (C4); a client's connection has one
      reference, a state that goes with what is to come, and a place on the idle list
      exactly when it is idle (C5). By operation: the bytes sent and those left add up to
      the message, with each way the rest is handed to the poller (C9, [handed]); a
      session is replied to or shut down once (C10); a request takes the first idle
      connection that is alive (C13); a datagram is consumed in order and its session
      told accordingly, if the message lets the loop end (C16); a connection that cannot
      be made leaves nothing behind (C17); timeouts, binding, draining (C34 - C36). Put
      together: queued results are handled in order and freed, and the mpoller and the
      queue with them (C12); [init] with handler threads never returns (C37), since the
      pool it makes has no threads.
    Without a number: the race of [__poller_remove_node] at a concrete state, the types
    of the communicator's objects, the table of an mpoller, and smaller facts.

    ** Loops and fuel

    A loop takes a number of iterations and gives [NoFuel] when it needs more. The
    bound is computed from the state: the objects in memory for the trees and the
    lists ([objects], [S (size (clinks s))]), the tasks for [dispatch]
    ([task_bound]), the entries for [thrdpool_destroy] ([entry_count]), the count
    of the vectors for writing. The theorems prove these are enough. Loops whose
    length the outside decides (reading until the socket is empty, the poller's
    own loop, a thread's loop, [writev] a byte at a time) take it as an argument;
    for writing the number of bytes is proved to be enough.

    ** Parameters and what is assumed of them

    - [Env] (system calls and malloc of the poller), [EnvLaws] (malloc gives
      unused memory), [WritevLaws] (writev takes no more than it is given, and
      something of a non-empty vector or an error); [Client]: the callbacks of
      [poller_params].
    - [MEnv]: malloc in mpoller.cc. [ThreadEnv] and [ThreadLaws]: pthread and
      malloc, fresh addresses; [TaskClient]: the routines of the tasks.
    - [Tasks]: what [done] returns and whether a task completes at once.
    - [IOKernel] and [KernelLaws] (io_getevents reports a request in flight, and
      waits for one when there is one), [IOClient] and [IOClientLaws] (handlers
      return and touch their own session).
    - [CommEnv], [CommWritevLaws]; [CommClient] and [CommClientLaws] (the virtual
      [send_timeout] only returns a timeout).
    - [CommMemory]: what fresh memory holds and where it is. [CommExterns]: [list_add],
      [list_del] and the states of a [SleepSession], which communicator.cc names and
      no file defines; [CommListLaws]: the two link and unlink as their names say.
      [CommCallbacks]: the other virtual functions of sessions, targets, services and
      messages. What a theorem needs of these is a class of its own: [CommRefLaws]
      (they move no reference but their own; malloc gives fresh addresses below
      2^29, so that the [int] counts cannot wrap), [CommTypeLaws] (they keep the
      objects within their types), [CommConnectLaws] (they leave the connections and
      the descriptors of others alone), [CommLifeLaws] (they leave the connections, the
      lists and the poller alone; what a session's [handle] requests is requested after
      it has returned).
    - [SysEnv], [IOServices]: sysconf and malloc of [create_poller], the virtual
      functions of an [IOService] that the communicator calls.
    Each group of laws has an instance, so that no theorem is empty.

    The step relation of C4 says when a step can happen: a result names a connection
    that is there, a service that is bound has neither targets nor a listening socket,
    and few references are under way ([small]). The links between the objects that the
    code relies on are no part of it but a hypothesis of C4 of their own: [in_order] holds
    of each state of the run ([session_passive], [idle_owned], [reply_linked]).
    [run_state] has, next to the objects, the references that accepts under way and
    listening sockets hold, and the services on which a [bind] has failed that set the
    count first.
    That of C3 and C5 says what a poller delivers: of each operation it took one last
    result, of a read the complete messages in between, and a message is completed that
    was begun. In it every connection is a client's.
    Client code runs where the program calls it, and between steps it makes and
    destroys its sessions, targets and services ([client_change]).

    ** What is not modelled, and the plan

    The end of communicator.cc (from line 1764 on), which is for systems other than
    Linux; [io_cancel] (unused); the inline getters of a session in communicator.h; the tests under
    src/test (programs run by hand); the build files and the compiler probes CMake
    left in src/build. From line 415 on communicator.cc names the fields of a
    connection without their underscore and so does not compile as it stands; the
    model reads such a name as the field. The whole class runs its handlers one at a
    time; interleaving them is modelled for the queue and the pool only.
    [in_order] is not proved as an invariant of runs: the entries of the idle lists of a
    server's targets share their links with the alive list of the service, to which line
    623 adds the entry with the arguments of list_add_tail the other way round. What a
    later list_del finds is then not the ring the code means.
    The runs of a pool (C14, C28) have at most one thread that terminates it; those of
    C8 are of interface calls and removals, without the handlers of the poller's thread.
    The pollers of an mpoller have one table because the model keeps [nodes_buf] once. *)
From Stdlib Require Export ZArith Lia.
From stdpp Require Export base tactics numbers option gmap list.

(** ** Addresses and pointers *)

(** A C pointer is [None] (NULL) or the address of an object. *)
Abbreviation loc := positive (only parsing).
Abbreviation ptr := (option positive) (only parsing).

(** The C condition [p] on a pointer. *)
Definition nonnull (p : ptr) : bool :=
  match p with Some _ => true | None => false end.

(** ** The outcome of running C code

    [Done]: the code ran to its end.  [UB]: it dereferenced NULL or an address
    that holds no object (undefined behaviour in C).  [Blocked]: it waits on a
    condition variable that nothing in the model signals.  [NoFuel]: the bound
    on the iterations of a loop was reached; the theorems rule it out. *)
Inductive outcome (A : Type) : Type :=
| Done (a : A)
| UB
| Blocked
| NoFuel.
Arguments Done {A} a.
Arguments UB {A}.
Arguments Blocked {A}.
Arguments NoFuel {A}.

(** Stateful C code over a state [S]. *)
Definition M (S A : Type) : Type := S → outcome (A * S).

Definition ret {S A} (a : A) : M S A := λ s, Done (a, s).
Definition bnd {S A B} (m : M S A) (k : A → M S B) : M S B := λ s,
  match m s with
  | Done (a, s') => k a s'
  | UB => UB
  | Blocked => Blocked
  | NoFuel => NoFuel
  end.
Definition ub {S A} : M S A := λ _, UB.
Definition nofuel {S A} : M S A := λ _, NoFuel.
Definition blocked {S A} : M S A := λ _, Blocked.
Definition gets {S A} (f : S → A) : M S A := λ s, Done (f s, s).
Definition modify {S} (f : S → S) : M S unit := λ s, Done (tt, f s).

(** Run code whose loops are bounded by a number computed from the state. *)
Definition bounded {S A} (bound : S → nat) (m : nat → M S A) : M S A :=
  λ s, m (bound s) s.

(** Run code over a part of a larger state. *)
Definition zoom {S T A} (get : T → S) (set : S → T → T) (m : M S A) : M T A :=
  λ t, match m (get t) with
       | Done (a, s) => Done (a, set s t)
       | UB => UB
       | Blocked => Blocked
       | NoFuel => NoFuel
       end.

Declare Scope prog_scope.
Delimit Scope prog_scope with prog.
Open Scope prog_scope.

Notation "'let*' x ':=' m 'in' k" := (bnd m (λ x, k))
  (at level 10, x pattern, m at level 100, k at level 200,
   format "'[v' 'let*'  x  ':='  m  'in' '/' k ']'") : prog_scope.
Notation "m ;;; k" := (bnd m (λ _, k))
  (at level 199, right associativity, format "'[v' m  ;;; '/' k ']'") : prog_scope.

Lemma bnd_done {S A B} (m : M S A) (k : A → M S B) s a s' :
  m s = Done (a, s') → bnd m k s = k a s'.
Proof. unfold bnd. by intros ->. Qed.
Lemma bnd_ub {S A B} (m : M S A) (k : A → M S B) s : m s = UB → bnd m k s = UB.
Proof. unfold bnd. by intros ->. Qed.

Lemma bnd_assoc {S A B C} (m : M S A) (f : A → M S B) (g : B → M S C) s :
  bnd (bnd m f) g s = bnd m (λ a, bnd (f a) g) s.
Proof. unfold bnd. by destruct (m s) as [[a s']| | |]. Qed.

Lemma ret_bnd {S A B} (a : A) (k : A → M S B) s : bnd (ret a) k s = k a s.
Proof. done. Qed.

Lemma gets_bnd {S A B} (f : S → A) (k : A → M S B) s : bnd (gets f) k s = k (f s) s.
Proof. done. Qed.
Lemma modify_bnd {S B} f (k : unit → M S B) s : bnd (modify f) k s = k tt (f s).
Proof. done. Qed.

Lemma bnd_done_inv {S A B} (m : M S A) (k : A → M S B) s r :
  bnd m k s = Done r → ∃ a s', m s = Done (a, s') ∧ k a s' = Done r.
Proof. unfold bnd. destruct (m s) as [[a s']| | |]; naive_solver. Qed.

(** ** Machine integers *)

(** [uw w z]: [z] stored in an unsigned integer of [w] bits; [sw w z]: in a
    signed one (two's complement). *)
Definition uw (w z : Z) : Z := z mod 2 ^ w.
Definition sw (w z : Z) : Z := (z + 2 ^ (w - 1)) mod 2 ^ w - 2 ^ (w - 1).

Definition u32 (z : Z) : Z := uw 32 z.
Definition i32 (z : Z) : Z := sw 32 z.
Definition u64 (z : Z) : Z := uw 64 z.
Definition i64 (z : Z) : Z := sw 64 z.

Lemma uw_small w z : (0 ≤ z < 2 ^ w)%Z → uw w z = z.
Proof. apply Z.mod_small. Qed.

Lemma uw_bounds w z : (0 ≤ w)%Z → (0 ≤ uw w z < 2 ^ w)%Z.
Proof. intros. apply Z.mod_pos_bound. lia. Qed.

Lemma sw_small w z :
  (1 ≤ w)%Z → (-(2 ^ (w - 1)) ≤ z < 2 ^ (w - 1))%Z → sw w z = z.
Proof.
  intros Hw Hz. unfold sw.
  assert (2 ^ w = 2 * 2 ^ (w - 1))%Z as E.
  { rewrite <- Z.pow_succ_r by lia. f_equal. lia. }
  rewrite Z.mod_small; lia.
Qed.

Lemma i64_small z : (-(2 ^ 63) ≤ z < 2 ^ 63)%Z → i64 z = z.
Proof. intros. apply sw_small; lia. Qed.

Lemma i32_small z : (-(2 ^ 31) ≤ z < 2 ^ 31)%Z → i32 z = z.
Proof. intros. apply sw_small; lia. Qed.

Lemma u32_small z : (0 ≤ z < 2 ^ 32)%Z → u32 z = z.
Proof. intros. apply uw_small; lia. Qed.

Lemma u64_small z : (0 ≤ z < 2 ^ 64)%Z → u64 z = z.
Proof. intros. apply uw_small; lia. Qed.

Lemma u32_neg z : (-(2 ^ 32) ≤ z < 0)%Z → u32 z = (z + 2 ^ 32)%Z.
Proof.
  intros. unfold u32, uw.
  rewrite <- (Z.mod_add z 1) by lia. apply Z.mod_small. lia.
Qed.

Lemma u64_neg z : (-(2 ^ 64) ≤ z < 0)%Z → u64 z = (z + 2 ^ 64)%Z.
Proof.
  intros. unfold u64, uw.
  rewrite <- (Z.mod_add z 1) by lia. apply Z.mod_small. lia.
Qed.

(** The integer a C condition yields. *)
Definition b2z (b : bool) : Z := if b then 1%Z else 0%Z.

(** errno(3) on Linux. *)
Definition ENOENT : Z := 2.
Definition EBADF : Z := 9.
Definition EAGAIN : Z := 11.
Definition EEXIST : Z := 17.
Definition EINVAL : Z := 22.
Definition ENFILE : Z := 23.
Definition EMFILE : Z := 24.
Definition ECONNABORTED : Z := 103.
Definition ETIMEDOUT : Z := 110.

(** ** Lists *)

Lemma NoDup_app_remove_mid {A} (xs ys : list A) (x : A) :
  NoDup (xs ++ x :: ys) → NoDup (xs ++ ys) ∧ (x ∉ xs) ∧ (x ∉ ys).
Proof.
  rewrite !NoDup_app, NoDup_cons. intros (?&H&?&?). set_solver.
Qed.

(** Where a split of a list falls relative to one of its elements. *)
Lemma app_split {A} (l r xs ys : list A) (a : A) :
  l ++ a :: r = xs ++ ys →
  (∃ us, l = xs ++ us ∧ ys = us ++ a :: r) ∨ (∃ us, xs = l ++ a :: us ∧ r = us ++ ys).
Proof.
  revert xs. induction l as [|x l IH]; intros [|y xs] E; simplify_eq/=.
  - left. by exists [].
  - right. by exists xs.
  - left. by exists (y :: l) || exists (x :: l).
  - destruct (IH xs) as [(us & -> & ->)|(us & -> & ->)]; [done|left|right]; by exists us.
Qed.

Lemma Forall2_impl_in {A B} (P Q : A → B → Prop) xs ys :
  Forall2 P xs ys → (∀ x y, x ∈ xs → P x y → Q x y) → Forall2 Q xs ys.
Proof.
  induction 1 as [|x y xs ys Hxy _ IH]; intros H; constructor.
  - apply H; [by left|done].
  - apply IH. intros x' y' Hx. apply H. by right.
Qed.

(** ** Automation *)

Create HintDb kernel.

(** Decide pointer comparisons met while running code. *)
Ltac ptr_cases :=
  repeat (case_decide; simplify_eq; try congruence).

(** Disjointness by counting: a list without duplicates holds every address at
    most once, so memberships in its parts turn into linear arithmetic. *)
Definition same (x y : loc) : nat := if decide (x = y) then 1 else 0.
Arguments same : simpl never.
Fixpoint occ (x : loc) (l : list loc) : nat :=
  match l with [] => 0 | y :: l => same x y + occ x l end.

Lemma same_refl x : same x x = 1.
Proof. unfold same. by case_decide. Qed.
Lemma occ_nil x : occ x [] = 0.
Proof. done. Qed.
Lemma occ_cons x y l : occ x (y :: l) = same x y + occ x l.
Proof. done. Qed.
Lemma occ_app x l k : occ x (l ++ k) = occ x l + occ x k.
Proof. induction l; simpl; lia. Qed.
Lemma occ_in x l : x ∈ l ↔ 1 ≤ occ x l.
Proof.
  induction l as [|y l IH]; simpl; [split; [by intros ?%elem_of_nil|lia]|].
  rewrite elem_of_cons, IH. unfold same. case_decide; naive_solver lia.
Qed.
Lemma occ_notin x l : occ x l = 0 → x ∉ l.
Proof. rewrite occ_in. lia. Qed.
Lemma NoDup_occ l : NoDup l ↔ ∀ x, occ x l ≤ 1.
Proof.
  induction l as [|y l IH]; simpl; [split; [lia|constructor]|].
  rewrite NoDup_cons, IH, occ_in. split.
  - intros [Hy H] x. specialize (H x). unfold same. case_decide; subst; lia.
  - intros H. split; [specialize (H y); rewrite same_refl in H; lia|].
    intros x. specialize (H x). lia.
Qed.
Create Rewrite HintDb occ.
#[export] Hint Rewrite same_refl occ_nil occ_cons occ_app : occ.

Lemma same_ne x y : same y x = 0 → x ≠ y.
Proof. unfold same. by case_decide. Qed.

(** The count of [x] in the list of [H : NoDup _]. *)
Ltac count H x :=
  let H' := fresh in
  pose proof H as H'; simpl in H'; rewrite NoDup_occ in H'; specialize (H' x);
  autorewrite with occ in H'.
(** Prove [x ≠ y] or [x ∉ l] from [H : NoDup _]. *)
Ltac sep H :=
  lazymatch goal with
  | |- ?x ≠ ?y => clear -H; apply (same_ne x y); count H y; lia
  | |- ?x ∉ ?l => clear -H; apply occ_notin; count H x; simpl; autorewrite with occ; lia
  end.

(** Prove [x ∈ l] by counting. *)
Ltac mem := apply occ_in; simpl; autorewrite with occ; lia.

(** The allocated addresses bound the length of a list of distinct ones. *)
Lemma NoDup_size `{Countable K} {A} (l : list K) (h : gmap K A) :
  NoDup l → (∀ x, x ∈ l → is_Some (h !! x)) → length l ≤ size h.
Proof.
  intros Hnd Hin. rewrite <- (size_list_to_set (C := gset K) l) by done.
  rewrite <- size_dom. apply subseteq_size. intros x Hx%elem_of_list_to_set.
  by apply elem_of_dom, Hin.
Qed.

(** Normalise appends to the right. *)
Ltac assoc := repeat first [rewrite <- app_assoc | progress simpl].
