(* ===== verification/Mem.v ===== *)
(** The link memory shared by list.h and rbtree.h.

    poller.cc packs [struct list] and [struct rb_node] in one union, so a node
    is at one moment on a list and at another in the tree, in the same words.
    A [cell] is that union: its words are, in declaration order, next / rb_parent,
    prev / rb_right, rb_left, and the colour byte. A list head uses the first two
    words, a [struct rb_root] the first one. *)
From S2P Require Export Prelude.

Record cell : Type := Cell {
  w0 : ptr;
  w1 : ptr;
  w2 : ptr;
  col : Z;
}.

Abbreviation links := (gmap positive cell) (only parsing).

(** struct list *)
Abbreviation next := w0 (only parsing).
Abbreviation prev := w1 (only parsing).
(** struct rb_node *)
Abbreviation rb_parent := w0 (only parsing).
Abbreviation rb_right := w1 (only parsing).
Abbreviation rb_left := w2 (only parsing).
Abbreviation rb_color := col (only parsing).
(** struct rb_root *)
Abbreviation rb_node := w0 (only parsing).

Definition set_w0 (p : ptr) (c : cell) : cell := Cell p (w1 c) (w2 c) (col c).
Definition set_w1 (p : ptr) (c : cell) : cell := Cell (w0 c) p (w2 c) (col c).
Definition set_w2 (p : ptr) (c : cell) : cell := Cell (w0 c) (w1 c) p (col c).
Definition set_col (z : Z) (c : cell) : cell := Cell (w0 c) (w1 c) (w2 c) z.

Abbreviation set_next := set_w0 (only parsing).
Abbreviation set_prev := set_w1 (only parsing).
Abbreviation set_rb_parent := set_w0 (only parsing).
Abbreviation set_rb_right := set_w1 (only parsing).
Abbreviation set_rb_left := set_w2 (only parsing).
Abbreviation set_rb_node := set_w0 (only parsing).

(** Read a field of [*p]. *)
Definition ld {A} (f : cell → A) (p : ptr) : M (gmap positive cell) A := λ h,
  match p with
  | None => UB
  | Some l => match h !! l with Some c => Done (f c, h) | None => UB end
  end.

(** Write a field of [*p]. *)
Definition st (f : cell → cell) (p : ptr) : M (gmap positive cell) unit := λ h,
  match p with
  | None => UB
  | Some l =>
      match h !! l with Some c => Done (tt, <[l := f c]> h) | None => UB end
  end.

Lemma ld_run {A} (f : cell → A) (l : loc) (h : links) c :
  h !! l = Some c → ld f (Some l) h = Done (f c, h).
Proof. simpl. by intros ->. Qed.

Lemma st_run f (l : loc) (h : links) c :
  h !! l = Some c → st f (Some l) h = Done (tt, <[l := f c]> h).
Proof. simpl. by intros ->. Qed.

Lemma ld_bnd {A B} (f : cell → A) (l : loc) (k : A → M _ B) (h : links) c :
  h !! l = Some c → bnd (ld f (Some l)) k h = k (f c) h.
Proof. intros. by apply bnd_done, ld_run. Qed.

Lemma st_bnd {B} f (l : loc) (k : unit → M _ B) (h : links) c :
  h !! l = Some c → bnd (st f (Some l)) k h = k tt (<[l := f c]> h).
Proof. intros. by apply bnd_done, st_run. Qed.

(** Solve a lookup in a heap written as nested updates. *)
Ltac addr_ne := first [assumption | apply not_eq_sym; assumption].
Ltac lkp :=
  repeat first
    [ rewrite lookup_insert_eq
    | rewrite lookup_insert_ne by addr_ne ];
  first [eassumption | reflexivity].

(** Run the loads and stores at the head of the code. *)
Ltac mstep :=
  first
    [ erewrite ld_bnd by lkp
    | erewrite st_bnd by lkp
    | erewrite ld_run by lkp
    | erewrite st_run by lkp
    | rewrite bnd_assoc
    | rewrite ret_bnd
    | rewrite decide_True by congruence
    | rewrite decide_False by congruence
    | progress cbn [nonnull negb andb orb] ];
  cbn [w0 w1 w2 col set_w0 set_w1 set_w2 set_col].
Ltac msteps := repeat mstep.

(** Stores as updates in place, for code whose cells are known field by field. *)
Lemma st_alter f (l : loc) (h : links) :
  is_Some (h !! l) → st f (Some l) h = Done (tt, alter f l h).
Proof.
  intros [c Hc]. rewrite (st_run _ _ _ c Hc). do 2 f_equal.
  apply map_eq. intros i. rewrite lookup_insert, lookup_alter.
  case_decide; simplify_map_eq; done.
Qed.

Lemma alter_is_Some (f : cell → cell) (l m : loc) (h : links) :
  is_Some (h !! m) → is_Some (alter f l h !! m).
Proof. by rewrite lookup_alter_is_Some. Qed.

Lemma alter_out (f : cell → cell) (l m : loc) (h : links) :
  l ≠ m → alter f l h !! m = h !! m.
Proof. apply lookup_alter_ne. Qed.
#[export] Hint Resolve alter_is_Some alter_out : kernel.
