(* ===== verification/Dlist.v ===== *)
(** list.h: the intrusive circular list of the kernel. *)
From S2P Require Export Mem.

Definition list_init (head : ptr) : M (gmap positive cell) unit :=
  st (set_next head) head ;;;
  st (set_prev head) head.

Definition list_empty (head : ptr) : M (gmap positive cell) bool :=
  let* n := ld next head in
  ret (bool_decide (n = head)).

Definition list_add_tail (head entry : ptr) : M (gmap positive cell) unit :=
  let* e := list_empty head in
  if e then
    st (set_next entry) head ;;;
    st (set_prev entry) head ;;;
    st (set_prev head) entry ;;;
    st (set_next head) entry
  else
    let* hp := ld prev head in
    let* hpn := ld next hp in
    st (set_prev hpn) entry ;;;
    st (set_next head) entry ;;;
    let* hp := ld prev head in
    st (set_next entry) hp.

Definition list_add_list (head entry : ptr) : M (gmap positive cell) unit :=
  let* tmp := ld prev head in
  st (set_next entry) tmp ;;;
  st (set_next head) entry ;;;
  st (set_prev tmp) entry.

Definition list_add_front (head entry : ptr) : M (gmap positive cell) unit :=
  let* e := list_empty head in
  if e then
    st (set_next entry) head ;;;
    st (set_prev entry) head ;;;
    st (set_prev head) entry ;;;
    st (set_next head) entry
  else
    st (set_prev head) entry ;;;
    let* hn := ld next head in
    st (set_next hn) entry ;;;
    st (set_next entry) head.

Definition list_delete (entry : ptr) : M (gmap positive cell) unit :=
  let* p := ld prev entry in
  let* n := ld next entry in
  st (set_next n) p ;;;
  let* n := ld next entry in
  let* p := ld prev entry in
  st (set_prev p) n.

(** ** Fields of list nodes *)

Definition nxt (h : links) (a : loc) : option ptr := next <$> h !! a.
Definition prv (h : links) (a : loc) : option ptr := prev <$> h !! a.

Lemma nxt_is_Some h a p : nxt h a = Some p → is_Some (h !! a).
Proof. unfold nxt. destruct (h !! a); naive_solver. Qed.
Lemma prv_is_Some h a p : prv h a = Some p → is_Some (h !! a).
Proof. unfold prv. destruct (h !! a); naive_solver. Qed.
#[export] Hint Resolve nxt_is_Some prv_is_Some : kernel.

Lemma nxt_alter_next h a b p :
  nxt (alter (set_next p) a h) b =
  if decide (a = b) then (λ _, p) <$> nxt h b else nxt h b.
Proof. unfold nxt. rewrite lookup_alter. case_decide; [|done]. subst. by destruct (h !! b). Qed.
Lemma nxt_alter_prev h a b p : nxt (alter (set_prev p) a h) b = nxt h b.
Proof. unfold nxt. rewrite lookup_alter. case_decide; [|done]. subst. by destruct (h !! b). Qed.
Lemma prv_alter_prev h a b p :
  prv (alter (set_prev p) a h) b =
  if decide (a = b) then (λ _, p) <$> prv h b else prv h b.
Proof. unfold prv. rewrite lookup_alter. case_decide; [|done]. subst. by destruct (h !! b). Qed.
Lemma prv_alter_next h a b p : prv (alter (set_next p) a h) b = prv h b.
Proof. unfold prv. rewrite lookup_alter. case_decide; [|done]. subst. by destruct (h !! b). Qed.
Create Rewrite HintDb fields.
#[export] Hint Rewrite nxt_alter_next nxt_alter_prev prv_alter_prev prv_alter_next
  : fields.

Lemma ld_next_bnd {B} a p (k : ptr → M (gmap positive cell) B) h :
  nxt h a = Some p → bnd (ld next (Some a)) k h = k p h.
Proof.
  unfold nxt. destruct (h !! a) eqn:E; [|done]. intros [= <-]. by apply ld_bnd.
Qed.
Lemma ld_prev_bnd {B} a p (k : ptr → M (gmap positive cell) B) h :
  prv h a = Some p → bnd (ld prev (Some a)) k h = k p h.
Proof.
  unfold prv. destruct (h !! a) eqn:E; [|done]. intros [= <-]. by apply ld_bnd.
Qed.
Lemma ld_prev_run h (a : loc) p : prv h a = Some p → ld prev (Some a) h = Done (p, h).
Proof.
  unfold prv. destruct (h !! a) as [c|] eqn:Ec; [|done]. simpl. intros [= <-].
  by rewrite Ec.
Qed.
Lemma ld_next_run h (a : loc) p : nxt h a = Some p → ld next (Some a) h = Done (p, h).
Proof.
  unfold nxt. destruct (h !! a) as [c|] eqn:Ec; [|done]. simpl. intros [= <-].
  by rewrite Ec.
Qed.
Lemma st_alter_bnd {B} f a (k : unit → M (gmap positive cell) B) h :
  is_Some (h !! a) → bnd (st f (Some a)) k h = k tt (alter f a h).
Proof. intros. by apply bnd_done, st_alter. Qed.

(** Evaluate field lookups after stores. *)
Ltac fields :=
  autorewrite with fields;
  repeat (case_decide; simplify_eq; try congruence);
  simpl; eauto with kernel.
(** Run one list instruction. *)
Ltac lstep :=
  first
    [ erewrite ld_next_bnd by (fields; fail)
    | erewrite ld_prev_bnd by (fields; fail)
    | erewrite st_alter_bnd by (eauto 8 with kernel; fail)
    | erewrite st_alter by (eauto 8 with kernel; fail)
    | rewrite bnd_assoc
    | rewrite ret_bnd ].

(** ** Well-formed lists *)

(** Forward chain: following [next] from [a] visits [xs] and then [b]. *)
Fixpoint fseg (h : links) (a : loc) (xs : list loc) (b : loc) : Prop :=
  match xs with
  | [] => nxt h a = Some (Some b)
  | x :: xs => nxt h a = Some (Some x) ∧ fseg h x xs b
  end.

(** Backward chain: the [prev] of each of [xs] and of [b] is the one before. *)
Fixpoint bseg (h : links) (a : loc) (xs : list loc) (b : loc) : Prop :=
  match xs with
  | [] => prv h b = Some (Some a)
  | x :: xs => prv h x = Some (Some a) ∧ bseg h x xs b
  end.

(** [head] is the head of a circular doubly linked list holding [xs]. *)
Definition dlist (h : links) (head : loc) (xs : list loc) : Prop :=
  NoDup (head :: xs) ∧ fseg h head xs head ∧ bseg h head xs head.

(** Only the forward chain is what it should be. *)
Definition flist (h : links) (head : loc) (xs : list loc) : Prop :=
  NoDup (head :: xs) ∧ fseg h head xs head.

(** The last node before [b] on a chain from [a] through [xs]. *)
Definition lastof (a : loc) (xs : list loc) : loc := default a (last xs).
Definition firstof (xs : list loc) (b : loc) : loc := default b (hd_error xs).

Lemma lastof_snoc a xs x : lastof a (xs ++ [x]) = x.
Proof. unfold lastof. by rewrite last_snoc. Qed.
Lemma lastof_cons a x xs : lastof a (x :: xs) = lastof x xs.
Proof.
  unfold lastof. destruct xs as [|y xs]; [done|]. rewrite last_cons_cons.
  by destruct (last (y :: xs)) eqn:E; [|apply last_None in E].
Qed.
Lemma lastof_in a xs : lastof a xs ∈ a :: xs.
Proof.
  revert a. induction xs as [|x xs IH]; intros a; [by left|].
  rewrite lastof_cons. right. apply IH.
Qed.

Lemma fseg_app h a xs x ys b :
  fseg h a (xs ++ x :: ys) b ↔ fseg h a xs x ∧ fseg h x ys b.
Proof. revert a. induction xs as [|y xs IH]; intros a; simpl; [done|]. rewrite IH. tauto. Qed.
Lemma bseg_app h a xs x ys b :
  bseg h a (xs ++ x :: ys) b ↔ bseg h a xs x ∧ bseg h x ys b.
Proof. revert a. induction xs as [|y xs IH]; intros a; simpl; [done|]. rewrite IH. tauto. Qed.

Lemma fseg_ext h h' a xs b :
  (∀ y, y ∈ a :: xs → nxt h' y = nxt h y) → fseg h a xs b → fseg h' a xs b.
Proof.
  revert a. induction xs as [|x xs IH]; simpl; intros a E.
  - intros <-. apply E. set_solver.
  - intros [H1 H2]. split; [rewrite <- H1; apply E; set_solver|].
    apply IH; [|done]. intros y Hy. apply E. set_solver.
Qed.
Lemma bseg_ext h h' a xs b :
  (∀ y, y ∈ xs ++ [b] → prv h' y = prv h y) → bseg h a xs b → bseg h' a xs b.
Proof.
  revert a. induction xs as [|x xs IH]; simpl; intros a E.
  - intros <-. apply E. set_solver.
  - intros [H1 H2]. split; [rewrite <- H1; apply E; set_solver|].
    apply IH; [|done]. intros y Hy. apply E. set_solver.
Qed.

(** The last [next] and the first [prev] of a chain, and moving its ends. *)
Lemma fseg_first h a xs b : fseg h a xs b → nxt h a = Some (Some (firstof xs b)).
Proof. destruct xs; simpl; naive_solver. Qed.
Lemma fseg_last h a xs b : fseg h a xs b → nxt h (lastof a xs) = Some (Some b).
Proof.
  revert a. induction xs as [|x xs IH]; simpl; intros a; [done|].
  intros [_ ?]. rewrite lastof_cons. by apply IH.
Qed.
Lemma bseg_last h a xs b : bseg h a xs b → prv h b = Some (Some (lastof a xs)).
Proof.
  revert a. induction xs as [|x xs IH]; simpl; intros a; [done|].
  intros [_ ?]. rewrite lastof_cons. by apply IH.
Qed.
Lemma fseg_redirect h h' a xs b b' :
  fseg h a xs b → NoDup (a :: xs) →
  nxt h' (lastof a xs) = Some (Some b') →
  (∀ y, y ∈ a :: xs → y ≠ lastof a xs → nxt h' y = nxt h y) →
  fseg h' a xs b'.
Proof.
  revert a. induction xs as [|x xs IH]; simpl; intros a; [done|].
  intros [H1 H2] Hnd Hl E. apply NoDup_cons in Hnd as [Ha Hnd].
  rewrite lastof_cons in Hl, E. pose proof (lastof_in x xs). split.
  - rewrite <- H1. apply E; set_solver.
  - apply IH; [done..|]. intros y ??. apply E; [set_solver|done].
Qed.
Lemma bseg_redirect h h' a a' xs b :
  bseg h a xs b → NoDup (xs ++ [b]) →
  prv h' (firstof xs b) = Some (Some a') →
  (∀ y, y ∈ xs ++ [b] → y ≠ firstof xs b → prv h' y = prv h y) →
  bseg h' a' xs b.
Proof.
  destruct xs as [|x xs]; simpl; [done|]. unfold firstof; simpl.
  intros [H1 H2] Hnd Hf E. apply NoDup_cons in Hnd as [Hx _]. split; [done|].
  eapply bseg_ext; [|done]. intros y Hy. apply E; set_solver.
Qed.

(** Joining two chains over the node between them. *)
Lemma fseg_join h h' a xs x ys b :
  fseg h a xs x → fseg h x ys b → NoDup (a :: xs ++ ys) →
  nxt h' (lastof a xs) = Some (Some (firstof ys b)) →
  (∀ y, y ∈ a :: xs ++ ys → y ≠ lastof a xs → nxt h' y = nxt h y) →
  fseg h' a (xs ++ ys) b.
Proof.
  intros H1 H2 Hnd Hl E. pose proof (lastof_in a xs) as Hin.
  assert (NoDup (a :: xs)) by (rewrite app_comm_cons in Hnd; by apply NoDup_app in Hnd as [? _]).
  destruct ys as [|y ys]; simpl in *.
  - rewrite app_nil_r in *. eapply fseg_redirect; [done..|]. naive_solver.
  - apply fseg_app. split.
    + eapply fseg_redirect; [done..|]. intros z Hz Hn. apply E; set_solver.
    + destruct H2 as [_ H2]. eapply fseg_ext; [|done]. intros z Hz.
      rewrite app_comm_cons in Hnd. apply NoDup_app in Hnd as (_ & Hd & _).
      apply E; [set_solver|]. intros ->. by apply (Hd _ Hin).
Qed.

Lemma bseg_join h h' a xs x ys b :
  bseg h a xs x → bseg h x ys b → NoDup (xs ++ ys ++ [b]) →
  prv h' (firstof ys b) = Some (Some (lastof a xs)) →
  (∀ y, y ∈ xs ++ ys ++ [b] → y ≠ firstof ys b → prv h' y = prv h y) →
  bseg h' a (xs ++ ys) b.
Proof.
  intros H1 H2 Hnd Hl E. apply NoDup_app in Hnd as (_ & Hd & Hnd).
  assert (firstof ys b ∈ ys ++ [b]) as Hin by (destruct ys; set_solver).
  assert (∀ z, z ∈ xs → prv h' z = prv h z) as Exs.
  { intros z Hz. apply E; [set_solver|]. intros ->. by apply (Hd _ Hz). }
  destruct ys as [|y ys]; simpl in *; unfold firstof in *; simpl in *.
  - rewrite app_nil_r. clear E Hd Hnd H2. revert a H1 Hl.
    induction xs as [|z xs IH]; simpl; intros a H1 Hl; [done|]. split.
    + rewrite Exs; [naive_solver|set_solver].
    + rewrite lastof_cons in Hl. apply IH; [set_solver|naive_solver|done].
  - apply bseg_app. split.
    + clear E Hd Hnd H2. revert a H1 Hl.
      induction xs as [|z xs IH]; simpl; intros a H1 Hl; [done|]. split.
      * rewrite Exs; [naive_solver|set_solver].
      * rewrite lastof_cons in Hl. apply IH; [set_solver|naive_solver|done].
    + apply NoDup_cons in Hnd as [Hy _]. destruct H2 as [_ H2].
      eapply bseg_ext; [|done]. intros z Hz. apply E; set_solver.
Qed.

(** ** Functional behaviour *)

Lemma list_init_run h (head : loc) :
  is_Some (h !! head) →
  list_init (Some head) h =
    Done (tt, alter (set_prev (Some head)) head (alter (set_next (Some head)) head h)).
Proof. intros H. unfold list_init. by repeat lstep. Qed.

Lemma list_init_dlist h (head : loc) :
  is_Some (h !! head) →
  ∃ h', list_init (Some head) h = Done (tt, h') ∧ dlist h' head [] ∧
        (∀ l, l ≠ head → h' !! l = h !! l).
Proof.
  intros H. eexists. split; [by apply list_init_run|]. split.
  - destruct H as [c Hc]. split; [apply NoDup_singleton|].
    simpl; split; fields; unfold nxt, prv; by rewrite Hc.
  - intros l Hl. by rewrite !alter_out by done.
Qed.

Lemma list_empty_run h head n :
  nxt h head = Some n →
  list_empty (Some head) h = Done (bool_decide (n = Some head), h).
Proof. intros H. unfold list_empty. by lstep. Qed.

Lemma list_empty_dlist h head xs :
  flist h head xs →
  list_empty (Some head) h = Done (bool_decide (xs = []), h).
Proof.
  intros [Hnd Hf]. erewrite list_empty_run by by eapply fseg_first.
  do 2 f_equal. apply bool_decide_ext. destruct xs; simpl; [done|].
  apply NoDup_cons in Hnd as [Hx _]. set_solver.
Qed.

Lemma list_delete_dlist h head xs x ys :
  dlist h head (xs ++ x :: ys) →
  ∃ h', list_delete (Some x) h = Done (tt, h') ∧ dlist h' head (xs ++ ys) ∧
        (∀ l, l ∉ head :: xs ++ ys → h' !! l = h !! l).
Proof.
  intros (Hnd & Hf & Hb).
  apply fseg_app in Hf as [Hf1 Hf2]. apply bseg_app in Hb as [Hb1 Hb2].
  pose proof (bseg_last _ _ _ _ Hb1) as Hp. pose proof (fseg_first _ _ _ _ Hf2) as Hn.
  pose proof (fseg_last _ _ _ _ Hf1) as Hpn.
  assert (Hnp : ∃ q, prv h (firstof ys head) = Some q).
  { unfold firstof. destruct ys; simpl in *; naive_solver. }
  destruct Hnp as [q Hnp].
  assert (Hpin : lastof head xs ∈ head :: xs) by apply lastof_in.
  assert (Hnin : firstof ys head ∈ head :: ys) by (destruct ys; set_solver).
  apply NoDup_cons in Hnd as [Hh Hnd]. apply NoDup_app in Hnd as (N1 & N2 & N3).
  apply NoDup_cons in N3 as [N3 N4].
  assert (NoDup (xs ++ ys)) by (apply NoDup_app; set_solver).
  assert (head ∉ xs ++ ys) by set_solver.
  assert (lastof head xs ≠ x ∧ firstof ys head ≠ x) as [Hxp Hxn] by set_solver.
  eexists. split; [unfold list_delete; by repeat lstep|]. unfold dlist; split_and!.
  - apply NoDup_cons; set_solver.
  - eapply fseg_join; [done..|by apply NoDup_cons| |]; intros; fields.
    by rewrite Hpn.
  - eapply bseg_join; [done..| | |]; intros; fields; [|by rewrite Hnp].
    rewrite app_assoc. apply NoDup_app. split_and!; [done|set_solver|apply NoDup_singleton].
  - intros l Hl. rewrite !alter_out; set_solver.
Qed.

(** A circular list may be entered at any of its nodes. *)
Lemma fseg_rotate h head xs l ys :
  fseg h head (xs ++ l :: ys) head ↔ fseg h l (ys ++ head :: xs) l.
Proof. rewrite !fseg_app. tauto. Qed.
Lemma bseg_rotate h head xs l ys :
  bseg h head (xs ++ l :: ys) head ↔ bseg h l (ys ++ head :: xs) l.
Proof. rewrite !bseg_app. tauto. Qed.

Lemma fseg_alloc h a xs b x : fseg h a xs b → x ∈ a :: xs → is_Some (h !! x).
Proof.
  revert a. induction xs as [|y xs IH]; intros a; simpl.
  - intros Hf ->%list_elem_of_singleton. eauto with kernel.
  - intros [Hf Hx] [->|H]%elem_of_cons; [eauto with kernel|by apply (IH y)].
Qed.

(** A list depends on its own cells only. *)
Lemma dlist_frame h h' L xs :
  (∀ x, x ∈ L :: xs → h' !! x = h !! x) → dlist h L xs → dlist h' L xs.
Proof.
  intros E (Hnd & Hf & Hb). split_and!; [done|eapply fseg_ext; [|done]|eapply bseg_ext; [|done]];
    intros x Hx; unfold nxt, prv; rewrite E; set_solver.
Qed.

Lemma dlist_rotate h head xs l ys :
  dlist h head (xs ++ l :: ys) → dlist h l (ys ++ head :: xs).
Proof.
  intros (Hnd & Hf & Hb). split_and!; [|by apply fseg_rotate|by apply bseg_rotate].
  assert (l :: ys ++ head :: xs ≡ₚ head :: xs ++ l :: ys) as ->; [|done].
  rewrite <- !Permutation_middle, (Permutation_app_comm ys). apply perm_swap.
Qed.

Lemma list_add_tail_empty h head (e : loc) :
  dlist h head [] → is_Some (h !! e) → e ≠ head →
  ∃ h', list_add_tail (Some head) (Some e) h = Done (tt, h') ∧ dlist h' head [e] ∧
        (∀ l, l ∉ [head; e] → h' !! l = h !! l).
Proof.
  intros (Hnd & Hf & Hb) He Hne. simpl in *. unfold list_add_tail.
  erewrite bnd_done by by eapply list_empty_run. rewrite bool_decide_true by done.
  assert (is_Some (h !! head)) by eauto with kernel.
  assert (NoDup [head; e]) by (apply NoDup_cons; split; [set_solver|apply NoDup_singleton]).
  destruct He as [ce He].
  eexists. split; [by repeat lstep|]. unfold dlist; split_and!; simpl; fields.
  - split; fields; [by rewrite Hf|]. unfold nxt. by rewrite He.
  - split; fields; [|by rewrite Hb]. unfold prv. by rewrite He.
  - intros l Hl. rewrite !alter_out; set_solver.
Qed.

(** On a non-empty list [list_add_tail] takes [head->prev->next] for the last
    node and leaves [head->prev] alone: the entry is chained after the node
    [head->prev] names, dropping whatever ([ys]) was chained there. *)
Lemma list_add_tail_stale h head xs ys (e : loc) :
  xs ≠ [] → NoDup (head :: xs ++ [e]) →
  fseg h head (xs ++ ys) head → prv h head = Some (Some (lastof head xs)) →
  is_Some (h !! e) →
  ∃ h', list_add_tail (Some head) (Some e) h = Done (tt, h') ∧
        fseg h' head (xs ++ [e]) head ∧
        prv h' head = Some (Some (lastof head xs)) ∧
        (prv h' e = Some (Some (firstof ys head)) ∧
         prv h' (lastof head xs) = prv h (lastof head xs)) ∧
        (∀ l, l ∉ [e; lastof head xs] → h' !! l = h !! l).
Proof.
  intros Hxs Hnd Hf Hp He. unfold list_add_tail.
  assert (fseg h head xs (firstof ys head)) as Hf1.
  { destruct ys; [by rewrite app_nil_r in Hf|by apply fseg_app in Hf as [? _]]. }
  pose proof (fseg_first _ _ _ _ Hf1) as Hn. pose proof (fseg_last _ _ _ _ Hf1) as Hl.
  assert (Hlin : lastof head xs ∈ xs).
  { destruct xs as [|x xs]; [done|]. rewrite lastof_cons. apply lastof_in. }
  rewrite app_comm_cons in Hnd. apply NoDup_app in Hnd as (Hnd & Hde & _).
  pose proof Hnd as [Hh _]%NoDup_cons.
  assert (He' : e ∉ head :: xs) by (intros Hin; apply (Hde e Hin); by left).
  apply not_elem_of_cons in He' as [Heh Hex].
  assert (e ≠ lastof head xs ∧ head ≠ lastof head xs) as [? ?] by (split; congruence).
  erewrite bnd_done by by eapply list_empty_run.
  rewrite bool_decide_false
    by (clear -Hxs Hh; destruct xs; [done|]; unfold firstof; simpl; set_solver).
  eexists. split; [by repeat lstep|]. split_and!.
  - apply fseg_app. split; [eapply fseg_redirect; [done..| |]|].
    + fields. by rewrite Hl.
    + intros y Hy Hyl. fields. set_solver.
    + simpl. fields. destruct He as [ce He]. unfold nxt. by rewrite He.
  - fields.
  - fields. destruct He as [ce He]. unfold prv. by rewrite He.
  - fields.
  - intros l Hl'. rewrite !alter_out; set_solver.
Qed.

(** Both cases: the entry is linked behind the node the head's [prev] names. *)
Lemma list_add_tail_into h head xs ys (e : loc) :
  fseg h head (xs ++ ys) head → prv h head = Some (Some (lastof head xs)) →
  (xs = [] → ys = []) → NoDup (head :: xs ++ [e]) → is_Some (h !! e) →
  ∃ h', list_add_tail (Some head) (Some e) h = Done (tt, h') ∧
        flist h' head (xs ++ [e]) ∧ (xs = [] → dlist h' head [e]).
Proof.
  intros Hf Hp Hys Hnd He. destruct (decide (xs = [])) as [->|Hne].
  - rewrite Hys in Hf by done. destruct (list_add_tail_empty h head e) as (h' & E & Hd & _); [|done| |].
    + split_and!; [apply NoDup_singleton|done|done].
    + intros ->. by apply NoDup_cons in Hnd as [[]%not_elem_of_cons _].
    + exists h'. split_and!; [done| |done]. destruct Hd as (? & ? & _). by split.
  - destruct (list_add_tail_stale h head xs ys e) as (h' & E & Hf' & _); [done..|].
    by exists h'.
Qed.

Fixpoint list_add_tails (head : ptr) (es : list loc) : M (gmap positive cell) unit :=
  match es with
  | [] => ret tt
  | e :: es => list_add_tail head (Some e) ;;; list_add_tails head es
  end.

Lemma list_add_tails_stale h head xs ys es (e : loc) :
  xs ≠ [] → NoDup (head :: xs ++ es ++ [e]) →
  fseg h head (xs ++ ys) head → prv h head = Some (Some (lastof head xs)) →
  Forall (λ l, is_Some (h !! l)) (es ++ [e]) →
  ∃ h', list_add_tails (Some head) (es ++ [e]) h = Done (tt, h') ∧
        fseg h' head (xs ++ [e]) head ∧ prv h' head = Some (Some (lastof head xs)).
Proof.
  intros Hxs. revert h ys. induction es as [|e' es IH]; simpl; intros h ys Hnd Hf Hp Hal.
  - apply Forall_cons in Hal as [Hal _].
    destruct (list_add_tail_stale h head xs ys e) as (h' & Hrun & ? & ? & _); [done..|].
    exists h'. by rewrite (bnd_done _ _ _ _ _ Hrun).
  - apply Forall_cons in Hal as [He' Hal].
    destruct (list_add_tail_stale h head xs ys e') as (h' & Hrun & ? & ? & _ & Ho); [done| |done..|].
    { eapply sublist_NoDup; [exact Hnd|]. apply sublist_skip, sublist_app; [done|].
      apply sublist_skip, sublist_nil_l. }
    edestruct (IH h') as (h'' & Hrun' & ?).
    + eapply sublist_NoDup; [exact Hnd|]. apply sublist_skip, sublist_app; [done|].
      by apply sublist_cons.
    + done.
    + done.
    + apply Forall_forall. intros l Hl. rewrite Forall_forall in Hal.
      destruct (decide (l ∈ [e'; lastof head xs])) as [Hin|Hn]; [|rewrite Ho; auto].
      exfalso. apply NoDup_cons in Hnd as [_ Hnd]. apply NoDup_app in Hnd as (_&Hd&Hnd).
      apply NoDup_cons in Hnd as [? _].
      assert (lastof head xs ∈ xs).
      { destruct xs as [|x xs]; [done|]. rewrite lastof_cons. apply lastof_in. }
      set_solver.
    + exists h''. by rewrite (bnd_done _ _ _ _ _ Hrun).
Qed.

Lemma list_add_front_empty h head (e : loc) :
  dlist h head [] → is_Some (h !! e) → e ≠ head →
  ∃ h', list_add_front (Some head) (Some e) h = Done (tt, h') ∧ dlist h' head [e] ∧
        (∀ l, l ∉ [head; e] → h' !! l = h !! l).
Proof.
  intros (Hnd & Hf & Hb) He Hne. simpl in *. unfold list_add_front.
  erewrite bnd_done by by eapply list_empty_run. rewrite bool_decide_true by done.
  assert (is_Some (h !! head)) by eauto with kernel.
  assert (NoDup [head; e]) by (apply NoDup_cons; split; [set_solver|apply NoDup_singleton]).
  destruct He as [ce He].
  eexists. split; [by repeat lstep|]. unfold dlist; split_and!; simpl; fields.
  - split; fields; [by rewrite Hf|]. unfold nxt. by rewrite He.
  - split; fields; [|by rewrite Hb]. unfold prv. by rewrite He.
  - intros l Hl. rewrite !alter_out; set_solver.
Qed.

(** On a non-empty list [list_add_front] builds the right forward chain, but the
    old first node keeps [head] as its [prev]. *)
Lemma list_add_front_nonempty h head x xs (e : loc) :
  dlist h head (x :: xs) → is_Some (h !! e) → e ∉ head :: x :: xs →
  ∃ h', list_add_front (Some head) (Some e) h = Done (tt, h') ∧
        flist h' head (e :: x :: xs) ∧
        prv h' e = Some (Some head) ∧ prv h' x = Some (Some head) ∧
        bseg h' x xs head ∧
        (∀ l, l ∉ [head; e] → h' !! l = h !! l).
Proof.
  intros (Hnd & Hf & Hb) He Hne. unfold list_add_front.
  pose proof (fseg_first _ _ _ _ Hf) as Hn. unfold firstof in Hn; simpl in Hn.
  pose proof Hnd as [Hhx _]%NoDup_cons.
  assert (e ≠ head ∧ e ≠ x ∧ head ≠ x) as (?&?&?) by set_solver.
  erewrite bnd_done by by eapply list_empty_run.
  rewrite bool_decide_false by congruence.
  destruct Hb as [Hb1 Hb2]. destruct Hf as [Hf1 Hf2].
  assert (is_Some (h !! head)) by eauto with kernel. destruct He as [ce He].
  eexists. split; [by repeat lstep|]. unfold flist; split_and!; simpl.
  - apply NoDup_cons in Hnd as [? Hnd]. apply NoDup_cons. split; [set_solver|].
    apply NoDup_cons. split; [set_solver|done].
  - split_and!; [fields; by rewrite Hf1|fields; unfold nxt; by rewrite He|].
    eapply fseg_ext; [|done]. intros y Hy. fields; set_solver.
  - fields. unfold prv. by rewrite He.
  - by fields.
  - eapply bseg_ext; [|done]. intros y Hy. fields. set_solver.
  - intros l Hl. rewrite !alter_out; set_solver.
Qed.

(** [list_add_list] chains the other list's head in place of its nodes. *)
Lemma list_add_list_run h head xs entry ys :
  dlist h head xs → dlist h entry ys → NoDup (head :: xs ++ entry :: ys) →
  ∃ h', list_add_list (Some head) (Some entry) h = Done (tt, h') ∧
        flist h' head (xs ++ [entry]) ∧ prv h' head = prv h head ∧
        prv h' entry = Some (Some (lastof head xs)) ∧
        (∀ l, l ∉ [entry; lastof head xs] → h' !! l = h !! l).
Proof.
  intros (_ & Hf & Hb) (_ & Hf' & _) Hnd. unfold list_add_list.
  pose proof (bseg_last _ _ _ _ Hb) as Hp. pose proof (fseg_last _ _ _ _ Hf) as Hl.
  pose proof (fseg_first _ _ _ _ Hf') as He. pose proof (lastof_in head xs) as Hin.
  rewrite app_comm_cons in Hnd. pose proof Hnd as (Hnd1 & Hd & _)%NoDup_app.
  assert (entry ≠ head ∧ entry ≠ lastof head xs) as (?&?) by set_solver.
  eexists. split; [by repeat lstep|]. unfold flist; split_and!.
  - eapply sublist_NoDup; [exact Hnd|]. apply sublist_skip, sublist_app; [done|].
    apply sublist_skip, sublist_nil_l.
  - apply fseg_app. split; [eapply fseg_redirect; [done..| |]|].
    + fields. by rewrite Hl.
    + intros y Hy Hyl. fields. set_solver.
    + simpl. fields. by rewrite He.
  - fields.
  - fields. assert (is_Some (h !! entry)) as [c Hc] by eauto with kernel.
    unfold prv. by rewrite Hc.
  - intros l Hl'. rewrite !alter_out; set_solver.
Qed.
