(* ===== verification/RbTree.v ===== *)
(** rbtree.h and rbtree.c: the pointer code of the red-black tree. *)
From S2P Require Export Mem.

Abbreviation heap := (gmap positive cell) (only parsing).

Definition RB_RED : Z := 0.
Definition RB_BLACK : Z := 1.

(** A [struct rb_node **] names a word of a cell: the root's [rb_node], or a
    child field of a node. *)
Inductive slot : Type := SRoot | SLeft | SRight.
#[export] Instance slot_eq_dec : EqDecision slot.
Proof. solve_decision. Defined.
Record link : Type := Link { link_obj : ptr; link_slot : slot }.
#[export] Instance link_eq_dec : EqDecision link.
Proof. solve_decision. Defined.

Definition ld_link (l : link) : M heap ptr :=
  match link_slot l with
  | SRoot => ld rb_node (link_obj l)
  | SLeft => ld rb_left (link_obj l)
  | SRight => ld rb_right (link_obj l)
  end.
Definition st_link (v : ptr) (l : link) : M heap unit :=
  match link_slot l with
  | SRoot => st (set_rb_node v) (link_obj l)
  | SLeft => st (set_rb_left v) (link_obj l)
  | SRight => st (set_rb_right v) (link_obj l)
  end.

Definition rb_link_node (node parent : ptr) (lnk : link) : M heap unit :=
  st (set_rb_parent parent) node ;;;
  st (set_col RB_RED) node ;;;
  st (set_rb_right None) node ;;;
  st (set_rb_left None) node ;;;
  st_link node lnk.

Definition __rb_rotate_left (node root : ptr) : M heap unit :=
  let* rgt := ld rb_right node in
  let* rl := ld rb_left rgt in
  st (set_rb_right rl) node ;;;
  (if nonnull rl then
     let* rl := ld rb_left rgt in
     st (set_rb_parent node) rl
   else ret tt) ;;;
  st (set_rb_left node) rgt ;;;
  let* np := ld rb_parent node in
  st (set_rb_parent np) rgt ;;;
  (if nonnull np then
     let* p := ld rb_parent node in
     let* pl := ld rb_left p in
     if decide (node = pl) then
       let* p := ld rb_parent node in
       st (set_rb_left rgt) p
     else
       let* p := ld rb_parent node in
       st (set_rb_right rgt) p
   else
     st (set_rb_node rgt) root) ;;;
  st (set_rb_parent rgt) node.

Definition __rb_rotate_right (node root : ptr) : M heap unit :=
  let* lft := ld rb_left node in
  let* lr := ld rb_right lft in
  st (set_rb_left lr) node ;;;
  (if nonnull lr then
     let* lr := ld rb_right lft in
     st (set_rb_parent node) lr
   else ret tt) ;;;
  st (set_rb_right node) lft ;;;
  let* np := ld rb_parent node in
  st (set_rb_parent np) lft ;;;
  (if nonnull np then
     let* p := ld rb_parent node in
     let* pr := ld rb_right p in
     if decide (node = pr) then
       let* p := ld rb_parent node in
       st (set_rb_right lft) p
     else
       let* p := ld rb_parent node in
       st (set_rb_left lft) p
   else
     st (set_rb_node lft) root) ;;;
  st (set_rb_parent lft) node.

(** [p && p->rb_color == RB_RED] *)
Definition is_red (p : ptr) : M heap bool :=
  if nonnull p then
    let* c := ld rb_color p in
    ret (c =? RB_RED)%Z
  else ret false.

(** [!p || p->rb_color == RB_BLACK] *)
Definition is_black (p : ptr) : M heap bool :=
  if nonnull p then
    let* c := ld rb_color p in
    ret (c =? RB_BLACK)%Z
  else ret true.

Fixpoint rb_insert_color_loop (fuel : nat) (node root : ptr) : M heap unit :=
  match fuel with
  | O => nofuel
  | S fuel =>
    let* parent := ld rb_parent node in
    let* red := is_red parent in
    if negb red then ret tt else
    let* gparent := ld rb_parent parent in
    let* gl := ld rb_left gparent in
    if decide (parent = gl) then
      let* uncle := ld rb_right gparent in
      let* ured := is_red uncle in
      if ured then
        st (set_col RB_BLACK) uncle ;;;
        st (set_col RB_BLACK) parent ;;;
        st (set_col RB_RED) gparent ;;;
        rb_insert_color_loop fuel gparent root
      else
        let* pr := ld rb_right parent in
        let* (node, parent) :=
          (if decide (pr = node) then
             __rb_rotate_left parent root ;;;
             ret (parent, node)
           else ret (node, parent)) in
        st (set_col RB_BLACK) parent ;;;
        st (set_col RB_RED) gparent ;;;
        __rb_rotate_right gparent root ;;;
        rb_insert_color_loop fuel node root
    else
      let* uncle := ld rb_left gparent in
      let* ured := is_red uncle in
      if ured then
        st (set_col RB_BLACK) uncle ;;;
        st (set_col RB_BLACK) parent ;;;
        st (set_col RB_RED) gparent ;;;
        rb_insert_color_loop fuel gparent root
      else
        let* pl := ld rb_left parent in
        let* (node, parent) :=
          (if decide (pl = node) then
             __rb_rotate_right parent root ;;;
             ret (parent, node)
           else ret (node, parent)) in
        st (set_col RB_BLACK) parent ;;;
        st (set_col RB_RED) gparent ;;;
        __rb_rotate_left gparent root ;;;
        rb_insert_color_loop fuel node root
  end.

(** Every loop of rbtree.c walks a path of distinct nodes, so the number of
    objects in memory bounds its iterations. *)
Definition objects (h : heap) : nat := S (S (size h)).

Definition rb_insert_color (node root : ptr) : M heap unit :=
  bounded objects (λ fuel, rb_insert_color_loop fuel node root) ;;;
  let* r := ld rb_node root in
  st (set_col RB_BLACK) r.

(** The rest of an iteration of [__rb_erase_color] once the sibling [other] of a
    left child is not red any more; [again] is the next iteration, and leaving
    the loop with [break] yields [root->rb_node]. *)
Definition erase_color_left (again : ptr → ptr → M heap ptr)
    (other parent root : ptr) : M heap ptr :=
  let* ol := ld rb_left other in
  let* olb := is_black ol in
  let* both :=
    (if olb then
       let* or := ld rb_right other in
       is_black or
     else ret false) in
  if both : bool then
    st (set_col RB_RED) other ;;;
    let node := parent in
    let* parent := ld rb_parent node in
    again node parent
  else
    let* or := ld rb_right other in
    let* orb := is_black or in
    let* other :=
      (if orb : bool then
         let* o_left := ld rb_left other in
         (if nonnull o_left then st (set_col RB_BLACK) o_left else ret tt) ;;;
         st (set_col RB_RED) other ;;;
         __rb_rotate_right other root ;;;
         ld rb_right parent
       else ret other) in
    let* pc := ld rb_color parent in
    st (set_col pc) other ;;;
    st (set_col RB_BLACK) parent ;;;
    let* or := ld rb_right other in
    (if nonnull or then st (set_col RB_BLACK) or else ret tt) ;;;
    __rb_rotate_left parent root ;;;
    ld rb_node root.

Definition erase_color_right (again : ptr → ptr → M heap ptr)
    (other parent root : ptr) : M heap ptr :=
  let* ol := ld rb_left other in
  let* olb := is_black ol in
  let* both :=
    (if olb then
       let* or := ld rb_right other in
       is_black or
     else ret false) in
  if both : bool then
    st (set_col RB_RED) other ;;;
    let node := parent in
    let* parent := ld rb_parent node in
    again node parent
  else
    let* ol := ld rb_left other in
    let* olb := is_black ol in
    let* other :=
      (if olb : bool then
         let* o_right := ld rb_right other in
         (if nonnull o_right then st (set_col RB_BLACK) o_right else ret tt) ;;;
         st (set_col RB_RED) other ;;;
         __rb_rotate_left other root ;;;
         ld rb_left parent
       else ret other) in
    let* pc := ld rb_color parent in
    st (set_col pc) other ;;;
    st (set_col RB_BLACK) parent ;;;
    let* ol := ld rb_left other in
    (if nonnull ol then st (set_col RB_BLACK) ol else ret tt) ;;;
    __rb_rotate_right parent root ;;;
    ld rb_node root.

(** The loop of [__rb_erase_color]; the result is [node] when it is left. *)
Fixpoint __rb_erase_color_loop (fuel : nat) (node parent root : ptr) : M heap ptr :=
  match fuel with
  | O => nofuel
  | S fuel =>
    let again node parent := __rb_erase_color_loop fuel node parent root in
    let* black := is_black node in
    let* r := ld rb_node root in
    if negb (black && bool_decide (node ≠ r)) then ret node else
    let* pl := ld rb_left parent in
    if decide (pl = node) then
      let* other := ld rb_right parent in
      let* oc := ld rb_color other in
      let* other :=
        (if (oc =? RB_RED)%Z then
           st (set_col RB_BLACK) other ;;;
           st (set_col RB_RED) parent ;;;
           __rb_rotate_left parent root ;;;
           ld rb_right parent
         else ret other) in
      erase_color_left again other parent root
    else
      let* other := ld rb_left parent in
      let* oc := ld rb_color other in
      let* other :=
        (if (oc =? RB_RED)%Z then
           st (set_col RB_BLACK) other ;;;
           st (set_col RB_RED) parent ;;;
           __rb_rotate_right parent root ;;;
           ld rb_left parent
         else ret other) in
      erase_color_right again other parent root
  end.

Definition __rb_erase_color (node parent root : ptr) : M heap unit :=
  let* node := bounded objects (λ fuel, __rb_erase_color_loop fuel node parent root) in
  if nonnull node then st (set_col RB_BLACK) node else ret tt.

(** [while ((left = node->rb_left)) node = left;] *)
Fixpoint go_left (fuel : nat) (node : ptr) : M heap ptr :=
  match fuel with
  | O => nofuel
  | S fuel =>
    let* lft := ld rb_left node in
    if nonnull lft then go_left fuel lft else ret node
  end.
Fixpoint go_right (fuel : nat) (node : ptr) : M heap ptr :=
  match fuel with
  | O => nofuel
  | S fuel =>
    let* rgt := ld rb_right node in
    if nonnull rgt then go_right fuel rgt else ret node
  end.

(** Put [child] where [node] hangs: below [parent], or at the root. *)
Definition replace_child (node child parent root : ptr) : M heap unit :=
  if nonnull parent then
    let* pl := ld rb_left parent in
    if decide (pl = node) then st (set_rb_left child) parent
    else st (set_rb_right child) parent
  else st (set_rb_node child) root.

Definition rb_erase (node root : ptr) : M heap unit :=
  let* nl := ld rb_left node in
  let* nr := ld rb_right node in
  let unlink (child : ptr) : M heap unit :=
    let* parent := ld rb_parent node in
    let* color := ld rb_color node in
    (if nonnull child then st (set_rb_parent parent) child else ret tt) ;;;
    replace_child node child parent root ;;;
    if (color =? RB_BLACK)%Z then __rb_erase_color child parent root else ret tt in
  match nl, nr with
  | None, _ => unlink nr
  | _, None => unlink nl
  | Some _, Some _ =>
    let old := node in
    let* node := ld rb_right node in
    let* node := bounded objects (λ fuel, go_left fuel node) in
    let* child := ld rb_right node in
    let* parent := ld rb_parent node in
    let* color := ld rb_color node in
    (if nonnull child then st (set_rb_parent parent) child else ret tt) ;;;
    replace_child node child parent root ;;;
    let* np := ld rb_parent node in
    let parent := if decide (np = old) then node else parent in
    let* op := ld rb_parent old in
    st (set_rb_parent op) node ;;;
    let* oc := ld rb_color old in
    st (set_col oc) node ;;;
    let* or := ld rb_right old in
    st (set_rb_right or) node ;;;
    let* ol := ld rb_left old in
    st (set_rb_left ol) node ;;;
    let* op := ld rb_parent old in
    replace_child old node op root ;;;
    let* ol := ld rb_left old in
    st (set_rb_parent node) ol ;;;
    let* or := ld rb_right old in
    (if nonnull or then st (set_rb_parent node) or else ret tt) ;;;
    if (color =? RB_BLACK)%Z then __rb_erase_color child parent root else ret tt
  end.

Definition rb_first (root : ptr) : M heap ptr :=
  let* n := ld rb_node root in
  if nonnull n then bounded objects (λ fuel, go_left fuel n) else ret None.

Definition rb_last (root : ptr) : M heap ptr :=
  let* n := ld rb_node root in
  if nonnull n then bounded objects (λ fuel, go_right fuel n) else ret None.

(** [while (node->rb_parent && node == node->rb_parent->rb_right)
       node = node->rb_parent;  return node->rb_parent;] *)
Fixpoint rb_next_up (fuel : nat) (node : ptr) : M heap ptr :=
  match fuel with
  | O => nofuel
  | S fuel =>
    let* p := ld rb_parent node in
    if nonnull p then
      let* pr := ld rb_right p in
      if decide (node = pr) then rb_next_up fuel p else ret p
    else ret p
  end.
Fixpoint rb_prev_up (fuel : nat) (node : ptr) : M heap ptr :=
  match fuel with
  | O => nofuel
  | S fuel =>
    let* p := ld rb_parent node in
    if nonnull p then
      let* pl := ld rb_left p in
      if decide (node = pl) then rb_prev_up fuel p else ret p
    else ret p
  end.

Definition rb_next (node : ptr) : M heap ptr :=
  let* nr := ld rb_right node in
  if nonnull nr then bounded objects (λ fuel, go_left fuel nr)
  else bounded objects (λ fuel, rb_next_up fuel node).

Definition rb_prev (node : ptr) : M heap ptr :=
  let* nl := ld rb_left node in
  if nonnull nl then bounded objects (λ fuel, go_right fuel nl)
  else bounded objects (λ fuel, rb_prev_up fuel node).

Definition rb_replace_node (victim newnode root : ptr) : M heap unit :=
  let* parent := ld rb_parent victim in
  (if nonnull parent then
     let* pl := ld rb_left parent in
     if decide (victim = pl) then st (set_rb_left newnode) parent
     else st (set_rb_right newnode) parent
   else st (set_rb_node newnode) root) ;;;
  let* vl := ld rb_left victim in
  (if nonnull vl then st (set_rb_parent newnode) vl else ret tt) ;;;
  let* vr := ld rb_right victim in
  (if nonnull vr then st (set_rb_parent newnode) vr else ret tt) ;;;
  let* c := ld id victim in
  st (λ _, c) newnode.
