(* ===== verification/RbSpec.v ===== *)
(** The red-black tree as a functional structure: trees, the path from a node
    to the root as a zipper, the recolouring and rotations of rbtree.c on them,
    and the proofs that they keep the sequence of nodes and the balance. *)
From S2P Require Export Prelude.

Inductive color : Type := Red | Black.
#[export] Instance color_eq_dec : EqDecision color.
Proof. solve_decision. Defined.

(** A tree of node addresses. *)
Inductive tree : Type :=
| Leaf
| Node (c : color) (l : tree) (a : loc) (r : tree).

(** A frame of the path to the root: the parent, of which the hole is the left
    ([FL]) or the right ([FR]) child, with its other subtree. *)
Inductive frame : Type :=
| FL (c : color) (a : loc) (r : tree)
| FR (c : color) (l : tree) (a : loc).
Abbreviation ctx := (list frame) (only parsing).

Definition plug1 (t : tree) (f : frame) : tree :=
  match f with FL c a r => Node c t a r | FR c l a => Node c l a t end.
Fixpoint plug (t : tree) (k : ctx) : tree :=
  match k with [] => t | f :: k => plug (plug1 t f) k end.

Fixpoint inorder (t : tree) : list loc :=
  match t with Leaf => [] | Node _ l a r => inorder l ++ a :: inorder r end.

(** Nodes left and right of the hole. *)
Fixpoint cl (k : ctx) : list loc :=
  match k with
  | [] => []
  | FL _ _ _ :: k => cl k
  | FR _ l a :: k => cl k ++ inorder l ++ [a]
  end.
Fixpoint cr (k : ctx) : list loc :=
  match k with
  | [] => []
  | FL _ a r :: k => a :: inorder r ++ cr k
  | FR _ _ _ :: k => cr k
  end.

Definition tcolor (t : tree) : color :=
  match t with Leaf => Black | Node c _ _ _ => c end.
Definition fcolor (f : frame) : color :=
  match f with FL c _ _ => c | FR c _ _ => c end.
(** The colour of the hole's parent; the root has none and must be black, as
    below a red parent. *)
Definition ccolor (k : ctx) : color :=
  match k with [] => Red | f :: _ => fcolor f end.

Definition set_black (t : tree) : tree :=
  match t with Leaf => Leaf | Node _ l a r => Node Black l a r end.

Definition rootp (t : tree) : ptr :=
  match t with Leaf => None | Node _ _ a _ => Some a end.
Definition faddr (f : frame) : loc := match f with FL _ a _ => a | FR _ _ a => a end.
Definition cpar (k : ctx) : ptr := match k with [] => None | f :: _ => Some (faddr f) end.

Lemma inorder_plug t k : inorder (plug t k) = cl k ++ inorder t ++ cr k.
Proof.
  revert t. induction k as [|[c a r|c l a] k IH]; intros t; simpl.
  - by rewrite app_nil_r.
  - rewrite IH. simpl. by rewrite <- !app_assoc.
  - rewrite IH. simpl. by rewrite <- !app_assoc.
Qed.
Lemma inorder_set_black t : inorder (set_black t) = inorder t.
Proof. by destruct t. Qed.
Lemma plug_app t k1 k2 : plug t (k1 ++ k2) = plug (plug t k1) k2.
Proof. revert t. induction k1; intros; simpl; auto. Qed.

(** ** Insertion: what [rb_insert_color] does to the red node [t] at [k] *)

Fixpoint ins_fix (t : tree) (k : ctx) : option tree :=
  match k with
  | [] => Some (set_black t)
  | f :: k1 =>
    match fcolor f, k1 with
    | Black, _ => Some (set_black (plug t k))
    | Red, [] => None
    | Red, FL gc g (Node Red ul u ur) :: k' =>
        ins_fix (Node Red (set_black (plug1 t f)) g (Node Black ul u ur)) k'
    | Red, FR gc (Node Red ul u ur) g :: k' =>
        ins_fix (Node Red (Node Black ul u ur) g (set_black (plug1 t f))) k'
    | Red, FL gc g u :: k' =>
        match f, t with
        | FL _ p s, _ => Some (set_black (plug (Node Black t p (Node Red s g u)) k'))
        | FR _ s p, Node tc tl a tr =>
            Some (set_black
              (plug (Node Black (Node Red s p tl) a (Node Red tr g u)) k'))
        | FR _ _ _, Leaf => None
        end
    | Red, FR gc u g :: k' =>
        match f, t with
        | FR _ s p, _ => Some (set_black (plug (Node Black (Node Red u g s) p t) k'))
        | FL _ p s, Node tc tl a tr =>
            Some (set_black
              (plug (Node Black (Node Red u g tl) a (Node Red tr p s)) k'))
        | FL _ _ _, Leaf => None
        end
    end
  end.

(** ** Deletion: what [__rb_erase_color] does to the subtree [t] at [k], which
    lacks one black node *)

Definition is_blk (t : tree) : bool := bool_decide (tcolor t = Black).

(** One iteration below a parent [p] of colour [pc], with sibling [s]: either
    the lack moves [Up], or a rotation repairs it and the loop ends ([Fin]). *)
Inductive verdict : Type := Up (t : tree) | Fin (t : tree).

Definition del_left (t : tree) (pc : color) (p : loc) (s : tree) : option verdict :=
  match s with
  | Leaf => None
  | Node _ sl sa sr =>
    if is_blk sl && is_blk sr then Some (Up (Node pc t p (Node Red sl sa sr)))
    else if is_blk sr then
      match sl with
      | Node _ sll b slr => Some (Fin (Node pc (Node Black t p sll) b (Node Black slr sa sr)))
      | Leaf => None
      end
    else Some (Fin (Node pc (Node Black t p sl) sa (set_black sr)))
  end.
Definition del_right (t : tree) (pc : color) (p : loc) (s : tree) : option verdict :=
  match s with
  | Leaf => None
  | Node _ sl sa sr =>
    if is_blk sl && is_blk sr then Some (Up (Node pc (Node Red sl sa sr) p t))
    else if is_blk sl then
      match sr with
      | Node _ srl b srr => Some (Fin (Node pc (Node Black sl sa srl) b (Node Black srr p t)))
      | Leaf => None
      end
    else Some (Fin (Node pc (set_black sl) sa (Node Black sr p t)))
  end.

Fixpoint del_fix (t : tree) (k : ctx) : option tree :=
  if decide (tcolor t = Red) then Some (plug (set_black t) k) else
  match k with
  | [] => Some (set_black t)
  | FL _ p (Node Red sl sa sr) :: k' =>
      match del_left t Red p sl with
      | Some (Up t') => Some (plug (set_black t') (FL Black sa sr :: k'))
      | Some (Fin t') => Some (set_black (plug t' (FL Black sa sr :: k')))
      | None => None
      end
  | FL pc p s :: k' =>
      match del_left t pc p s with
      | Some (Up t') => del_fix t' k'
      | Some (Fin t') => Some (set_black (plug t' k'))
      | None => None
      end
  | FR _ (Node Red sl sa sr) p :: k' =>
      match del_right t Red p sr with
      | Some (Up t') => Some (plug (set_black t') (FR Black sl sa :: k'))
      | Some (Fin t') => Some (set_black (plug t' (FR Black sl sa :: k')))
      | None => None
      end
  | FR pc s p :: k' =>
      match del_right t pc p s with
      | Some (Up t') => del_fix t' k'
      | Some (Fin t') => Some (set_black (plug t' k'))
      | None => None
      end
  end.

(** The leftmost node of a subtree, with its right subtree and the path to it. *)
Fixpoint leftmost (t : tree) (k : ctx) : option (color * loc * tree * ctx) :=
  match t with
  | Leaf => None
  | Node c Leaf a r => Some (c, a, r, k)
  | Node c l a r => leftmost l (FL c a r :: k)
  end.

(** A node of colour [c] leaves the tree; its only subtree [t] takes its place. *)
Definition unlink_at (c : color) (t : tree) (k : ctx) : option tree :=
  if decide (c = Black) then del_fix t k else Some (plug t k).

(** [rb_erase] of the node at the root of [Node c l a r], at [k]. *)
Definition erase_at (c : color) (l : tree) (a : loc) (r : tree) (k : ctx) : option tree :=
  match l, r with
  | Leaf, _ => unlink_at c r k
  | _, Leaf => unlink_at c l k
  | _, _ =>
    match leftmost r [] with
    | Some (yc, y, yr, kr) => unlink_at yc yr (kr ++ FR c l y :: k)
    | None => None
    end
  end.

(** ** The red-black invariant *)

(** [rbh t n]: every path of [t] has [n] black nodes and no red node has a red
    child. *)
Fixpoint rbh (t : tree) (n : nat) : Prop :=
  match t with
  | Leaf => n = 0
  | Node Red l _ r => rbh l n ∧ rbh r n ∧ tcolor l = Black ∧ tcolor r = Black
  | Node Black l _ r => match n with S m => rbh l m ∧ rbh r m | O => False end
  end.

(** A red-black tree: balanced, with a black root. *)
Definition rb_tree (t : tree) : Prop := tcolor t = Black ∧ ∃ n, rbh t n.

(** The context expects a subtree of black height [n]. *)
Fixpoint rbctx (k : ctx) (n : nat) : Prop :=
  match k with
  | [] => True
  | f :: k =>
    let s := match f with FL _ _ r => r | FR _ l _ => l end in
    rbh s n ∧
    match fcolor f with
    | Red => tcolor s = Black ∧ ccolor k = Black ∧ rbctx k n
    | Black => rbctx k (S n)
    end
  end.

(** [t] fits below [k]: a red node needs a black parent. *)
Definition fits (t : tree) (k : ctx) : Prop := ccolor k = Red → tcolor t = Black.

Lemma fits_black t k : tcolor t = Black → fits t k.
Proof. by intros ??. Qed.
#[export] Hint Resolve fits_black : kernel.

Lemma rbh_plug t k n : rbh t n → rbctx k n → fits t k → rb_tree (plug t k).
Proof.
  revert t n. induction k as [|f k IH]; intros t n Ht Hk Hf.
  - split; [by apply Hf|by exists n].
  - destruct Hk as [Hs Hk].
    destruct f as [[] a r|[] l a]; simpl in *.
    + destruct Hk as (?&?&?). apply (IH _ n); [|done|]; simpl.
      * split_and!; [done..|by apply Hf|done].
      * intros E; simpl in *; congruence.
    + apply (IH _ (S n)); [done|done|by apply fits_black].
    + destruct Hk as (?&?&?). apply (IH _ n); [|done|]; simpl.
      * split_and!; [done..|by apply Hf].
      * intros E; simpl in *; congruence.
    + apply (IH _ (S n)); [done|done|by apply fits_black].
Qed.

Lemma rbh_plug_inv t k : rb_tree (plug t k) → ∃ n, rbh t n ∧ rbctx k n ∧ fits t k.
Proof.
  revert t. induction k as [|f k IH]; intros t.
  - intros [Hc [n Hn]]. exists n. split; [done|]. split; [exact I|]. by intros _.
  - intros (n & H1 & H2 & H3)%IH. unfold fits in *.
    destruct f as [[] a r|[] l a]; simpl in *.
    + destruct H1 as (?&?&?&?). exists n. split_and!; auto.
      destruct (ccolor k); naive_solver.
    + destruct n as [|n]; [done|]. destruct H1. exists n. by split_and!.
    + destruct H1 as (?&?&?&?). exists n. split_and!; auto.
      destruct (ccolor k); naive_solver.
    + destruct n as [|n]; [done|]. destruct H1. exists n. by split_and!.
Qed.

Lemma rbh_set_black t n : rbh t n → ∃ m, rbh (set_black t) m.
Proof. destruct t as [|[] l a r]; simpl; intros H; [by exists n|exists (S n)|by exists n]; naive_solver. Qed.
Lemma tcolor_set_black t : tcolor (set_black t) = Black.
Proof. by destruct t. Qed.
Lemma set_black_rb t : rb_tree (set_black t) ↔ ∃ n, rbh (set_black t) n.
Proof. unfold rb_tree. rewrite tcolor_set_black. naive_solver. Qed.
Lemma set_black_id t : tcolor t = Black → set_black t = t.
Proof. destruct t as [|[]]; naive_solver. Qed.

(** A red root may be blackened: its children are black trees of one height. *)
Lemma rbh_red_black t n : rbh t n → tcolor t = Red → rbh (set_black t) (S n).
Proof. destruct t as [|[] l a r]; simpl; naive_solver. Qed.

(** After a repair below a black node the rest of the tree is untouched. *)
Lemma rb_plug_set_black t k n :
  rbh t n → rbctx k n → fits t k → rb_tree (set_black (plug t k)).
Proof.
  intros H1 H2 H3. pose proof (rbh_plug _ _ _ H1 H2 H3) as [Hc [m Hm]].
  rewrite set_black_id by done. split; [done|by exists m].
Qed.

Ltac rb_done := simpl in *; naive_solver eauto using rbh_plug, rb_plug_set_black, fits_black.

(** Insertion: the fix succeeds, keeps the sequence of nodes and restores the
    red-black invariant. *)
Lemma ins_fix_ok k : ∀ l a r n,
  rbh (Node Red l a r) n → rbctx k n →
  ∃ t', ins_fix (Node Red l a r) k = Some t' ∧ rb_tree t' ∧
        inorder t' = cl k ++ inorder (Node Red l a r) ++ cr k.
Proof.
  remember (length k) as len eqn:Elen. revert k Elen.
  induction len as [len IH] using lt_wf_ind; intros k -> l a r n Ht Hk.
  destruct k as [|f k1].
  { eexists. split; [done|]. split; [|by rewrite app_nil_r].
    apply set_black_rb. by eapply rbh_set_black. }
  destruct (fcolor f) eqn:Ef; cycle 1.
  { exists (set_black (plug (Node Red l a r) (f :: k1))).
    split; [simpl; by rewrite Ef|]. rewrite inorder_set_black, inorder_plug.
    split; [|done]. apply (rb_plug_set_black (Node Red l a r) (f :: k1) n Ht Hk).
    intros E. simpl in E. congruence. }
  destruct k1 as [|g k'].
  { destruct Hk as [_ Hk]. rewrite Ef in Hk. naive_solver. }
  destruct Hk as [Hs Hk]. rewrite Ef in Hk. destruct Hk as (Hsc & Hg & Hk).
  destruct Hk as [Hu Hk]. simpl in Hg. rewrite Hg in Hk.
  assert (Hrec : ∀ l a r, rbh (Node Red l a r) (S n) →
    ∃ t', ins_fix (Node Red l a r) k' = Some t' ∧ rb_tree t' ∧
          inorder t' = cl k' ++ inorder (Node Red l a r) ++ cr k').
  { intros. eapply IH; [| |done|done]; simpl; [|done]; lia. }
  assert (Hfin : ∀ t, rbh t (S n) → tcolor t = Black → rb_tree (set_black (plug t k'))).
  { intros. eapply rb_plug_set_black; [done..|]. by apply fits_black. }
  assert (Hrot : ∀ t, inorder (set_black (plug t k')) = cl k' ++ inorder t ++ cr k').
  { intros. by rewrite inorder_set_black, inorder_plug. }
  destruct g as [gc g u|gc u g]; simpl in Hg; subst gc;
    destruct u as [|[] ul u ur];
    destruct f as [fc p s|fc s p]; simpl in Ef; subst fc; simpl in *;
    (match goal with
     | |- context [ins_fix (Node Red ?x ?y ?z) k'] =>
         destruct (Hrec x y z) as (t' & -> & ? & E); [rb_done|];
         exists t'; split_and!; [done..|]; rewrite E; simpl
     | _ => eexists; split; [done|]; split; [apply Hfin; rb_done|]; rewrite Hrot; simpl
     end); assoc; done.
Qed.

(** One iteration of the deletion fix on the left, resp. right, of a black
    sibling [s]; [t] lacks one black node. *)
Lemma del_left_ok t pc p s n :
  rbh t n → tcolor t = Black → rbh s (S n) → tcolor s = Black →
  ∃ v, del_left t pc p s = Some v ∧
    match v with
    | Up t' => (pc = Black → rbh t' (S n)) ∧ (pc = Red → rbh (set_black t') (S n)) ∧
               tcolor t' = pc ∧ inorder t' = inorder t ++ p :: inorder s
    | Fin t' => (pc = Black → rbh t' (S (S n))) ∧ (pc = Red → rbh t' (S n)) ∧
                tcolor t' = pc ∧ inorder t' = inorder t ++ p :: inorder s
    end.
Proof.
  intros Ht Htc Hs Hsc. destruct s as [|[] sl sa sr]; [done|done|].
  destruct Hs as [Hl Hr]. unfold del_left, is_blk.
  destruct (tcolor sl) eqn:El; destruct (tcolor sr) eqn:Er; simpl.
  - destruct sr as [|[] srl b srr]; [done| |done]. eexists. split; [done|].
    simpl in *. split_and!; [naive_solver..|done|by assoc].
  - destruct sl as [|[] sll b slr]; [done| |done]. eexists. split; [done|].
    simpl in *. split_and!; [naive_solver..|done|by assoc].
  - destruct sr as [|[] srl b srr]; [done| |done]. eexists. split; [done|].
    simpl in *. split_and!; [naive_solver..|done|by assoc].
  - eexists. split; [done|]. simpl. split_and!; [intros ->; naive_solver..|done|by assoc].
Qed.

Lemma del_right_ok t pc p s n :
  rbh t n → tcolor t = Black → rbh s (S n) → tcolor s = Black →
  ∃ v, del_right t pc p s = Some v ∧
    match v with
    | Up t' => (pc = Black → rbh t' (S n)) ∧ (pc = Red → rbh (set_black t') (S n)) ∧
               tcolor t' = pc ∧ inorder t' = inorder s ++ p :: inorder t
    | Fin t' => (pc = Black → rbh t' (S (S n))) ∧ (pc = Red → rbh t' (S n)) ∧
                tcolor t' = pc ∧ inorder t' = inorder s ++ p :: inorder t
    end.
Proof.
  intros Ht Htc Hs Hsc. destruct s as [|[] sl sa sr]; [done|done|].
  destruct Hs as [Hl Hr]. unfold del_right, is_blk.
  destruct (tcolor sl) eqn:El; destruct (tcolor sr) eqn:Er; simpl.
  - destruct sl as [|[] sll b slr]; [done| |done]. eexists. split; [done|].
    simpl in *. split_and!; [naive_solver..|done|by assoc].
  - destruct sl as [|[] sll b slr]; [done| |done]. eexists. split; [done|].
    simpl in *. split_and!; [naive_solver..|done|by assoc].
  - destruct sr as [|[] srl b srr]; [done| |done]. eexists. split; [done|].
    simpl in *. split_and!; [naive_solver..|done|by assoc].
  - eexists. split; [done|]. simpl. split_and!; [intros ->; naive_solver..|done|by assoc].
Qed.

(** *** Deletion: the fix succeeds on a subtree that lacks one black node. *)
Definition fixes (t : tree) (k : ctx) : Prop :=
  ∃ t', del_fix t k = Some t' ∧ rb_tree t' ∧ inorder t' = cl k ++ inorder t ++ cr k.
Definition fix_ok (k : ctx) : Prop := ∀ t n,
  (tcolor t = Black → rbh t n) → (tcolor t = Red → rbh (set_black t) (S n)) →
  rbctx k (S n) → fixes t k.

(** A red sibling is rotated once, and then the parent is red. *)
Lemma del_fix_left_red t pc p sl sa sr k n :
  tcolor t = Black → rbh t n → rbctx (FL pc p (Node Red sl sa sr) :: k) (S n) → fixes t (FL pc p (Node Red sl sa sr) :: k).
Proof.
  intros Ec Hb [Hs Hk]. simpl in Hs, Hk. destruct pc; [naive_solver|].
  destruct Hs as (Hsl & Hsr & Hlc & Hrc).
  edestruct (del_left_ok t Red p sl n) as ([t'|t'] & E & _ & H2 & H3 & H4); [done..| |].
  - exists (plug (set_black t') (FL Black sa sr :: k)). split; [simpl; rewrite Ec, E; done|].
    rewrite (inorder_plug _ (FL Black sa sr :: k)), inorder_set_black, H4.
    split; [|by assoc]. apply (rbh_plug _ (FL Black sa sr :: k) (S n)); [auto|done|].
    apply fits_black, tcolor_set_black.
  - exists (set_black (plug t' (FL Black sa sr :: k))). split; [simpl; rewrite Ec, E; done|].
    rewrite inorder_set_black, (inorder_plug _ (FL Black sa sr :: k)), H4.
    split; [|by assoc]. apply (rb_plug_set_black _ (FL Black sa sr :: k) (S n)); [auto|done|done].
Qed.

Lemma del_fix_right_red t pc p sl sa sr k n :
  tcolor t = Black → rbh t n → rbctx (FR pc (Node Red sl sa sr) p :: k) (S n) → fixes t (FR pc (Node Red sl sa sr) p :: k).
Proof.
  intros Ec Hb [Hs Hk]. simpl in Hs, Hk. destruct pc; [naive_solver|].
  destruct Hs as (Hsl & Hsr & Hlc & Hrc).
  edestruct (del_right_ok t Red p sr n) as ([t'|t'] & E & _ & H2 & H3 & H4); [done..| |].
  - exists (plug (set_black t') (FR Black sl sa :: k)). split; [simpl; rewrite Ec, E; done|].
    rewrite (inorder_plug _ (FR Black sl sa :: k)), inorder_set_black, H4.
    split; [|by assoc]. apply (rbh_plug _ (FR Black sl sa :: k) (S n)); [auto|done|].
    apply fits_black, tcolor_set_black.
  - exists (set_black (plug t' (FR Black sl sa :: k))). split; [simpl; rewrite Ec, E; done|].
    rewrite inorder_set_black, (inorder_plug _ (FR Black sl sa :: k)), H4.
    split; [|by assoc]. apply (rb_plug_set_black _ (FR Black sl sa :: k) (S n)); [auto|done|done].
Qed.

(** With a black sibling the fix ends here or goes on one level up. *)
Lemma del_fix_left_black t pc p sl sa sr k n :
  fix_ok k → tcolor t = Black → rbh t n → rbctx (FL pc p (Node Black sl sa sr) :: k) (S n) → fixes t (FL pc p (Node Black sl sa sr) :: k).
Proof.
  intros IH Ec Hb [Hs Hk]. simpl in Hs, Hk.
  edestruct (del_left_ok t pc p (Node Black sl sa sr) n) as ([t'|t'] & E & H1 & H2 & H3 & H4);
    [done..| |].
  - edestruct (IH t' (if decide (pc = Red) then n else S n)) as (t'' & E' & Hrb & Hio).
    + rewrite H3. intros ->. auto.
    + rewrite H3. intros ->. auto.
    + destruct pc; naive_solver.
    + exists t''. split; [simpl in *; rewrite Ec, E; done|]. split; [done|].
      rewrite Hio, H4. by assoc.
  - exists (set_black (plug t' k)). split; [simpl in *; rewrite Ec, E; done|].
    rewrite inorder_set_black, inorder_plug, H4. split; [|by assoc].
    apply (rb_plug_set_black _ k (if decide (pc = Red) then S n else S (S n))).
    + destruct pc; auto.
    + destruct pc; naive_solver.
    + intros Hck. rewrite H3. destruct pc; [destruct Hk as (?&?&?); congruence|done].
Qed.

Lemma del_fix_right_black t pc p sl sa sr k n :
  fix_ok k → tcolor t = Black → rbh t n → rbctx (FR pc (Node Black sl sa sr) p :: k) (S n) → fixes t (FR pc (Node Black sl sa sr) p :: k).
Proof.
  intros IH Ec Hb [Hs Hk]. simpl in Hs, Hk.
  edestruct (del_right_ok t pc p (Node Black sl sa sr) n) as ([t'|t'] & E & H1 & H2 & H3 & H4);
    [done..| |].
  - edestruct (IH t' (if decide (pc = Red) then n else S n)) as (t'' & E' & Hrb & Hio).
    + rewrite H3. intros ->. auto.
    + rewrite H3. intros ->. auto.
    + destruct pc; naive_solver.
    + exists t''. split; [simpl in *; rewrite Ec, E; done|]. split; [done|].
      rewrite Hio, H4. by assoc.
  - exists (set_black (plug t' k)). split; [simpl in *; rewrite Ec, E; done|].
    rewrite inorder_set_black, inorder_plug, H4. split; [|by assoc].
    apply (rb_plug_set_black _ k (if decide (pc = Red) then S n else S (S n))).
    + destruct pc; auto.
    + destruct pc; naive_solver.
    + intros Hck. rewrite H3. destruct pc; [destruct Hk as (?&?&?); congruence|done].
Qed.

Lemma del_fix_ok k : fix_ok k.
Proof.
  induction k as [|f k IH]; intros t n Hb Hr Hk.
  { exists (set_black t). rewrite inorder_set_black; simpl; rewrite app_nil_r.
    split; [by case_decide|]. split; [|done]. apply set_black_rb.
    destruct (tcolor t) eqn:E; [eauto|]. rewrite set_black_id by done. eauto. }
  destruct (tcolor t) eqn:Ec.
  { exists (plug (set_black t) (f :: k)). split; [simpl; by rewrite Ec|].
    split; [|by rewrite (inorder_plug _ (f :: k)), inorder_set_black].
    apply (rbh_plug _ (f :: k) (S n)); [by apply Hr|done|].
    apply fits_black, tcolor_set_black. }
  specialize (Hb eq_refl). destruct f as [pc p s|pc s p]; destruct s as [|[] sl sa sr].
  - by destruct Hk.
  - by eapply del_fix_left_red.
  - by eapply del_fix_left_black.
  - by destruct Hk.
  - by eapply del_fix_right_red.
  - by eapply del_fix_right_black.
Qed.

Lemma unlink_at_ok c l a r k t :
  rb_tree (plug (Node c l a r) k) → (l = Leaf ∧ t = r ∨ r = Leaf ∧ t = l) →
  ∃ t', unlink_at c t k = Some t' ∧ rb_tree t' ∧ inorder t' = cl k ++ inorder t ++ cr k.
Proof.
  intros (n & Hn & Hk & Hf)%rbh_plug_inv Ht. unfold unlink_at.
  destruct c; case_decide as Hc; try done; simpl in Hn.
  - exists (plug t k). rewrite inorder_plug. split; [done|]. split; [|done].
    eapply (rbh_plug t k n); [naive_solver|done|]. apply fits_black. naive_solver.
  - destruct n as [|n]; [done|]. destruct Hn as [Hl Hr].
    destruct (del_fix_ok k t n) as (t' & ? & ? & ?); [naive_solver| |done|eauto].
    (* the other subtree is empty, so [n] is 0 and a red child only exists at 0 *)
    intros Hred. apply rbh_red_black; naive_solver.
Qed.

Lemma leftmost_ok t k :
  t ≠ Leaf →
  ∃ yc y yr kr, leftmost t k = Some (yc, y, yr, kr ++ k) ∧
    plug (Node yc Leaf y yr) kr = t ∧ cl kr = [].
Proof.
  revert k. induction t as [|c l IHl a r _]; intros k; [done|]. intros _. simpl.
  destruct l as [|lc ll la lr].
  - exists c, a, r, []. done.
  - destruct (IHl (FL c a r :: k)) as (yc & y & yr & kr & -> & E & Ec); [done|].
    exists yc, y, yr, (kr ++ [FL c a r]). rewrite <- app_assoc, plug_app, E. split_and!; [done..|].
    clear -Ec. induction kr as [|[] kr IH]; simpl in *; [done|auto|].
    apply app_eq_nil in Ec as [_ Ec]. by apply app_eq_nil in Ec as [_ ?].
Qed.

Lemma rbctx_rename kr c l a y k n :
  rbctx (kr ++ FR c l a :: k) n → rbctx (kr ++ FR c l y :: k) n.
Proof.
  revert n. induction kr as [|f kr IH]; intros n; [done|]. simpl.
  intros [Hs Hk]. split; [done|]. destruct (fcolor f); [|auto].
  destruct Hk as (? & ? & ?). split_and!; [done| |auto]. by destruct kr.
Qed.

(** Erasing a node of a red-black tree succeeds, keeps the sequence of the other
    nodes and leaves a red-black tree. *)
Lemma erase_at_ok c l a r k :
  rb_tree (plug (Node c l a r) k) →
  ∃ t', erase_at c l a r k = Some t' ∧ rb_tree t' ∧
        inorder t' = cl k ++ inorder l ++ inorder r ++ cr k.
Proof.
  intros Hrb. unfold erase_at.
  destruct l as [|lc ll la lr] eqn:El; [|destruct r as [|rc rl ra rr] eqn:Er].
  - eapply unlink_at_ok; [done|by left].
  - destruct (unlink_at_ok c l a Leaf k l) as (t' & H1 & H2 & H3); subst; [done|by right|].
    exists t'. split_and!; [done..|]. rewrite H3. by assoc.
  - rewrite <- El, <- Er in *.
    destruct (leftmost_ok r []) as (yc & y & yr & kr & E & Ep & Ecl); [by subst|].
    rewrite app_nil_r in E. rewrite E.
    assert (rb_tree (plug (Node yc Leaf y yr) (kr ++ FR c l y :: k))) as Hrb'.
    { rewrite <- Ep in Hrb. change (plug (Node c l a (plug (Node yc Leaf y yr) kr)) k)
        with (plug (plug (Node yc Leaf y yr) kr) (FR c l a :: k)) in Hrb.
      rewrite <- plug_app in Hrb. apply rbh_plug_inv in Hrb as (n & Hn & Hk & Hf).
      apply (rbh_plug _ _ n); [done|by eapply rbctx_rename|].
      intros Hc. apply Hf. by destruct kr. }
    edestruct (unlink_at_ok yc Leaf y yr) as (t' & H1 & H2 & H3); [exact Hrb'|by left|].
    exists t'. split_and!; [done..|]. rewrite H3. rewrite <- Ep, inorder_plug.
    replace (cl (kr ++ FR c l y :: k)) with (cl k ++ inorder l ++ [y] ++ cl kr).
    + rewrite Ecl. replace (cr (kr ++ FR c l y :: k)) with (cr kr ++ cr k).
      * simpl. by assoc.
      * clear. induction kr as [|[] kr IH]; simpl; [done| |done]. rewrite <- IH. by assoc.
    + clear. induction kr as [|[] kr IH]; simpl; [done..|].
      rewrite <- IH. by assoc.
Qed.

(** Linking a red node at an empty place and fixing the colours. *)
Lemma insert_at_ok a k :
  rb_tree (plug Leaf k) →
  ∃ t', ins_fix (Node Red Leaf a Leaf) k = Some t' ∧ rb_tree t' ∧
        inorder t' = cl k ++ a :: cr k.
Proof.
  intros (n & Hn & Hk & _)%rbh_plug_inv. simpl in Hn. subst n.
  by apply (ins_fix_ok k Leaf a Leaf 0).
Qed.

(** ** Height *)

Fixpoint height (t : tree) : nat :=
  match t with Leaf => 0 | Node _ l _ r => S (max (height l) (height r)) end.

Lemma rbh_height t n :
  rbh t n → height t ≤ 2 * n + (if decide (tcolor t = Red) then 1 else 0).
Proof.
  revert n. induction t as [|[] l IHl a r IHr]; intros n; simpl; [lia| |].
  - intros (Hl & Hr & Cl & Cr). specialize (IHl _ Hl). specialize (IHr _ Hr).
    rewrite Cl in IHl. rewrite Cr in IHr. simpl in *. lia.
  - destruct n as [|n]; [done|]. intros (Hl & Hr). specialize (IHl _ Hl). specialize (IHr _ Hr).
    do 2 case_decide; lia.
Qed.

Lemma rbh_size t n : rbh t n → 2 ^ n ≤ S (length (inorder t)).
Proof.
  revert n. induction t as [|[] l IHl a r IHr]; intros n; simpl.
  - intros ->. simpl. lia.
  - intros (Hl & Hr & _). specialize (IHl _ Hl). rewrite length_app. simpl. lia.
  - destruct n as [|n]; [done|]. intros (Hl & Hr).
    specialize (IHl _ Hl). specialize (IHr _ Hr). rewrite length_app. simpl. lia.
Qed.

(** A red-black tree of [n] nodes has height at most [2 log2 (n + 1)]. *)
Lemma rb_tree_height t :
  rb_tree t → height t ≤ 2 * Nat.log2 (S (length (inorder t))).
Proof.
  intros [Hc [n Hn]]. pose proof (rbh_height _ _ Hn) as Hh. rewrite Hc in Hh. simpl in Hh.
  pose proof (rbh_size _ _ Hn) as Hs.
  assert (n ≤ Nat.log2 (S (length (inorder t)))) by (apply Nat.log2_le_pow2; lia). lia.
Qed.
