(* ===== verification/RbHeap.v ===== *)
(** The red-black tree in memory: the heap shape of a tree and of the path above
    one of its nodes, and the primitive steps of rbtree.c on that shape. *)
From S2P Require Export RbTree RbSpec.

Definition cz (c : color) : Z := match c with Red => RB_RED | Black => RB_BLACK end.

(** [t] lies in memory below the parent pointer [p]. *)
Fixpoint tree_at (h : heap) (p : ptr) (t : tree) : Prop :=
  match t with
  | Leaf => True
  | Node c l a r =>
      h !! a = Some (Cell p (rootp r) (rootp l) (cz c)) ∧
      tree_at h (Some a) l ∧ tree_at h (Some a) r
  end.

(** The path [k] lies in memory; its hole holds the pointer [q], and [R] is the
    [rb_root] it ends in. *)
Fixpoint ctx_at (h : heap) (R : loc) (q : ptr) (k : ctx) : Prop :=
  match k with
  | [] => ∃ c, h !! R = Some c ∧ rb_node c = q
  | FL c a r :: k =>
      h !! a = Some (Cell (cpar k) (rootp r) q (cz c)) ∧
      tree_at h (Some a) r ∧ ctx_at h R (Some a) k
  | FR c l a :: k =>
      h !! a = Some (Cell (cpar k) q (rootp l) (cz c)) ∧
      tree_at h (Some a) l ∧ ctx_at h R (Some a) k
  end.

(** The nodes of a path. *)
Fixpoint cnodes (k : ctx) : list loc :=
  match k with
  | [] => []
  | FL _ a r :: k => a :: inorder r ++ cnodes k
  | FR _ l a :: k => a :: inorder l ++ cnodes k
  end.

(** The whole structure, focused on the subtree [t] at [k]. [D] is the set of
    objects the code may write; the others are as in [h0]. *)
Definition shape (D : list loc) (h0 h : heap) (R : loc) (t : tree) (k : ctx) : Prop :=
  tree_at h (cpar k) t ∧ ctx_at h R (rootp t) k ∧
  NoDup (R :: inorder t ++ cnodes k) ∧
  (∀ x, x ∈ R :: inorder t ++ cnodes k → x ∈ D) ∧
  (∀ x, x ∉ D → h !! x = h0 !! x).

Lemma cnodes_perm k : cnodes k ≡ₚ cl k ++ cr k.
Proof.
  induction k as [|[c a r|c l a] k IH]; simpl; [done| |]; rewrite IH.
  - rewrite <- Permutation_middle. f_equiv. rewrite !(assoc_L (++)). f_equiv. apply Permutation_app_comm.
  - rewrite <- !(assoc_L (++)). simpl. rewrite <- !Permutation_middle. f_equiv.
    rewrite !(assoc_L (++)). f_equiv. apply Permutation_app_comm.
Qed.

Lemma tree_at_insert h p t x c :
  x ∉ inorder t → tree_at h p t → tree_at (<[x:=c]> h) p t.
Proof.
  revert p. induction t as [|tc l IHl a r IHr]; intros p; simpl; [done|].
  rewrite not_elem_of_app, not_elem_of_cons. intros (?&?&?) (?&?&?).
  split_and!; auto. by rewrite lookup_insert_ne.
Qed.

Lemma ctx_at_insert h R q k x c :
  x ∉ R :: cnodes k → ctx_at h R q k → ctx_at (<[x:=c]> h) R q k.
Proof.
  revert q. induction k as [|[fc a r|fc l a] k IH]; intros q; simpl.
  - rewrite not_elem_of_cons. intros [? _] (d & ? & ?). exists d.
    by rewrite lookup_insert_ne.
  - rewrite !not_elem_of_cons, not_elem_of_app. intros (?&?&?&?) (?&?&?).
    split_and!; [by rewrite lookup_insert_ne|by apply tree_at_insert|].
    apply IH; [|done]. by rewrite not_elem_of_cons.
  - rewrite !not_elem_of_cons, not_elem_of_app. intros (?&?&?&?) (?&?&?).
    split_and!; [by rewrite lookup_insert_ne|by apply tree_at_insert|].
    apply IH; [|done]. by rewrite not_elem_of_cons.
Qed.

Lemma tree_at_frame h h' p t :
  (∀ x, x ∈ inorder t → h' !! x = h !! x) → tree_at h p t → tree_at h' p t.
Proof.
  revert p. induction t as [|tc l IHl a r IHr]; intros p; simpl; [done|].
  intros E (?&?&?). split_and!; [rewrite E; [done|]|apply IHl|apply IHr]; set_solver.
Qed.

Lemma ctx_at_frame h h' R q k :
  (∀ x, x ∈ R :: cnodes k → h' !! x = h !! x) → ctx_at h R q k → ctx_at h' R q k.
Proof.
  revert q. induction k as [|[fc a r|fc l a] k IH]; intros q; simpl; intros E.
  - intros (c & Hc & ?). exists c. split; [|done]. rewrite E; [done|set_solver].
  - intros (?&?&?). split_and!; [rewrite E; [done|]|eapply tree_at_frame; [|done]|apply IH; [|done]];
      set_solver.
  - intros (?&?&?). split_and!; [rewrite E; [done|]|eapply tree_at_frame; [|done]|apply IH; [|done]];
      set_solver.
Qed.

(** Moving the focus along the path. *)
Lemma shape_FL D h0 h R t c a r k :
  shape D h0 h R t (FL c a r :: k) ↔ shape D h0 h R (Node c t a r) k.
Proof. unfold shape; simpl. assoc. tauto. Qed.

Lemma shape_FR D h0 h R t c a l k :
  shape D h0 h R t (FR c l a :: k) ↔ shape D h0 h R (Node c l a t) k.
Proof.
  unfold shape; simpl.
  assert (inorder t ++ a :: inorder l ++ cnodes k ≡ₚ
          (inorder l ++ a :: inorder t) ++ cnodes k) as E.
  { assoc. rewrite <- !Permutation_middle. f_equiv. rewrite !(assoc_L (++)).
    f_equiv. apply Permutation_app_comm. }
  setoid_rewrite E. tauto.
Qed.

Lemma shape_plug D h0 h R t k : shape D h0 h R t k ↔ shape D h0 h R (plug t k) [].
Proof.
  revert t. induction k as [|[c a r|c l a] k IH]; intros t; simpl; [done| |].
  - by rewrite shape_FL, IH.
  - by rewrite shape_FR, IH.
Qed.

Lemma shape_lookup D h0 h R c l a r k :
  shape D h0 h R (Node c l a r) k →
  h !! a = Some (Cell (cpar k) (rootp r) (rootp l) (cz c)).
Proof. by intros [[? _] _]. Qed.

Lemma shape_root D h0 h R t : shape D h0 h R t [] →
  ∃ c, h !! R = Some c ∧ rb_node c = rootp t.
Proof. intros (_ & H & _). done. Qed.

Lemma shape_in_D D h0 h R t k : shape D h0 h R t k → R ∈ D ∧ ∀ x, x ∈ inorder t → x ∈ D.
Proof. intros (_ & _ & _ & H & _). split; [apply H; by left|intros; apply H; set_solver]. Qed.

Lemma shape_set_col D h0 h R c c' l a r k :
  shape D h0 h R (Node c l a r) k →
  shape D h0 (<[a := Cell (cpar k) (rootp r) (rootp l) (cz c')]> h) R (Node c' l a r) k.
Proof.
  intros (Ht & Hk & Hnd & HD & Ho). 
  destruct Ht as (Ha & Hl & Hr). unfold shape; simpl in *. split_and!; [| | | |done|done|].
  - apply lookup_insert_eq.
  - apply tree_at_insert; [sep Hnd|done].
  - apply tree_at_insert; [sep Hnd|done].
  - apply ctx_at_insert; [sep Hnd|done].
  - intros x Hx. rewrite lookup_insert_ne; [by apply Ho|]. intros ->. apply Hx, HD. set_solver.
Qed.

Lemma shape_ne D h0 h R t k x y :
  shape D h0 h R t k → x ∈ inorder t → y ∈ R :: cnodes k → x ≠ y.
Proof.
  intros (_ & _ & Hnd & _) Hx%occ_in Hy%occ_in ->. count Hnd y.
  autorewrite with occ in Hy. lia.
Qed.

(** The instruction [p->rb_color = c]. *)
Lemma st_col_run {B} D h0 h R c l a r k c' (K : unit → M heap B) :
  shape D h0 h R (Node c l a r) k →
  ∃ h', bnd (st (set_col (cz c')) (Some a)) K h = K tt h' ∧
        st (set_col (cz c')) (Some a) h = Done (tt, h') ∧
        shape D h0 h' R (Node c' l a r) k.
Proof.
  intros H. pose proof (shape_lookup _ _ _ _ _ _ _ _ _ H) as Ha.
  eexists. split_and!; [by mstep|by mstep|]. simpl. by eapply shape_set_col.
Qed.

(** Close the goal [shape D h0 h' R t k] where [h'] is [h] with a few cells
    rewritten; [Hnd], [HD], [Ho] are the facts of [h]. *)
Ltac frames Hnd :=
  lazymatch goal with
  | |- tree_at _ _ _ => repeat (apply tree_at_insert; [sep Hnd|]); done
  | |- ctx_at _ _ _ _ => repeat (apply ctx_at_insert; [sep Hnd|]); done
  | |- ∃ c, _ ∧ _ => eexists; split; [lkp|done]
  | |- _ !! _ = _ => by lkp
  | |- True => exact I
  end.
Ltac shape_fin Hnd HD Ho :=
  unfold shape; simpl; split_and!;
  [ ..
  | clear -Hnd; rewrite NoDup_occ; let z := fresh "z" in intros z; count Hnd z;
    simpl; autorewrite with occ; lia
  | let z := fresh "z" in let Hz := fresh "Hz" in
    intros z Hz%occ_in; apply HD, occ_in; clear -Hz; simpl in Hz |- *;
    autorewrite with occ in Hz |- *; lia
  | let z := fresh "z" in let Hz := fresh "Hz" in
    intros z Hz; rewrite !lookup_insert_ne; [by apply Ho|..];
    intros ->; apply Hz, HD; clear; mem ];
  frames Hnd.

(** Read off the cell of the root of [t] ([x] its address), the object that
    holds the hole of [k], and that they differ from the nodes in focus. *)
Ltac open_root t :=
  destruct t as [|?c ?l ?x ?r];
  [|match goal with H : tree_at _ _ (Node _ _ ?x _) |- _ =>
      let Hx := fresh "Hx" in destruct H as (Hx & ? & ?) end].
Ltac open_ctx k Hk :=
  destruct k as [|[?fc ?fa ?fr|?fc ?fl ?fa] k]; simpl in *;
  [destruct Hk as (?cR & ?HR & ?HRq)
  |destruct Hk as (?Hfa & ?Hfr & Hk)
  |destruct Hk as (?Hfa & ?Hfr & Hk)].
Lemma rootp_ne x t : x ∉ inorder t → Some x ≠ rootp t.
Proof. destruct t as [|c l a r]; simpl; [done|]. set_solver. Qed.

(** The addresses with known cells are pairwise distinct, and are not the roots
    of the subtrees in memory. *)
Ltac distinct Hnd :=
  repeat match goal with
  | H1 : _ !! ?x = Some _, H2 : _ !! ?y = Some _ |- _ =>
      lazymatch x with y => fail | _ => idtac end;
      lazymatch goal with
      | _ : x ≠ y |- _ => fail
      | _ : y ≠ x |- _ => fail
      | _ => assert (x ≠ y) by sep Hnd
      end
  | H1 : _ !! ?x = Some _, H2 : tree_at _ _ ?t |- _ =>
      lazymatch goal with
      | _ : Some x ≠ rootp t |- _ => fail
      | _ => assert (Some x ≠ rootp t) by (apply rootp_ne; sep Hnd)
      end
  end.

(** ** The pointer operations *)

Lemma rotate_left_run D h0 h R c l a c2 rl b rr k :
  shape D h0 h R (Node c l a (Node c2 rl b rr)) k →
  ∃ h', __rb_rotate_left (Some a) (Some R) h = Done (tt, h') ∧
        shape D h0 h' R (Node c2 (Node c l a rl) b rr) k.
Proof.
  intros (Ht & Hk & Hnd & HD & Ho). 
  destruct Ht as (Ha & Hl & Hb & Hrl & Hrr). unfold __rb_rotate_left.
  open_root rl; open_ctx k Hk; distinct Hnd;
    (eexists; split; [msteps; done|]; shape_fin Hnd HD Ho).
Qed.

Lemma rotate_right_run D h0 h R c r a c2 ll b lr k :
  shape D h0 h R (Node c (Node c2 ll b lr) a r) k →
  ∃ h', __rb_rotate_right (Some a) (Some R) h = Done (tt, h') ∧
        shape D h0 h' R (Node c2 ll b (Node c lr a r)) k.
Proof.
  intros (Ht & Hk & Hnd & HD & Ho). 
  destruct Ht as (Ha & (Hb & Hll & Hlr) & Hr). unfold __rb_rotate_right.
  open_root lr; open_ctx k Hk; distinct Hnd;
    (eexists; split; [msteps; done|]; shape_fin Hnd HD Ho).
Qed.

(** A node with at most one subtree [t] leaves the tree: its place is taken by
    the root of [t]. Its own cell is not written. *)
Lemma unlink_run D h0 h R c l a r t k :
  shape D h0 h R (Node c l a r) k → (l = Leaf ∧ t = r ∨ r = Leaf ∧ t = l) →
  ∃ h', ((if nonnull (rootp t) then st (set_rb_parent (cpar k)) (rootp t) else ret tt) ;;;
         replace_child (Some a) (rootp t) (cpar k) (Some R)) h = Done (tt, h') ∧
        shape D h0 h' R t k ∧ h' !! a = h !! a.
Proof.
  intros (Ht & Hk & Hnd & HD & Ho) Hlr. unfold replace_child.
  assert (Htr : tree_at h (Some a) t) by (destruct Ht; naive_solver).
  assert (HD' : ∀ x, x ∈ R :: a :: inorder t ++ cnodes k → x ∈ D).
  { intros x Hx%occ_in. apply HD, occ_in. simpl in *. autorewrite with occ in *.
    destruct Hlr as [[-> ->]|[-> ->]]; simpl in *; lia. }
  assert (Hnd' : NoDup (R :: a :: inorder t ++ cnodes k)).
  { rewrite NoDup_occ. intros x. count Hnd x. simpl. autorewrite with occ.
    destruct Hlr as [[-> ->]|[-> ->]]; simpl in *; lia. }
  destruct Ht as [Ha _]. clear Hnd HD Hlr.
  open_root t; open_ctx k Hk; distinct Hnd';
    (eexists; split; [msteps; done|]; split; [shape_fin Hnd' HD' Ho|by lkp]).
Qed.

(** The copy of a node's fields into [y], which takes its place: the second half
    of [rb_erase] for a node with two children. *)
Lemma take_place_run D h0 h R c l a r k y cy :
  shape D h0 h R (Node c l a r) k → l ≠ Leaf →
  y ∈ D → y ∉ R :: inorder (Node c l a r) ++ cnodes k → h !! y = Some cy →
  ∃ h', (∀ K : M heap unit,
    (let* op := ld rb_parent (Some a) in
     st (set_rb_parent op) (Some y) ;;;
     let* oc := ld rb_color (Some a) in
     st (set_col oc) (Some y) ;;;
     let* or := ld rb_right (Some a) in
     st (set_rb_right or) (Some y) ;;;
     let* ol := ld rb_left (Some a) in
     st (set_rb_left ol) (Some y) ;;;
     let* op := ld rb_parent (Some a) in
     replace_child (Some a) (Some y) op (Some R) ;;;
     let* ol := ld rb_left (Some a) in
     st (set_rb_parent (Some y)) ol ;;;
     let* or := ld rb_right (Some a) in
     (if nonnull or then st (set_rb_parent (Some y)) or else ret tt) ;;;
     K) h = K h') ∧ shape D h0 h' R (Node c l y r) k.
Proof.
  intros (Ht & Hk & Hnd & HD & Ho) Hlf HyD Hy Hcy. unfold replace_child.
  assert (HD' : ∀ x, x ∈ y :: R :: inorder (Node c l a r) ++ cnodes k → x ∈ D).
  { intros x [->|Hx]%elem_of_cons; auto. }
  assert (Hnd' : NoDup (y :: R :: inorder (Node c l a r) ++ cnodes k)).
  { by apply NoDup_cons. }
  clear Hy Hnd HD HyD. destruct Ht as (Ha & Hl & Hr).
  destruct l as [|lc ll la lr]; [done|]. destruct Hl as (Hla & Hll & Hlr).
  open_root r; open_ctx k Hk; distinct Hnd';
    (eexists; split; [intros K; msteps; done|shape_fin Hnd' HD' Ho]).
Qed.

(** [rb_replace_node]. *)
Lemma replace_node_run D h0 h R c l a r k y cy :
  shape D h0 h R (Node c l a r) k →
  y ∈ D → y ∉ R :: inorder (Node c l a r) ++ cnodes k → h !! y = Some cy →
  ∃ h', rb_replace_node (Some a) (Some y) (Some R) h = Done (tt, h') ∧
        shape D h0 h' R (Node c l y r) k.
Proof.
  intros (Ht & Hk & Hnd & HD & Ho) HyD Hy Hcy. unfold rb_replace_node.
  assert (HD' : ∀ x, x ∈ y :: R :: inorder (Node c l a r) ++ cnodes k → x ∈ D).
  { intros x [->|Hx]%elem_of_cons; auto. }
  assert (Hnd' : NoDup (y :: R :: inorder (Node c l a r) ++ cnodes k)).
  { by apply NoDup_cons. }
  clear Hy Hnd HD HyD. destruct Ht as (Ha & Hl & Hr).
  open_root l; open_root r; open_ctx k Hk; distinct Hnd';
    (eexists; split; [msteps; done|shape_fin Hnd' HD' Ho]).
Qed.

(** The link that holds the hole of a path. *)
Definition hole (R : loc) (k : ctx) : link :=
  match k with
  | [] => Link (Some R) SRoot
  | FL _ a _ :: _ => Link (Some a) SLeft
  | FR _ _ a :: _ => Link (Some a) SRight
  end.

(** [rb_link_node] at an empty place. *)
Lemma link_node_run D h0 h R k y cy :
  shape D h0 h R Leaf k → y ∈ D → y ∉ R :: cnodes k → h !! y = Some cy →
  ∃ h', rb_link_node (Some y) (cpar k) (hole R k) h = Done (tt, h') ∧
        shape D h0 h' R (Node Red Leaf y Leaf) k.
Proof.
  intros (Ht & Hk & Hnd & HD & Ho) HyD Hy Hcy. unfold rb_link_node, st_link.
  assert (HD' : ∀ x, x ∈ y :: R :: cnodes k → x ∈ D).
  { intros x [->|Hx]%elem_of_cons; auto. }
  assert (Hnd' : NoDup (y :: R :: cnodes k)) by by apply NoDup_cons.
  clear Hy Hnd HD HyD.
  open_ctx k Hk; distinct Hnd';
    (eexists; split; [msteps; done|shape_fin Hnd' HD' Ho]).
Qed.

Lemma tree_at_dom h p t x : tree_at h p t → x ∈ inorder t → is_Some (h !! x).
Proof.
  revert p. induction t as [|c l IHl a r IHr]; intros p; simpl; [set_solver|].
  intros (Ha & Hl & Hr) [?|[->|?]%elem_of_cons]%elem_of_app; eauto.
Qed.
Lemma ctx_at_dom h R q k x : ctx_at h R q k → x ∈ R :: cnodes k → is_Some (h !! x).
Proof.
  revert q. induction k as [|[c a r|c l a] k IH]; intros q; simpl.
  - intros (c & Hc & _) ->%list_elem_of_singleton. eauto.
  - intros (Ha & Hr & Hk). rewrite !elem_of_cons, elem_of_app.
    intros [->|[->|[?|?]]]; eauto using tree_at_dom; eapply IH; try done; set_solver.
  - intros (Ha & Hr & Hk). rewrite !elem_of_cons, elem_of_app.
    intros [->|[->|[?|?]]]; eauto using tree_at_dom; eapply IH; try done; set_solver.
Qed.

(** The path from any node to the root is shorter than the bound on loops. *)
Lemma shape_objects D h0 h R t k :
  shape D h0 h R t k → length (inorder t) + length k + 3 ≤ objects h.
Proof.
  intros (Ht & Hk & Hnd & _). unfold objects.
  assert (length (R :: inorder t ++ cnodes k) ≤ size h) as Hle.
  { apply NoDup_size; [done|]. intros x [->|[?|?]%elem_of_app]%elem_of_cons;
      [|by eapply tree_at_dom|]; eapply ctx_at_dom; try done; set_solver. }
  simpl in Hle. rewrite length_app in Hle.
  assert (length k ≤ length (cnodes k)); [|lia].
  clear. induction k as [|[] k IH]; simpl; rewrite ?length_app; lia.
Qed.
