(* ===== verification/RbInsert.v ===== *)
(** [rb_insert_color] on the heap computes [ins_fix]. *)
From S2P Require Export RbHeap.

Lemma cz_red c : (cz c =? RB_RED)%Z = bool_decide (c = Red).
Proof. by destruct c. Qed.
Lemma cz_black c : (cz c =? RB_BLACK)%Z = bool_decide (c = Black).
Proof. by destruct c. Qed.

Lemma is_red_run h p t :
  tree_at h p t → is_red (rootp t) h = Done (bool_decide (tcolor t = Red), h).
Proof.
  destruct t as [|c l a r]; simpl; [done|]. intros (Ha & _).
  unfold is_red. cbn [nonnull]. mstep. by rewrite cz_red.
Qed.
Lemma is_black_run h p t :
  tree_at h p t → is_black (rootp t) h = Done (bool_decide (tcolor t = Black), h).
Proof.
  destruct t as [|c l a r]; simpl; [done|]. intros (Ha & _).
  unfold is_black. cbn [nonnull]. mstep. by rewrite cz_black.
Qed.

Lemma plug_ne t k : t ≠ Leaf → plug t k ≠ Leaf.
Proof. revert t. induction k as [|[] k IH]; intros t Ht; simpl; [done|by apply IH..]. Qed.

(** The cell of the focus' parent. *)
Lemma shape_parent D h0 h R t f k :
  shape D h0 h R t (f :: k) →
  h !! faddr f = Some (match f with
    | FL c a r => Cell (cpar k) (rootp r) (rootp t) (cz c)
    | FR c l a => Cell (cpar k) (rootp t) (rootp l) (cz c)
    end).
Proof. destruct f; [rewrite shape_FL|rewrite shape_FR]; apply shape_lookup. Qed.

(** The loop stops below a black parent. *)
Lemma insert_loop_stop D h0 h R c l a r f k fuel :
  shape D h0 h R (Node c l a r) (f :: k) → fcolor f = Black → fuel ≠ 0 →
  rb_insert_color_loop fuel (Some a) (Some R) h = Done (tt, h).
Proof.
  intros H Hf Hfuel. destruct fuel as [|fuel]; [done|]. pose proof (shape_lookup _ _ _ _ _ _ _ _ _ H) as Ha.
  pose proof (shape_parent _ _ _ _ _ _ _ H) as Hp.
  simpl. mstep. unfold is_red. cbn [nonnull]. destruct f; simpl in *; subst; by msteps.
Qed.

(** The loop after the second rotation: [p] is black, [g] red, and the node in
    focus below [p] is left as it is. *)
Lemma insert_loop_left D h0 h R l a r p s g u k fuel :
  fuel ≠ 0 → shape D h0 h R (Node Red (Node Black (Node Red l a r) p s) g u) k →
  ∃ h', (__rb_rotate_right (Some g) (Some R) ;;;
         rb_insert_color_loop fuel (Some a) (Some R)) h = Done (tt, h') ∧
        shape D h0 h' R (plug (Node Black (Node Red l a r) p (Node Red s g u)) k) [].
Proof.
  intros Hf H. apply rotate_right_run in H as (h1 & E & H). exists h1.
  rewrite (bnd_done _ _ _ _ _ E). split; [|by apply shape_plug in H].
  apply shape_FL in H. by eapply insert_loop_stop.
Qed.
Lemma insert_loop_right D h0 h R l a r p s g u k fuel :
  fuel ≠ 0 → shape D h0 h R (Node Red u g (Node Black s p (Node Red l a r))) k →
  ∃ h', (__rb_rotate_left (Some g) (Some R) ;;;
         rb_insert_color_loop fuel (Some a) (Some R)) h = Done (tt, h') ∧
        shape D h0 h' R (plug (Node Black (Node Red u g s) p (Node Red l a r)) k) [].
Proof.
  intros Hf H. apply rotate_left_run in H as (h1 & E & H). exists h1.
  rewrite (bnd_done _ _ _ _ _ E). split; [|by apply shape_plug in H].
  apply shape_FR in H. by eapply insert_loop_stop.
Qed.

(** Open a shape and pass its facts to [tac]. *)
Ltac open_shape H tac :=
  let Ht := fresh "Ht" in let Hk := fresh "Hk" in let Hnd := fresh "Hnd" in
  let HD := fresh "HD" in let Ho := fresh "Ho" in
  destruct H as (Ht & Hk & Hnd & HD & Ho); simpl in Ht, Hk; destruct_and?;
  tac Hnd HD Ho.
Lemma red_red : (RB_RED =? RB_RED)%Z = true. Proof. done. Qed.
Lemma black_red : (RB_BLACK =? RB_RED)%Z = false. Proof. done. Qed.
Lemma red_black : (RB_RED =? RB_BLACK)%Z = false. Proof. done. Qed.
Lemma black_black : (RB_BLACK =? RB_BLACK)%Z = true. Proof. done. Qed.
Create Rewrite HintDb colors.
#[export] Hint Rewrite red_red black_red red_black black_black : colors.

(** Run the code up to a call, on the cells of an opened shape. *)
Ltac crun :=
  repeat first [mstep | progress autorewrite with colors];
  cbn [negb andb orb].
Ltac run_cells Hnd := distinct Hnd; cbn [rb_insert_color_loop]; unfold is_red; crun.
(** A red uncle: recolour and go on from the grandparent. *)
Ltac recolor IH H E :=
  open_shape H ltac:(fun Hnd HD Ho =>
    run_cells Hnd; eapply IH; [| |exact E]; [lia|shape_fin Hnd HD Ho]).

(** A black uncle, node and parent on the same side: one rotation ends it. *)
Ltac rotate_end lem H E :=
  open_shape H ltac:(fun Hnd HD Ho =>
    run_cells Hnd; edestruct lem as (? & Erun & ?); cycle 2;
    [do 2 eexists; split; [exact Erun|];
     split; [eassumption|split; [by injection E|by apply plug_ne]]
    |lia|shape_fin Hnd HD Ho]).
(** On opposite sides: a first rotation [rot] at the parent. *)
Ltac rotate_twice rot refocus lem H E :=
  let H' := fresh in let h1 := fresh "h1" in let Erot := fresh "Erot" in
  let H1 := fresh "H1" in
  pose proof H as H'; apply refocus, rot in H' as (h1 & Erot & H1);
  open_shape H ltac:(fun Hnd HD Ho => run_cells Hnd);
  rewrite (bnd_done _ _ _ _ _ Erot); rotate_end lem H1 E.

Lemma insert_loop_run D h0 R fuel : ∀ k l a r h t',
  length k < fuel →
  shape D h0 h R (Node Red l a r) k → ins_fix (Node Red l a r) k = Some t' →
  ∃ h' t2, rb_insert_color_loop fuel (Some a) (Some R) h = Done (tt, h') ∧
           shape D h0 h' R t2 [] ∧ t' = set_black t2 ∧ t2 ≠ Leaf.
Proof.
  induction fuel as [|fuel IH]; intros k l a r h t' Hfuel H E; [lia|].
  destruct k as [|f k1].
  { pose proof (shape_lookup _ _ _ _ _ _ _ _ _ H) as Ha.
    exists h, (Node Red l a r). split_and!; [simpl; by msteps|done|by injection E|done]. }
  destruct (fcolor f) eqn:Ef; cycle 1.
  { exists h, (plug (Node Red l a r) (f :: k1)). split_and!.
    - by eapply insert_loop_stop.
    - by apply shape_plug in H.
    - simpl in E. rewrite Ef in E. by injection E.
    - by apply plug_ne. }
  destruct k1 as [|g k']; [simpl in E; by rewrite Ef in E|].
  simpl in Hfuel.
  destruct g as [gc g u|gc u g]; destruct f as [fc p s|fc s p]; simpl in Ef; subst fc;
    destruct u as [|[] ul u ur]; simpl in E; try (recolor IH H E).
  1,2: rotate_end insert_loop_left H E.
  1,2: rotate_twice rotate_left_run shape_FR insert_loop_left H E.
  1,2: rotate_twice rotate_right_run shape_FL insert_loop_right H E.
  all: rotate_end insert_loop_right H E.
Qed.

(** [rb_insert_color] computes [ins_fix] whenever that is defined. *)
Lemma rb_insert_color_run D h0 h R k l a r t' :
  shape D h0 h R (Node Red l a r) k → ins_fix (Node Red l a r) k = Some t' →
  ∃ h', rb_insert_color (Some a) (Some R) h = Done (tt, h') ∧ shape D h0 h' R t' [].
Proof.
  intros H E. pose proof (shape_objects _ _ _ _ _ _ H) as Hobj.
  destruct (insert_loop_run D h0 R (objects h) k l a r h t')
    as (h1 & t2 & Erun & H2 & -> & Hne); [lia|done..|].
  unfold rb_insert_color, bounded. erewrite bnd_done by exact Erun.
  destruct (shape_root _ _ _ _ _ H2) as (cR & HR & HRq).
  destruct t2 as [|c2 l2 a2 r2]; [done|].
  rewrite (ld_bnd _ _ _ _ _ HR), HRq.
  destruct (st_col_run _ _ _ _ _ _ _ _ _ Black (λ _, ret tt) H2) as (h' & _ & Est & H').
  by exists h'.
Qed.
