(* ===== verification/RbErase.v ===== *)
(** [__rb_erase_color] and [rb_erase] on the heap compute [del_fix] and
    [erase_at]. *)
From S2P Require Export RbInsert.

Lemma rootp_plug t f k : ∃ x, rootp (plug t (f :: k)) = Some x ∧ x ∈ cnodes (f :: k).
Proof.
  revert t f. induction k as [|g k IH]; intros t f.
  - exists (faddr f). destruct f; simpl; split; first [done|by left].
  - destruct (IH (plug1 t f) g) as (x & E & Hx). exists x. split; [done|].
    destruct f; simpl in *; set_solver.
Qed.

Lemma shape_root_ne D h0 h R t f k :
  shape D h0 h R t (f :: k) → ∃ c, h !! R = Some c ∧ rb_node c ≠ rootp t.
Proof.
  intros H. pose proof H as (_ & _ & Hnd & _). apply shape_plug in H.
  destruct (shape_root _ _ _ _ _ H) as (c & Hc & E). exists c. split; [done|].
  destruct (rootp_plug t f k) as (x & Ex & Hx). rewrite E, Ex. apply rootp_ne.
  intros Hxt. apply occ_in in Hxt, Hx. count Hnd x. simpl in Hx.
  destruct f; simpl in *; autorewrite with occ in *; lia.
Qed.

(** Leaving the loop with [break]: the whole tree, its root in [root->rb_node]. *)
Lemma break_ret D h0 h R t k :
  shape D h0 h R t k →
  ld rb_node (Some R) h = Done (rootp (plug t k), h) ∧ shape D h0 h R (plug t k) [].
Proof.
  intros H. apply shape_plug in H. split; [|done].
  destruct (shape_root _ _ _ _ _ H) as (c & Hc & <-). by erewrite ld_run by exact Hc.
Qed.

Definition after_tail D h0 R (k : ctx) (again : ptr → ptr → M heap ptr)
    (o : outcome (ptr * heap)) (v : verdict) : Prop :=
  match v with
  | Up t' => ∃ h', o = again (rootp t') (cpar k) h' ∧ shape D h0 h' R t' k
  | Fin t' => ∃ h', o = Done (rootp (plug t' k), h') ∧ shape D h0 h' R (plug t' k) []
  end.

(** The last rotation. *)
Lemma fin_left D h0 h R pc t p sl sa sr k :
  shape D h0 h R (Node Black t p (Node pc sl sa sr)) k →
  ∃ h', (__rb_rotate_left (Some p) (Some R) ;;; ld rb_node (Some R)) h =
          Done (rootp (plug (Node pc (Node Black t p sl) sa sr) k), h') ∧
        shape D h0 h' R (plug (Node pc (Node Black t p sl) sa sr) k) [].
Proof.
  intros H. apply rotate_left_run in H as (h1 & E & H). exists h1.
  rewrite (bnd_done _ _ _ _ _ E). by apply break_ret.
Qed.
Lemma fin_right D h0 h R pc t p sl sa sr k :
  shape D h0 h R (Node Black (Node pc sl sa sr) p t) k →
  ∃ h', (__rb_rotate_right (Some p) (Some R) ;;; ld rb_node (Some R)) h =
          Done (rootp (plug (Node pc sl sa (Node Black sr p t)) k), h') ∧
        shape D h0 h' R (plug (Node pc sl sa (Node Black sr p t)) k) [].
Proof.
  intros H. apply rotate_right_run in H as (h1 & E & H). exists h1.
  rewrite (bnd_done _ _ _ _ _ E). by apply break_ret.
Qed.

(** The end of the tail from colours and one rotation. *)
Ltac tail_up H :=
  open_shape H ltac:(fun Hnd HD Ho =>
    distinct Hnd; unfold is_black; crun;
    eexists; split; [done|shape_fin Hnd HD Ho]).
Ltac tail_fin lem H :=
  open_shape H ltac:(fun Hnd HD Ho =>
    distinct Hnd; unfold is_black; crun; eapply lem; shape_fin Hnd HD Ho).

(** A rotation at the sibling first: [t] is the tree after the recolouring. *)
Ltac tail_rotate rot refocus lem H t :=
  let H1 := fresh "Hrot" in let h1 := fresh "hrot" in let E1 := fresh "Erot" in
  match type of H with
  | shape ?D ?h0 _ ?R _ ?k =>
    open_shape H ltac:(fun Hnd HD Ho =>
      distinct Hnd; unfold is_black; crun;
      match goal with
      | |- context [bnd _ _ ?h] => assert (shape D h0 h R t k) as H1 by shape_fin Hnd HD Ho
      end)
  end;
  apply refocus, rot in H1 as (h1 & E1 & H1); apply refocus in H1;
  rewrite (bnd_done _ _ _ _ _ E1); tail_fin lem H1.

Lemma tail_left D h0 h R pc t p s k again v :
  shape D h0 h R (Node pc t p s) k → del_left t pc p s = Some v →
  after_tail D h0 R k again (erase_color_left again (rootp s) (Some p) (Some R) h) v.
Proof.
  intros H E. destruct s as [|sc sl sa sr]; [done|]. unfold erase_color_left.
  unfold del_left, is_blk in E.
  destruct sl as [|[] sll sla slr]; destruct sr as [|[] srl sra srr]; simpl in E;
    injection E as <-; simpl.
  1,3,7,9: tail_up H.
  1,3,5: tail_fin fin_left H.
  all: match type of H with
    | context [Node ?sc (Node Red ?sll ?sla ?slr) ?sa ?sr] =>
      tail_rotate rotate_right_run shape_FR fin_left H
        (Node pc t p (Node Red (Node Black sll sla slr) sa sr))
    end.
Qed.

Lemma tail_right D h0 h R pc t p s k again v :
  shape D h0 h R (Node pc s p t) k → del_right t pc p s = Some v →
  after_tail D h0 R k again (erase_color_right again (rootp s) (Some p) (Some R) h) v.
Proof.
  intros H E. destruct s as [|sc sl sa sr]; [done|]. unfold erase_color_right.
  unfold del_right, is_blk in E.
  destruct sr as [|[] srl sra srr]; destruct sl as [|[] sll sla slr]; simpl in E;
    injection E as <-; simpl.
  1,3,7,9: tail_up H.
  1,3,5: tail_fin fin_right H.
  all: match type of H with
    | context [Node ?sc ?sl ?sa (Node Red ?srl ?sra ?srr)] =>
      tail_rotate rotate_left_run shape_FL fin_right H
        (Node pc (Node Red sl sa (Node Black srl sra srr)) p t)
    end.
Qed.

Lemma del_left_up t pc p s t' : del_left t pc p s = Some (Up t') → tcolor t' = pc.
Proof. destruct s; simpl; repeat case_match; naive_solver. Qed.
Lemma del_right_up t pc p s t' : del_right t pc p s = Some (Up t') → tcolor t' = pc.
Proof. destruct s; simpl; repeat case_match; naive_solver. Qed.

(** The loop stops at a red node. *)
Lemma erase_loop_red D h0 h R t k fuel par :
  shape D h0 h R t k → tcolor t = Red → fuel ≠ 0 →
  __rb_erase_color_loop fuel (rootp t) par (Some R) h = Done (rootp t, h).
Proof.
  intros H Hc Hf. destruct fuel as [|fuel]; [done|]. cbn [__rb_erase_color_loop].
  erewrite bnd_done by (eapply is_black_run, H). rewrite Hc.
  apply shape_plug, shape_root in H as (c & HR & _). by msteps.
Qed.

(** The result of the loop: the node whose colour [__rb_erase_color] sets last. *)
Definition loop_result D h0 R (o : outcome (ptr * heap)) (t' : tree) : Prop :=
  ∃ h' t2 k2, o = Done (rootp t2, h') ∧ shape D h0 h' R t2 k2 ∧ t' = plug (set_black t2) k2.

Lemma after_tail_fin D h0 R k again o t' :
  after_tail D h0 R k again o (Fin t') →
  loop_result D h0 R o (set_black (plug t' k)).
Proof. intros (h' & -> & H). by exists h', (plug t' k), []. Qed.

(** After a red sibling was rotated away the lack stops at the red parent. *)
Lemma after_tail_red D h0 R k fuel o t' :
  fuel ≠ 0 → tcolor t' = Red →
  after_tail D h0 R k
    (λ node parent, __rb_erase_color_loop fuel node parent (Some R)) o (Up t') →
  loop_result D h0 R o (plug (set_black t') k).
Proof.
  intros Hf Hc (h' & -> & H). exists h', t', k. split_and!; [|done|done].
  by eapply erase_loop_red.
Qed.

(** The head of an iteration at a black node that is not the root. *)
Lemma erase_loop_head {B} D h0 h R t f k (K1 K2 : M heap B) :
  shape D h0 h R t (f :: k) → tcolor t = Black →
  (let* black := is_black (rootp t) in
   let* r := ld rb_node (Some R) in
   if negb (black && bool_decide (rootp t ≠ r)) then K1 else K2) h = K2 h.
Proof.
  intros H Hc. erewrite bnd_done by (eapply is_black_run, H).
  destruct (shape_root_ne _ _ _ _ _ _ _ H) as (c & HR & Hne). mstep.
  rewrite Hc, !bool_decide_true by done. done.
Qed.

(** A red sibling: [root] of it becomes the parent's parent. *)
Ltac red_sibling rot refocus H T :=
  let H1 := fresh "Hrot" in let h1 := fresh "hrot" in let E1 := fresh "Erot" in
  match type of H with
  | shape ?D ?h0 _ ?R _ _ =>
    let k := match type of H with shape _ _ _ _ _ (_ :: ?k) => k end in
    open_shape H ltac:(fun Hnd HD Ho =>
      distinct Hnd; cbn [rootp]; crun;
      match goal with
      | |- context [bnd _ _ ?h] => assert (shape D h0 h R T k) as H1 by shape_fin Hnd HD Ho
      end)
  end;
  apply rot in H1 as (h1 & E1 & H1); apply refocus in H1;
  rewrite (bnd_done _ _ _ _ _ E1);
  rewrite (ld_bnd _ _ _ _ _ (shape_lookup _ _ _ _ _ _ _ _ _ H1)); cbn [w0 w1 w2].

Lemma erase_loop_run D h0 R fuel : ∀ t k h t',
  length k < fuel → shape D h0 h R t k → del_fix t k = Some t' →
  loop_result D h0 R (__rb_erase_color_loop fuel (rootp t) (cpar k) (Some R) h) t'.
Proof.
  induction fuel as [|fuel IH]; intros t k h t' Hf H E; [lia|].
  destruct (tcolor t) eqn:Hc.
  { exists h, t, k. split_and!; [by eapply erase_loop_red|done|].
    destruct k; simpl in E; rewrite Hc in E; by injection E. }
  destruct k as [|f k].
  { exists h, t, []. split_and!; [|done|simpl in E; rewrite Hc in E; by injection E].
    cbn [__rb_erase_color_loop]. erewrite bnd_done by (eapply is_black_run, H).
    destruct (shape_root _ _ _ _ _ H) as (c & HR & E'). mstep.
    rewrite E', (bool_decide_false (_ ≠ _)), andb_comm by auto. done. }
  cbn [__rb_erase_color_loop]. cbv zeta. erewrite erase_loop_head by done.
  pose proof (shape_parent _ _ _ _ _ _ _ H) as Hp.
  cbn [length] in Hf. cbn [cpar]. mstep.
  destruct f as [pc p s|pc s p]; cbn [del_fix] in E; rewrite Hc in E; simpl in E.
  - simpl in Hp |- *. msteps. destruct s as [|[] sl sa sr]; [done| |].
    + destruct (del_left t Red p sl) as [v|] eqn:Ev; [|done].
      red_sibling rotate_left_run shape_FL H (Node Red t p (Node Black sl sa sr)).
      eapply tail_left in Ev as Hv; [|eassumption].
      destruct v as [t1|t1]; injection E as <-.
      * apply (after_tail_red D h0 R (FL Black sa sr :: k) fuel _ t1); [lia| |done].
        by eapply del_left_up.
      * apply (after_tail_fin D h0 R (FL Black sa sr :: k) _ _ t1 Hv).
    + destruct (del_left t pc p (Node Black sl sa sr)) as [v|] eqn:Ev; [|done].
      apply shape_FL in H. pose proof H as ((_ & _ & Hs & _) & _). cbn [rootp].
      cbn [cz] in *. crun.
      eapply tail_left in Ev; [|exact H].
      destruct v as [t1|t1].
      * destruct Ev as (h1 & E1 & H1). cbn [rootp] in E1. rewrite E1. apply IH; [lia|done..].
      * injection E as <-. eapply after_tail_fin, Ev.
  - simpl in Hp |- *. rewrite decide_False; cycle 1.
    { destruct s as [|sc sl sa sr]; [done|]. apply rootp_ne.
      destruct H as (_ & _ & Hnd & _). simpl in Hnd. sep Hnd. }
    mstep. destruct s as [|[] sl sa sr]; [done| |].
    + destruct (del_right t Red p sr) as [v|] eqn:Ev; [|done].
      red_sibling rotate_right_run shape_FR H (Node Red (Node Black sl sa sr) p t).
      eapply tail_right in Ev as Hv; [|eassumption].
      destruct v as [t1|t1]; injection E as <-.
      * apply (after_tail_red D h0 R (FR Black sl sa :: k) fuel _ t1); [lia| |done].
        by eapply del_right_up.
      * apply (after_tail_fin D h0 R (FR Black sl sa :: k) _ _ t1 Hv).
    + destruct (del_right t pc p (Node Black sl sa sr)) as [v|] eqn:Ev; [|done].
      apply shape_FR in H. pose proof H as ((_ & (Hs & _) & _) & _). cbn [rootp].
      cbn [cz] in *. crun.
      eapply tail_right in Ev; [|exact H].
      destruct v as [t1|t1].
      * destruct Ev as (h1 & E1 & H1). cbn [rootp] in E1. rewrite E1. apply IH; [lia|done..].
      * injection E as <-. eapply after_tail_fin, Ev.
Qed.

(** [__rb_erase_color] computes [del_fix] whenever that is defined. *)
Lemma erase_color_run D h0 h R t k t' :
  shape D h0 h R t k → del_fix t k = Some t' →
  ∃ h', __rb_erase_color (rootp t) (cpar k) (Some R) h = Done (tt, h') ∧
        shape D h0 h' R t' [].
Proof.
  intros H E. pose proof (shape_objects _ _ _ _ _ _ H) as Hobj.
  eapply (erase_loop_run D h0 R (objects h)) in E as (h1 & t2 & k2 & E1 & H2 & ->);
    [|lia|done].
  unfold __rb_erase_color, bounded. erewrite bnd_done by exact E1.
  destruct t2 as [|c l a r]; cbn [rootp nonnull].
  - exists h1. split; [done|]. exact (proj1 (shape_plug D h0 h1 R Leaf k2) H2).
  - destruct (st_col_run _ _ _ _ _ _ _ _ _ Black (λ _, ret tt) H2) as (h' & _ & Est & H').
    exists h'. split; [exact Est|]. exact (proj1 (shape_plug D h0 h' R (Node Black l a r) k2) H').
Qed.

Lemma unlink_color_run D h0 h R c t k t' :
  shape D h0 h R t k → unlink_at c t k = Some t' →
  ∃ h', (if (cz c =? RB_BLACK)%Z then __rb_erase_color (rootp t) (cpar k) (Some R)
         else ret tt) h = Done (tt, h') ∧ shape D h0 h' R t' [].
Proof.
  intros H E. rewrite cz_black. unfold unlink_at in E.
  destruct c; simpl in *.
  - exists h. split; [done|]. injection E as <-. by apply shape_plug in H.
  - by apply erase_color_run.
Qed.

Lemma seq_done {B} (m1 m2 : M heap unit) (K : M heap B) h h' :
  (m1 ;;; m2) h = Done (tt, h') → (m1 ;;; m2 ;;; K) h = K h'.
Proof. unfold bnd. destruct (m1 h) as [[[] h1]| | |]; [|done..]. by intros ->. Qed.

Lemma leftmost_app t k1 k2 :
  leftmost t (k1 ++ k2) =
  option_map (λ '(c, y, r, k), (c, y, r, k ++ k2)) (leftmost t k1).
Proof.
  revert k1. induction t as [|c l IHl a r _]; intros k1; [done|]. simpl.
  destruct l; [done|]. by rewrite <- (IHl (FL c a r :: k1)).
Qed.

(** The loop to the leftmost node. *)
Lemma go_left_run D h0 h R t k yc y yr k' fuel :
  shape D h0 h R t k → leftmost t k = Some (yc, y, yr, k') → length (inorder t) < fuel →
  go_left fuel (rootp t) h = Done (Some y, h) ∧ shape D h0 h R (Node yc Leaf y yr) k'.
Proof.
  revert k fuel. induction t as [|c l IHl a r _]; intros k fuel H E Hf; [done|].
  destruct fuel as [|fuel]; [lia|]. cbn [go_left rootp].
  pose proof (shape_lookup _ _ _ _ _ _ _ _ _ H) as Ha. mstep.
  simpl in E, Hf. rewrite length_app in Hf. simpl in Hf.
  destruct l as [|lc ll la lr]; [by injection E as <- <- <- <-|].
  apply shape_FL in H. simpl. apply (IHl (FL c a r :: k)); [done|done|lia].
Qed.

(** A node with at most one child. *)
Lemma erase_one_run D h0 h R c l a r t k t' :
  shape D h0 h R (Node c l a r) k → (l = Leaf ∧ t = r ∨ r = Leaf ∧ t = l) →
  unlink_at c t k = Some t' →
  ∃ h', (let* parent := ld rb_parent (Some a) in
         let* color := ld rb_color (Some a) in
         (if nonnull (rootp t) then st (set_rb_parent parent) (rootp t) else ret tt) ;;;
         replace_child (Some a) (rootp t) parent (Some R) ;;;
         if (color =? RB_BLACK)%Z then __rb_erase_color (rootp t) parent (Some R)
         else ret tt) h = Done (tt, h') ∧ shape D h0 h' R t' [].
Proof.
  intros H Ht E. pose proof (shape_lookup _ _ _ _ _ _ _ _ _ H) as Ha. do 2 mstep.
  destruct (unlink_run _ _ _ _ _ _ _ _ _ _ H Ht) as (h1 & E1 & H1 & _).
  rewrite (seq_done _ _ _ _ _ E1). by apply unlink_color_run.
Qed.

Lemma plug_two t kr c l a k :
  plug t (kr ++ FR c l a :: k) = plug (Node c l a (plug t kr)) k.
Proof. by rewrite plug_app. Qed.

(** The address of the parent after the successor has left its place: the node
    that is to be replaced, when the successor was its right child. *)
Lemma cpar_rename kr c l a y k :
  NoDup (a :: cnodes kr) →
  (if decide (cpar (kr ++ FR c l a :: k) = Some a) then Some y
   else cpar (kr ++ FR c l a :: k)) = cpar (kr ++ FR c l y :: k).
Proof.
  intros Hnd. destruct kr as [|f kr]; simpl; [by rewrite decide_True|].
  rewrite decide_False; [done|]. intros [= E]. apply NoDup_cons in Hnd as [Hn _].
  apply Hn. rewrite <- E. destruct f; simpl; set_solver.
Qed.

Lemma cnodes_plug t k : inorder t ++ cnodes k ≡ₚ inorder (plug t k).
Proof.
  rewrite inorder_plug, cnodes_perm, !(assoc_L (++)). f_equiv. apply Permutation_app_comm.
Qed.

(** The leftmost node is outside the tree it leaves. *)
Lemma unlinked_out D h0 h R yc y yr kr c l a k :
  shape D h0 h R (Node yc Leaf y yr) (kr ++ FR c l a :: k) →
  y ∉ R :: inorder (Node c l a (plug yr kr)) ++ cnodes k.
Proof.
  intros (_ & _ & Hnd & _). rewrite cnodes_plug, <- plug_two, <- cnodes_plug.
  sep Hnd.
Qed.

Lemma leftmost_nodup a r yc y yr kr :
  NoDup (a :: inorder r) → leftmost r [] = Some (yc, y, yr, kr) → NoDup (a :: cnodes kr).
Proof.
  intros Hnd E. destruct (leftmost_ok r []) as (yc' & y' & yr' & kr' & E' & Ep & _);
    [by destruct r|].
  rewrite E, app_nil_r in E'. injection E' as <- <- <- <-.
  rewrite <- Ep, <- cnodes_plug in Hnd. rewrite NoDup_occ. intros x. count Hnd x. simpl. lia.
Qed.

(** [rb_erase] computes [erase_at] whenever that is defined. *)
Lemma rb_erase_run D h0 h R c l a r k t' :
  shape D h0 h R (Node c l a r) k → erase_at c l a r k = Some t' →
  ∃ h', rb_erase (Some a) (Some R) h = Done (tt, h') ∧ shape D h0 h' R t' [].
Proof.
  intros H E. unfold rb_erase. pose proof (shape_lookup _ _ _ _ _ _ _ _ _ H) as Ha.
  do 2 mstep. unfold erase_at in E.
  destruct (rootp l) as [la|] eqn:El; cycle 1.
  { destruct l; [|done]. eapply erase_one_run; [done|by left|done]. }
  destruct (rootp r) as [ra|] eqn:Er; cycle 1.
  { destruct r; [|done]. destruct l as [|lc ll lb lr]; [done|].
    rewrite <- El. eapply erase_one_run; [done|by right|done]. }
  destruct (leftmost r []) as [[[[yc y] yr] kr]|] eqn:Ey; [|by destruct l, r].
  assert (unlink_at yc yr (kr ++ FR c l y :: k) = Some t') as E' by by destruct l, r.
  clear E. mstep.
  pose proof H as Hr. apply shape_FR in Hr.
  pose proof (leftmost_app r [] (FR c l a :: k)) as Ey'. rewrite Ey in Ey'. simpl in Ey'.
  pose proof (shape_objects _ _ _ _ _ _ Hr) as Hobj.
  destruct (go_left_run _ _ _ _ _ _ _ _ _ _ (objects h) Hr Ey') as [Ego Hy]; [lia|].
  rewrite Er in Ego. erewrite bnd_done by exact Ego.
  pose proof (shape_lookup _ _ _ _ _ _ _ _ _ Hy) as Hyc. do 3 mstep.
  destruct (unlink_run _ _ _ _ _ _ _ _ _ _ Hy (or_introl (conj eq_refl eq_refl)))
    as (h1 & E1 & H1 & Hy1).
  rewrite (seq_done _ _ _ _ _ E1). rewrite Hyc in Hy1. mstep.
  pose proof H1 as H1'. apply shape_plug in H1'. rewrite plug_two in H1'.
  apply (shape_plug _ _ _ _ (Node c l a (plug yr kr)) k) in H1'.
  assert (y ∈ D) as HyD by (eapply shape_in_D; [exact Hy|simpl; by left]).
  pose proof (unlinked_out _ _ _ _ _ _ _ _ _ _ _ _ Hy) as Hout.
  destruct (take_place_run D h0 h1 R c l a (plug yr kr) k y _ H1' ltac:(by destruct l)
    HyD Hout Hy1) as (h2 & E2 & H2).
  rewrite E2. apply shape_plug in H2. rewrite <- plug_two in H2.
  apply (shape_plug D h0 h2 R yr (kr ++ FR c l y :: k)) in H2.
  rewrite (cpar_rename kr c l a y k); [by apply unlink_color_run|].
  eapply leftmost_nodup; [|exact Ey]. destruct H as (_ & _ & Hnd & _).
  rewrite NoDup_occ. intros x. count Hnd x. simpl. lia.
Qed.
