(* ===== verification/RbCorrect.v ===== *)
(** What rbtree.c promises its callers: a tree in memory is a sequence of nodes;
    insertion adds one at the chosen place, erasure removes one, [rb_first],
    [rb_last], [rb_next] and [rb_prev] walk it. *)
From S2P Require Export RbErase.

(** The red-black tree [t] lies in memory below the [rb_root] at [R]. *)
Definition rb_at (h : heap) (R : loc) (t : tree) : Prop :=
  tree_at h None t ∧ (∃ c, h !! R = Some c ∧ rb_node c = rootp t) ∧
  NoDup (R :: inorder t) ∧ rb_tree t.

(** Everything outside the objects [D] is as before. *)
Definition framed (D : list loc) (h h' : heap) : Prop :=
  (∀ x, x ∉ D → h' !! x = h !! x) ∧ dom h' = dom h.

(** ** The code keeps the set of objects *)

Definition keeps {A} (m : M heap A) : Prop :=
  ∀ h a h', m h = Done (a, h') → dom h' = dom h.

Lemma keeps_ret {A} (a : A) : keeps (ret a).
Proof. by intros h b h' [= <- <-]. Qed.
Lemma keeps_bnd {A B} (m : M heap A) (k : A → M heap B) :
  keeps m → (∀ a, keeps (k a)) → keeps (bnd m k).
Proof.
  intros Hm Hk h b h' (a & h1 & E1 & E2)%bnd_done_inv.
  by rewrite (Hk _ _ _ _ E2), (Hm _ _ _ E1).
Qed.
Lemma keeps_ld {A} (f : cell → A) p : keeps (ld f p).
Proof. intros h a h' E. destruct p; simpl in E; [|done]. by case_match; simplify_eq. Qed.
Lemma keeps_st f p : keeps (st f p).
Proof.
  intros h a h' E. destruct p as [l|]; simpl in E; [|done]. case_match eqn:El; simplify_eq.
  rewrite dom_insert_L. apply elem_of_dom_2 in El. set_solver.
Qed.
Lemma keeps_nofuel {A} : keeps (nofuel : M heap A).
Proof. done. Qed.
Lemma keeps_bounded {A} f (m : nat → M heap A) : (∀ n, keeps (m n)) → keeps (bounded f m).
Proof. intros H h. apply H. Qed.
#[export] Hint Resolve keeps_ret keeps_bnd keeps_ld keeps_st keeps_nofuel keeps_bounded : kernel.

Ltac keep :=
  repeat first
    [ progress intros
    | apply keeps_bnd | apply keeps_ret | apply keeps_ld | apply keeps_st
    | apply keeps_nofuel | apply keeps_bounded
    | solve [eauto with kernel]
    | case_match ].

Lemma keeps_rotate_left n r : keeps (__rb_rotate_left n r).
Proof. unfold __rb_rotate_left. keep. Qed.
Lemma keeps_rotate_right n r : keeps (__rb_rotate_right n r).
Proof. unfold __rb_rotate_right. keep. Qed.
Lemma keeps_is_red p : keeps (is_red p).
Proof. unfold is_red. keep. Qed.
Lemma keeps_is_black p : keeps (is_black p).
Proof. unfold is_black. keep. Qed.
#[export] Hint Resolve keeps_rotate_left keeps_rotate_right keeps_is_red keeps_is_black : kernel.

Lemma keeps_insert_loop fuel n r : keeps (rb_insert_color_loop fuel n r).
Proof. revert n. induction fuel as [|fuel IH]; intros n; cbn [rb_insert_color_loop]; keep. Qed.
Lemma keeps_erase_left again o p r :
  (∀ n q, keeps (again n q)) → keeps (erase_color_left again o p r).
Proof. intros. unfold erase_color_left. keep. Qed.
Lemma keeps_erase_right again o p r :
  (∀ n q, keeps (again n q)) → keeps (erase_color_right again o p r).
Proof. intros. unfold erase_color_right. keep. Qed.
#[export] Hint Resolve keeps_insert_loop keeps_erase_left keeps_erase_right : kernel.
Lemma keeps_erase_loop fuel n p r : keeps (__rb_erase_color_loop fuel n p r).
Proof.
  revert n p. induction fuel as [|fuel IH]; intros n p; cbn [__rb_erase_color_loop]; keep.
Qed.
Lemma keeps_go_left fuel n : keeps (go_left fuel n).
Proof. revert n. induction fuel as [|fuel IH]; intros n; cbn [go_left]; keep. Qed.
Lemma keeps_replace_child n c p r : keeps (replace_child n c p r).
Proof. unfold replace_child. keep. Qed.
#[export] Hint Resolve keeps_erase_loop keeps_go_left keeps_replace_child : kernel.
Lemma keeps_erase_color n p r : keeps (__rb_erase_color n p r).
Proof. unfold __rb_erase_color. keep. Qed.
#[export] Hint Resolve keeps_erase_color : kernel.

Lemma keeps_rb_insert_color n r : keeps (rb_insert_color n r).
Proof. unfold rb_insert_color. keep. Qed.
Lemma keeps_rb_link_node n p l : keeps (rb_link_node n p l).
Proof. unfold rb_link_node, st_link. keep. Qed.
Lemma keeps_rb_erase n r : keeps (rb_erase n r).
Proof. unfold rb_erase. keep. Qed.
Lemma keeps_rb_replace_node v n r : keeps (rb_replace_node v n r).
Proof. unfold rb_replace_node. keep. Qed.
#[export] Hint Resolve keeps_rb_insert_color keeps_rb_link_node keeps_rb_erase
  keeps_rb_replace_node : kernel.

(** ** From sequences to shapes and back *)

Lemma rb_at_shape h R t extra :
  rb_at h R t → shape (R :: extra ++ inorder t) h h R t [].
Proof.
  intros (Ht & HR & Hnd & _). split_and!; [done|done|by rewrite app_nil_r| |done].
  intros x. rewrite app_nil_r, !elem_of_cons, elem_of_app. tauto.
Qed.
Lemma shape_rb_at D h0 h R t : shape D h0 h R t [] → rb_tree t → rb_at h R t.
Proof.
  intros (Ht & HR & Hnd & _) Hrb. rewrite app_nil_r in Hnd. by split_and!.
Qed.
Lemma shape_framed D h0 h R t k :
  shape D h0 h R t k → dom h = dom h0 → framed D h0 h.
Proof. by intros (_ & _ & _ & _ & Ho) ?. Qed.

(** Every place of a sequence is a node, or an empty place, of the tree. *)
Lemma focus t xs a ys :
  inorder t = xs ++ a :: ys → NoDup (inorder t) →
  ∃ c l r k, plug (Node c l a r) k = t ∧ xs = cl k ++ inorder l ∧ ys = inorder r ++ cr k.
Proof.
  intros E Hnd.
  assert (∃ c l r k, plug (Node c l a r) k = t) as (c & l & r & k & Ep).
  { assert (a ∈ inorder t) as Ha by (rewrite E; set_solver). clear E Hnd xs ys.
    induction t as [|c l IHl b r IHr]; simpl in Ha; [set_solver|].
    apply elem_of_app in Ha as [Ha|[->|Ha]%elem_of_cons].
    - destruct (IHl Ha) as (c' & l' & r' & k & <-).
      exists c', l', r', (k ++ [FL c b r]). by rewrite plug_app.
    - by exists c, l, r, [].
    - destruct (IHr Ha) as (c' & l' & r' & k & <-).
      exists c', l', r', (k ++ [FR c l b]). by rewrite plug_app. }
  exists c, l, r, k. split; [done|]. subst t. rewrite inorder_plug in E, Hnd. simpl in *.
  assert ((cl k ++ inorder l) ++ a :: (inorder r ++ cr k) = xs ++ a :: ys) as E'.
  { rewrite <- E. by assoc. }
  assert (NoDup ((cl k ++ inorder l) ++ a :: (inorder r ++ cr k))) as Hnd'.
  { revert Hnd. by assoc. }
  rewrite E' in Hnd'. apply NoDup_app_remove_mid in Hnd' as (_ & Hx & Hy).
  clear -E' Hx Hy. revert E'. generalize (cl k ++ inorder l) (inorder r ++ cr k).
  intros us vs. revert us. induction xs as [|x xs IH]; intros [|u us] E; simplify_eq/=.
  - done.
  - set_solver.
  - set_solver.
  - edestruct IH as [-> ->]; [set_solver|eassumption|done].
Qed.

(** ** Insertion and erasure *)

(** The caller's two calls: [rb_link_node] at an empty place, [rb_insert_color]. *)
Definition rb_insert_at (node parent : ptr) (lnk : link) (root : ptr) : M heap unit :=
  rb_link_node node parent lnk ;;; rb_insert_color node root.

Lemma rb_insert_at_ok h R k y :
  rb_at h R (plug Leaf k) → y ∉ R :: inorder (plug Leaf k) → is_Some (h !! y) →
  ∃ h' t', rb_insert_at (Some y) (cpar k) (hole R k) (Some R) h = Done (tt, h') ∧
    rb_at h' R t' ∧ inorder t' = cl k ++ y :: cr k ∧
    framed (R :: y :: inorder (plug Leaf k)) h h'.
Proof.
  intros H Hy [cy Hcy]. pose proof H as (_ & _ & _ & Hrb).
  apply (rb_at_shape _ _ _ [y]), shape_plug in H.
  destruct (link_node_run _ _ _ _ _ y cy H) as (h1 & E1 & H1); [set_solver| |done|].
  { rewrite <- cnodes_plug in Hy. by simpl in Hy. }
  destruct (insert_at_ok y k Hrb) as (t' & Ef & Hrb' & Hio).
  destruct (rb_insert_color_run _ _ _ _ _ _ _ _ _ H1 Ef) as (h' & E2 & H2).
  exists h', t'. split_and!; [|by eapply shape_rb_at|done|].
  { unfold rb_insert_at. by rewrite (bnd_done _ _ _ _ _ E1). }
  eapply shape_framed; [exact H2|].
  by rewrite (keeps_rb_insert_color _ _ _ _ _ E2), (keeps_rb_link_node _ _ _ _ _ _ E1).
Qed.

Lemma rb_erase_ok h R t xs a ys :
  rb_at h R t → inorder t = xs ++ a :: ys →
  ∃ h' t', rb_erase (Some a) (Some R) h = Done (tt, h') ∧
    rb_at h' R t' ∧ inorder t' = xs ++ ys ∧ framed (R :: inorder t) h h'.
Proof.
  intros H E. pose proof H as (_ & _ & Hnd & Hrb). apply NoDup_cons in Hnd as [_ Hnd].
  destruct (focus t xs a ys E Hnd) as (c & l & r & k & <- & -> & ->).
  apply (rb_at_shape _ _ _ []), shape_plug in H.
  destruct (erase_at_ok _ _ _ _ _ Hrb) as (t' & Ef & Hrb' & Hio).
  destruct (rb_erase_run _ _ _ _ _ _ _ _ _ _ H Ef) as (h' & E2 & H2).
  exists h', t'. split_and!; [done|by eapply shape_rb_at|rewrite Hio; by assoc|].
  eapply shape_framed; [exact H2|]. by eapply keeps_rb_erase.
Qed.

Lemma rb_replace_node_ok h R t xs a ys y :
  rb_at h R t → inorder t = xs ++ a :: ys → y ∉ R :: inorder t → is_Some (h !! y) →
  ∃ h' t', rb_replace_node (Some a) (Some y) (Some R) h = Done (tt, h') ∧
    rb_at h' R t' ∧ inorder t' = xs ++ y :: ys ∧ framed (R :: y :: inorder t) h h'.
Proof.
  intros H E Hy [cy Hcy]. pose proof H as (_ & _ & Hnd & Hrb). apply NoDup_cons in Hnd as [_ Hnd].
  destruct (focus t xs a ys E Hnd) as (c & l & r & k & <- & -> & ->).
  apply (rb_at_shape _ _ _ [y]), shape_plug in H. rewrite <- cnodes_plug in Hy.
  destruct (replace_node_run _ _ _ _ _ _ _ _ _ y cy H) as (h' & E2 & H2); [set_solver|done|done|].
  exists h', (plug (Node c l y r) k). split_and!; [done| | |].
  - eapply shape_rb_at; [by apply shape_plug in H2|].
    apply rbh_plug_inv in Hrb as (n & Hn & Hk & Hf). by apply (rbh_plug _ _ n).
  - rewrite inorder_plug. simpl. by assoc.
  - eapply shape_framed; [exact H2|]. by eapply keeps_rb_replace_node.
Qed.

(** ** Walking the tree *)

Lemma last_app_cons {A} (xs : list A) a ys : last (xs ++ a :: ys) = last (a :: ys).
Proof. induction xs as [|x xs IH]; [done|]. simpl. destruct xs; simpl in *; done. Qed.

(** [while (n->rb_left) n = n->rb_left;] ends at the first node of the subtree. *)
Lemma go_left_head h p t fuel :
  tree_at h p t → t ≠ Leaf → length (inorder t) < fuel →
  go_left fuel (rootp t) h = Done (head (inorder t), h).
Proof.
  revert p fuel. induction t as [|c l IHl a r _]; intros p fuel H Hne Hf; [done|].
  destruct fuel as [|fuel]; [lia|]. destruct H as (Ha & Hl & _). cbn [go_left rootp]. mstep.
  simpl in Hf. rewrite length_app in Hf. simpl in Hf.
  destruct l as [|lc ll la lr]; [done|]. cbn [rootp nonnull].
  etrans; [apply (IHl _ fuel Hl); [done|lia]|]. do 2 f_equal.
  simpl. by destruct (inorder ll).
Qed.
Lemma go_right_last h p t fuel :
  tree_at h p t → t ≠ Leaf → length (inorder t) < fuel →
  go_right fuel (rootp t) h = Done (last (inorder t), h).
Proof.
  revert p fuel. induction t as [|c l _ a r IHr]; intros p fuel H Hne Hf; [done|].
  destruct fuel as [|fuel]; [lia|]. destruct H as (Ha & _ & Hr). cbn [go_right rootp]. mstep.
  simpl in Hf. rewrite length_app in Hf. simpl in Hf. simpl. rewrite last_app_cons.
  destruct r as [|rc rl ra rr]; [done|]. cbn [rootp nonnull].
  etrans; [apply (IHr _ fuel Hr); [done|lia]|]. do 2 f_equal.
  cbn [inorder]. rewrite last_app_cons. symmetry. apply (last_app_cons (a :: inorder rl)).
Qed.

Lemma rb_at_objects h R t : rb_at h R t → length (inorder t) + 3 ≤ objects h.
Proof. intros H%(rb_at_shape _ _ _ [])%shape_objects. simpl in H. lia. Qed.

Lemma rb_first_ok h R t : rb_at h R t → rb_first (Some R) h = Done (head (inorder t), h).
Proof.
  intros H. pose proof (rb_at_objects _ _ _ H). destruct H as (Ht & (c & HR & E) & _).
  unfold rb_first. mstep. rewrite E. destruct t as [|tc l a r]; [done|].
  eapply go_left_head; [done..|lia].
Qed.
Lemma rb_last_ok h R t : rb_at h R t → rb_last (Some R) h = Done (last (inorder t), h).
Proof.
  intros H. pose proof (rb_at_objects _ _ _ H). destruct H as (Ht & (c & HR & E) & _).
  unfold rb_last. mstep. rewrite E. destruct t as [|tc l a r]; [done|].
  eapply go_right_last; [done..|lia].
Qed.

(** Climbing while the node is a right child ends at its successor. *)
Lemma rb_next_up_run D h0 h R t k fuel :
  shape D h0 h R t k → t ≠ Leaf → length k < fuel →
  rb_next_up fuel (rootp t) h = Done (head (cr k), h).
Proof.
  revert t fuel. induction k as [|f k IH]; intros t fuel H Hne Hf;
    (destruct fuel as [|fuel]; [simpl in Hf; lia|]); cbn [rb_next_up];
    (destruct t as [|c l a r]; [done|]); pose proof (shape_lookup _ _ _ _ _ _ _ _ _ H) as Ha;
    cbn [rootp]; mstep; [done|].
  pose proof (shape_parent _ _ _ _ _ _ _ H) as Hp. cbn [cpar nonnull]. mstep.
  destruct f as [fc p s|fc s p]; cbn [faddr w1].
  - rewrite decide_False; [done|]. apply rootp_ne.
    destruct H as (_ & _ & Hnd & _). simpl in Hnd. sep Hnd.
  - rewrite decide_True by done. apply (shape_FR D h0 h R _ fc p s k) in H.
    apply (IH _ fuel H); [done|simpl in Hf; lia].
Qed.
Lemma rb_prev_up_run D h0 h R t k fuel :
  shape D h0 h R t k → t ≠ Leaf → length k < fuel →
  rb_prev_up fuel (rootp t) h = Done (last (cl k), h).
Proof.
  revert t fuel. induction k as [|f k IH]; intros t fuel H Hne Hf;
    (destruct fuel as [|fuel]; [simpl in Hf; lia|]); cbn [rb_prev_up];
    (destruct t as [|c l a r]; [done|]); pose proof (shape_lookup _ _ _ _ _ _ _ _ _ H) as Ha;
    cbn [rootp]; mstep; [done|].
  pose proof (shape_parent _ _ _ _ _ _ _ H) as Hp. cbn [cpar nonnull]. mstep.
  destruct f as [fc p s|fc s p]; cbn [faddr w2].
  - rewrite decide_True by done. apply (shape_FL D h0 h R _ fc p s k) in H.
    apply (IH _ fuel H); [done|simpl in Hf; lia].
  - rewrite decide_False; cycle 1.
    { apply rootp_ne. destruct H as (_ & _ & Hnd & _). simpl in Hnd. sep Hnd. }
    simpl. rewrite (assoc_L (++)). by rewrite last_app_cons.
Qed.

Lemma rb_next_ok h R t xs a ys :
  rb_at h R t → inorder t = xs ++ a :: ys → rb_next (Some a) h = Done (head ys, h).
Proof.
  intros H E. pose proof (rb_at_objects _ _ _ H) as Hobj. pose proof H as (_ & _ & Hnd & _). apply NoDup_cons in Hnd as [_ Hnd].
  destruct (focus t xs a ys E Hnd) as (c & l & r & k & <- & -> & ->).
  apply (rb_at_shape _ _ _ []), shape_plug in H. unfold rb_next.
  pose proof (shape_lookup _ _ _ _ _ _ _ _ _ H) as Ha. mstep.
  pose proof (shape_objects _ _ _ _ _ _ H) as Hobj'. simpl in Hobj'. rewrite length_app in Hobj'. simpl in Hobj'.
  destruct r as [|rc rl ra rr]; cbn [rootp nonnull].
  - eapply (rb_next_up_run _ _ _ _ (Node c l a Leaf)); [exact H|done|lia].
  - destruct H as ((_ & _ & Hr) & _). unfold bounded.
    etrans; [apply (go_left_head _ _ (Node rc rl ra rr) _ Hr); [done|lia]|].
    do 2 f_equal. simpl. by destruct (inorder rl).
Qed.
Lemma rb_prev_ok h R t xs a ys :
  rb_at h R t → inorder t = xs ++ a :: ys → rb_prev (Some a) h = Done (last xs, h).
Proof.
  intros H E. pose proof H as (_ & _ & Hnd & _). apply NoDup_cons in Hnd as [_ Hnd].
  destruct (focus t xs a ys E Hnd) as (c & l & r & k & <- & -> & ->).
  apply (rb_at_shape _ _ _ []), shape_plug in H. unfold rb_prev.
  pose proof (shape_lookup _ _ _ _ _ _ _ _ _ H) as Ha. mstep.
  pose proof (shape_objects _ _ _ _ _ _ H) as Hobj. simpl in Hobj. rewrite length_app in Hobj.
  destruct l as [|lc ll la lr]; cbn [rootp nonnull].
  - rewrite app_nil_r. eapply (rb_prev_up_run _ _ _ _ (Node c Leaf a r)); [exact H|done|lia].
  - destruct H as ((_ & Hl & _) & _). unfold bounded.
    etrans; [apply (go_right_last _ _ (Node lc ll la lr) _ Hl); [done|lia]|].
    do 2 f_equal. simpl. by rewrite (assoc_L (++)), !last_app_cons.
Qed.

(** The caller's loops over a tree: [rb_first] and [rb_next], [rb_last] and
    [rb_prev]. *)
Fixpoint walk_next (fuel : nat) (p : ptr) : M heap (list loc) :=
  match fuel with
  | O => nofuel
  | S fuel =>
    match p with
    | None => ret []
    | Some a =>
      let* nx := rb_next p in
      let* l := walk_next fuel nx in
      ret (a :: l)
    end
  end.
Fixpoint walk_prev (fuel : nat) (p : ptr) : M heap (list loc) :=
  match fuel with
  | O => nofuel
  | S fuel =>
    match p with
    | None => ret []
    | Some a =>
      let* pv := rb_prev p in
      let* l := walk_prev fuel pv in
      ret (a :: l)
    end
  end.

Lemma walk_next_run h R t ys : ∀ xs fuel,
  rb_at h R t → inorder t = xs ++ ys → length ys < fuel →
  walk_next fuel (head ys) h = Done (ys, h).
Proof.
  induction ys as [|a ys IH]; intros xs fuel H E Hf;
    (destruct fuel as [|fuel]; [simpl in Hf; lia|]); cbn [walk_next head]; [done|].
  rewrite (bnd_done _ _ _ _ _ (rb_next_ok _ _ _ _ _ _ H E)).
  assert (walk_next fuel (head ys) h = Done (ys, h)) as E'.
  { apply (IH (xs ++ [a])); [done|by rewrite <- (assoc_L (++))|simpl in Hf; lia]. }
  by rewrite (bnd_done _ _ _ _ _ E').
Qed.
Lemma walk_prev_run h R t xs : ∀ ys fuel,
  rb_at h R t → inorder t = xs ++ ys → length xs < fuel →
  walk_prev fuel (last xs) h = Done (reverse xs, h).
Proof.
  induction xs as [|a xs IH] using rev_ind; intros ys fuel H E Hf;
    (destruct fuel as [|fuel]; [rewrite ?length_app in Hf; simpl in Hf; lia|]); [done|].
  rewrite last_snoc. cbn [walk_prev]. rewrite <- (assoc_L (++)) in E.
  rewrite (bnd_done _ _ _ _ _ (rb_prev_ok _ _ _ _ _ _ H E)).
  assert (walk_prev fuel (last xs) h = Done (reverse xs, h)) as E'.
  { apply (IH (a :: ys)); [done|done|rewrite length_app in Hf; simpl in Hf; lia]. }
  rewrite (bnd_done _ _ _ _ _ E'). by rewrite reverse_app.
Qed.
