(* ===== verification/PollerState.v ===== *)
(** poller.h and the data of poller.cc: the records, the state a poller works on,
    and the calls it makes on the system and on its client. *)
From S2P Require Export Dlist RbCorrect.

(** ** Constants *)

Definition PD_OP_TIMER : Z := 0.
Definition PD_OP_READ : Z := 1.
Definition PD_OP_WRITE : Z := 2.
Definition PD_OP_LISTEN : Z := 3.
Definition PD_OP_CONNECT : Z := 4.
Definition PD_OP_RECVFROM : Z := 5.
Definition PD_OP_EVENT : Z := 9.
Definition PD_OP_NOTIFY : Z := 10.

Definition PR_ST_SUCCESS : Z := 0.
Definition PR_ST_FINISHED : Z := 1.
Definition PR_ST_ERROR : Z := 2.
Definition PR_ST_DELETED : Z := 3.
Definition PR_ST_MODIFIED : Z := 4.
Definition PR_ST_STOPPED : Z := 5.

Definition POLLER_BUFSIZE : Z := 256 * 1024.
Definition POLLER_EVENTS_MAX : Z := 256.

(** epoll(7) and limits.h on Linux. *)
Definition EPOLLIN : Z := 1.
Definition EPOLLOUT : Z := 4.
Definition EPOLLET : Z := 2 ^ 31.
Definition IOV_MAX : Z := 1024.
Definition EPOLL_CTL_ADD : Z := 1.
Definition EPOLL_CTL_DEL : Z := 2.
Definition EPOLL_CTL_MOD : Z := 3.

(** ** Data *)

Record timespec : Type := TS { tv_sec : Z; tv_nsec : Z }.
#[export] Instance timespec_eq_dec : EqDecision timespec.
Proof. solve_decision. Defined.

(** A [struct iovec]: a position in the caller's data, and a length. *)
Record iovec : Type := Iov { iov_base : Z; iov_len : Z }.

(** The union [message] / [write_iov] / [result]: a pointer to an object, or into
    an array of iovecs. *)
Inductive upointer : Type :=
| UPtr (p : ptr)
| UIov (arr : loc) (pos : nat).

(** [struct poller_data]. [func] names the callback of the first union. *)
Record poller_data : Type := PData {
  operation : Z;
  iovcnt : Z;
  fd : Z;
  func : ptr;
  context : ptr;
  arg : upointer;
}.

(** [struct __poller_node] without the union [list] / [rb], whose words are the
    cell at the same address. *)
Record pnode : Type := PNode {
  state : Z;
  error : Z;
  data : poller_data;
  in_rbtree : bool;
  removed : bool;
  event : Z;
  timeout : timespec;
  res : ptr;
}.

(** [struct poller]. The [rb_root] [timeo_tree] is the object [timeo_root];
    the mutex is the atomicity of the critical sections. *)
Record poller : Type := Poller {
  max_open_files : Z;
  pfd : Z;
  timerfd : Z;
  pipe_rd : Z;
  pipe_wr : Z;
  stopped : Z;
  timeo_root : loc;
  tree_first : ptr;
  tree_last : ptr;
  timeo_list : ptr;
  no_timeo_list : ptr;
  nodes : list (option positive);
}.

(** ** Calls on the system and on the client *)

Inductive call : Type :=
| CEpollCtl (epfd op fd event : Z) (data : ptr)
| CTimerSet (fd : Z) (abstime : timespec)
| CWritePipe (fd : Z) (node : ptr)
| CReadPipe (fd : Z)
| CRead (fd size : Z)
| CReadEvent (fd : Z)
| CWriteEvent (fd cnt : Z)
| CWritev (fd : Z) (iov : list iovec)
| CAccept (fd : Z)
| CRecvfrom (fd : Z)
| CGetSockError (fd : Z)
| CEpollWait (epfd maxevents : Z)
| CAppend (msg : ptr) (off n : Z)
| CEpollCreate
| CTimerCreate
| CPipe
| CClose (fd : Z)
| CThreadCreate
| CThreadJoin
| CCallback (node : loc) (r : pnode).

(** What a poller works on: the link words and the other fields of its nodes,
    the iovec arrays, the [struct poller], errno and the calls made so far with
    their results, latest first. *)
Record pstate : Type := PState {
  mem : gmap positive cell;
  pnodes : gmap positive pnode;
  iovs : gmap positive (list iovec);
  po : poller;
  errno : Z;
  calls : list (call * Z);
}.

Definition set_mem (v : gmap positive cell) (s : pstate) : pstate :=
  PState v (pnodes s) (iovs s) (po s) (errno s) (calls s).
Definition set_pnodes (v : gmap positive pnode) (s : pstate) : pstate :=
  PState (mem s) v (iovs s) (po s) (errno s) (calls s).
Definition set_iovs (v : gmap positive (list iovec)) (s : pstate) : pstate :=
  PState (mem s) (pnodes s) v (po s) (errno s) (calls s).
Definition set_po (v : poller) (s : pstate) : pstate :=
  PState (mem s) (pnodes s) (iovs s) v (errno s) (calls s).
Definition set_errno (v : Z) (s : pstate) : pstate :=
  PState (mem s) (pnodes s) (iovs s) (po s) v (calls s).
Definition log (c : call) (r : Z) (s : pstate) : pstate :=
  PState (mem s) (pnodes s) (iovs s) (po s) (errno s) ((c, r) :: calls s).

(** Updates of fields. *)
Definition set_tree_first (p : ptr) (q : poller) : poller :=
  Poller (max_open_files q) (pfd q) (timerfd q) (pipe_rd q) (pipe_wr q) (stopped q)
    (timeo_root q) p (tree_last q) (timeo_list q) (no_timeo_list q) (nodes q).
Definition set_tree_last (p : ptr) (q : poller) : poller :=
  Poller (max_open_files q) (pfd q) (timerfd q) (pipe_rd q) (pipe_wr q) (stopped q)
    (timeo_root q) (tree_first q) p (timeo_list q) (no_timeo_list q) (nodes q).
Definition set_nodes (v : list (option positive)) (q : poller) : poller :=
  Poller (max_open_files q) (pfd q) (timerfd q) (pipe_rd q) (pipe_wr q) (stopped q)
    (timeo_root q) (tree_first q) (tree_last q) (timeo_list q) (no_timeo_list q) v.
Definition set_stopped (v : Z) (q : poller) : poller :=
  Poller (max_open_files q) (pfd q) (timerfd q) (pipe_rd q) (pipe_wr q) v
    (timeo_root q) (tree_first q) (tree_last q) (timeo_list q) (no_timeo_list q) (nodes q).
Definition set_timerfd (v : Z) (q : poller) : poller :=
  Poller (max_open_files q) (pfd q) v (pipe_rd q) (pipe_wr q) (stopped q)
    (timeo_root q) (tree_first q) (tree_last q) (timeo_list q) (no_timeo_list q) (nodes q).
Definition set_pfd (v : Z) (q : poller) : poller :=
  Poller (max_open_files q) v (timerfd q) (pipe_rd q) (pipe_wr q) (stopped q)
    (timeo_root q) (tree_first q) (tree_last q) (timeo_list q) (no_timeo_list q) (nodes q).
Definition set_pipes (rd wr : Z) (q : poller) : poller :=
  Poller (max_open_files q) (pfd q) (timerfd q) rd wr (stopped q)
    (timeo_root q) (tree_first q) (tree_last q) (timeo_list q) (no_timeo_list q) (nodes q).

Definition set_status (st err : Z) (n : pnode) : pnode :=
  PNode st err (data n) (in_rbtree n) (removed n) (event n) (timeout n) (res n).
Definition set_data (d : poller_data) (n : pnode) : pnode :=
  PNode (state n) (error n) d (in_rbtree n) (removed n) (event n) (timeout n) (res n).
Definition set_in_rbtree (b : bool) (n : pnode) : pnode :=
  PNode (state n) (error n) (data n) b (removed n) (event n) (timeout n) (res n).
Definition set_removed (b : bool) (n : pnode) : pnode :=
  PNode (state n) (error n) (data n) (in_rbtree n) b (event n) (timeout n) (res n).
Definition set_timeout (t : timespec) (n : pnode) : pnode :=
  PNode (state n) (error n) (data n) (in_rbtree n) (removed n) (event n) t (res n).
Definition set_res (p : ptr) (n : pnode) : pnode :=
  PNode (state n) (error n) (data n) (in_rbtree n) (removed n) (event n) (timeout n) p.

Definition set_arg (u : upointer) (d : poller_data) : poller_data :=
  PData (operation d) (iovcnt d) (fd d) (func d) (context d) u.
Definition set_iovcnt (n : Z) (d : poller_data) : poller_data :=
  PData (operation d) n (fd d) (func d) (context d) (arg d).

(** ** Primitive instructions *)

(** Code of list.h and rbtree.c, run on the links. *)
Definition lnk {A} (m : M (gmap positive cell) A) : M pstate A := zoom mem set_mem m.

(** Read, or change, fields of [*node] and of the poller. *)
Definition node_get {A} (f : pnode → A) (p : ptr) : M pstate A := λ s,
  match p with
  | None => UB
  | Some l => match pnodes s !! l with Some n => Done (f n, s) | None => UB end
  end.
Definition node_set (f : pnode → pnode) (p : ptr) : M pstate unit := λ s,
  match p with
  | None => UB
  | Some l =>
      match pnodes s !! l with
      | Some n => Done (tt, set_pnodes (<[l := f n]> (pnodes s)) s)
      | None => UB
      end
  end.
Definition pol {A} (f : poller → A) : M pstate A := gets (λ s, f (po s)).
Definition pol_set (f : poller → poller) : M pstate unit :=
  modify (λ s, set_po (f (po s)) s).
Definition get_errno : M pstate Z := gets errno.
Definition put_errno (e : Z) : M pstate unit := modify (set_errno e).

(** [poller->nodes[fd]]: outside the array is undefined behaviour. *)
Definition nodes_get (fd : Z) : M pstate ptr := λ s,
  if (fd <? 0)%Z then UB else
  match nodes (po s) !! Z.to_nat fd with Some p => Done (p, s) | None => UB end.
Definition nodes_set (fd : Z) (p : ptr) : M pstate unit := λ s,
  if (fd <? 0)%Z then UB else
  match nodes (po s) !! Z.to_nat fd with
  | Some _ => Done (tt, set_po (set_nodes (<[Z.to_nat fd := p]> (nodes (po s))) (po s)) s)
  | None => UB
  end.

(** The system: the result and the errno each call leaves, the clock, and the
    allocator. What they answer may depend on everything that happened before. *)
Class Env : Type := {
  sys_result : call → pstate → Z * Z;
  clock : pstate → timespec;
  malloc_addr : pstate → option positive;
  stack_addr : pstate → positive;
  pipe_fds : pstate → Z * Z;
  poller_alloc : pstate → bool;
  sock_error : pstate → Z;
  event_value : pstate → Z;
  pipe_data : pstate → list (option positive);
  epoll_events : pstate → list (option positive);
}.

(** The client: the functions a node's first union points to, and the [append] of
    a message. They may call back into the poller. *)
Class Client : Type := {
  create_message : ptr → ptr → M pstate ptr;
  append : ptr → Z → Z → M pstate (Z * Z);
  partial_written : ptr → Z → ptr → M pstate Z;
  accept_conn : ptr → Z → ptr → M pstate ptr;
  recv_dgram : ptr → Z → ptr → M pstate ptr;
  io_event : ptr → ptr → M pstate ptr;
}.

(** Memory is handed out fresh, and is not the address 1. *)
Class EnvLaws (E : Env) : Prop := {
  malloc_fresh s l : malloc_addr s = Some l →
    mem s !! l = None ∧ pnodes s !! l = None ∧ l ≠ 1%positive;
  stack_fresh s : mem s !! stack_addr s = None ∧ pnodes s !! stack_addr s = None;
}.

Section calls.
Context `{Env}.

Definition sys (c : call) : M pstate Z := λ s,
  let '(r, e) := sys_result c s in Done (r, log c r (set_errno e s)).

Definition clock_gettime : M pstate timespec := gets clock.

(** The words of fresh memory; nothing reads them before they are written. *)
Definition junk_cell : cell := Cell None None None 0.
Definition junk_node : pnode :=
  PNode 0 0 (PData 0 0 0 None None (UPtr None)) false false 0 (TS 0 0) None.

Definition malloc_node : M pstate ptr := λ s,
  match malloc_addr s with
  | Some l => Done (Some l, set_mem (<[l := junk_cell]> (mem s))
                             (set_pnodes (<[l := junk_node]> (pnodes s)) s))
  | None => Done (None, s)
  end.

(** [free(p)] of a node: of NULL it does nothing, of an address that is not
    allocated it is undefined behaviour. *)
Definition free_node (p : ptr) : M pstate unit := λ s,
  match p with
  | None => Done (tt, s)
  | Some l =>
      match pnodes s !! l with
      | Some _ => Done (tt, set_mem (delete l (mem s)) (set_pnodes (delete l (pnodes s)) s))
      | None => UB
      end
  end.

(** [poller->callback((struct poller_result * )node, poller->context)]: the
    client is handed the node as it is now. *)
Definition callback (p : ptr) : M pstate unit := λ s,
  match p with
  | None => UB
  | Some l =>
      match pnodes s !! l with
      | Some n => Done (tt, log (CCallback l n) 0 s)
      | None => UB
      end
  end.
End calls.

(** ** Running the instructions *)

Lemma lnk_bnd {A B} (m : M (gmap positive cell) A) (k : A → M pstate B) s a h :
  m (mem s) = Done (a, h) → bnd (lnk m) k s = k a (set_mem h s).
Proof. intros E. unfold bnd, lnk, zoom. by rewrite E. Qed.
Lemma node_get_bnd {A B} (f : pnode → A) l (k : A → M pstate B) s n :
  pnodes s !! l = Some n → bnd (node_get f (Some l)) k s = k (f n) s.
Proof. intros E. apply bnd_done. simpl. by rewrite E. Qed.
Lemma node_set_bnd {B} f l (k : unit → M pstate B) s n :
  pnodes s !! l = Some n →
  bnd (node_set f (Some l)) k s = k tt (set_pnodes (<[l := f n]> (pnodes s)) s).
Proof. intros E. apply bnd_done. simpl. by rewrite E. Qed.
Lemma pol_bnd {A B} (f : poller → A) (k : A → M pstate B) s :
  bnd (pol f) k s = k (f (po s)) s.
Proof. done. Qed.
Lemma pol_set_bnd {B} f (k : unit → M pstate B) s :
  bnd (pol_set f) k s = k tt (set_po (f (po s)) s).
Proof. done. Qed.

Lemma set_mem_id s : set_mem (mem s) s = s.
Proof. by destruct s. Qed.
(** Code that only reads the links. *)
Lemma lnk_read {A B} (m : M (gmap positive cell) A) (k : A → M pstate B) s a :
  m (mem s) = Done (a, mem s) → bnd (lnk m) k s = k a s.
Proof. intros E. rewrite (lnk_bnd _ _ _ _ _ E). by rewrite set_mem_id. Qed.

Lemma lnk_seq {A B} (m : M (gmap positive cell) A) (k : A → M (gmap positive cell) B) s :
  bnd (lnk m) (λ a, lnk (k a)) s = lnk (bnd m k) s.
Proof.
  unfold lnk, zoom, bnd. destruct (m (mem s)) as [[a h]| | |]; [|done..]. simpl.
  by destruct (k a h) as [[b h']| | |].
Qed.

(** Run the instructions that need no facts about the state. *)
Ltac pstep :=
  first
    [ rewrite pol_bnd | rewrite pol_set_bnd | rewrite gets_bnd | rewrite modify_bnd
    | rewrite ret_bnd | rewrite bnd_assoc
    | progress cbn [nonnull negb andb orb] ].
Ltac psteps := repeat pstep.
