(* ===== verification/TimerTree.v ===== *)
(** The timer tree of poller.cc: [__poller_tree_insert] and [__poller_tree_erase]
    keep a queue of nodes sorted by their timeouts, first come first served. *)
From stdpp Require Export sorting.
From S2P Require Export PollerState.

(** [node1->timeout - node2->timeout], in [long]s. *)
Definition timeout_diff (t1 t2 : timespec) : Z :=
  let ret := i64 (tv_sec t1 - tv_sec t2) in
  if (ret =? 0)%Z then i64 (tv_nsec t1 - tv_nsec t2) else ret.

Definition __timeout_cmp (node1 node2 : ptr) : M pstate Z :=
  let* t1 := node_get timeout node1 in
  let* t2 := node_get timeout node2 in
  ret (timeout_diff t1 t2).

(** The loop of [__poller_tree_insert]: the new parent and the link below it. *)
Fixpoint tree_descend (fuel : nat) (node : ptr) (p : link) : M pstate (ptr * link) :=
  match fuel with
  | O => nofuel
  | S fuel =>
    let* parent := lnk (ld_link p) in
    let* c := __timeout_cmp node parent in
    let p := if (c <? 0)%Z then Link parent SLeft else Link parent SRight in
    let* below := lnk (ld_link p) in
    if nonnull below then tree_descend fuel node p else ret (parent, p)
  end.

Definition __poller_tree_insert (node : ptr) : M pstate unit :=
  let* root := pol timeo_root in
  let p := Link (Some root) SRoot in
  let* entry := pol tree_last in
  let* top := lnk (ld_link p) in
  let* (parent, p) :=
    (if negb (nonnull top) then
       pol_set (set_tree_first node) ;;;
       pol_set (set_tree_last node) ;;;
       ret (None, p)
     else
       let* c := __timeout_cmp node entry in
       if (0 <=? c)%Z then
         let* parent := pol tree_last in
         pol_set (set_tree_last node) ;;;
         ret (parent, Link parent SRight)
       else
         let* (parent, p) :=
           bounded (λ s, objects (mem s)) (λ fuel, tree_descend fuel node p) in
         let* tf := pol tree_first in
         (if decide (p = Link tf SLeft) then pol_set (set_tree_first node) else ret tt) ;;;
         ret (parent, p)) in
  node_set (set_in_rbtree true) node ;;;
  lnk (rb_link_node node parent p) ;;;
  lnk (rb_insert_color node (Some root)).

Definition __poller_tree_erase (node : ptr) : M pstate unit :=
  let* tf := pol tree_first in
  (if decide (node = tf) then
     let* nx := lnk (rb_next node) in pol_set (set_tree_first nx)
   else ret tt) ;;;
  let* tl := pol tree_last in
  (if decide (node = tl) then
     let* pv := lnk (rb_prev node) in pol_set (set_tree_last pv)
   else ret tt) ;;;
  let* root := pol timeo_root in
  lnk (rb_erase node (Some root)) ;;;
  node_set (set_in_rbtree false) node.

(** ** The order of timeouts *)

(** A normalised time, within 2^62 seconds of the clock's origin. *)
Definition ts_ok (t : timespec) : Prop :=
  (0 ≤ tv_nsec t < 1000000000 ∧ -(2 ^ 61) ≤ tv_sec t < 2 ^ 61)%Z.
#[export] Instance ts_ok_dec t : Decision (ts_ok t).
Proof. unfold ts_ok. apply _. Defined.

(** Its value in nanoseconds. *)
Definition ns (t : timespec) : Z := (tv_sec t * 1000000000 + tv_nsec t)%Z.

(** The sign of [__timeout_cmp] orders normalised times by their value. *)
Lemma timeout_diff_sign t1 t2 :
  ts_ok t1 → ts_ok t2 →
  (timeout_diff t1 t2 < 0 ↔ ns t1 < ns t2)%Z ∧ (timeout_diff t1 t2 = 0 ↔ ns t1 = ns t2)%Z.
Proof.
  intros [Hn1 Hs1] [Hn2 Hs2]. unfold timeout_diff, ns.
  rewrite (i64_small (tv_sec t1 - tv_sec t2)) by lia.
  destruct (tv_sec t1 - tv_sec t2 =? 0)%Z eqn:E.
  - rewrite i64_small by lia. lia.
  - lia.
Qed.
Lemma timeout_diff_neg t1 t2 :
  ts_ok t1 → ts_ok t2 → (timeout_diff t1 t2 <? 0)%Z = bool_decide (ns t1 < ns t2)%Z.
Proof.
  intros H1 H2. apply eq_bool_prop_intro. rewrite bool_decide_spec, Is_true_true, Z.ltb_lt.
  by apply timeout_diff_sign.
Qed.

(** ** Places in a tree *)

Section place.
Context (lt : loc → bool).

(** Where the descent ends: left of a node for which [lt] holds, right of it
    otherwise. *)
Fixpoint place (t : tree) (k : ctx) : ctx :=
  match t with
  | Leaf => k
  | Node c l a r => if lt a then place l (FL c a r :: k) else place r (FR c l a :: k)
  end.

Lemma place_plug t k : plug Leaf (place t k) = plug t k.
Proof.
  revert k. induction t as [|c l IHl a r IHr]; intros k; [done|]. simpl.
  destruct (lt a); [apply IHl|apply IHr].
Qed.

(** [lt] splits the sequence. *)
Definition splits (q : list loc) : Prop :=
  ∃ xs ys, q = xs ++ ys ∧ (∀ x, x ∈ xs → lt x = false) ∧ (∀ y, y ∈ ys → lt y = true).

Lemma splits_mono q : StronglySorted (λ x y, lt x = true → lt y = true) q → splits q.
Proof.
  induction 1 as [|x q _ (xs & ys & -> & Hx & Hy) Hall]; [exists [], []; set_solver|].
  destruct (lt x) eqn:E.
  - exists [], (x :: xs ++ ys). rewrite Forall_forall in Hall.
    split_and!; [done|set_solver|]. intros y [->|?]%elem_of_cons; auto.
  - exists (x :: xs), ys. split_and!; [done| |done].
    intros y [->|?]%elem_of_cons; auto.
Qed.

Lemma place_cl_cr t : ∀ k xs ys,
  inorder t = xs ++ ys → (∀ x, x ∈ xs → lt x = false) → (∀ y, y ∈ ys → lt y = true) →
  cl (place t k) = cl k ++ xs ∧ cr (place t k) = ys ++ cr k.
Proof.
  induction t as [|c l IHl a r IHr]; intros k xs ys E Hx Hy; simpl in E.
  - symmetry in E. apply app_eq_nil in E as [-> ->]. simpl. by rewrite app_nil_r.
  - simpl. destruct (lt a) eqn:Ea.
    + apply app_split in E as [(us & El & ->)|(us & -> & _)];
        [|rewrite Hx in Ea; [done|set_solver]].
      destruct (IHl (FL c a r :: k) xs us El) as [-> ->]; [done|set_solver|]. simpl. by assoc.
    + apply app_split in E as [(us & _ & ->)|(us & -> & Er)];
        [rewrite Hy in Ea; [done|set_solver]|].
      destruct (IHr (FR c l a :: k) us ys Er) as [-> ->]; [set_solver|done|]. simpl. by assoc.
Qed.
End place.

(** ** The descent *)

Lemma hole_ld D h0 h R t k :
  shape D h0 h R t k → ld_link (hole R k) h = Done (rootp t, h).
Proof.
  intros H. destruct k as [|f k]; [apply shape_root in H as (c & HR & <-)|
    pose proof (shape_parent _ _ _ _ _ _ _ H) as Hp; destruct f];
    unfold ld_link; cbn [hole link_slot link_obj faddr] in *; by msteps.
Qed.

(** The deadline of a node, in nanoseconds. *)
Definition deadline (s : pstate) (x : loc) : Z :=
  match pnodes s !! x with Some n => ns (timeout n) | None => 0%Z end.
(** The node has a normalised timeout. *)
Definition timed (s : pstate) (x : loc) : Prop :=
  ∃ n, pnodes s !! x = Some n ∧ ts_ok (timeout n).
(** [y] expires before [x]. *)
Definition before (s : pstate) (y x : loc) : bool :=
  bool_decide (deadline s y < deadline s x)%Z.

Lemma timeout_cmp_run s x y :
  timed s x → timed s y →
  ∃ c, __timeout_cmp (Some x) (Some y) s = Done (c, s) ∧
    (c <? 0)%Z = before s x y ∧ (0 <=? c)%Z = negb (before s x y).
Proof.
  intros (nx & Hx & Ox) (ny & Hy & Oy). exists (timeout_diff (timeout nx) (timeout ny)).
  unfold __timeout_cmp. rewrite (node_get_bnd _ _ _ _ _ Hx), (node_get_bnd _ _ _ _ _ Hy).
  split; [done|]. unfold before, deadline. rewrite Hx, Hy, <- timeout_diff_neg by done.
  split; [done|]. by rewrite Z.leb_antisym.
Qed.

Lemma tree_descend_run D h0 s R y t : ∀ k fuel,
  shape D h0 (mem s) R t k → t ≠ Leaf → timed s y → (∀ x, x ∈ inorder t → timed s x) →
  length (inorder t) < fuel →
  let k' := place (before s y) t k in
  tree_descend fuel (Some y) (hole R k) s = Done ((cpar k', hole R k'), s).
Proof.
  induction t as [|c l IHl a r IHr]; intros k fuel H Hne Hy Hx Hf; [done|].
  destruct fuel as [|fuel]; [lia|]. simpl in Hx, Hf. rewrite length_app in Hf. simpl in Hf.
  cbn [tree_descend]. rewrite (lnk_read _ _ _ _ (hole_ld _ _ _ _ _ _ H)). cbn [rootp].
  destruct (timeout_cmp_run s y a) as (z & Ez & Ec & _); [done|apply Hx; set_solver|].
  rewrite (bnd_done _ _ _ _ _ Ez), Ec. cbn [place].
  destruct (before s y a).
  - apply shape_FL in H. change (Link (Some a) SLeft) with (hole R (FL c a r :: k)).
    rewrite (lnk_read _ _ _ _ (hole_ld _ _ _ _ _ _ H)).
    destruct l as [|lc ll la lr] eqn:El; [done|]. rewrite <- El in *.
    replace (nonnull (rootp l)) with true by by subst.
    apply IHl; [done|by subst|done|set_solver|lia].
  - apply shape_FR in H. change (Link (Some a) SRight) with (hole R (FR c l a :: k)).
    rewrite (lnk_read _ _ _ _ (hole_ld _ _ _ _ _ _ H)).
    destruct r as [|rc rl ra rr] eqn:Er; [done|]. rewrite <- Er in *.
    replace (nonnull (rootp r)) with true by by subst.
    apply IHr; [done|by subst|done|set_solver|lia].
Qed.

(** Appending at the end is the descent that always turns right. *)
Lemma place_last lt t k a :
  (∀ x, x ∈ inorder t → lt x = false) → last (inorder t) = Some a →
  cpar (place lt t k) = Some a ∧ ∀ R, hole R (place lt t k) = Link (Some a) SRight.
Proof.
  revert k. induction t as [|c l _ b r IHr]; intros k Hlt E; [done|]. simpl in *.
  rewrite last_app_cons in E. rewrite Hlt by set_solver.
  destruct (inorder r) as [|x xs] eqn:Er.
  - simplify_eq/=. destruct r as [|rc rl ra rr]; [done|]. simpl in Er.
    by apply app_eq_nil in Er as [_ ?].
  - apply IHr; [set_solver|done].
Qed.

(** Whether the descent ended below the first node, on its left. *)
Lemma place_first lt t a R :
  NoDup (inorder t) → head (inorder t) = Some a → t ≠ Leaf →
  hole R (place lt t []) = Link (Some a) SLeft ↔ cl (place lt t []) = [].
Proof.
  intros Hnd E Hne. pose proof (inorder_plug Leaf (place lt t [])) as Ep.
  rewrite place_plug in Ep. simpl in Ep. rewrite Ep in E, Hnd.
  assert (place lt t [] ≠ []) as Hk.
  { intros Ek. pose proof (place_plug lt t []) as Epl. rewrite Ek in Epl. by simpl in Epl. }
  revert E Hnd Hk. generalize (place lt t []) as k. clear. intros k E Hnd Hk.
  destruct k as [|[c b r|c l b] k]; simpl in *; [done| |].
  - destruct (cl k) as [|x xs] eqn:Ec; simpl in *; simplify_eq; [done|].
    split; [|done]. intros [= ->]. apply NoDup_cons in Hnd as [Hn _]. set_solver.
  - split; [done|]. intros Ec. by apply app_eq_nil in Ec as [_ [_ ?]%app_eq_nil].
Qed.

(** ** The timer queue *)

(** The tree holds the nodes [q] in the order of their deadlines, and
    [tree_first] and [tree_last] point to its ends. *)
Definition tq (s : pstate) (q : list loc) : Prop :=
  (∃ t, rb_at (mem s) (timeo_root (po s)) t ∧ inorder t = q) ∧
  tree_first (po s) = head q ∧ tree_last (po s) = last q ∧
  (∀ x, x ∈ q → timed s x) ∧
  StronglySorted (λ x y, deadline s x ≤ deadline s y)%Z q.

(** First come, first served: [y] goes behind the nodes whose deadline is not
    later than its own. *)
Definition tq_insert (s : pstate) (y : loc) (q : list loc) : list loc :=
  filter (λ x, before s y x = false) q ++ y :: filter (λ x, before s y x = true) q.

Lemma filter_splits (p : loc → bool) xs ys :
  (∀ x, x ∈ xs → p x = false) → (∀ y, y ∈ ys → p y = true) →
  filter (λ x, p x = false) (xs ++ ys) = xs ∧ filter (λ x, p x = true) (xs ++ ys) = ys.
Proof.
  intros Hx Hy. rewrite !filter_app.
  assert (filter (λ x, p x = false) xs = xs ∧ filter (λ x, p x = true) xs = []) as [-> ->].
  { clear Hy. induction xs as [|x xs IH]; [done|]. rewrite !filter_cons.
    rewrite Hx by set_solver. simpl. destruct IH as [-> ->]; [set_solver|done]. }
  assert (filter (λ x, p x = false) ys = [] ∧ filter (λ x, p x = true) ys = ys) as [-> ->].
  { clear Hx. induction ys as [|x ys IH]; [done|]. rewrite !filter_cons.
    rewrite Hy by set_solver. simpl. destruct IH as [-> ->]; [set_solver|done]. }
  by rewrite app_nil_r.
Qed.

Lemma StronglySorted_weaken {A} (P Q : A → A → Prop) l :
  (∀ x y, P x y → Q x y) → StronglySorted P l → StronglySorted Q l.
Proof.
  intros H. induction 1 as [|x l _ IH Hall]; constructor; [done|].
  eapply Forall_impl; [exact Hall|auto].
Qed.

Lemma tq_splits s q y :
  StronglySorted (λ x y, deadline s x ≤ deadline s y)%Z q → splits (before s y) q.
Proof.
  intros H. apply splits_mono. eapply StronglySorted_weaken; [|exact H].
  intros a b Hab. simpl in Hab. unfold before. rewrite !bool_decide_eq_true. lia.
Qed.

(** The poller's pointers to the ends of the queue. *)
Definition set_ends (q : list loc) (p : poller) : poller :=
  set_tree_first (head q) (set_tree_last (last q) p).
Lemma set_ends_id q p : tree_first p = head q → tree_last p = last q → set_ends q p = p.
Proof. destruct p; simpl. by intros -> ->. Qed.

(** The state after the tree code: new links, the node's flag, the ends. *)
Definition tree_state (s : pstate) h y (n : pnode) (q : list loc) : pstate :=
  PState h (<[y := n]> (pnodes s)) (iovs s) (set_ends q (po s)) (errno s) (calls s).

Lemma deadline_update s s' y n n' :
  pnodes s !! y = Some n → timeout n' = timeout n → pnodes s' = <[y := n']> (pnodes s) →
  (∀ x, deadline s' x = deadline s x) ∧ (∀ x, timed s x → timed s' x).
Proof.
  intros Hn Ht E. unfold deadline, timed. rewrite E. split; intros x.
  - destruct (decide (y = x)) as [<-|Hx]; [by rewrite lookup_insert_eq, Hn, Ht|].
    by rewrite lookup_insert_ne.
  - destruct (decide (y = x)) as [<-|Hx]; [rewrite lookup_insert_eq|by rewrite lookup_insert_ne].
    intros (m & Hm & Ok). rewrite Hn in Hm. injection Hm as <-. exists n'. by rewrite Ht.
Qed.

(** Inserting into a sorted queue keeps it sorted. *)
Lemma tq_insert_sorted s y q :
  StronglySorted (λ x y, deadline s x ≤ deadline s y)%Z q →
  StronglySorted (λ x y, deadline s x ≤ deadline s y)%Z (tq_insert s y q).
Proof.
  intros H. destruct (tq_splits s q y H) as (xs & ys & -> & Hx & Hy). unfold tq_insert.
  destruct (filter_splits (before s y) xs ys Hx Hy) as [-> ->].
  rewrite !StronglySorted_app in *. destruct H as (Hxy & Hxs & Hys).
  unfold before in *. setoid_rewrite bool_decide_eq_true in Hy.
  setoid_rewrite bool_decide_eq_false in Hx.
  split_and!; [|done|].
  - intros a b Ha [->|Hb]%elem_of_cons; [specialize (Hx _ Ha); lia|by apply Hxy].
  - constructor; [done|]. rewrite Forall_forall. intros a Ha. specialize (Hy _ Ha). lia.
Qed.

(** Choosing the place, and moving the ends. *)
Definition tree_place (node entry top : ptr) (root : loc) : M pstate (ptr * link) :=
  let p := Link (Some root) SRoot in
  if negb (nonnull top) then
    pol_set (set_tree_first node) ;;;
    pol_set (set_tree_last node) ;;;
    ret (None, p)
  else
    let* c := __timeout_cmp node entry in
    if (0 <=? c)%Z then
      let* parent := pol tree_last in
      pol_set (set_tree_last node) ;;;
      ret (parent, Link parent SRight)
    else
      let* (parent, p) :=
        bounded (λ s, objects (mem s)) (λ fuel, tree_descend fuel node p) in
      let* tf := pol tree_first in
      (if decide (p = Link tf SLeft) then pol_set (set_tree_first node) else ret tt) ;;;
      ret (parent, p).

Lemma set_po_id s p : po s = p → set_po p s = s.
Proof. intros <-. by destruct s. Qed.
Lemma set_first_id p q : tree_first p = q → set_tree_first q p = p.
Proof. intros <-. by destruct p. Qed.
Lemma set_last_id p q : tree_last p = q → set_tree_last q p = p.
Proof. intros <-. by destruct p. Qed.
Lemma set_last_first p a b :
  set_tree_last a (set_tree_first b p) = set_tree_first b (set_tree_last a p).
Proof. done. Qed.

Lemma tree_place_run s t y :
  rb_at (mem s) (timeo_root (po s)) t → tq s (inorder t) → timed s y →
  let k := place (before s y) t [] in
  tree_place (Some y) (tree_last (po s)) (rootp t) (timeo_root (po s)) s =
  Done ((cpar k, hole (timeo_root (po s)) k),
        set_po (set_ends (cl k ++ y :: cr k) (po s)) s).
Proof.
  intros Ht (_ & Hf & Hl & Htm & Hsort) Hy k. unfold tree_place.
  pose proof Ht as (_ & _ & Hnd & _). apply NoDup_cons in Hnd as [_ Hnd].
  destruct (tq_splits s _ y Hsort) as (xs & ys & E & Hx & Hys).
  destruct (place_cl_cr _ _ [] _ _ E Hx Hys) as [Ecl Ecr]. fold k in Ecl, Ecr.
  simpl in Ecl. rewrite app_nil_r in Ecr. unfold set_ends.
  assert (t = Leaf ∨ t ≠ Leaf ∧ inorder t ≠ [] ∧ nonnull (rootp t) = true)
    as [->|(Hne' & Hne & Hnn)].
  { destruct t as [|c l a r]; [by left|right]. split_and!; [done| |done].
    simpl. by destruct (inorder l). }
  { done. }
  rewrite Hnn. cbn [negb].
  destruct (last (inorder t)) as [z|] eqn:El; [|by apply last_None in El].
  rewrite Hl. destruct (timeout_cmp_run s y z) as (v & Ev & _ & Ec); [done| |].
  { apply Htm. by apply last_Some_elem_of. }
  rewrite (bnd_done _ _ _ _ _ Ev), Ec.
  destruct (before s y z) eqn:Eb; cbn [negb].
  - (* before the last node: descend *)
    assert (last ys = Some z) as Elys.
    { destruct ys as [|b ys]; [|rewrite E, last_app_cons in El; done].
      rewrite app_nil_r in E. rewrite Hx in Eb; [done|].
      rewrite <- E. by apply last_Some_elem_of. }
    pose proof (rb_at_objects _ _ _ Ht) as Hobj.
    apply (rb_at_shape _ _ _ []) in Ht.
    eapply (tree_descend_run _ _ s _ y t [] (objects (mem s))) in Ht as Ed;
      [|done..|lia].
    erewrite bnd_done by exact Ed. fold k. cbv beta iota. rewrite pol_bnd, Hf.
    destruct (head (inorder t)) as [f|] eqn:Ef; [|by destruct (inorder t)].
    pose proof (place_first (before s y) t f (timeo_root (po s)) Hnd Ef) as Hpf.
    fold k in Hpf. rewrite Ecl, Ecr, last_app_cons. replace (last (y :: ys)) with (Some z)
      by by destruct ys.
    rewrite (set_last_id _ _ Hl).
    destruct (decide (hole (timeo_root (po s)) k = Link (Some f) SLeft)) as [Eh|Eh].
    + apply Hpf in Eh; [|done]. rewrite Ecl in Eh. by rewrite Eh.
    + destruct xs as [|x xs]; [exfalso; by apply Eh, Hpf|].
      assert (f = x) as -> by (rewrite E in Ef; by injection Ef).
      by rewrite ret_bnd, set_first_id, set_po_id by done.
  - (* behind the last node *)
    assert (ys = []) as ->.
    { destruct ys as [|b ys]; [done|]. rewrite E, last_app_cons in El.
      rewrite Hys in Eb; [done|]. by apply last_Some_elem_of. }
    rewrite app_nil_r in E. subst xs.
    destruct (place_last (before s y) t [] z Hx El) as [Ep Eh]. fold k in Ep, Eh.
    rewrite pol_bnd, pol_set_bnd, Ep, Eh, Ecl, Ecr, Hl, last_app_cons. simpl.
    destruct (inorder t) as [|f q] eqn:Eq; [done|]. simpl.
    rewrite set_first_id by done. done.
Qed.

Lemma tq_timed s q x : tq s q → x ∈ q → timed s x.
Proof. intros (_ & _ & _ & H & _). apply H. Qed.

(** Reassemble the queue after the node's flag was written. *)
Lemma tq_intro s h y n n' q t :
  rb_at h (timeo_root (po s)) t → inorder t = q →
  pnodes s !! y = Some n → timeout n' = timeout n →
  (∀ x, x ∈ q → timed s x) → StronglySorted (λ x y, deadline s x ≤ deadline s y)%Z q →
  tq (tree_state s h y n' q) q.
Proof.
  intros Ht Hq Hn Hn' Htm Hs.
  destruct (deadline_update s (tree_state s h y n' q) y n n') as [Hd Hdt]; [done..|].
  split_and!; [by exists t|done|done|auto|].
  eapply StronglySorted_weaken; [|exact Hs]. simpl. intros a b. by rewrite !Hd.
Qed.

Lemma tree_insert_ok s q y n :
  tq s q → y ∉ timeo_root (po s) :: q → is_Some (mem s !! y) →
  pnodes s !! y = Some n → ts_ok (timeout n) →
  ∃ h, __poller_tree_insert (Some y) s =
         Done (tt, tree_state s h y (set_in_rbtree true n) (tq_insert s y q)) ∧
       tq (tree_state s h y (set_in_rbtree true n) (tq_insert s y q)) (tq_insert s y q) ∧
       framed (timeo_root (po s) :: y :: q) (mem s) h.
Proof.
  intros Hq Hy Hmem Hn Hok. assert (timed s y) as Htm by by exists n.
  pose proof Hq as ((t & Ht & <-) & Hf & Hl & Ht' & Hsort).
  pose proof (tree_place_run s t y Ht Hq Htm) as Hplace. cbv zeta in Hplace.
  set (k := place (before s y) t []) in *.
  assert (plug Leaf k = t) as Ek by apply place_plug.
  destruct (rb_insert_at_ok (mem s) (timeo_root (po s)) k y) as (h & t' & E1 & H1 & Hio & Hfr);
    rewrite ?Ek; [done..|].
  destruct (tq_splits s _ y Hsort) as (xs & ys & E & Hx & Hys).
  destruct (place_cl_cr _ _ [] _ _ E Hx Hys) as [Ecl Ecr]. fold k in Ecl, Ecr.
  simpl in Ecl. rewrite app_nil_r in Ecr.
  assert (tq_insert s y (inorder t) = cl k ++ y :: cr k) as Ei.
  { unfold tq_insert. rewrite E, Ecl, Ecr.
    by destruct (filter_splits (before s y) xs ys Hx Hys) as [-> ->]. }
  pose proof (tq_insert_sorted s y _ Hsort) as Hsort'. rewrite Ei in Hsort' |- *.
  exists h. split_and!; [| |by rewrite Ek in Hfr].
  - unfold __poller_tree_insert. rewrite !pol_bnd.
    pose proof Ht as (_ & (cR & HR & ER) & _).
    rewrite (lnk_read _ _ _ (rootp t)); cycle 1.
    { unfold ld_link; cbn [link_slot link_obj]. rewrite (ld_run _ _ _ _ HR). by rewrite ER. }
    erewrite bnd_done by exact Hplace. cbv beta iota.
    rewrite (node_set_bnd _ _ _ _ n) by done.
    rewrite lnk_seq. unfold lnk, zoom. simpl. unfold rb_insert_at in E1. by rewrite E1.
  - eapply tq_intro; [exact H1|done|done|done| |done].
    intros x. rewrite elem_of_app, elem_of_cons. rewrite E, <- Ecl, <- Ecr in Ht'.
    intros [?|[->|?]]; [|done|]; apply Ht'; set_solver.
Qed.

Lemma tree_first_run s t xs y ys :
  rb_at (mem s) (timeo_root (po s)) t → inorder t = xs ++ y :: ys →
  tree_first (po s) = head (xs ++ y :: ys) →
  (let* tf := pol tree_first in
   if decide (Some y = tf) then
     let* nx := lnk (rb_next (Some y)) in pol_set (set_tree_first nx)
   else ret tt) s = Done (tt, set_po (set_tree_first (head (xs ++ ys)) (po s)) s).
Proof.
  intros Ht E Hf. pose proof Ht as (_ & _ & Hnd & _). apply NoDup_cons in Hnd as [_ Hnd].
  rewrite E in Hnd. apply NoDup_app_remove_mid in Hnd as (_ & Hx & _).
  rewrite pol_bnd, Hf. destruct xs as [|x xs]; simpl.
  - rewrite decide_True by done. rewrite (lnk_read _ _ _ _ (rb_next_ok _ _ _ _ _ _ Ht E)). done.
  - rewrite decide_False by set_solver. rewrite set_first_id by done. by rewrite set_po_id.
Qed.
Lemma tree_last_run s t xs y ys :
  rb_at (mem s) (timeo_root (po s)) t → inorder t = xs ++ y :: ys →
  tree_last (po s) = last (xs ++ y :: ys) →
  (let* tl := pol tree_last in
   if decide (Some y = tl) then
     let* pv := lnk (rb_prev (Some y)) in pol_set (set_tree_last pv)
   else ret tt) s = Done (tt, set_po (set_tree_last (last (xs ++ ys)) (po s)) s).
Proof.
  intros Ht E Hl. pose proof Ht as (_ & _ & Hnd & _). apply NoDup_cons in Hnd as [_ Hnd].
  rewrite E in Hnd. apply NoDup_app_remove_mid in Hnd as (_ & _ & Hy).
  rewrite pol_bnd, Hl, last_app_cons. destruct ys as [|z ys].
  - rewrite app_nil_r, decide_True by done.
    rewrite (lnk_read _ _ _ _ (rb_prev_ok _ _ _ _ _ _ Ht E)). done.
  - change (last (y :: z :: ys)) with (last (z :: ys)). rewrite decide_False; cycle 1.
    { intros El. symmetry in El. by apply last_Some_elem_of in El. }
    rewrite last_app_cons, set_last_id by (rewrite Hl, last_app_cons; done).
    by rewrite set_po_id.
Qed.

Lemma tree_erase_ok s xs y ys n :
  tq s (xs ++ y :: ys) → pnodes s !! y = Some n →
  ∃ h, __poller_tree_erase (Some y) s =
         Done (tt, tree_state s h y (set_in_rbtree false n) (xs ++ ys)) ∧
       tq (tree_state s h y (set_in_rbtree false n) (xs ++ ys)) (xs ++ ys) ∧
       framed (timeo_root (po s) :: xs ++ y :: ys) (mem s) h.
Proof.
  intros ((t & Ht & E) & Hf & Hl & Htm & Hsort) Hn.
  destruct (rb_erase_ok _ _ _ _ _ _ Ht E) as (h & t' & Er & H' & Hio & Hfr). rewrite E in Hfr.
  exists h. split_and!; [| |done].
  - unfold __poller_tree_erase. rewrite <- bnd_assoc.
    rewrite (bnd_done _ _ _ _ _ (tree_first_run _ _ _ _ _ Ht E Hf)).
    rewrite <- bnd_assoc.
    erewrite bnd_done by (eapply (tree_last_run _ t); [exact Ht|exact E|exact Hl]).
    rewrite pol_bnd. rewrite (lnk_bnd _ _ _ tt h) by exact Er.
    simpl. by rewrite Hn.
  - eapply tq_intro; [exact H'|done|done|done| |].
    + intros x Hx. apply Htm. set_solver.
    + rewrite !StronglySorted_app in *. destruct Hsort as (Hxy & Hxs & Hys).
      split_and!; [|done|by apply StronglySorted_inv in Hys as [? _]].
      intros a b Ha Hb. apply Hxy; [done|by right].
Qed.
