(* ===== verification/Poller.v ===== *)
(** poller.cc: the operations of a poller and the handlers of its thread. *)
From S2P Require Export TimerTree.

Section poller.
Context `{Env} `{Client}.

(** ** The system calls *)

Definition __poller_add_fd (fd event : Z) (data : ptr) : M pstate Z :=
  let* epfd := pol pfd in
  sys (CEpollCtl epfd EPOLL_CTL_ADD fd (u32 event) data).

Definition __poller_delete_fd (fd event : Z) : M pstate Z :=
  let* epfd := pol pfd in
  sys (CEpollCtl epfd EPOLL_CTL_DEL fd 0 None).

Definition __poller_modify_fd (fd old_event new_event : Z) (data : ptr) : M pstate Z :=
  let* epfd := pol pfd in
  sys (CEpollCtl epfd EPOLL_CTL_MOD fd (u32 new_event) data).

Definition __poller_create_pfd : M pstate Z := sys CEpollCreate.
Definition __poller_create_timerfd : M pstate Z := sys CTimerCreate.
Definition close (fd : Z) : M pstate Z := sys (CClose fd).
Definition __poller_close_timerfd (fd : Z) : M pstate Z := close fd.

Definition __poller_add_timerfd (fd : Z) : M pstate Z :=
  let* epfd := pol pfd in
  sys (CEpollCtl epfd EPOLL_CTL_ADD fd (u32 (Z.lor EPOLLIN EPOLLET)) None).

Definition __poller_set_timerfd (fd : Z) (abstime : timespec) : M pstate Z :=
  sys (CTimerSet fd abstime).

(** [epoll_wait]: the [data.ptr] of the events that occurred. *)
Definition __poller_wait (maxevents : Z) : M pstate (list (option positive)) :=
  let* epfd := pol pfd in
  let* events := gets epoll_events in
  let* nevents := sys (CEpollWait epfd maxevents) in
  ret (take (Z.to_nat nevents) events).

(** ** Removing a node *)

(** The critical section of [__poller_remove_node]; [removed] was read before. *)
Definition remove_locked (removed : bool) (node : ptr) : M pstate unit :=
  if negb removed then
    let* f := node_get (λ n, fd (data n)) node in
    nodes_set f None ;;;
    let* inrb := node_get in_rbtree node in
    (if inrb : bool then __poller_tree_erase node else lnk (Dlist.list_delete node)) ;;;
    let* f := node_get (λ n, fd (data n)) node in
    let* ev := node_get event node in
    __poller_delete_fd f ev ;;;
    ret tt
  else ret tt.

Definition __poller_remove_node (node : ptr) : M pstate bool :=
  let* rm := node_get removed node in
  remove_locked rm node ;;;
  ret rm.

(** The end of a handler once its node has been removed. *)
Definition finish (node : ptr) (st err : Z) (free_res : bool) : M pstate unit :=
  node_set (set_status st err) node ;;;
  (if free_res then let* r := node_get res node in free_node r else ret tt) ;;;
  callback node.

(** [res->data = node->data; res->data.result = result; res->error = 0;
    res->state = PR_ST_SUCCESS; poller->callback(res)]. *)
Definition deliver (node r : ptr) (result : option ptr) : M pstate unit :=
  let* d := node_get data node in
  node_set (set_data (match result with Some p => set_arg (UPtr p) d | None => d end)) r ;;;
  node_set (set_status PR_ST_SUCCESS 0) r ;;;
  callback r.

(** ** Reading *)

Definition message (d : poller_data) : ptr :=
  match arg d with UPtr p => p | UIov _ _ => None end.

Definition __poller_append_message (buf n : Z) (node : ptr) : M pstate (Z * Z) :=
  let* msg := node_get (λ m, message (data m)) node in
  let* prepared :=
    (if negb (nonnull msg) then
       let* r := malloc_node in
       if negb (nonnull r) then ret None else
       let* d := node_get data node in
       let* msg := create_message (func d) (context d) in
       if negb (nonnull msg) then free_node r ;;; ret None else
       node_set (λ m, set_data (set_arg (UPtr msg) (data m)) m) node ;;;
       node_set (set_res r) node ;;;
       ret (Some (msg, r))
     else
       let* r := node_get res node in
       ret (Some (msg, r))) in
  match prepared with
  | None => ret (-1, n)%Z
  | Some (msg, r) =>
    let* (rt, n) := append msg buf n in
    modify (log (CAppend msg buf n) rt) ;;;
    (if (0 <? rt)%Z then
       deliver node r None ;;;
       node_set (λ m, set_data (set_arg (UPtr None) (data m)) m) node ;;;
       node_set (set_res None) node
     else ret tt) ;;;
    ret (rt, n)
  end.

(** The [do]-loop of [__poller_handle_read] on [nleft] bytes at [p]. *)
Fixpoint append_loop (fuel : nat) (p nleft : Z) (node : ptr) : M pstate Z :=
  match fuel with
  | O => nofuel
  | S fuel =>
    let* (rt, n) := __poller_append_message p nleft node in
    let nleft := if (0 <=? rt)%Z then i64 (nleft - n) else (-1)%Z in
    if (0 <? nleft)%Z then append_loop fuel (p + n)%Z nleft node else ret nleft
  end.

(** The [while (1)]: [None] when the handler returns from inside it. *)
Fixpoint read_loop (fuel : nat) (node : ptr) : M pstate (option Z) :=
  match fuel with
  | O => nofuel
  | S fuel =>
    let* f := node_get (λ n, fd (data n)) node in
    let* nleft := sys (CRead f POLLER_BUFSIZE) in
    let* e := get_errno in
    if (nleft <? 0)%Z && (e =? EAGAIN)%Z then ret None else
    if (nleft <=? 0)%Z then ret (Some nleft) else
    let* nleft := append_loop (Z.to_nat nleft) 0 nleft node in
    if (nleft <? 0)%Z then ret (Some nleft) else read_loop fuel node
  end.

Definition __poller_handle_read (fuel : nat) (node : ptr) : M pstate unit :=
  let* r := read_loop fuel node in
  match r with
  | None => ret tt
  | Some nleft =>
    let* rm := __poller_remove_node node in
    if rm : bool then ret tt else
    if (nleft =? 0)%Z then finish node PR_ST_FINISHED 0 true
    else let* e := get_errno in finish node PR_ST_ERROR e true
  end.

(** ** Writing *)

Definition iov_get (arr : loc) (pos : nat) : M pstate iovec := λ s,
  match iovs s !! arr with
  | Some l => match l !! pos with Some v => Done (v, s) | None => UB end
  | None => UB
  end.
Definition iov_set (arr : loc) (pos : nat) (v : iovec) : M pstate unit := λ s,
  match iovs s !! arr with
  | Some l => match l !! pos with
              | Some _ => Done (tt, set_iovs (<[arr := <[pos := v]> l]> (iovs s)) s)
              | None => UB
              end
  | None => UB
  end.
Definition iov_slice (arr : loc) (pos n : nat) : M pstate (list iovec) := λ s,
  match iovs s !! arr with
  | Some l => if decide (pos + n ≤ length l) then Done (take n (drop pos l), s) else UB
  | None => UB
  end.

(** The [do]-loop: skip [nleft] written bytes; the new [iov]. *)
Fixpoint write_skip (fuel : nat) (node : ptr) (arr : loc) (pos : nat) (nleft : Z) :
    M pstate nat :=
  match fuel with
  | O => nofuel
  | S fuel =>
    let* v := iov_get arr pos in
    if (i64 (iov_len v) <=? nleft)%Z then
      let nleft := i64 (nleft - iov_len v) in
      iov_set arr pos (Iov (iov_base v + iov_len v) 0) ;;;
      node_set (λ n, set_data (set_iovcnt (iovcnt (data n) - 1) (data n)) n) node ;;;
      let* cnt := node_get (λ n, iovcnt (data n)) node in
      if (0 <? cnt)%Z then write_skip fuel node arr (S pos) nleft else ret (S pos)
    else
      iov_set arr pos (Iov (iov_base v + nleft) (u64 (iov_len v - nleft))) ;;;
      ret pos
  end.

(** The [while (node->data.iovcnt > 0)]: [ret], [iov] and [count] after it. *)
Fixpoint write_loop (fuel : nat) (node : ptr) (arr : loc) (pos : nat) (count : Z) :
    M pstate (Z * nat * Z) :=
  match fuel with
  | O => nofuel
  | S fuel =>
    let* cnt := node_get (λ n, iovcnt (data n)) node in
    if negb (0 <? cnt)%Z then ret (0%Z, pos, count) else
    let n := if (IOV_MAX <? cnt)%Z then IOV_MAX else cnt in
    let* f := node_get (λ n, fd (data n)) node in
    let* vec := iov_slice arr pos (Z.to_nat n) in
    let* nleft := sys (CWritev f vec) in
    if (nleft <? 0)%Z then
      let* e := get_errno in
      ret ((if (e =? EAGAIN)%Z then 0 else -1)%Z, pos, count)
    else
      let count := u64 (count + nleft) in
      let* pos := write_skip (Z.to_nat cnt) node arr pos nleft in
      write_loop fuel node arr pos count
  end.

Definition __poller_handle_write (fuel : nat) (node : ptr) : M pstate unit :=
  let* a := node_get (λ n, arg (data n)) node in
  let remove : M pstate unit :=
    let* rm := __poller_remove_node node in
    if rm : bool then ret tt else
    let* cnt := node_get (λ n, iovcnt (data n)) node in
    if (cnt =? 0)%Z then finish node PR_ST_FINISHED 0 false
    else let* e := get_errno in finish node PR_ST_ERROR e false in
  match a with
  | UPtr _ => ub
  | UIov arr pos =>
    let* (rt, pos, count) := write_loop fuel node arr pos 0 in
    node_set (λ n, set_data (set_arg (UIov arr pos) (data n)) n) node ;;;
    let* cnt := node_get (λ n, iovcnt (data n)) node in
    if (0 <? cnt)%Z && (0 <=? rt)%Z then
      if (count =? 0)%Z then ret tt else
      let* d := node_get data node in
      let* w := partial_written (func d) count (context d) in
      if (0 <=? w)%Z then ret tt else remove
    else remove
  end.
(** ** Accepting, connecting, datagrams, events *)

(** [malloc] of the next [res]: the loop goes on when it succeeded. *)
Definition next_res (node : ptr) (again : ptr → M pstate bool) : M pstate bool :=
  let* r := malloc_node in
  node_set (set_res r) node ;;;
  if negb (nonnull r) then ret true else again r.

(** The end of the handlers that leave their loop on an error. *)
Definition remove_error (node : ptr) : M pstate unit :=
  let* rm := __poller_remove_node node in
  if rm : bool then ret tt else
  let* e := get_errno in finish node PR_ST_ERROR e true.

(** The loops: [false] when the handler returns, [true] on [break]. *)
Fixpoint listen_loop (fuel : nat) (node r : ptr) : M pstate bool :=
  match fuel with
  | O => nofuel
  | S fuel =>
    let* d := node_get data node in
    let* socketfd := sys (CAccept (fd d)) in
    if (socketfd <? 0)%Z then
      let* e := get_errno in
      if (e =? EAGAIN)%Z || (e =? EMFILE)%Z || (e =? ENFILE)%Z then ret false
      else if (e =? ECONNABORTED)%Z then listen_loop fuel node r
      else ret true
    else
      let* d := node_get data node in
      let* result := accept_conn (func d) socketfd (context d) in
      if negb (nonnull result) then ret true else
      deliver node r (Some result) ;;;
      next_res node (listen_loop fuel node)
  end.

Definition __poller_handle_listen (fuel : nat) (node : ptr) : M pstate unit :=
  let* r := node_get res node in
  let* brk := listen_loop fuel node r in
  if brk : bool then remove_error node else ret tt.

Definition __poller_handle_connect (node : ptr) : M pstate unit :=
  let* f := node_get (λ n, fd (data n)) node in
  let* v := gets sock_error in
  let* r := sys (CGetSockError f) in
  let* e := get_errno in
  let error := if (r <? 0)%Z then e else v in
  let* rm := __poller_remove_node node in
  if rm : bool then ret tt else
  if (error =? 0)%Z then finish node PR_ST_FINISHED 0 false
  else finish node PR_ST_ERROR error false.

Fixpoint recvfrom_loop (fuel : nat) (node r : ptr) : M pstate bool :=
  match fuel with
  | O => nofuel
  | S fuel =>
    let* d := node_get data node in
    let* n := sys (CRecvfrom (fd d)) in
    if (n <? 0)%Z then
      let* e := get_errno in
      if (e =? EAGAIN)%Z then ret false else ret true
    else
      let* d := node_get data node in
      let* result := recv_dgram (func d) n (context d) in
      if negb (nonnull result) then ret true else
      deliver node r (Some result) ;;;
      next_res node (recvfrom_loop fuel node)
  end.

Definition __poller_handle_recvfrom (fuel : nat) (node : ptr) : M pstate unit :=
  let* r := node_get res node in
  let* brk := recvfrom_loop fuel node r in
  if brk : bool then remove_error node else ret tt.

(** [sizeof (unsigned long long)] *)
Definition sizeof_ull : Z := 8.

(** Sum up the counters read from the eventfd. *)
Fixpoint event_read_loop (fuel : nat) (node : ptr) (cnt : Z) : M pstate Z :=
  match fuel with
  | O => nofuel
  | S fuel =>
    let* f := node_get (λ n, fd (data n)) node in
    let* value := gets event_value in
    let* n := sys (CReadEvent f) in
    if (n =? sizeof_ull)%Z then event_read_loop fuel node (u64 (cnt + value))
    else
      (if (0 <=? n)%Z then put_errno EINVAL else ret tt) ;;;
      ret cnt
  end.

(** One callback per event: the events left when the loop ends, [None] when the
    handler returns. *)
Fixpoint event_loop (fuel : nat) (node r : ptr) (cnt : Z) : M pstate (option Z) :=
  match fuel with
  | O => nofuel
  | S fuel =>
    if (cnt =? 0)%Z then ret None else
    let cnt := (cnt - 1)%Z in
    let* d := node_get data node in
    let* result := io_event (func d) (context d) in
    if negb (nonnull result) then ret (Some cnt) else
    deliver node r (Some result) ;;;
    let* r := malloc_node in
    node_set (set_res r) node ;;;
    if negb (nonnull r) then ret (Some cnt) else event_loop fuel node r cnt
  end.

Definition __poller_handle_event (fuel : nat) (node : ptr) : M pstate unit :=
  let* r := node_get res node in
  let* cnt := event_read_loop fuel node 0 in
  let* e := get_errno in
  let* rest := (if (e =? EAGAIN)%Z then event_loop (S (Z.to_nat cnt)) node r cnt
                else ret (Some cnt)) in
  match rest with
  | None => ret tt
  | Some cnt =>
    (if negb (cnt =? 0)%Z then
       let* f := node_get (λ n, fd (data n)) node in
       sys (CWriteEvent f cnt) ;;; ret tt
     else ret tt) ;;;
    remove_error node
  end.

(** ** The pipe, timeouts, the timer *)

Fixpoint pipe_loop (l : list (option positive)) (stop : bool) : M pstate bool :=
  match l with
  | [] => ret stop
  | node :: l =>
    if nonnull node then
      let* r := node_get res node in
      free_node r ;;;
      callback node ;;;
      pipe_loop l stop
    else pipe_loop l true
  end.

Definition sizeof_ptr : Z := 8.

Definition __poller_handle_pipe : M pstate bool :=
  let* rd := pol pipe_rd in
  let* buf := gets pipe_data in
  let* bytes := sys (CReadPipe rd) in
  let n := i32 (u64 bytes / sizeof_ptr) in
  pipe_loop (take (Z.to_nat n) buf) false.

(** What both loops of [__poller_handle_timeout] do to an expired node. *)
Definition expire (node : ptr) : M pstate unit :=
  let* f := node_get (λ n, fd (data n)) node in
  if (0 <=? f)%Z then
    nodes_set f None ;;;
    let* ev := node_get event node in
    __poller_delete_fd f ev ;;; ret tt
  else node_set (set_removed true) node.

(** The first loop, over [poller->timeo_list]; [local] is the list on the stack. *)
Fixpoint timeo_list_loop (fuel : nat) (pos time_node local : ptr) : M pstate unit :=
  match fuel with
  | O => nofuel
  | S fuel =>
    let* head := pol timeo_list in
    if decide (pos = head) then ret tt else
    let* c := __timeout_cmp pos time_node in
    if (0 <? c)%Z then ret tt else
    expire pos ;;;
    let* tail := lnk (ld prev local) in
    lnk (list_add_tail tail pos) ;;;
    let* pos := lnk (ld next pos) in
    timeo_list_loop fuel pos time_node local
  end.

(** The second loop, over the tree. *)
Fixpoint timeo_tree_loop (fuel : nat) (time_node local : ptr) : M pstate unit :=
  match fuel with
  | O => nofuel
  | S fuel =>
    let* node := pol tree_first in
    if negb (nonnull node) then ret tt else
    let* c := __timeout_cmp node time_node in
    if (0 <? c)%Z then ret tt else
    expire node ;;;
    let* nx := lnk (rb_next node) in
    pol_set (set_tree_first nx) ;;;
    let* root := pol timeo_root in
    lnk (rb_erase node (Some root)) ;;;
    let* tail := lnk (ld prev local) in
    lnk (list_add_tail tail node) ;;;
    (if negb (nonnull nx) then pol_set (set_tree_last None) else ret tt) ;;;
    timeo_tree_loop fuel time_node local
  end.

(** The third loop: the callbacks. *)
Fixpoint timeo_callback_loop (fuel : nat) (pos local : ptr) : M pstate unit :=
  match fuel with
  | O => nofuel
  | S fuel =>
    if decide (pos = local) then ret tt else
    let* f := node_get (λ n, fd (data n)) pos in
    (if (0 <=? f)%Z then node_set (set_status PR_ST_ERROR ETIMEDOUT) pos
     else node_set (set_status PR_ST_FINISHED 0) pos) ;;;
    let* r := node_get res pos in
    free_node r ;;;
    callback pos ;;;
    let* pos := lnk (ld next pos) in
    timeo_callback_loop fuel pos local
  end.

(** A node of the poller is in at most one structure, so the nodes in memory
    bound the three loops. *)
Definition pnode_count (s : pstate) : nat := S (S (size (pnodes s))).

(** An automatic variable of type [struct list], for the time of [m]. *)
Definition with_local {A} (m : ptr → M pstate A) : M pstate A := λ s,
  let l := stack_addr s in
  (modify (λ s, set_mem (<[l := junk_cell]> (mem s)) s) ;;;
   let* a := m (Some l) in
   modify (λ s, set_mem (delete l (mem s)) s) ;;;
   ret a) s.

Definition __poller_handle_timeout (time_node : ptr) : M pstate unit :=
  with_local (λ local,
    lnk (list_init local) ;;;
    let* head := pol timeo_list in
    let* pos := lnk (ld next head) in
    bounded pnode_count (λ fuel, timeo_list_loop fuel pos time_node local) ;;;
    bounded pnode_count (λ fuel, timeo_tree_loop fuel time_node local) ;;;
    let* pos := lnk (ld next local) in
    bounded pnode_count (λ fuel, timeo_callback_loop fuel pos local)).

Definition __poller_set_timer : M pstate unit :=
  let* tl := pol timeo_list in
  let* empty := lnk (list_empty tl) in
  let* node := (if negb empty then lnk (ld next tl) else ret None) in
  let* first := pol tree_first in
  let* node :=
    (if nonnull first then
       let* earlier :=
         (if negb (nonnull node) then ret true
          else let* c := __timeout_cmp first node in ret (c <? 0)%Z) in
       ret (if earlier : bool then first else node)
     else ret node) in
  let* abstime := (if nonnull node then node_get timeout node else ret (TS 0 0)) in
  let* tfd := pol timerfd in
  __poller_set_timerfd tfd abstime ;;;
  ret tt.
(** ** The thread *)

(** One event: [data.ptr] is NULL for the timerfd and 1 for the pipe; the result
    tells whether it was the pipe. *)
Definition handle_one (fuel : nat) (node : ptr) (has_pipe_event : bool) : M pstate bool :=
  match node with
  | None => ret has_pipe_event
  | Some 1%positive => ret true
  | Some _ =>
    let* op := node_get (λ n, operation (data n)) node in
    (if (op =? PD_OP_READ)%Z then __poller_handle_read fuel node
     else if (op =? PD_OP_WRITE)%Z then __poller_handle_write fuel node
     else if (op =? PD_OP_LISTEN)%Z then __poller_handle_listen fuel node
     else if (op =? PD_OP_CONNECT)%Z then __poller_handle_connect node
     else if (op =? PD_OP_RECVFROM)%Z then __poller_handle_recvfrom fuel node
     else if (op =? PD_OP_EVENT)%Z then __poller_handle_event fuel node
     else ret tt) ;;;
    ret has_pipe_event
  end.

Fixpoint handle_events (fuel : nat) (events : list (option positive))
    (has_pipe_event : bool) : M pstate bool :=
  match events with
  | [] => ret has_pipe_event
  | node :: events =>
    let* has_pipe_event := handle_one fuel node has_pipe_event in
    handle_events fuel events has_pipe_event
  end.

(** An automatic [struct __poller_node], of which only the timeout is used. *)
Definition time_node_of (t : timespec) : pnode :=
  PNode 0 0 (PData 0 0 0 None None (UPtr None)) false false 0 t None.
Definition with_time_node {A} (m : ptr → M pstate A) : M pstate A := λ s,
  let l := stack_addr s in
  (modify (λ s, set_pnodes (<[l := junk_node]> (pnodes s)) s) ;;;
   let* a := m (Some l) in
   modify (λ s, set_pnodes (delete l (pnodes s)) s) ;;;
   ret a) s.

(** The loop of the thread: it ends when the pipe says stop. *)
Fixpoint thread_loop (fuel : nat) (time_node : ptr) : M pstate unit :=
  match fuel with
  | O => nofuel
  | S fuel =>
    __poller_set_timer ;;;
    let* events := __poller_wait POLLER_EVENTS_MAX in
    let* now := clock_gettime in
    node_set (set_timeout now) time_node ;;;
    let* has_pipe_event := handle_events fuel events false in
    let* stop := (if has_pipe_event : bool then __poller_handle_pipe else ret false) in
    if stop : bool then ret tt else
    __poller_handle_timeout time_node ;;;
    thread_loop fuel time_node
  end.

Definition __poller_thread_routine (fuel : nat) : M pstate unit :=
  with_time_node (thread_loop fuel).

(** ** Creation and destruction *)

Definition __poller_open_pipe : M pstate Z :=
  let* (rd, wr) := gets pipe_fds in
  let* r := sys CPipe in
  if (0 <=? r)%Z then
    let* a := __poller_add_fd rd EPOLLIN (Some 1%positive) in
    if (0 <=? a)%Z then
      pol_set (set_pipes rd wr) ;;;
      ret 0%Z
    else
      close rd ;;; close wr ;;; ret (-1)%Z
  else ret (-1)%Z.

Definition __poller_create_timer : M pstate Z :=
  let* tfd := __poller_create_timerfd in
  if (0 <=? tfd)%Z then
    let* a := __poller_add_timerfd tfd in
    if (0 <=? a)%Z then
      pol_set (set_timerfd tfd) ;;;
      ret 0%Z
    else __poller_close_timerfd tfd ;;; ret (-1)%Z
  else ret (-1)%Z.

(** [malloc(sizeof (struct poller))]: the poller of the state is the fresh
    memory, every field of it arbitrary. The result is whether one was made. *)
Definition __poller_create (nodes_buf : list (option positive)) (max : Z) : M pstate bool :=
  let* ok := gets poller_alloc in
  if negb ok then ret false else
  let* epfd := __poller_create_pfd in
  pol_set (set_pfd epfd) ;;;
  if (0 <=? epfd)%Z then
    let* t := __poller_create_timer in
    if (0 <=? t)%Z then
      pol_set (set_nodes nodes_buf) ;;;
      pol_set (λ p, Poller max (pfd p) (timerfd p) (pipe_rd p) (pipe_wr p) (stopped p)
                      (timeo_root p) (tree_first p) (tree_last p) (timeo_list p)
                      (no_timeo_list p) (nodes p)) ;;;
      let* root := pol timeo_root in
      lnk (st (set_rb_node None) (Some root)) ;;;
      pol_set (set_tree_first None) ;;;
      pol_set (set_tree_last None) ;;;
      let* tl := pol timeo_list in
      lnk (list_init tl) ;;;
      let* ntl := pol no_timeo_list in
      lnk (list_init ntl) ;;;
      pol_set (set_stopped 1) ;;;
      ret true
    else
      close epfd ;;; ret false
  else ret false.

(** [calloc] of the table, then the poller. *)
Definition poller_create (calloc_ok : bool) (max : Z) : M pstate bool :=
  if calloc_ok then __poller_create (replicate (Z.to_nat max) None) max else ret false.

Definition __poller_destroy : M pstate unit :=
  let* t := pol timerfd in
  __poller_close_timerfd t ;;;
  let* p := pol pfd in
  close p ;;;
  ret tt.

Definition poller_destroy : M pstate unit :=
  pol_set (set_nodes []) ;;;
  __poller_destroy.

Definition poller_start : M pstate Z :=
  let* r := __poller_open_pipe in
  (if (0 <=? r)%Z then
     let* rt := sys CThreadCreate in
     if (rt =? 0)%Z then pol_set (set_stopped 0)
     else
       put_errno rt ;;;
       let* wr := pol pipe_wr in
       close wr ;;;
       let* rd := pol pipe_rd in
       close rd ;;;
       ret tt
   else ret tt) ;;;
  let* st := pol stopped in
  ret (- st)%Z.

(** ** Nodes and their timeouts *)

Definition __poller_insert_node (node : ptr) : M pstate unit :=
  let* tl := pol timeo_list in
  let* last := lnk (ld prev tl) in
  let* empty := lnk (list_empty tl) in
  let set_timer (stop : ptr) : M pstate unit :=
    let* first := pol tree_first in
    let* earlier :=
      (if negb (nonnull first) then ret true
       else let* c := __timeout_cmp node stop in ret (c <? 0)%Z) in
    if earlier : bool then
      let* tfd := pol timerfd in
      let* t := node_get timeout node in
      __poller_set_timerfd tfd t ;;; ret tt
    else ret tt in
  if empty then
    let* tail := lnk (ld prev tl) in
    lnk (list_add_tail tail node) ;;;
    let* first := pol tree_first in
    set_timer first
  else
    let* c := __timeout_cmp node last in
    if (0 <=? c)%Z then
      let* tail := lnk (ld prev tl) in
      lnk (list_add_tail tail node)
    else
      __poller_tree_insert node ;;;
      let* first := pol tree_first in
      if decide (node ≠ first) then ret tt else
      let* head := lnk (ld next tl) in
      set_timer head.

(** [now] plus [timeout] milliseconds. *)
Definition add_timeout (timeout : Z) (now : timespec) : timespec :=
  let sec := i64 (tv_sec now + Z.quot timeout 1000) in
  let nsec := i64 (tv_nsec now + Z.rem timeout 1000 * 1000000) in
  if (1000000000 <=? nsec)%Z then TS (i64 (sec + 1)) (i64 (nsec - 1000000000))
  else TS sec nsec.

Definition __poller_node_set_timeout (timeout : Z) (node : ptr) : M pstate unit :=
  let* now := clock_gettime in
  node_set (set_timeout (add_timeout timeout now)) node.

(** The event mask and the result: whether a [res] is needed, -1 on error. *)
Definition __poller_data_get_event (d : poller_data) : M pstate (Z * Z) :=
  let op := operation d in
  let in_et := Z.lor EPOLLIN EPOLLET in
  let out_et := Z.lor EPOLLOUT EPOLLET in
  if (op =? PD_OP_READ)%Z then ret (in_et, b2z (nonnull (message d)))
  else if (op =? PD_OP_WRITE)%Z then ret (out_et, 0)%Z
  else if (op =? PD_OP_LISTEN)%Z then ret (EPOLLIN, 1)%Z
  else if (op =? PD_OP_CONNECT)%Z then ret (out_et, 0)%Z
  else if (op =? PD_OP_RECVFROM)%Z then ret (in_et, 1)%Z
  else if (op =? PD_OP_EVENT)%Z then ret (in_et, 1)%Z
  else if (op =? PD_OP_NOTIFY)%Z then ret (in_et, 1)%Z
  else put_errno EINVAL ;;; ret (0, -1)%Z.

(** [(size_t)fd >= poller->max_open_files] *)
Definition fd_out (f : Z) : M pstate bool :=
  let* max := pol max_open_files in
  if (max <=? u64 f)%Z then
    put_errno (if (f <? 0)%Z then EBADF else EMFILE) ;;;
    ret true
  else ret false.

Definition __poller_new_node (d : poller_data) (timeout : Z) : M pstate ptr :=
  let* out := fd_out (fd d) in
  if out : bool then ret None else
  let* (ev, need_res) := __poller_data_get_event d in
  if (need_res <? 0)%Z then ret None else
  let* alloc :=
    (if negb (need_res =? 0)%Z then
       let* r := malloc_node in
       ret (if nonnull r then Some r else None)
     else ret (Some None)) in
  match alloc with
  | None => ret None
  | Some r =>
    let* node := malloc_node in
    (if nonnull node then
       node_set (λ n, PNode (state n) (error n) d false false ev (PollerState.timeout n) r) node ;;;
       (if (0 <=? timeout)%Z then __poller_node_set_timeout timeout node else ret tt)
     else ret tt) ;;;
    ret node
  end.
(** ** The operations of the interface *)

(** Take a node out of the tree or of the list it is on. *)
Definition unqueue (node : ptr) : M pstate unit :=
  let* inrb := node_get in_rbtree node in
  if inrb : bool then __poller_tree_erase node else lnk (Dlist.list_delete node).

(** Put it among the nodes with, or without, a timeout. *)
Definition enqueue (node : ptr) (timeout : Z) : M pstate unit :=
  if (0 <=? timeout)%Z then __poller_insert_node node
  else
    let* ntl := pol no_timeo_list in
    let* tail := lnk (ld prev ntl) in
    lnk (list_add_tail tail node).

(** [free(node->res); free(node); return -1;] *)
Definition discard (node : ptr) : M pstate Z :=
  let* r := node_get res node in
  free_node r ;;;
  free_node node ;;;
  ret (-1)%Z.

Definition poller_add (d : poller_data) (timeout : Z) : M pstate Z :=
  let* node := __poller_new_node d timeout in
  if negb (nonnull node) then ret (-1)%Z else
  let* cur := nodes_get (fd d) in
  if negb (nonnull cur) then
    let* ev := node_get event node in
    let* a := __poller_add_fd (fd d) ev node in
    if (0 <=? a)%Z then
      enqueue node timeout ;;;
      nodes_set (fd d) node ;;;
      ret 0%Z
    else discard node
  else
    put_errno EEXIST ;;;
    discard node.

(** Tell the thread that the node is gone; when the poller is stopped there is no
    thread, and the caller makes the callback itself. *)
Definition notify_removed (node : ptr) : M pstate bool :=
  let* st := pol stopped in
  if (st =? 0)%Z then
    node_set (set_removed true) node ;;;
    let* wr := pol pipe_wr in
    sys (CWritePipe wr node) ;;;
    ret false
  else ret true.

Definition poller_del (f : Z) : M pstate Z :=
  let* out := fd_out f in
  if out : bool then ret (-1)%Z else
  let* node := nodes_get f in
  if nonnull node then
    nodes_set f None ;;;
    unqueue node ;;;
    let* ev := node_get event node in
    __poller_delete_fd f ev ;;;
    node_set (set_status PR_ST_DELETED 0) node ;;;
    let* st := notify_removed node in
    (if st : bool then
       let* r := node_get res node in
       free_node r ;;;
       callback node
     else ret tt) ;;;
    ret 0%Z
  else
    put_errno ENOENT ;;;
    ret (-1)%Z.

Definition poller_mod (d : poller_data) (timeout : Z) : M pstate Z :=
  let* node := __poller_new_node d timeout in
  if negb (nonnull node) then ret (-1)%Z else
  let* orig := nodes_get (fd d) in
  if nonnull orig then
    let* oev := node_get event orig in
    let* ev := node_get event node in
    let* a := __poller_modify_fd (fd d) oev ev node in
    if (0 <=? a)%Z then
      unqueue orig ;;;
      node_set (set_status PR_ST_MODIFIED 0) orig ;;;
      let* st := notify_removed orig in
      enqueue node timeout ;;;
      nodes_set (fd d) node ;;;
      (if st : bool then
         let* r := node_get res orig in
         free_node r ;;;
         callback orig
       else ret tt) ;;;
      ret 0%Z
    else discard node
  else
    put_errno ENOENT ;;;
    discard node.

Definition poller_set_timeout (f timeout : Z) : M pstate Z :=
  let* out := fd_out f in
  if out : bool then ret (-1)%Z else
  let* time :=
    (if (0 <=? timeout)%Z then let* now := clock_gettime in ret (add_timeout timeout now)
     else ret (TS 0 0)) in
  let* node := nodes_get f in
  if nonnull node then
    unqueue node ;;;
    (if (0 <=? timeout)%Z then node_set (set_timeout time) node else ret tt) ;;;
    enqueue node timeout ;;;
    ret 0%Z
  else
    put_errno ENOENT ;;;
    ret (-1)%Z.

(** [now] plus [value]. *)
Definition add_timespec (value now : timespec) : timespec :=
  let sec := i64 (tv_sec now + tv_sec value) in
  let nsec := i64 (tv_nsec now + tv_nsec value) in
  if (1000000000 <=? nsec)%Z then TS (i64 (sec + 1)) (i64 (nsec - 1000000000))
  else TS sec nsec.

(** The result and the new timer. *)
Definition poller_add_timer (value : timespec) (ctx : ptr) : M pstate (Z * ptr) :=
  let* node := malloc_node in
  if nonnull node then
    node_set (λ n, PNode (state n) (error n) (PData PD_OP_TIMER 0 (-1) None ctx (UPtr None))
                     false false (event n) (PollerState.timeout n) None) node ;;;
    let* now := clock_gettime in
    node_set (set_timeout (add_timespec value now)) node ;;;
    __poller_insert_node node ;;;
    ret (0%Z, node)
  else ret ((-1)%Z, None).

Definition poller_del_timer (node : ptr) : M pstate Z :=
  let* rm := node_get removed node in
  if negb rm then
    node_set (set_removed true) node ;;;
    unqueue node ;;;
    node_set (set_status PR_ST_DELETED 0) node ;;;
    callback node ;;;
    ret 0%Z
  else
    put_errno ENOENT ;;;
    ret (-1)%Z.

(** Move the nodes of the tree to [node_list]. *)
Fixpoint stop_tree_loop (fuel : nat) (node_list : ptr) : M pstate unit :=
  match fuel with
  | O => nofuel
  | S fuel =>
    let* root := pol timeo_root in
    let* node := lnk (ld rb_node (Some root)) in
    if negb (nonnull node) then ret tt else
    lnk (rb_erase node (Some root)) ;;;
    lnk (list_add_tail node_list node) ;;;
    stop_tree_loop fuel node_list
  end.

(** Take the nodes of [node_list] out of the table and of epoll. *)
Fixpoint stop_remove_loop (fuel : nat) (pos node_list : ptr) : M pstate unit :=
  match fuel with
  | O => nofuel
  | S fuel =>
    if decide (pos = node_list) then ret tt else
    expire pos ;;;
    let* pos := lnk (ld next pos) in
    stop_remove_loop fuel pos node_list
  end.

Fixpoint stop_callback_loop (fuel : nat) (pos node_list : ptr) : M pstate unit :=
  match fuel with
  | O => nofuel
  | S fuel =>
    if decide (pos = node_list) then ret tt else
    node_set (set_status PR_ST_STOPPED 0) pos ;;;
    let* r := node_get res pos in
    free_node r ;;;
    callback pos ;;;
    let* pos := lnk (ld next pos) in
    stop_callback_loop fuel pos node_list
  end.

Definition poller_stop : M pstate unit :=
  with_local (λ node_list,
    lnk (list_init node_list) ;;;
    let* wr := pol pipe_wr in
    sys (CWritePipe wr None) ;;;
    sys CThreadJoin ;;;
    pol_set (set_stopped 1) ;;;
    let* wr := pol pipe_wr in
    close wr ;;;
    __poller_handle_pipe ;;;
    let* rd := pol pipe_rd in
    close rd ;;;
    pol_set (set_tree_first None) ;;;
    pol_set (set_tree_last None) ;;;
    bounded pnode_count (λ fuel, stop_tree_loop fuel node_list) ;;;
    let* tl := pol timeo_list in
    lnk (list_add_list node_list tl) ;;;
    let* ntl := pol no_timeo_list in
    lnk (list_add_list node_list ntl) ;;;
    let* pos := lnk (ld next node_list) in
    bounded pnode_count (λ fuel, stop_remove_loop fuel pos node_list) ;;;
    let* pos := lnk (ld next node_list) in
    bounded pnode_count (λ fuel, stop_callback_loop fuel pos node_list)).
End poller.
