(* ===== verification/PollerTimer.v ===== *)
(** Deadlines: computing them, queueing a node by them, and arming the timerfd. *)
From S2P Require Export Poller.

(** ** Computing a deadline *)

Lemma add_timeout_ok t now :
  ts_ok now → (0 ≤ t < 2 ^ 31)%Z →
  (ns (add_timeout t now) = ns now + t * 1000000)%Z ∧
  (0 ≤ tv_nsec (add_timeout t now) < 1000000000)%Z ∧
  (tv_sec now ≤ tv_sec (add_timeout t now) ≤ tv_sec now + 2 ^ 22)%Z.
Proof.
  intros [Hn Hs] Ht. unfold add_timeout, ns.
  pose proof (Z.quot_rem' t 1000) as Eqr.
  pose proof (Z.rem_bound_pos t 1000 ltac:(lia) ltac:(lia)) as Hr.
  assert (0 ≤ Z.quot t 1000 < 2 ^ 22)%Z by lia.
  rewrite (i64_small (tv_sec now + _)), (i64_small (tv_nsec now + _)) by lia.
  destruct (1000000000 <=? _)%Z eqn:E; simpl; [rewrite !i64_small by lia|]; lia.
Qed.

Lemma add_timespec_ok v now :
  ts_ok now → ts_ok v → 
  (ns (add_timespec v now) = ns now + ns v)%Z ∧
  (0 ≤ tv_nsec (add_timespec v now) < 1000000000)%Z.
Proof.
  intros [Hn Hs] [Hvn Hvs]. unfold add_timespec, ns.
  rewrite (i64_small (tv_sec now + _)), (i64_small (tv_nsec now + _)) by lia.
  destruct (1000000000 <=? _)%Z eqn:E; simpl; [rewrite !i64_small by lia|]; lia.
Qed.

(** ** The two queues of nodes with a timeout *)

(** The list [timeo_list] at [L], followed forwards, holds [xs], the tree [q]; the
    tree is in the order of the deadlines, and nothing is in both. *)
Record queues (s : pstate) (L : loc) (xs q : list loc) : Prop := Queues {
  q_head : timeo_list (po s) = Some L;
  q_next : flist (mem s) L xs;
  q_tree : tq s q;
  q_disj : NoDup (timeo_root (po s) :: L :: xs ++ q);
  q_timed x : x ∈ xs → timed s x;
}.

Definition by_deadline (s : pstate) (xs : list loc) : Prop :=
  StronglySorted (λ x y, deadline s x ≤ deadline s y)%Z xs.

(** The list is well formed backwards too, and in the order of the deadlines: what
    [__poller_insert_node] relies on, and breaks with the second node that expires
    last. *)
Record ordered (s : pstate) (L : loc) (xs q : list loc) : Prop := Ordered {
  o_queues : queues s L xs q;
  o_list : dlist (mem s) L xs;
  o_sorted : by_deadline s xs;
}.

(** [x] has the earliest deadline of all queued nodes. *)
Definition earliest (s : pstate) (xs q : list loc) (x : loc) : Prop :=
  x ∈ xs ++ q ∧ ∀ y, y ∈ xs ++ q → (deadline s x ≤ deadline s y)%Z.

Lemma sorted_head s x xs y :
  StronglySorted (λ x y, deadline s x ≤ deadline s y)%Z (x :: xs) → y ∈ x :: xs →
  (deadline s x ≤ deadline s y)%Z.
Proof.
  intros [_ H]%StronglySorted_inv [->|Hy]%elem_of_cons; [done|].
  rewrite Forall_forall in H. by apply H.
Qed.

Lemma queues_tree_timed s L xs q x : queues s L xs q → x ∈ q → timed s x.
Proof. intros H. eapply tq_timed, q_tree, H. Qed.
Lemma queues_tree_sorted s L xs q :
  queues s L xs q → StronglySorted (λ x y, deadline s x ≤ deadline s y)%Z q.
Proof. intros H. apply (q_tree _ _ _ _ H). Qed.
Lemma queues_list_next s L xs q :
  queues s L xs q → ld next (Some L) (mem s) = Done (Some (firstof xs L), mem s).
Proof.
  intros H. destruct (q_next _ _ _ _ H) as (_ & Hf).
  apply fseg_first in Hf. unfold nxt in Hf. destruct (mem s !! L) as [c|] eqn:E; [|done].
  simpl in Hf. injection Hf as Hf. rewrite (ld_run _ _ _ _ E). by rewrite Hf.
Qed.
Lemma queues_list_prev s L xs q :
  ordered s L xs q → ld prev (Some L) (mem s) = Done (Some (lastof L xs), mem s).
Proof.
  intros H. destruct (o_list _ _ _ _ H) as (_ & _ & Hb).
  apply bseg_last in Hb. unfold prv in Hb. destruct (mem s !! L) as [c|] eqn:E; [|done].
  simpl in Hb. injection Hb as Hb. rewrite (ld_run _ _ _ _ E). by rewrite Hb.
Qed.
Lemma queues_list_empty s L xs q :
  queues s L xs q → list_empty (Some L) (mem s) = Done (bool_decide (xs = []), mem s).
Proof.
  intros H. by apply list_empty_dlist, (q_next _ _ _ _ H).
Qed.

(** ** Arming the timer *)

(** The state after [timerfd_settime(timerfd, t)]. *)
Definition arm `{Env} (t : timespec) (s : pstate) : pstate :=
  let c := CTimerSet (timerfd (po s)) t in
  let '(r, e) := sys_result c s in log c r (set_errno e s).

Lemma arm_run `{Env} {B} t s (k : Z → M pstate B) :
  (∀ r r' s, k r s = k r' s) →
  bnd (__poller_set_timerfd (timerfd (po s)) t) k s = k 0%Z (arm t s).
Proof.
  intros Hk. unfold bnd, __poller_set_timerfd, sys, arm.
  destruct (sys_result _ s) as [r e]. apply Hk.
Qed.

(** [__poller_set_timer] sets the earlier deadline of the first node of the list and
    the tree, or disarms the timer when no node waits. *)
Lemma set_timer_ok `{Env} s L xs q :
  queues s L xs q →
  ∃ t, __poller_set_timer s = Done (tt, arm t s) ∧
    (xs ++ q = [] → t = TS 0 0) ∧
    (xs ++ q ≠ [] → ∃ x n, earliest s (take 1 xs) q x ∧ pnodes s !! x = Some n ∧ t = timeout n).
Proof.
  intros H1. pose proof (q_head _ _ _ _ H1) as Hh. unfold __poller_set_timer.
  rewrite pol_bnd, Hh, (lnk_read _ _ _ _ (queues_list_empty _ _ _ _ H1)).
  pose proof (q_tree _ _ _ _ H1) as (_ & Hf & _ & _ & _).
  pose proof (queues_tree_sorted _ _ _ _ H1) as Hs1.
  destruct xs as [|x xs]; [rewrite bool_decide_true by done|rewrite bool_decide_false by done];
    cbn [negb].
  - rewrite ret_bnd, pol_bnd, Hf. destruct q as [|y q]; cbn [head nonnull].
    + psteps. rewrite arm_run by done. exists (TS 0 0). by split_and!.
    + psteps.
      destruct (queues_tree_timed _ _ _ _ y H1) as (n & Hn & _); [by left|].
      rewrite (node_get_bnd _ _ _ _ _ Hn), pol_bnd, arm_run by done. exists (timeout n).
      split_and!; [done..|]. intros _. exists y, n. split_and!; [|done..].
      split; [by left|]. intros z Hz. by eapply sorted_head.
  - rewrite (lnk_read _ _ _ _ (queues_list_next _ _ _ _ H1)), pol_bnd, Hf.
    change (firstof (x :: xs) L) with x. change (take 1 (x :: xs)) with [x].
    destruct (q_timed _ _ _ _ H1 x) as (nx & Hnx & Hxok); [by left|].
    destruct q as [|y q]; cbn [head nonnull].
    + psteps. rewrite (node_get_bnd _ _ _ _ _ Hnx), pol_bnd, arm_run by done.
      exists (timeout nx). split_and!; [done..|]. intros _. exists x, nx. split_and!; [|done..].
      split; [by left|]. by intros z ->%list_elem_of_singleton.
    + destruct (queues_tree_timed _ _ _ _ y H1) as (ny & Hny & Hyok); [by left|].
      psteps.
      destruct (timeout_cmp_run s y x) as (c & Ec & Es & _); [by exists ny|by exists nx|].
      rewrite (bnd_done _ _ _ _ _ Ec). psteps. rewrite Es. unfold before.
      case_bool_decide as Hb; psteps.
      * rewrite (node_get_bnd _ _ _ _ _ Hny), pol_bnd, arm_run by done. exists (timeout ny).
        split_and!; [done..|]. intros _. exists y, ny. split_and!; [|done..].
        split; [set_solver|]. intros z [->|Hz]%elem_of_cons; [lia|by eapply sorted_head].
      * rewrite (node_get_bnd _ _ _ _ _ Hnx), pol_bnd, arm_run by done. exists (timeout nx).
        split_and!; [done..|]. intros _. exists x, nx. split_and!; [|done..].
        split; [by left|]. intros z [->|Hz]%elem_of_cons; [done|].
        pose proof (sorted_head _ _ _ _ Hs1 Hz). lia.
Qed.

(** On a list in the order of the deadlines the first node is the earliest. *)
Lemma earliest_sorted s xs q x :
  by_deadline s xs → earliest s (take 1 xs) q x → earliest s xs q x.
Proof.
  intros Hs [Hx He]. split.
  - apply elem_of_app in Hx as [Hx|Hx]; [|set_solver]. apply elem_of_app. left.
    rewrite <- (take_drop 1 xs). set_solver.
  - intros y [Hy|Hy]%elem_of_app; [|apply He; set_solver].
    destruct xs as [|x1 xs]; [by apply elem_of_nil in Hy|].
    pose proof (sorted_head _ _ _ _ Hs Hy). transitivity (deadline s x1); [|done].
    apply He. by left.
Qed.

(** ** Queueing a node *)

Lemma rb_at_frame h h' R t :
  (∀ x, x ∈ R :: inorder t → h' !! x = h !! x) → rb_at h R t → rb_at h' R t.
Proof.
  intros E (Ht & (c & HR & Ec) & Hnd & Hrb). split_and!; [|exists c; split; [|done]|done|done].
  - eapply tree_at_frame; [|done]. intros x Hx. apply E. by right.
  - rewrite E; [done|by left].
Qed.

Lemma tq_insert_perm s y q : tq_insert s y q ≡ₚ y :: q.
Proof.
  unfold tq_insert. rewrite <- Permutation_middle. f_equiv.
  induction q as [|x q IH]; [done|]. rewrite !filter_cons.
  destruct (before s y x); simpl; [|by f_equiv].
  rewrite <- Permutation_middle. by f_equiv.
Qed.
Lemma tq_insert_head s y q :
  y ∉ q → head (tq_insert s y q) = Some y ↔ ∀ x, x ∈ q → before s y x = true.
Proof.
  intros Hy. unfold tq_insert. induction q as [|x q IH]; [simpl; set_solver|].
  rewrite !filter_cons. destruct (before s y x) eqn:E; simpl.
  - destruct IH as [IH1 IH2]; [set_solver|]. split.
    + intros H z [->|Hz]%elem_of_cons; [done|]. apply IH1; [|done].
      destruct (filter (λ x, before s y x = false) q); [done|]. simpl in *. done.
    + intros H. assert (∀ z, z ∈ q → before s y z = true) as Hq by set_solver.
      apply IH2 in Hq. by destruct (filter (λ x, before s y x = false) q).
  - split; [intros [= ->]; set_solver|]. intros H. rewrite H in E; [done|by left].
Qed.

Lemma before_all_first s y x q :
  StronglySorted (λ x y, deadline s x ≤ deadline s y)%Z (x :: q) →
  before s y x = true ↔ ∀ z, z ∈ x :: q → before s y z = true.
Proof.
  intros Hs. split; [|intros H; apply H; by left]. unfold before. rewrite bool_decide_eq_true.
  intros H z Hz. apply bool_decide_eq_true. pose proof (sorted_head _ _ _ _ Hs Hz). lia.
Qed.

(** [y] expires before everything that waits. *)
Definition first_of_all (s : pstate) (y : loc) (xs q : list loc) : Prop :=
  Forall (λ x, before s y x = true) (xs ++ q).
#[export] Instance first_of_all_dec s y xs q : Decision (first_of_all s y xs q).
Proof. unfold first_of_all. apply _. Defined.

Lemma first_of_all_app s y xs q :
  first_of_all s y xs q ↔
  (∀ x, x ∈ xs → before s y x = true) ∧ (∀ x, x ∈ q → before s y x = true).
Proof. unfold first_of_all. rewrite Forall_app, !Forall_forall. done. Qed.

Lemma first_of_all_head s y x q :
  StronglySorted (λ x y, deadline s x ≤ deadline s y)%Z (x :: q) →
  bool_decide (first_of_all s y [] (x :: q)) = before s y x.
Proof.
  intros Hs. pose proof (before_all_first s y x q Hs) as Hb. unfold first_of_all. simpl.
  destruct (before s y x) eqn:E; [apply bool_decide_true|apply bool_decide_false];
    rewrite Forall_forall; [by apply Hb|]. intros H. by rewrite H in E by by left.
Qed.

(** The end of [__poller_insert_node]. *)
Lemma insert_arm_run `{Env} s y n (stop : ptr) (b : bool) :
  pnodes s !! y = Some n →
  (tree_first (po s) = None ∧ b = true ∨
   ∃ z, tree_first (po s) ≠ None ∧ stop = Some z ∧ timed s y ∧ timed s z ∧ b = before s y z) →
  (let* first := pol tree_first in
   let* earlier :=
     (if negb (nonnull first) then ret true
      else let* c := __timeout_cmp (Some y) stop in ret (c <? 0)%Z) in
   if earlier : bool then
     let* tfd := pol timerfd in
     let* t := node_get timeout (Some y) in
     __poller_set_timerfd tfd t ;;; ret tt
   else ret tt) s = Done (tt, if b then arm (timeout n) s else s).
Proof.
  intros Hn [[Hf ->]|(z & Hf & -> & Hy & Hz & ->)].
  - psteps. rewrite Hf. psteps. rewrite (node_get_bnd _ _ _ _ _ Hn). by rewrite arm_run.
  - psteps. destruct (tree_first (po s)); [|done]. psteps.
    destruct (timeout_cmp_run s y z) as (c & Ec & Es & _); [done..|].
    rewrite (bnd_done _ _ _ _ _ Ec). psteps. rewrite Es.
    destruct (before s y z); [|done]. psteps.
    rewrite (node_get_bnd _ _ _ _ _ Hn). by rewrite arm_run.
Qed.

Lemma queues_arm `{Env} s L xs q t : queues s L xs q → queues (arm t s) L xs q.
Proof.
  unfold arm. destruct (sys_result _ s) as [r e]. intros [H1 H2 H3 H4 H5]. by constructor.
Qed.

(** Only the links of list nodes change. *)
Lemma tq_frame s h q :
  (∀ x, x ∈ timeo_root (po s) :: q → h !! x = mem s !! x) → tq s q → tq (set_mem h s) q.
Proof.
  intros E ((t & Ht & Hq) & H). split; [|exact H]. exists t. split; [|done].
  eapply rb_at_frame; [|exact Ht]. by rewrite Hq.
Qed.

(** The first timed node goes on the empty list. *)
Lemma insert_node_list `{Env} s L q y n :
  ordered s L [] q → y ∉ timeo_root (po s) :: L :: q → is_Some (mem s !! y) →
  pnodes s !! y = Some n → ts_ok (timeout n) →
  ∃ h, let s1 := set_mem h s in
    __poller_insert_node (Some y) s =
      Done (tt, if decide (first_of_all s y [] q) then arm (timeout n) s1 else s1) ∧
    ordered s1 L [y] q ∧ (∀ x, x ∉ [L; y] → h !! x = mem s !! x).
Proof.
  intros Ho' Hy Hmem Hn Hok. pose proof (o_queues _ _ _ _ Ho') as Hq.
  destruct (list_add_tail_empty (mem s) L y) as (h & Eh & Hd & Ho);
    [apply Ho'|done|set_solver|].
  exists h. cbv zeta. pose proof (q_disj _ _ _ _ Hq) as Hnd. simpl in Hnd.
  assert (tq (set_mem h s) q) as Htq.
  { apply tq_frame; [|apply Hq]. intros x Hx. apply Ho.
    apply NoDup_cons in Hnd as [Hn1 Hn2]. apply NoDup_cons in Hn2 as [Hn2 _]. set_solver. }
  split_and!; [| |done].
  - unfold __poller_insert_node. rewrite pol_bnd, (q_head _ _ _ _ Hq).
    rewrite (lnk_read _ _ _ _ (queues_list_prev _ _ _ _ Ho')).
    rewrite (lnk_read _ _ _ _ (queues_list_empty _ _ _ _ Hq)).
    rewrite bool_decide_true by done. cbv zeta.
    rewrite (lnk_read _ _ _ _ (queues_list_prev _ _ _ _ Ho')).
    change (lastof L []) with L. rewrite (lnk_bnd _ _ _ _ _ Eh).
    pose proof (q_tree _ _ _ _ Hq) as (_ & Hf & _). rewrite pol_bnd. simpl po. rewrite Hf.
    rewrite (insert_arm_run (set_mem h s) y n (head q) (bool_decide (first_of_all s y [] q)));
      [by rewrite <- decide_bool_decide|done|].
    destruct q as [|z q]; [left|right].
    + split; [done|]. apply bool_decide_true. constructor.
    + exists z. split_and!; [by simpl; rewrite Hf|done|by exists n|by eapply (tq_timed _ _ _ Htq); left|].
      change (before (set_mem h s) y z) with (before s y z).
      apply first_of_all_head. by eapply queues_tree_sorted.
  - constructor; [|done|repeat constructor].
    constructor; [apply Hq|by destruct Hd as (? & ? & _)|done| |].
    + simpl. apply NoDup_cons in Hnd as [Hn1 Hn2]. apply NoDup_cons in Hn2 as [Hn2 Hn3].
      rewrite !NoDup_cons. set_solver.
    + intros x ->%list_elem_of_singleton. by exists n.
Qed.

Lemma queues_tree_insert s L xs q y n h :
  ordered s L xs q → y ∉ timeo_root (po s) :: L :: xs ++ q →
  pnodes s !! y = Some n →
  let s1 := tree_state s h y (set_in_rbtree true n) (tq_insert s y q) in
  tq s1 (tq_insert s y q) → framed (timeo_root (po s) :: y :: q) (mem s) h →
  ordered s1 L xs (tq_insert s y q).
Proof.
  intros [Hq Hd0 Hso] Hy Hn s1 Htq [Ho _]. pose proof (q_disj _ _ _ _ Hq) as Hnd.
  destruct (deadline_update s s1 y n (set_in_rbtree true n)) as [Hd Ht]; [done..|].
  assert (dlist (mem s1) L xs) as Hd1.
  { eapply dlist_frame; [|done]. intros x Hx. simpl. apply Ho.
    apply occ_in in Hx. apply occ_notin. apply not_elem_of_cons in Hy as [_ Hy].
    assert (x ≠ y) by (intros ->; apply Hy; apply occ_in in Hx; set_solver).
    count Hnd x. simpl in Hx |- *. unfold same at 2. rewrite decide_False by done. lia. }
  constructor; [constructor; [apply Hq|by destruct Hd1 as (? & ? & _)|done| |]|done|].
  - simpl. rewrite tq_insert_perm.
    assert (timeo_root (po s) :: L :: xs ++ y :: q ≡ₚ y :: timeo_root (po s) :: L :: xs ++ q) as ->.
    { rewrite <- Permutation_middle. rewrite !(perm_swap y). done. }
    by apply NoDup_cons.
  - intros x Hx. apply Ht. by apply (q_timed _ _ _ _ Hq).
  - eapply StronglySorted_weaken; [|exact Hso]. simpl. intros a b. by rewrite !Hd.
Qed.

(** A node that expires before the last of the list goes into the tree. *)
Lemma insert_node_tree `{Env} s L x xs q y n :
  ordered s L (x :: xs) q → y ∉ timeo_root (po s) :: L :: (x :: xs) ++ q →
  is_Some (mem s !! y) → pnodes s !! y = Some n → ts_ok (timeout n) →
  before s y (lastof L (x :: xs)) = true →
  ∃ h, let q' := tq_insert s y q in
    let s1 := tree_state s h y (set_in_rbtree true n) q' in
    __poller_insert_node (Some y) s =
      Done (tt, if decide (first_of_all s y (x :: xs) q) then arm (timeout n) s1 else s1) ∧
    ordered s1 L (x :: xs) q' ∧ framed (timeo_root (po s) :: y :: q) (mem s) h.
Proof.
  intros Ho Hy Hmem Hn Hok Hlast. pose proof (o_queues _ _ _ _ Ho) as Hq.
  destruct (tree_insert_ok s q y n) as (h & Eh & Htq & Hfr);
    [apply Hq|set_solver|done..|].
  exists h. cbv zeta. pose proof (queues_tree_insert _ _ _ _ _ _ h Ho Hy Hn Htq Hfr) as Hq1.
  split_and!; [|done|done]. set (s1 := tree_state _ _ _ _ _) in *.
  destruct (deadline_update s s1 y n (set_in_rbtree true n)) as [Hdl Htm]; [done..|].
  assert (∀ a b, before s1 a b = before s a b) as Hbf.
  { intros a b. unfold before. by rewrite !Hdl. }
  unfold __poller_insert_node. rewrite pol_bnd, (q_head _ _ _ _ Hq).
  rewrite (lnk_read _ _ _ _ (queues_list_prev _ _ _ _ Ho)).
  rewrite (lnk_read _ _ _ _ (queues_list_empty _ _ _ _ Hq)).
  rewrite bool_decide_false by done. cbv zeta.
  assert (timed s y) as Hty by by exists n.
  destruct (timeout_cmp_run s y (lastof L (x :: xs))) as (c & Ec & _ & Es); [done| |].
  { apply (q_timed _ _ _ _ Hq). rewrite lastof_cons. apply lastof_in. }
  rewrite (bnd_done _ _ _ _ _ Ec), Es, Hlast. cbn [negb].
  rewrite (bnd_done _ _ _ _ _ Eh). fold s1. rewrite pol_bnd.
  pose proof Htq as (_ & Hf & _). rewrite Hf.
  assert (y ∉ q) as Hyq by set_solver. pose proof (tq_insert_head s y q Hyq) as Hh.
  pose proof (before_all_first s y x xs (o_sorted _ _ _ _ Ho)) as Hbl.
  destruct (decide (Some y ≠ head (tq_insert s y q))) as [Hne|He].
  - rewrite decide_False; [done|]. rewrite first_of_all_app. intros [_ Hall].
    apply Hne. symmetry. by apply Hh.
  - apply dec_stable in He. 
    rewrite (lnk_read _ _ _ _ (queues_list_next _ _ _ _ (o_queues _ _ _ _ Hq1))).
    change (firstof (x :: xs) L) with x.
    rewrite (insert_arm_run s1 y (set_in_rbtree true n) _ (before s y x)).
    + do 2 f_equal. destruct (before s y x) eqn:Eb; [rewrite decide_True|rewrite decide_False];
        rewrite ?first_of_all_app; [done| |done|].
      * split; [by apply Hbl|by apply Hh].
      * intros [Hall _]. by rewrite Hall in Eb by by left.
    + simpl. by rewrite lookup_insert_eq.
    + right. exists x. split_and!; [by rewrite Hf, <- He|done|by apply Htm| |by rewrite Hbf].
      apply Htm, (q_timed _ _ _ _ Hq). by left.
Qed.

(** A node that expires last of all is chained before the last node: the entry of
    [list_add_tail] is given [timeo_list->prev] for a head. *)
Lemma insert_node_behind `{Env} s L xs l q y n :
  ordered s L (xs ++ [l]) q → y ∉ timeo_root (po s) :: L :: (xs ++ [l]) ++ q →
  is_Some (mem s !! y) → pnodes s !! y = Some n → ts_ok (timeout n) →
  before s y l = false →
  ∃ h, __poller_insert_node (Some y) s = Done (tt, set_mem h s) ∧
    flist h L (xs ++ [y; l]).
Proof.
  intros Ho Hy Hmem Hn Hok Hlast. pose proof (o_queues _ _ _ _ Ho) as Hq.
  pose proof (o_list _ _ _ _ Ho) as Hd.
  assert (NoDup (L :: xs ++ [y; l])) as HndL.
  { assert (L :: xs ++ [y; l] ≡ₚ y :: L :: xs ++ [l]) as ->.
    { rewrite <- Permutation_middle. apply perm_swap. }
    apply NoDup_cons. split; [set_solver|apply Hd]. }
  apply (dlist_rotate _ L xs l []) in Hd as (Hnd & Hf & Hb). simpl in Hnd, Hf, Hb.
  destruct (list_add_tail_stale (mem s) l (L :: xs) [] y) as (h & Eh & Hf' & _); [done| | | |done|].
  - assert (l :: (L :: xs) ++ [y] ≡ₚ L :: xs ++ [y; l]) as ->; [|done].
    simpl. rewrite (perm_swap L l). f_equiv. change [y; l] with ([y] ++ [l]).
    rewrite (assoc_L (++)). apply Permutation_cons_append.
  - by rewrite app_nil_r.
  - by eapply bseg_last.
  - exists h. split; [|split; [done|]].
    + unfold __poller_insert_node. rewrite pol_bnd, (q_head _ _ _ _ Hq).
      rewrite (lnk_read _ _ _ _ (queues_list_prev _ _ _ _ Ho)).
      rewrite (lnk_read _ _ _ _ (queues_list_empty _ _ _ _ Hq)).
      rewrite bool_decide_false by (by destruct xs). cbv zeta. rewrite lastof_snoc.
      destruct (timeout_cmp_run s y l) as (c & Ec & _ & Es); [by exists n| |].
      { apply (q_timed _ _ _ _ Hq). set_solver. }
      rewrite (bnd_done _ _ _ _ _ Ec), Es, Hlast. cbn [negb].
      rewrite (lnk_read _ _ _ _ (queues_list_prev _ _ _ _ Ho)), lastof_snoc.
      unfold lnk, zoom. by rewrite Eh.
    + change [y; l] with ([y] ++ [l]). rewrite (assoc_L (++)). by apply (fseg_rotate h L (xs ++ [y]) l []).
Qed.
