(* ===== verification/PollerWrite.v ===== *)
(** [__poller_handle_write]: what is left to send is what was there, less the
    bytes the kernel took. *)
From S2P Require Export Poller.

(** The data an array of iovecs stands for: the positions of its bytes. *)
Definition iov_bytes (v : iovec) : list Z := seqZ (iov_base v) (iov_len v).
Definition vec_bytes (l : list iovec) : list Z := concat (iov_bytes <$> l).
(** The bytes of the [cnt] iovecs from [pos] on. *)
Definition pending (l : list iovec) (pos cnt : nat) : list Z :=
  vec_bytes (take cnt (drop pos l)).
Definition lens_ok (l : list iovec) : Prop := Forall (λ v, 0 ≤ iov_len v < 2 ^ 63)%Z l.

Lemma seqZ_drop b m n : (0 ≤ m ≤ n)%Z → drop (Z.to_nat m) (seqZ b n) = seqZ (b + m) (n - m).
Proof.
  intros H. replace n with (m + (n - m))%Z at 1 by lia.
  rewrite seqZ_app by lia. rewrite drop_app_length'; [done|]. by rewrite length_seqZ.
Qed.

(** The fields the loops change. *)
Definition wr_state (s : pstate) (x : loc) (n : pnode) (cnt : nat) (arr : loc)
    (l : list iovec) : pstate :=
  set_iovs (<[arr := l]> (iovs s))
    (set_pnodes (<[x := set_data (set_iovcnt (Z.of_nat cnt) (data n)) n]> (pnodes s)) s).

Lemma wr_state_same s x n k arr l :
  pnodes s !! x = Some n → iovs s !! arr = Some l → iovcnt (data n) = Z.of_nat k →
  wr_state s x n k arr l = s.
Proof.
  intros Hn Hl Hk. unfold wr_state. rewrite (insert_id (iovs s)), <- Hk by done.
  rewrite insert_id by (simpl; rewrite Hn; by destruct n as [? ? []]). by destruct s.
Qed.

Lemma pending_cons l pos k v :
  l !! pos = Some v → pending l pos (S k) = iov_bytes v ++ pending l (S pos) k.
Proof. intros E. unfold pending. by rewrite (drop_S _ _ _ E). Qed.

Lemma pending_insert l pos p k v :
  pos < p → pending (<[pos := v]> l) p k = pending l p k.
Proof. intros. unfold pending. by rewrite drop_insert_lt. Qed.

Lemma lens_insert l pos v : lens_ok l → (0 ≤ iov_len v < 2 ^ 63)%Z → lens_ok (<[pos := v]> l).
Proof. intros. by apply Forall_insert. Qed.

(** Skipping [nleft] written bytes drops them from what is pending. *)
Lemma write_skip_run x arr fuel : ∀ s n l pos k nleft,
  pnodes s !! x = Some n → iovs s !! arr = Some l → lens_ok l →
  iovcnt (data n) = Z.of_nat (S k) → pos + S k ≤ length l → (0 ≤ nleft < 2 ^ 63)%Z → S k ≤ fuel →
  ∃ pos' k' l', write_skip fuel (Some x) arr pos nleft s =
      Done (pos', wr_state s x n k' arr l') ∧
    pos' + k' = pos + S k ∧ k' ≤ S k ∧ length l' = length l ∧ lens_ok l' ∧
    pending l' pos' k' = drop (Z.to_nat nleft) (pending l pos (S k)) ∧
    (k' = S k → ∃ v, l !! pos = Some v ∧ nleft < iov_len v)%Z.
Proof.
  induction fuel as [|fuel IH]; intros s n l pos k nleft Hn Hl Hok Hcnt Hpos Hleft Hf; [lia|].
  destruct (lookup_lt_is_Some_2 l pos) as [v Hv]; [lia|].
  pose proof (proj1 (Forall_lookup _ _) Hok _ _ Hv) as Hlen. simpl in Hlen.
  cbn [write_skip]. erewrite bnd_done by (unfold iov_get; by rewrite Hl, Hv).
  rewrite (pending_cons _ _ _ _ Hv), (i64_small (iov_len v)) by lia.
  destruct (iov_len v <=? nleft)%Z eqn:E.
  - apply Z.leb_le in E. erewrite bnd_done by (unfold iov_set; by rewrite Hl, Hv).
    rewrite (i64_small (nleft - iov_len v)) by lia.
    rewrite (node_set_bnd _ _ _ _ n) by done.
    erewrite node_get_bnd by (simpl; by rewrite lookup_insert_eq). cbn [data set_data iovcnt set_iovcnt].
    rewrite Hcnt. set (l1 := <[pos := _]> l).
    assert (lens_ok l1) as Hok1 by by apply lens_insert.
    assert (drop (Z.to_nat nleft) (iov_bytes v ++ pending l (S pos) k) =
            drop (Z.to_nat (nleft - iov_len v)) (pending l1 (S pos) k)) as Ed.
    { rewrite drop_app_ge by (unfold iov_bytes; rewrite length_seqZ; lia).
      unfold l1. rewrite pending_insert by lia. f_equal. unfold iov_bytes.
      rewrite length_seqZ. lia. }
    destruct k as [|k].
    + exists (S pos), 0, l1. split_and!; [|lia|lia|unfold l1; by rewrite length_insert|done| |done].
      * done.
      * rewrite Ed. unfold pending, vec_bytes. simpl. by rewrite drop_nil.
    + replace (0 <? Z.of_nat (S (S k)) - 1)%Z with true by (symmetry; apply Z.ltb_lt; lia).
      edestruct (IH (set_pnodes (<[x := set_data (set_iovcnt (Z.of_nat (S k)) (data n)) n]> (pnodes s))
                  (set_iovs (<[arr := l1]> (iovs s)) s)))
        with (pos := S pos) (k := k) (nleft := (nleft - iov_len v)%Z)
        as (pos' & k' & l' & E1 & E2 & Ele & E3 & E4 & E5 & _);
        [simpl; by rewrite lookup_insert_eq|simpl; by rewrite lookup_insert_eq|done|done
        |unfold l1; rewrite length_insert; lia|lia|lia|].
      exists pos', k', l'. split_and!; [|lia|lia|rewrite E3; unfold l1; by rewrite length_insert|done
        |by rewrite E5, Ed|lia].
      replace (Z.of_nat (S (S k)) - 1)%Z with (Z.of_nat (S k)) by lia.
      etrans; [exact E1|]. unfold wr_state. simpl. by rewrite !insert_insert_eq.
  - apply Z.leb_gt in E. rewrite (u64_small (iov_len v - nleft)) by lia. erewrite bnd_done by (unfold iov_set; by rewrite Hl, Hv).
    eexists pos, (S k), _. split_and!; [|done|done|by rewrite length_insert| | |by exists v].
    + unfold ret, wr_state. do 2 f_equal. rewrite <- Hcnt.
      rewrite (insert_id (pnodes s)) by (rewrite Hn; by destruct n as [? ? []]).
      by destruct s.
    + apply lens_insert; [done|]. simpl. lia.
    + erewrite pending_cons by (apply list_lookup_insert_eq; lia).
      rewrite pending_insert by lia.
      rewrite drop_app_le by (unfold iov_bytes; rewrite length_seqZ; lia). f_equal.
      unfold iov_bytes. simpl. by rewrite seqZ_drop by lia.
Qed.

(** The bytes the kernel took, over the calls of a run (latest first). *)
Definition call_sent (c : call * Z) : list Z :=
  match c with
  | (CWritev _ vec, r) => take (Z.to_nat r) (vec_bytes vec)
  | _ => []
  end.
Fixpoint sent (cs : list (call * Z)) : list Z :=
  match cs with [] => [] | c :: cs => sent cs ++ call_sent c end.

(** writev(2): at most the bytes it was given, and at least one of them if any. *)
Class WritevLaws (E : Env) : Prop := {
  writev_bound f vec s : (fst (sys_result (CWritev f vec) s) ≤ Z.of_nat (length (vec_bytes vec)))%Z;
  writev_progress f vec s :
    vec_bytes vec ≠ [] → fst (sys_result (CWritev f vec) s) ≠ 0%Z;
}.

Lemma vec_bytes_app a b : vec_bytes (a ++ b) = vec_bytes a ++ vec_bytes b.
Proof. unfold vec_bytes. by rewrite fmap_app, concat_app. Qed.

Section write_loop.
Context `{E : Env} `{!WritevLaws E} `{Client}.

(** How the loop is left: everything is sent, the socket is full, or writev
    failed. *)
Inductive write_end (s : pstate) : Z → nat → Prop :=
| WroteAll : write_end s 0 0
| WroteFull k : errno s = EAGAIN → write_end s 0 (S k)
| WroteError k : errno s ≠ EAGAIN → write_end s (-1) (S k).

Lemma slice_prefix l pos k n :
  n ≤ k → ∃ rest, pending l pos k = vec_bytes (take n (drop pos l)) ++ rest.
Proof.
  intros Hn. unfold pending. exists (vec_bytes (drop n (take k (drop pos l)))).
  rewrite <- vec_bytes_app. f_equal. rewrite <- (take_drop n (take k _)) at 1.
  f_equal. by rewrite take_take, Nat.min_l by lia.
Qed.

(** Every round that goes on leaves fewer bytes or fewer iovecs. *)
Lemma round_decreases f s l pos k k' m left r rest :
  (k' = S k → ∃ v, l !! pos = Some v ∧ r < iov_len v)%Z → k' ≤ S k → 1 ≤ m →
  fst (sys_result (CWritev f (take m (drop pos l))) s) = r → (0 ≤ r)%Z →
  (r ≤ Z.of_nat (length (vec_bytes (take m (drop pos l)))))%Z →
  pending l pos (S k) = vec_bytes (take m (drop pos l)) ++ rest →
  left = drop (Z.to_nat r) (pending l pos (S k)) →
  length left + Z.to_nat r = length (pending l pos (S k)) ∧
  length left + k' < length (pending l pos (S k)) + S k.
Proof.
  intros E7 Hk Hm Er Hr0 Hr Erest ->.
  assert (length (drop (Z.to_nat r) (pending l pos (S k))) + Z.to_nat r
          = length (pending l pos (S k))) as Hlen by (rewrite length_drop, Erest, length_app; lia).
  split; [done|]. destruct (decide (r = 0)%Z) as [E0|]; [|lia].
  destruct (decide (k' = S k)) as [Ek|]; [|lia]. apply E7 in Ek as (v & Hv & Hlv).
  exfalso. eapply writev_progress; [|by rewrite Er]. intros Ev.
  destruct m as [|m]; [lia|]. rewrite (drop_S _ _ _ Hv) in Ev. unfold vec_bytes in Ev. simpl in Ev.
  apply app_eq_nil in Ev as [Ev _]. apply (f_equal length) in Ev. unfold iov_bytes in Ev.
  rewrite length_seqZ in Ev. simpl in Ev. lia.
Qed.

Lemma write_loop_run x arr fuel : ∀ s n l pos k count,
  pnodes s !! x = Some n → iovs s !! arr = Some l → lens_ok l →
  iovcnt (data n) = Z.of_nat k → pos + k ≤ length l →
  (0 ≤ count)%Z → (count + Z.of_nat (length (pending l pos k)) < 2 ^ 63)%Z →
  length (pending l pos k) + k < fuel →
  ∃ rt pos' k' l' count' e cs out,
    let s' := wr_state (set_errno e s) x n k' arr l' in
    let s' := PState (mem s') (pnodes s') (iovs s') (po s') (errno s') (cs ++ calls s) in
    write_loop fuel (Some x) arr pos count s = Done ((rt, pos', count'), s') ∧
    sent (cs ++ calls s) = sent (calls s) ++ out ∧
    pending l pos k = out ++ pending l' pos' k' ∧
    count' = (count + Z.of_nat (length out))%Z ∧
    pos' + k' = pos + k ∧ length l' = length l ∧ lens_ok l' ∧
    write_end s' rt k'.
Proof.
  induction fuel as [|fuel IH]; intros s n l pos k count Hn Hl Hok Hcnt Hpos H0 Hc Hf; [lia|].
  cbn [write_loop]. rewrite (node_get_bnd _ _ _ _ n) by done. rewrite Hcnt.
  destruct k as [|k].
  { exists 0%Z, pos, 0, l, count, (errno s), [], []. cbv zeta. split_and!; try done.
    - replace (set_errno (errno s) s) with s by by destruct s.
      rewrite wr_state_same by done. by destruct s.
    - by rewrite app_nil_r.
    - simpl. lia.
    - constructor. }
  replace (0 <? Z.of_nat (S k))%Z with true by (symmetry; apply Z.ltb_lt; lia). cbn [negb].
  rewrite (node_get_bnd _ _ _ _ n) by done.
  set (m := Z.to_nat (if (IOV_MAX <? Z.of_nat (S k))%Z then IOV_MAX else Z.of_nat (S k))).
  assert (1 ≤ m ≤ S k) as Hm by (unfold m, IOV_MAX; destruct (Z.ltb_spec 1024 (Z.of_nat (S k))); lia).
  erewrite bnd_done by (unfold iov_slice; rewrite Hl, decide_True by lia; reflexivity).
  destruct (slice_prefix l pos (S k) m) as [rest Erest]; [lia|].
  set (vec := take m (drop pos l)) in *.
  pose proof (writev_bound (fd (data n)) vec s) as Hb.
  unfold sys. destruct (sys_result _ s) as [r e] eqn:Esys. simpl in Hb.
  erewrite bnd_done by (rewrite Esys; reflexivity).
  destruct (r <? 0)%Z eqn:Er.
  { apply Z.ltb_lt in Er. eexists _, pos, (S k), l, count, e, [(CWritev (fd (data n)) vec, r)], [].
    cbv zeta. split_and!; [|simpl; by replace (Z.to_nat r) with 0 by lia|done|simpl; lia|done..|].
    - unfold get_errno. rewrite gets_bnd, wr_state_same by done. done.
    - simpl. destruct (e =? EAGAIN)%Z eqn:Ee; constructor; simpl; lia. }
  apply Z.ltb_ge in Er.
  assert (length (vec_bytes vec) ≤ length (pending l pos (S k))) as Hvec
    by (rewrite Erest, length_app; lia).
  assert (0 ≤ r < 2 ^ 63)%Z as Hr by lia.
  edestruct (write_skip_run x arr (Z.to_nat (Z.of_nat (S k)))
    (log (CWritev (fd (data n)) vec) r (set_errno e s)) n l pos k r)
    as (pos' & k' & l' & E1 & E2 & E3 & E4 & E5 & E6 & E7); [done..|lia|].
  rewrite (bnd_done _ _ _ _ _ E1).
  destruct (round_decreases (fd (data n)) s l pos k k' m (pending l' pos' k') r rest)
    as [Hlen Hdec]; [done|lia|lia|by fold vec; rewrite Esys|lia|done..|].
  edestruct (IH (wr_state (log (CWritev (fd (data n)) vec) r (set_errno e s)) x n k' arr l'))
    with (pos := pos') (k := k') (count := (count + r)%Z)
    as (rt & pos2 & k2 & l2 & c2 & e2 & cs & out & F1 & F2 & F3 & F4 & F5 & F6 & F7 & F8);
    [simpl; by rewrite lookup_insert_eq|simpl; by rewrite lookup_insert_eq|done|done|lia|lia|lia|lia|].
  eexists rt, pos2, k2, l2, c2, e2, (cs ++ [(CWritev (fd (data n)) vec, r)]),
    (take (Z.to_nat r) (vec_bytes vec) ++ out).
  cbv zeta in *. split_and!.
  - rewrite u64_small by lia. etrans; [exact F1|]. unfold wr_state. simpl.
    rewrite !insert_insert_eq. by rewrite <- app_assoc.
  - rewrite <- app_assoc. simpl. simpl in F2. rewrite F2. simpl. by rewrite <- app_assoc.
  - rewrite <- app_assoc, <- F3, E6, Erest, drop_app_le by lia.
    by rewrite (assoc_L (++)), take_drop.
  - rewrite F4, length_app, length_take. lia.
  - lia.
  - by rewrite F6.
  - done.
  - by destruct F8; constructor.
Qed.
End write_loop.
