(* ===== verification/PollerTable.v ===== *)
(** The table of descriptors: every operation keeps [poller->nodes] consistent
    with the nodes, whatever happens to the lists and the tree. *)
From S2P Require Export PollerTimer.

(** ** What the queues do not touch *)

(** The fields of a node that belong to the table, not to a queue. *)
Record owned : Type := Owned { o_data : poller_data; o_removed : bool; o_res : ptr; o_event : Z }.
Definition own (n : pnode) : owned := Owned (data n) (removed n) (res n) (event n).

(** [s'] differs from [s] in links, timeouts, queue flags, states, errno and the
    calls made only. *)
Record same_core (s s' : pstate) : Prop := SameCore {
  sc_nodes : nodes (po s') = nodes (po s);
  sc_max : max_open_files (po s') = max_open_files (po s);
  sc_stopped : stopped (po s') = stopped (po s);
  sc_own l : own <$> pnodes s' !! l = own <$> pnodes s !! l;
}.
#[export] Instance same_core_preorder : PreOrder same_core.
Proof.
  split; [by constructor|]. intros s1 s2 s3 [] []. constructor; try congruence.
Qed.

(** Code that stays within that. *)
Definition quiet {A} (m : M pstate A) : Prop :=
  ∀ s a s', m s = Done (a, s') → same_core s s'.

Lemma quiet_ret {A} (a : A) : quiet (ret a).
Proof. by intros s b s' [= <- <-]. Qed.
Lemma quiet_bnd {A B} (m : M pstate A) (k : A → M pstate B) :
  quiet m → (∀ a, quiet (k a)) → quiet (bnd m k).
Proof.
  intros Hm Hk s b s' (a & s1 & E1 & E2)%bnd_done_inv. etrans; [by eapply Hm|by eapply Hk].
Qed.
Lemma quiet_lnk {A} (m : M (gmap positive cell) A) : quiet (lnk m).
Proof.
  intros s a s' E. unfold lnk, zoom in E. destruct (m (mem s)) as [[b h]| | |]; simplify_eq.
  by constructor.
Qed.
Lemma quiet_gets {A} (f : pstate → A) : quiet (gets f).
Proof. by intros s b s' [= <- <-]. Qed.
Lemma quiet_node_get {A} (f : pnode → A) p : quiet (node_get f p).
Proof. intros s a s' E. destruct p; simpl in E; [|done]. case_match; simplify_eq. done. Qed.
Lemma quiet_node_set f p : (∀ n, own (f n) = own n) → quiet (node_set f p).
Proof.
  intros Hf s a s' E. destruct p as [l|]; simpl in E; [|done]. case_match eqn:El; simplify_eq.
  constructor; try done. intros l'. simpl. destruct (decide (l = l')) as [<-|].
  - rewrite lookup_insert_eq, El. simpl. by rewrite Hf.
  - by rewrite lookup_insert_ne.
Qed.
Lemma quiet_pol_set f :
  (∀ p, nodes (f p) = nodes p ∧ max_open_files (f p) = max_open_files p ∧
        stopped (f p) = stopped p) → quiet (pol_set f).
Proof. intros Hf s a s' [= <- <-]. by constructor; try apply Hf. Qed.
Lemma quiet_put_errno e : quiet (put_errno e).
Proof. intros s a s' [= <- <-]. by constructor. Qed.
Lemma quiet_sys `{Env} c : quiet (sys c).
Proof.
  intros s a s' E. unfold sys in E. destruct (sys_result c s) as [r e]. simplify_eq.
  by constructor.
Qed.
Lemma quiet_bounded {A} f (m : nat → M pstate A) : (∀ n, quiet (m n)) → quiet (bounded f m).
Proof. intros H s. apply H. Qed.
Lemma quiet_nofuel {A} : quiet (nofuel : M pstate A).
Proof. done. Qed.

Ltac hush :=
  repeat first
    [ progress intros
    | apply quiet_bnd | apply quiet_ret | apply quiet_lnk | apply quiet_gets
    | apply quiet_node_get | apply quiet_node_set; done | apply quiet_pol_set; done
    | apply quiet_put_errno | apply quiet_sys | apply quiet_bounded | apply quiet_nofuel
    | solve [eauto with kernel]
    | case_match ].

Section quiet.
Context `{Env}.

Lemma quiet_pol {A} (f : poller → A) : quiet (pol f).
Proof. apply quiet_gets. Qed.
Hint Resolve quiet_pol : kernel.
Lemma quiet_timeout_cmp a b : quiet (__timeout_cmp a b).
Proof. unfold __timeout_cmp. hush. Qed.
Hint Resolve quiet_timeout_cmp : kernel.
Lemma quiet_descend fuel n p : quiet (tree_descend fuel n p).
Proof. revert p. induction fuel; intros p; cbn [tree_descend]; hush. Qed.
Hint Resolve quiet_descend : kernel.
Lemma quiet_tree_insert n : quiet (__poller_tree_insert n).
Proof. unfold __poller_tree_insert. hush. Qed.
Lemma quiet_tree_erase n : quiet (__poller_tree_erase n).
Proof. unfold __poller_tree_erase. hush. Qed.
Hint Resolve quiet_tree_insert quiet_tree_erase : kernel.
Lemma quiet_insert_node n : quiet (__poller_insert_node n).
Proof. unfold __poller_insert_node, __poller_set_timerfd. hush. Qed.
Hint Resolve quiet_insert_node : kernel.
Lemma quiet_enqueue n t : quiet (enqueue n t).
Proof. unfold enqueue. hush. Qed.
Lemma quiet_unqueue n : quiet (unqueue n).
Proof. unfold unqueue. hush. Qed.
Lemma quiet_set_timer : quiet __poller_set_timer.
Proof. unfold __poller_set_timer, __poller_set_timerfd. hush. Qed.
Lemma quiet_add_fd f e d : quiet (__poller_add_fd f e d).
Proof. unfold __poller_add_fd. hush. Qed.
Lemma quiet_delete_fd f e : quiet (__poller_delete_fd f e).
Proof. unfold __poller_delete_fd. hush. Qed.
Lemma quiet_modify_fd f e e' d : quiet (__poller_modify_fd f e e' d).
Proof. unfold __poller_modify_fd. hush. Qed.
Lemma quiet_node_timeout t n : quiet (__poller_node_set_timeout t n).
Proof. unfold __poller_node_set_timeout, clock_gettime. hush. Qed.
Lemma quiet_fd_out f : quiet (fd_out f).
Proof. unfold fd_out. hush. Qed.
Lemma quiet_get_event d : quiet (__poller_data_get_event d).
Proof. unfold __poller_data_get_event. hush. Qed.
End quiet.
#[export] Hint Resolve quiet_pol quiet_descend quiet_tree_insert quiet_tree_erase quiet_insert_node quiet_enqueue quiet_unqueue quiet_set_timer
  quiet_add_fd quiet_delete_fd quiet_modify_fd quiet_node_timeout quiet_fd_out
  quiet_get_event quiet_timeout_cmp : kernel.

(** ** The invariant *)

Definition owns (s : pstate) (l : loc) : option owned := own <$> pnodes s !! l.

(** Slot [f] of the table holds the node [l]; slot [X] is not looked at. *)
Definition entry (X : option nat) (s : pstate) (f : nat) (l : loc) : Prop :=
  nodes (po s) !! f = Some (Some l) ∧ X ≠ Some f.

Record table_but (X : option nat) (s : pstate) : Prop := TableBut {
  t_len : length (nodes (po s)) = Z.to_nat (max_open_files (po s));
  t_node f l : entry X s f l →
    ∃ o, owns s l = Some o ∧ fd (o_data o) = Z.of_nat f ∧ o_removed o = false;
  t_res f l o r : entry X s f l → owns s l = Some o → o_res o = Some r →
    is_Some (pnodes s !! r) ∧ (∀ f', ¬ entry X s f' r) ∧
    ∀ f' l' o', entry X s f' l' → owns s l' = Some o' → o_res o' = Some r → f' = f;
}.

(** The table has a slot per descriptor; a node in slot [fd] is allocated, is for
    that descriptor, has not been removed, and its [res] is its own. *)
Definition table_ok (s : pstate) : Prop := table_but None s.

Lemma entry_eq X s s' f l : nodes (po s') = nodes (po s) → entry X s' f l ↔ entry X s f l.
Proof. unfold entry. by intros ->. Qed.

Lemma owns_Some s l : is_Some (owns s l) ↔ is_Some (pnodes s !! l).
Proof. unfold owns. apply fmap_is_Some. Qed.

Lemma table_same_core X s s' : same_core s s' → table_but X s → table_but X s'.
Proof.
  intros [E1 E2 _ E4] [T1 T2 T3].
  assert (∀ f l, entry X s' f l ↔ entry X s f l) as E by (intros; by apply entry_eq).
  constructor; [congruence| |].
  - intros f l Hf%E. unfold owns. rewrite E4. by apply T2.
  - intros f l o r Hf%E. unfold owns. rewrite E4. intros Ho Hr.
    destruct (T3 f l o r Hf Ho Hr) as (H1 & H2 & H3). split_and!.
    + by rewrite <- owns_Some in H1 |- *; unfold owns; rewrite E4.
    + intros f'. by rewrite E.
    + intros f' l' o'. rewrite E, E4. apply H3.
Qed.
Lemma quiet_table {A} (m : M pstate A) X s a s' :
  quiet m → m s = Done (a, s') → table_but X s → table_but X s'.
Proof. intros Hq E. by eapply table_same_core, Hq. Qed.

Lemma table_weaken f s : table_ok s → table_but (Some f) s.
Proof.
  intros [T1 T2 T3]. assert (∀ f' l, entry (Some f) s f' l → entry None s f' l) as E.
  { by intros f' l [? ?]. }
  constructor; [done|eauto|]. intros f' l o r Hf Ho Hr.
  destruct (T3 f' l o r (E _ _ Hf) Ho Hr) as (H1 & H2 & H3). split_and!; [done| |eauto].
  intros f2 Hf2. apply (H2 f2); auto.
Qed.

(** A node outside the table and its [res]es may be written, or freed. *)
Definition unlisted (X : option nat) (s : pstate) (l : loc) : Prop := ∀ f, ¬ entry X s f l.
Definition no_res (X : option nat) (s : pstate) (r : loc) : Prop :=
  ∀ f l o, entry X s f l → owns s l = Some o → o_res o ≠ Some r.

Lemma table_put X s h l n :
  table_but X s → unlisted X s l →
  table_but X (set_mem h (set_pnodes (<[l := n]> (pnodes s)) s)).
Proof.
  intros [T1 T2 T3] Hl. set (s' := set_mem _ _).
  assert (∀ f k, entry X s f k → owns s' k = owns s k) as E.
  { intros f k Hk. unfold owns. simpl. rewrite lookup_insert_ne; [done|].
    intros ->. by apply (Hl f). }
  constructor; [done| |].
  - intros f k Hk. rewrite (E f k Hk). by apply T2.
  - intros f k o r Hk. rewrite (E f k Hk). intros Ho Hr.
    destruct (T3 f k o r Hk Ho Hr) as (H1 & H2 & H3). split_and!; [|done|].
    + simpl. rewrite lookup_insert_is_Some. destruct (decide (l = r)); auto.
    + intros f' l' o' Hf'. rewrite (E f' l' Hf'). by apply H3.
Qed.
Lemma table_drop X s h l :
  table_but X s → unlisted X s l → no_res X s l →
  table_but X (set_mem h (set_pnodes (delete l (pnodes s)) s)).
Proof.
  intros [T1 T2 T3] Hl Hr. set (s' := set_mem _ _).
  assert (∀ f k, entry X s f k → owns s' k = owns s k) as E.
  { intros f k Hk. unfold owns. simpl. rewrite lookup_delete_ne; [done|].
    intros ->. by apply (Hl f). }
  constructor; [done| |].
  - intros f k Hk. rewrite (E f k Hk). by apply T2.
  - intros f k o r Hk. rewrite (E f k Hk). intros Ho Hor.
    destruct (T3 f k o r Hk Ho Hor) as (H1 & H2 & H3). split_and!; [|done|].
    + simpl. rewrite lookup_delete_ne; [done|]. intros ->. by eapply (Hr f k).
    + intros f' l' o' Hf'. rewrite (E f' l' Hf'). by apply H3.
Qed.

(** Emptying a slot. *)
Lemma nodes_set_inv f p s a s' :
  nodes_set f p s = Done (a, s') →
  (0 ≤ f)%Z ∧ is_Some (nodes (po s) !! Z.to_nat f) ∧
  s' = set_po (set_nodes (<[Z.to_nat f := p]> (nodes (po s))) (po s)) s.
Proof.
  unfold nodes_set. intros E. destruct (f <? 0)%Z eqn:Ef; [done|]. case_match; simplify_eq.
  split_and!; [lia|done|done].
Qed.
Lemma nodes_get_inv f s p s' :
  nodes_get f s = Done (p, s') →
  (0 ≤ f)%Z ∧ nodes (po s) !! Z.to_nat f = Some p ∧ s' = s.
Proof.
  unfold nodes_get. intros E. destruct (f <? 0)%Z eqn:Ef; [done|]. case_match; simplify_eq.
  split_and!; [lia|done|done].
Qed.

Lemma entry_set X s f p f' l :
  is_Some (nodes (po s) !! f) →
  entry X (set_po (set_nodes (<[f := p]> (nodes (po s))) (po s)) s) f' l ↔
  (if decide (f' = f) then p = Some l ∧ X ≠ Some f else entry X s f' l).
Proof.
  intros Hf. unfold entry. simpl. case_decide as E.
  - subst. rewrite list_lookup_insert_eq by by apply lookup_lt_is_Some. naive_solver.
  - by rewrite list_lookup_insert_ne.
Qed.

Lemma table_clear s f :
  table_ok s → is_Some (nodes (po s) !! f) →
  table_ok (set_po (set_nodes (<[f := None]> (nodes (po s))) (po s)) s).
Proof.
  intros [T1 T2 T3] Hf. set (s' := set_po _ _).
  assert (∀ f' l, entry None s' f' l → entry None s f' l ∧ f' ≠ f) as E.
  { intros f' l. unfold s'. rewrite entry_set by done. case_decide; naive_solver. }
  constructor; [simpl; by rewrite length_insert| |].
  - intros f' l [Hl _]%E. by apply (T2 f').
  - intros f' l o r [Hl _]%E Ho Hr. destruct (T3 f' l o r Hl Ho Hr) as (H1 & H2 & H3).
    split_and!; [done| |].
    + intros f2 [Hf2 _]%E. by apply (H2 f2).
    + intros f2 l2 o2 [Hf2 _]%E. by apply H3.
Qed.

(** Filling slot [f] with a node of that descriptor whose [res] is its own. *)
Lemma table_fill s f l o :
  table_but (Some f) s → is_Some (nodes (po s) !! f) →
  owns s l = Some o → fd (o_data o) = Z.of_nat f → o_removed o = false →
  unlisted (Some f) s l → no_res (Some f) s l →
  (∀ r, o_res o = Some r → is_Some (pnodes s !! r) ∧ r ≠ l ∧
     unlisted (Some f) s r ∧ no_res (Some f) s r) →
  table_ok (set_po (set_nodes (<[f := Some l]> (nodes (po s))) (po s)) s).
Proof.
  intros [T1 T2 T3] Hf Ho Hfd Hrm Hl Hlr Hres. set (s' := set_po _ _).
  assert (∀ f' k, entry None s' f' k ↔ (f' = f ∧ k = l ∨ f' ≠ f ∧ entry (Some f) s f' k)) as E.
  { intros f' k. unfold s'. rewrite entry_set by done. unfold entry.
    case_decide; naive_solver. }
  constructor; [simpl; by rewrite length_insert| |].
  - intros f' k [[-> ->]|[_ Hk]]%E; [by exists o|by apply (T2 f')].
  - intros f' k o' r Hk Ho' Hr. apply E in Hk as [[-> ->]|[Hne Hk]].
    + change (owns s l = Some o') in Ho'. rewrite Ho in Ho'. injection Ho' as <-.
      destruct (Hres r Hr) as (H1 & H2 & H3 & H4). split_and!; [done| |].
      * intros f2 [[-> ->]|[_ Hf2]]%E; [done|]. by apply (H3 f2).
      * intros f2 l2 o2 [[-> ->]|[_ Hf2]]%E Ho2 Hr2; [done|]. exfalso. by apply (H4 f2 l2 o2).
    + destruct (T3 f' k o' r Hk Ho' Hr) as (H1 & H2 & H3). split_and!; [done| |].
      * intros f2 [[-> ->]|[_ Hf2]]%E; [|by apply (H2 f2)]. by apply (Hlr f' k o').
      * intros f2 l2 o2 [[-> ->]|[_ Hf2]]%E Ho2 Hr2; [|by eapply H3].
        change (owns s l = Some o2) in Ho2. rewrite Ho in Ho2. injection Ho2 as <-.
        destruct (Hres r Hr2) as (_ & _ & _ & H4). exfalso. by apply (H4 f' k o').
Qed.

Lemma unlisted_core X s s' l : same_core s s' → unlisted X s l → unlisted X s' l.
Proof. intros [E _ _ _] H f. rewrite (entry_eq X s s') by done. apply H. Qed.
Lemma no_res_core X s s' r : same_core s s' → no_res X s r → no_res X s' r.
Proof.
  intros [E _ _ Eo] H f l o. rewrite (entry_eq X s s') by done. unfold owns. rewrite Eo. apply H.
Qed.
Lemma is_Some_core s s' r : same_core s s' → is_Some (pnodes s !! r) → is_Some (pnodes s' !! r).
Proof. intros [_ _ _ Eo]. rewrite <- !owns_Some. unfold owns. by rewrite Eo. Qed.

(** The node [l] is not reachable from the table, so that it may be changed. *)
Record detached (X : option nat) (s : pstate) (l : loc) : Prop := Detached {
  det_unlisted : unlisted X s l;
  det_no_res : no_res X s l;
}.
Lemma detached_core X s s' l : same_core s s' → detached X s l → detached X s' l.
Proof. intros E [H1 H2]. split; [by eapply unlisted_core|by eapply no_res_core]. Qed.

Lemma fresh_detached X s l : table_but X s → pnodes s !! l = None → detached X s l.
Proof.
  intros [_ T2 T3] Hl. split.
  - intros f Hf. destruct (T2 f l Hf) as (o & Ho & _). unfold owns in Ho. by rewrite Hl in Ho.
  - intros f k o Hf Ho Hr. destruct (T3 f k o l Hf Ho Hr) as ([n Hn] & _). congruence.
Qed.
Lemma detached_put X s h l n r :
  unlisted X s l → detached X s r →
  detached X (set_mem h (set_pnodes (<[l := n]> (pnodes s)) s)) r.
Proof.
  intros Hl [H1 H2]. split; [exact H1|]. intros f k o Hf. unfold owns. simpl.
  rewrite lookup_insert_ne; [by apply (H2 f k o)|]. intros ->. by apply (Hl f).
Qed.
Lemma detached_drop X s h l r :
  unlisted X s l → detached X s r →
  detached X (set_mem h (set_pnodes (delete l (pnodes s)) s)) r.
Proof.
  intros Hl [H1 H2]. split; [exact H1|]. intros f k o Hf. unfold owns. simpl.
  rewrite lookup_delete_ne; [by apply (H2 f k o)|]. intros ->. by apply (Hl f).
Qed.

(** The poller's own fields are as before. *)
Record same_po (s s' : pstate) : Prop := SamePo {
  sp_nodes : nodes (po s') = nodes (po s);
  sp_max : max_open_files (po s') = max_open_files (po s);
  sp_stopped : stopped (po s') = stopped (po s);
}.
#[export] Instance same_po_preorder : PreOrder same_po.
Proof. split; [by constructor|]. intros s1 s2 s3 [] []. constructor; congruence. Qed.
Lemma same_core_po s s' : same_core s s' → same_po s s'.
Proof. intros []. by constructor. Qed.

(** A node made for [d], not yet in the table, and its [res]. *)
Definition new_for (X : option nat) (s : pstate) (d : poller_data) (l : loc) : Prop :=
  ∃ o, owns s l = Some o ∧ o_data o = d ∧ o_removed o = false ∧ detached X s l ∧
    ∀ r, o_res o = Some r → is_Some (pnodes s !! r) ∧ r ≠ l ∧ detached X s r.

Lemma new_for_core X s s' d l : same_core s s' → new_for X s d l → new_for X s' d l.
Proof.
  intros E (o & Ho & Hd & Hr & Hl & Hres). exists o. split_and!; [|done|done|by eapply detached_core|].
  - unfold owns in *. destruct E as [_ _ _ ->]. done.
  - intros r Hor. destruct (Hres r Hor) as (H1 & H2 & H3).
    split_and!; [by eapply is_Some_core|done|by eapply detached_core].
Qed.

Lemma malloc_node_inv `{E : Env} `{!EnvLaws E} s p s' :
  malloc_node s = Done (p, s') →
  p = None ∧ s' = s ∨
  ∃ l, p = Some l ∧ pnodes s !! l = None ∧ mem s !! l = None ∧
    s' = set_mem (<[l := junk_cell]> (mem s)) (set_pnodes (<[l := junk_node]> (pnodes s)) s).
Proof.
  unfold malloc_node. destruct (malloc_addr s) as [l|] eqn:El; intros [= <- <-]; [right|by left].
  destruct (malloc_fresh s l El) as (H1 & H2 & _). by exists l.
Qed.

Lemma node_set_inv f p s a s' :
  node_set f p s = Done (a, s') → ∃ l n, p = Some l ∧ pnodes s !! l = Some n ∧
    s' = set_mem (mem s) (set_pnodes (<[l := f n]> (pnodes s)) s).
Proof.
  intros E. destruct p as [l|]; simpl in E; [|done]. case_match eqn:El; simplify_eq.
  by exists l, p.
Qed.
Lemma node_get_inv {A} (f : pnode → A) p s a s' :
  node_get f p s = Done (a, s') → ∃ l n, p = Some l ∧ pnodes s !! l = Some n ∧ a = f n ∧ s' = s.
Proof.
  intros E. destruct p as [l|]; simpl in E; [|done]. case_match eqn:El; simplify_eq. by exists l, p.
Qed.

(** The allocation of [res]. *)
Lemma alloc_res_inv `{E : Env} `{!EnvLaws E} X (need : bool) s a s' :
  table_but X s →
  (if need then let* r := malloc_node in ret (if nonnull r then Some r else None)
   else ret (Some None)) s = Done (a, s') →
  table_but X s' ∧ same_po s s' ∧
  ∀ p r, a = Some p → p = Some r → is_Some (pnodes s' !! r) ∧ detached X s' r.
Proof.
  intros HT Ea. destruct need; [|by injection Ea as <- <-; split_and!; [|done|congruence]].
  apply bnd_done_inv in Ea as (p & s1 & Em & Er). injection Er as <- <-.
  apply malloc_node_inv in Em as [[-> ->]|(l & -> & Hl & _ & ->)].
  - split_and!; [done..|]. intros p r. by intros [= <-].
  - pose proof (fresh_detached _ _ _ HT Hl) as Hdet.
    split_and!; [by apply table_put, Hdet|by constructor|].
    intros p r [= <-] [= <-]. split; [simpl; rewrite lookup_insert_eq; by eexists|].
    apply detached_put; [apply Hdet|done].
Qed.

Section ops.
Context `{E : Env} `{!EnvLaws E} `{Client}.

(** Run one quiet instruction at the head of [Hrun]. *)
Ltac step_quiet Hrun HC :=
  let a := fresh "a" in let s1 := fresh "s" in let E1 := fresh "Erun" in
  apply bnd_done_inv in Hrun as (a & s1 & E1 & Hrun);
  assert (same_core _ s1) as HC by (refine ((_ : quiet _) _ _ _ E1); hush).

Lemma new_node_ok X d t s p s' :
  table_but X s → __poller_new_node d t s = Done (p, s') →
  table_but X s' ∧ same_po s s' ∧ ∀ l, p = Some l → new_for X s' d l.
Proof.
  intros HT Hrun. unfold __poller_new_node in Hrun.
  step_quiet Hrun C1. eapply table_same_core in HT; [|exact C1]. apply same_core_po in C1.
  destruct a; [injection Hrun as <- <-; by split_and!|].
  step_quiet Hrun C2. eapply table_same_core in HT; [|exact C2]. apply same_core_po in C2.
  destruct a as [ev need]. destruct (need <? 0)%Z;
    [injection Hrun as <- <-; split_and!; [done|by etrans|done]|].
  apply bnd_done_inv in Hrun as (al & s3 & Ea & Hrun).
  apply (alloc_res_inv X) in Ea as (HT3 & C3 & Hres); [|done].
  assert (same_po s s3) as C4 by (etrans; [exact C1|by etrans]).
  destruct al as [r|]; [|injection Hrun as <- <-; by split_and!].
  apply bnd_done_inv in Hrun as (nd & s4 & Em & Hrun).
  apply malloc_node_inv in Em as [[-> ->]|(l & -> & Hl & _ & ->)].
  { injection Hrun as <- <-. by split_and!. }
  cbn [nonnull] in Hrun. rewrite bnd_assoc in Hrun.
  apply bnd_done_inv in Hrun as ([] & s5 & E5 & Hrun).
  apply node_set_inv in E5 as (l' & n & [= <-] & Hn & ->).
  set (s5 := set_mem _ _) in Hrun.
  pose proof (fresh_detached _ _ _ HT3 Hl) as Hdet.
  assert (table_but X s5) as HT5.
  { apply table_put; [by apply table_put, Hdet|]. apply Hdet. }
  assert (new_for X s5 d l) as Hnew.
  { eexists. unfold owns. split_and!; [simpl; by rewrite lookup_insert_eq|done|done| |].
    - apply detached_put; [apply Hdet|]. apply detached_put; [apply Hdet|done].
    - simpl. intros r' ->. destruct (Hres _ _ eq_refl eq_refl) as [Hr Hdr].
      split_and!.
      + rewrite !lookup_insert_is_Some'. auto.
      + intros ->. rewrite Hl in Hr. by destruct Hr.
      + apply detached_put; [apply Hdet|]. apply detached_put; [apply Hdet|done]. }
  apply bnd_done_inv in Hrun as ([] & s6 & E6 & Hrun). injection Hrun as <- <-.
  assert (same_core s5 s6) as C6 by (refine ((_ : quiet _) _ _ _ E6); hush).
  split_and!.
  - by eapply table_same_core.
  - etrans; [exact C4|]. etrans; [|apply same_core_po, C6]. by constructor.
  - intros l' [= <-]. by eapply new_for_core.
Qed.

Lemma free_node_inv p s a s' :
  free_node p s = Done (a, s') → p = None ∧ s' = s ∨
  ∃ l, p = Some l ∧ is_Some (pnodes s !! l) ∧
    s' = set_mem (delete l (mem s)) (set_pnodes (delete l (pnodes s)) s).
Proof.
  unfold free_node. intros Ef. destruct p as [l|]; simplify_eq; [right|by left].
  case_match; simplify_eq. exists l. split_and!; [done|by eexists|done].
Qed.

(** Freeing a new node and its [res]. *)
Lemma discard_ok X d l s r s' :
  table_but X s → new_for X s d l → discard (Some l) s = Done (r, s') →
  table_but X s' ∧ same_po s s' ∧ r = (-1)%Z.
Proof.
  intros HT (o & Ho & _ & _ & Hl & Hres) Hrun. unfold discard in Hrun.
  apply bnd_done_inv in Hrun as (rs & s1 & E1 & Hrun).
  apply node_get_inv in E1 as (l' & n & [= <-] & Hn & -> & ->).
  unfold owns in Ho. rewrite Hn in Ho. injection Ho as <-. simpl in Hres.
  apply bnd_done_inv in Hrun as ([] & s2 & E2 & Hrun).
  apply bnd_done_inv in Hrun as ([] & s3 & E3 & Hrun). injection Hrun as <- <-.
  assert (table_but X s2 ∧ detached X s2 l ∧ same_po s s2) as (HT2 & Hl2 & C2).
  { apply free_node_inv in E2 as [[_ ->]|(r & Er & _ & ->)]; [done|].
    destruct (Hres r Er) as (_ & Hne & Hr).
    split_and!; [by apply table_drop; [|apply Hr|apply Hr]|apply detached_drop; [apply Hr|done]|done]. }
  apply free_node_inv in E3 as [[? _]|(l' & [= <-] & _ & ->)]; [done|].
  split_and!; [by apply table_drop; [|apply Hl2|apply Hl2]|by etrans|done].
Qed.

Lemma put_errno_core e s a s' : put_errno e s = Done (a, s') → same_core s s'.
Proof. apply quiet_put_errno. Qed.

(** Entering a new node for [fd d] in the table. *)
Lemma enter_ok f d l s a s' :
  table_but (Some (Z.to_nat f)) s → new_for (Some (Z.to_nat f)) s d l → fd d = f →
  nodes_set f (Some l) s = Done (a, s') → table_ok s'.
Proof.
  intros HT (o & Ho & Hd & Hr & Hl & Hres) Hfd Hset.
  apply nodes_set_inv in Hset as (Hf & Hs & ->).
  eapply table_fill; [done..|by rewrite Hd, Z2Nat.id|done|apply Hl|apply Hl|].
  intros r Hor. destruct (Hres r Hor) as (H1 & H2 & H3). split_and!; [done..|apply H3|apply H3].
Qed.

Lemma new_for_weaken f s d l : new_for None s d l → new_for (Some f) s d l.
Proof.
  assert (∀ f' k, entry (Some f) s f' k → entry None s f' k) as Ee by by intros f' k [? ?].
  assert (∀ k, detached None s k → detached (Some f) s k) as Hdet.
  { intros k [H1 H2]. split; [intros f' Hf; by eapply H1, Ee|intros f' k' o Hf; by eapply H2, Ee]. }
  intros (o & Ho & Hd & Hr & Hl & Hres). exists o. split_and!; [done..|by apply Hdet|].
  intros r Hor. destruct (Hres r Hor) as (H1 & H2 & H3). auto.
Qed.

Lemma poller_add_table d t s r s' :
  table_ok s → poller_add d t s = Done (r, s') → table_ok s'.
Proof.
  intros HT Hrun. unfold poller_add in Hrun.
  apply bnd_done_inv in Hrun as (p & s1 & E1 & Hrun).
  apply (new_node_ok None) in E1 as (HT1 & _ & Hnew); [|done].
  destruct p as [l|]; cbn [nonnull negb] in Hrun; [|by injection Hrun as <- <-].
  specialize (Hnew _ eq_refl).
  apply bnd_done_inv in Hrun as (cur & s2 & E2 & Hrun).
  apply nodes_get_inv in E2 as (Hf & Hcur & ->).
  destruct cur as [c|]; cbn [nonnull negb] in Hrun.
  { step_quiet Hrun C. eapply discard_ok in Hrun as (? & _); [done| |].
    - by eapply table_same_core.
    - by eapply new_for_core. }
  apply bnd_done_inv in Hrun as (ev & s2 & E2 & Hrun).
  apply node_get_inv in E2 as (_ & _ & _ & _ & _ & ->).
  step_quiet Hrun C. eapply table_same_core in HT1; [|exact C].
  eapply new_for_core in Hnew; [|exact C].
  destruct (0 <=? a)%Z; [|by eapply discard_ok in Hrun as (? & _)].
  step_quiet Hrun C'. eapply table_same_core in HT1; [|exact C'].
  eapply new_for_core in Hnew; [|exact C'].
  apply bnd_done_inv in Hrun as (u & s4 & E4 & Hrun). injection Hrun as <- <-.
  eapply enter_ok; [by apply table_weaken|by apply new_for_weaken|done|exact E4].
Qed.

(** A node that has left the table, and its [res]. *)
Definition held (X : option nat) (s : pstate) (l : loc) : Prop :=
  ∃ o, owns s l = Some o ∧ detached X s l ∧ ∀ r, o_res o = Some r → r ≠ l ∧ detached X s r.

Lemma held_core X s s' l : same_core s s' → held X s l → held X s' l.
Proof.
  intros C (o & Ho & Hl & Hr). exists o. split_and!; [|by eapply detached_core|].
  - unfold owns in *. destruct C as [_ _ _ ->]. done.
  - intros r Hor. destruct (Hr r Hor). split; [done|by eapply detached_core].
Qed.
Lemma held_put X s h l n o :
  owns s l = Some o → own n = Owned (o_data o) true (o_res o) (o_event o) →
  held X s l → held X (set_mem h (set_pnodes (<[l := n]> (pnodes s)) s)) l.
Proof.
  intros Ho Hn (o' & Ho' & Hl & Hr). rewrite Ho in Ho'. injection Ho' as <-.
  exists (Owned (o_data o) true (o_res o) (o_event o)). unfold owns.
  split_and!; [simpl; rewrite lookup_insert_eq; exact (f_equal Some Hn)| |].
  - apply detached_put; [apply Hl|done].
  - simpl. intros r Hor. destruct (Hr r Hor). split; [done|]. apply detached_put; [apply Hl|done].
Qed.

Lemma leave_table s f l :
  table_ok s → entry None s f l → held (Some f) s l.
Proof.
  intros HT Hf. pose proof HT as [T1 T2 T3].
  destruct (T2 f l Hf) as (o & Ho & Hfd & _).
  assert (∀ f' k, entry (Some f) s f' k → entry None s f' k ∧ f' ≠ f) as Ee.
  { intros f' k [? ?]. split; [done|congruence]. }
  assert (detached (Some f) s l) as Hl.
  { split.
    - intros f' [Hf' Hne]%Ee. destruct (T2 f' l Hf') as (o' & Ho' & Hfd' & _).
      rewrite Ho in Ho'. injection Ho' as <-. lia.
    - intros f' k o' [Hk _]%Ee Ho' Hr. destruct (T3 f' k o' l Hk Ho' Hr) as (_ & H2 & _).
      by apply (H2 f). }
  exists o. split_and!; [done..|]. intros r Hr.
  destruct (T3 f l o r Hf Ho Hr) as (H1 & H2 & H3). split; [intros ->; by apply (H2 f)|].
  split.
  - intros f' [Hk _]%Ee. by apply (H2 f').
  - intros f' k o' [Hk Hne]%Ee Ho' Hr'. apply Hne. by eapply H3.
Qed.

Lemma held_clear s f l :
  is_Some (nodes (po s) !! f) → held (Some f) s l →
  held None (set_po (set_nodes (<[f := None]> (nodes (po s))) (po s)) s) l.
Proof.
  intros Hf. set (s' := set_po _ _).
  assert (∀ f' k, entry None s' f' k → entry (Some f) s f' k) as Ee.
  { intros f' k. unfold s'. rewrite entry_set by done. unfold entry.
    case_decide; naive_solver. }
  assert (∀ k, detached (Some f) s k → detached None s' k) as Hd.
  { intros k [H1 H2]. split; [intros f' Hk; by eapply H1, Ee|intros f' k' o Hk; by eapply H2, Ee]. }
  intros (o & Ho & Hl & Hr). exists o. split_and!; [done|by apply Hd|].
  intros r Hor. destruct (Hr r Hor). auto.
Qed.

Lemma quiet_callback p : quiet (callback p).
Proof.
  intros s a s' Ec. unfold callback in Ec. destruct p as [l|]; [|done]. case_match; simplify_eq.
  by constructor.
Qed.
Hint Resolve quiet_callback : kernel.

Lemma notify_ok X l s st s' :
  table_but X s → held X s l → notify_removed (Some l) s = Done (st, s') →
  table_but X s' ∧ same_po s s' ∧ held X s' l ∧
  (∀ d k, k ≠ l → new_for X s d k → new_for X s' d k).
Proof.
  intros HT Hl Hrun. unfold notify_removed in Hrun. rewrite pol_bnd in Hrun.
  destruct (stopped (po s) =? 0)%Z; [|injection Hrun as <- <-; by split_and!].
  apply bnd_done_inv in Hrun as ([] & s1 & E1 & Hrun).
  apply node_set_inv in E1 as (l' & n & [= <-] & Hn & ->). set (s1 := set_mem _ _) in Hrun.
  assert (same_core s1 s') as C.
  { refine ((_ : quiet _) s1 st s' Hrun); hush. }
  assert (unlisted X s l) as Hu by (destruct Hl as (o & _ & [? _] & _); done).
  split_and!.
  - eapply table_same_core; [exact C|]. by apply table_put.
  - etrans; [|by eapply same_core_po]. by constructor.
  - eapply held_core; [exact C|]. eapply held_put; [by unfold owns; rewrite Hn|done|done].
  - intros d k Hne (o & Ho & Hd & Hr & Hk & Hres). eapply new_for_core; [exact C|].
    exists o. split_and!; [|done|done|by apply detached_put|].
    + unfold owns. simpl. by rewrite lookup_insert_ne.
    + intros r Hor. destruct (Hres r Hor) as (H1 & H2 & H3).
      split_and!; [|done|by apply detached_put]. simpl. rewrite lookup_insert_is_Some'. auto.
Qed.

(** [free(node->res); poller->callback(node);] *)
Lemma release_ok X l s a s' :
  table_but X s → held X s l →
  (let* r := node_get res (Some l) in free_node r ;;; callback (Some l)) s = Done (a, s') →
  table_but X s'.
Proof.
  intros HT (o & Ho & Hl & Hr) Hrun.
  apply bnd_done_inv in Hrun as (rs & s1 & E1 & Hrun).
  apply node_get_inv in E1 as (l' & n & [= <-] & Hn & -> & ->).
  unfold owns in Ho. rewrite Hn in Ho. injection Ho as <-.
  apply bnd_done_inv in Hrun as ([] & s2 & E2 & Hrun).
  eapply table_same_core; [by eapply quiet_callback|].
  apply free_node_inv in E2 as [[_ ->]|(r & Er & _ & ->)]; [done|].
  destruct (Hr r Er) as [_ Hdr]. apply table_drop; [done|apply Hdr|apply Hdr].
Qed.

(** A node of a table without slot [f] stays apart from the new entry of [f]. *)
Lemma held_fill f s l d k :
  is_Some (nodes (po s) !! f) → held (Some f) s l → new_for (Some f) s d k →
  l ≠ k → (∀ o r, owns s k = Some o → o_res o = Some r → r ≠ l) →
  (∀ o r, owns s l = Some o → o_res o = Some r → r ≠ k) →
  (∀ o o' r, owns s k = Some o → owns s l = Some o' → o_res o = Some r → o_res o' ≠ Some r) →
  held None (set_po (set_nodes (<[f := Some k]> (nodes (po s))) (po s)) s) l.
Proof.
  intros Hf (o & Ho & Hl & Hr) (ok & Hok & _ & _ & Hk & _) Hne H1 H2 H3. set (s' := set_po _ _).
  assert (∀ f' j, entry None s' f' j → j = k ∨ entry (Some f) s f' j) as Ee.
  { intros f' j. unfold s'. rewrite entry_set by done. unfold entry.
    case_decide; naive_solver. }
  exists o. split_and!; [done| |].
  - split.
    + intros f' [->|Hj]%Ee; [done|]. exact (det_unlisted _ _ _ Hl _ Hj).
    + intros f' j o' [->|Hj]%Ee Ho' Hr'; [exact (H1 o' _ Ho' Hr' eq_refl)|].
      exact (det_no_res _ _ _ Hl _ _ _ Hj Ho' Hr').
  - intros r Hor. destruct (Hr r Hor) as [Hrl Hd]. split; [done|]. split.
    + intros f' [->|Hj]%Ee; [exact (H2 o _ Ho Hor eq_refl)|].
      exact (det_unlisted _ _ _ Hd _ Hj).
    + intros f' j o' [->|Hj]%Ee Ho' Hr'; [exact (H3 o' o r Ho' Ho Hr' Hor)|].
      exact (det_no_res _ _ _ Hd _ _ _ Hj Ho' Hr').
Qed.

Lemma slot_core f s s' :
  same_core s s' → is_Some (nodes (po s) !! f) → is_Some (nodes (po s') !! f).
Proof. by intros [-> _ _ _]. Qed.

(** The node being replaced, and the new one, have nothing in common. *)
Definition apart (s : pstate) (l k : loc) : Prop :=
  l ≠ k ∧ (∀ o r, owns s k = Some o → o_res o = Some r → r ≠ l) ∧
  (∀ o r, owns s l = Some o → o_res o = Some r → r ≠ k) ∧
  (∀ o o' r, owns s k = Some o → owns s l = Some o' → o_res o = Some r → o_res o' ≠ Some r).

Lemma apart_res s s' l k :
  (∀ j, option_map o_res (owns s' j) = option_map o_res (owns s j)) → apart s l k → apart s' l k.
Proof.
  intros Hj (H0 & H1 & H2 & H3). split; [done|].
  assert (∀ j o, owns s' j = Some o → ∃ o', owns s j = Some o' ∧ o_res o' = o_res o) as Hx.
  { intros j o Ho. specialize (Hj j). rewrite Ho in Hj. destruct (owns s j) as [o'|]; [|done].
    exists o'. split; [done|]. by injection Hj. }
  split_and!.
  - intros o r (o' & Ho' & <-)%Hx. by apply H1.
  - intros o r (o' & Ho' & <-)%Hx. by apply H2.
  - intros o o2 r (o' & Ho' & <-)%Hx (o2' & Ho2' & <-)%Hx. by apply H3.
Qed.
Lemma apart_core s s' l k : same_core s s' → apart s l k → apart s' l k.
Proof. intros [_ _ _ Eo]. apply apart_res. intros j. unfold owns. by rewrite Eo. Qed.
Lemma notify_apart l j k s st s' :
  notify_removed (Some j) s = Done (st, s') → apart s l k → apart s' l k.
Proof.
  unfold notify_removed. rewrite pol_bnd. intros Hrun.
  destruct (stopped (po s) =? 0)%Z; [|by injection Hrun as <- <-].
  apply bnd_done_inv in Hrun as ([] & s1 & E1 & Hrun).
  apply node_set_inv in E1 as (l' & n & [= <-] & Hn & ->). set (s1 := set_mem _ _) in Hrun.
  assert (same_core s1 s') as C.
  { refine ((_ : quiet _) s1 st s' Hrun); hush. }
  intros Ha. eapply apart_core; [exact C|]. eapply apart_res; [|exact Ha].
  intros i. unfold owns. simpl. destruct (decide (j = i)) as [<-|].
  - by rewrite lookup_insert_eq, Hn.
  - by rewrite lookup_insert_ne.
Qed.

Lemma new_apart s d l k f :
  table_ok s → entry None s f l → new_for None s d k → apart s l k.
Proof.
  intros [T1 T2 T3] Hf (ok & Hok & _ & _ & [Hk1 Hk2] & Hres).
  destruct (T2 f l Hf) as (ol & Hol & _).
  assert (∀ o r, owns s k = Some o → o_res o = Some r → r ≠ k ∧ detached None s r) as Hr.
  { intros o r Ho Hor. rewrite Hok in Ho. injection Ho as <-. by apply Hres. }
  split_and!.
  - intros ->. by apply (Hk1 f).
  - intros o r Ho Hor ->. destruct (Hr _ _ Ho Hor) as [_ [H1 _]]. by apply (H1 f).
  - intros o r Ho Hor ->. by apply (Hk2 f l o).
  - intros o o' r Ho Ho' Hor. destruct (Hr _ _ Ho Hor) as [_ [_ H2]]. by apply (H2 f l o').
Qed.

(** Move what is known of a state over a quiet instruction. *)
Ltac carry C :=
  match type of C with
  | same_core ?s _ =>
      repeat match goal with
      | HT : table_but _ s |- _ => eapply table_same_core in HT; [|exact C]
      | HT : table_ok s |- _ => eapply table_same_core in HT; [|exact C]
      | Hl : held _ s _ |- _ => eapply held_core in Hl; [|exact C]
      | Hn : new_for _ s _ _ |- _ => eapply new_for_core in Hn; [|exact C]
      | Ha : apart s _ _ |- _ => eapply apart_core in Ha; [|exact C]
      | Hs : is_Some (nodes (po s) !! _) |- _ => eapply slot_core in Hs; [|exact C]
      end
  end;
  clear C.

Lemma poller_del_table f s r s' :
  table_ok s → poller_del f s = Done (r, s') → table_ok s'.
Proof.
  intros HT Hrun. unfold poller_del in Hrun.
  step_quiet Hrun C. eapply table_same_core in HT; [|exact C]. clear C.
  destruct a; [by injection Hrun as <- <-|].
  apply bnd_done_inv in Hrun as (cur & s2 & E2 & Hrun).
  apply nodes_get_inv in E2 as (Hf & Hcur & ->).
  destruct cur as [l|]; cbn [nonnull negb] in Hrun; cycle 1.
  { step_quiet Hrun C. eapply table_same_core in HT; [|exact C]. by injection Hrun as <- <-. }
  assert (entry None s0 (Z.to_nat f) l) as Hent by by split.
  pose proof (leave_table s0 (Z.to_nat f) l HT Hent) as Hl.
  apply bnd_done_inv in Hrun as ([] & s2 & E2 & Hrun).
  apply nodes_set_inv in E2 as (_ & Hs & ->).
  apply held_clear in Hl; [|done]. apply (table_clear _ _ HT) in Hs as HT2.
  set (s2 := set_po _ _) in *. clearbody s2.
  do 4 (step_quiet Hrun C; carry C).
  apply bnd_done_inv in Hrun as (st & s7 & E7 & Hrun).
  apply (notify_ok None) in E7 as (HT7 & _ & Hl7 & _); [|done..].
  apply bnd_done_inv in Hrun as (u & s8 & E8 & Hrun). injection Hrun as <- <-.
  destruct st; [exact (release_ok None l s7 u s8 HT7 Hl7 E8)|by injection E8 as <- <-].
Qed.

Lemma poller_set_timeout_table f t s r s' :
  table_ok s → poller_set_timeout f t s = Done (r, s') → table_ok s'.
Proof.
  intros HT Hrun. unfold poller_set_timeout, clock_gettime in Hrun.
  step_quiet Hrun C. eapply table_same_core; [|exact HT]. etrans; [exact C|]. clear C.
  destruct a; [by injection Hrun as <- <-|].
  step_quiet Hrun C. etrans; [exact C|]. clear C. cbv zeta in Hrun.
  apply bnd_done_inv in Hrun as (cur & s2 & E2 & Hrun).
  apply nodes_get_inv in E2 as (Hf & Hcur & ->).
  refine ((_ : quiet _) _ _ _ Hrun). clear. hush.
Qed.

Lemma poller_mod_table d t s r s' :
  table_ok s → poller_mod d t s = Done (r, s') → table_ok s'.
Proof.
  intros HT Hrun. unfold poller_mod in Hrun.
  apply bnd_done_inv in Hrun as (p & s1 & E1 & Hrun).
  apply (new_node_ok None) in E1 as (HT1 & _ & Hnew); [|done]. clear HT.
  destruct p as [k|]; cbn [nonnull negb] in Hrun; [|by injection Hrun as <- <-].
  specialize (Hnew _ eq_refl).
  apply bnd_done_inv in Hrun as (cur & s2 & E2 & Hrun).
  apply nodes_get_inv in E2 as (Hf & Hcur & ->).
  destruct cur as [l|]; cbn [nonnull negb] in Hrun; cycle 1.
  { step_quiet Hrun C. eapply discard_ok in Hrun as (? & _); [done| |].
    - by eapply table_same_core.
    - by eapply new_for_core. }
  set (f := Z.to_nat (fd d)) in *. assert (entry None s1 f l) as Hent by by split.
  pose proof (leave_table s1 f l HT1 Hent) as Hl.
  pose proof (new_apart _ _ _ _ _ HT1 Hent Hnew) as Ha.
  apply bnd_done_inv in Hrun as (oev & s2 & E2 & Hrun).
  apply node_get_inv in E2 as (_ & _ & _ & _ & _ & ->).
  apply bnd_done_inv in Hrun as (ev & s2 & E2 & Hrun).
  apply node_get_inv in E2 as (_ & _ & _ & _ & _ & ->).
  step_quiet Hrun C. 
  destruct (0 <=? a)%Z; cycle 1.
  { eapply discard_ok in Hrun as (? & _); [done|by eapply table_same_core|by eapply new_for_core]. }
  assert (is_Some (nodes (po s0) !! f)) as Hs by (rewrite (sc_nodes _ _ C), Hcur; by eexists).
  apply (table_weaken f) in HT1. apply (new_for_weaken f) in Hnew.
  clear Hent Hcur. carry C. step_quiet Hrun C. carry C. step_quiet Hrun C. carry C.
  apply bnd_done_inv in Hrun as (st & s5 & E5 & Hrun).
  pose proof (notify_apart l l k _ _ _ E5 Ha) as Ha5.
  apply (notify_ok (Some f)) in E5 as (HT5 & C5 & Hl5 & Hk5); [|done..].
  destruct Ha as [Hlk _]. apply Hk5 in Hnew; [|done]. rewrite <- (sp_nodes _ _ C5) in Hs.
  clear Hk5 HT1 Hl C5.
  step_quiet Hrun C. carry C.
  apply bnd_done_inv in Hrun as (u & s7 & E7 & Hrun).
  pose proof (enter_ok _ _ _ _ _ _ HT5 Hnew eq_refl E7) as HT7.
  apply nodes_set_inv in E7 as (_ & _ & ->).
  destruct Ha5 as (A1 & A2 & A3 & A4).
  pose proof (held_fill f _ l d k Hs Hl5 Hnew A1 A2 A3 A4) as Hl7.
  apply bnd_done_inv in Hrun as (w & s8 & E8 & Hrun). injection Hrun as <- <-.
  destruct st; [exact (release_ok None l _ w s8 HT7 Hl7 E8)|by injection E8 as <- <-].
Qed.
Lemma poller_add_timer_table v ctx s r s' :
  table_ok s → poller_add_timer v ctx s = Done (r, s') → table_ok s'.
Proof.
  intros HT Hrun. unfold poller_add_timer in Hrun.
  apply bnd_done_inv in Hrun as (p & s1 & E1 & Hrun).
  apply malloc_node_inv in E1 as [[-> ->]|(l & -> & Hl & _ & ->)]; [by injection Hrun as <- <-|].
  pose proof (fresh_detached _ _ _ HT Hl) as Hd. cbn [nonnull] in Hrun.
  eapply (table_put _ s _ l junk_node) in HT; [|apply Hd].
  apply bnd_done_inv in Hrun as ([] & s2 & E2 & Hrun).
  apply node_set_inv in E2 as (l' & n & [= <-] & Hn & ->).
  eapply table_put in HT; [|apply Hd].
  eapply table_same_core; [|exact HT]. refine ((_ : quiet _) _ _ _ Hrun). clear.
  unfold clock_gettime. hush.
Qed.

(** [poller_del_timer] takes a timer, which is in no slot. *)
Lemma poller_del_timer_table l s r s' :
  table_ok s → unlisted None s l → poller_del_timer (Some l) s = Done (r, s') → table_ok s'.
Proof.
  intros HT Hl Hrun. unfold poller_del_timer in Hrun.
  apply bnd_done_inv in Hrun as (rm & s1 & E1 & Hrun).
  apply node_get_inv in E1 as (_ & _ & _ & _ & _ & ->).
  destruct rm; cbn [negb] in Hrun.
  { step_quiet Hrun C. carry C. by injection Hrun as <- <-. }
  apply bnd_done_inv in Hrun as ([] & s2 & E2 & Hrun).
  apply node_set_inv in E2 as (l' & n & [= <-] & Hn & ->).
  eapply table_put in HT; [|exact Hl].
  eapply table_same_core; [|exact HT]. refine ((_ : quiet _) _ _ _ Hrun). clear. hush.
Qed.

(** The thread's side: a handler removes its node. *)
Lemma remove_node_table p s r s' :
  table_ok s → __poller_remove_node p s = Done (r, s') → table_ok s'.
Proof.
  intros HT Hrun. unfold __poller_remove_node in Hrun.
  step_quiet Hrun C. carry C.
  apply bnd_done_inv in Hrun as (u & s1 & E1 & Hrun). injection Hrun as <- <-.
  unfold remove_locked in E1. destruct (negb a); [|by injection E1 as <- <-].
  step_quiet E1 C. carry C.
  apply bnd_done_inv in E1 as (v & s3 & E3 & E1).
  apply nodes_set_inv in E3 as (_ & Hs & ->). apply (table_clear _ _ HT) in Hs.
  eapply table_same_core; [|exact Hs]. refine ((_ : quiet _) _ _ _ E1). clear. hush.
Qed.
End ops.

(** ** Runs of the interface *)

(** A call of the interface, or a removal by the thread, that returns. A timer given to [poller_del_timer] is
    one of [poller_add_timer], which are in no slot. *)
Inductive api `{Env} : pstate → pstate → Prop :=
| ApiAdd d t s r s' : poller_add d t s = Done (r, s') → api s s'
| ApiDel f s r s' : poller_del f s = Done (r, s') → api s s'
| ApiMod d t s r s' : poller_mod d t s = Done (r, s') → api s s'
| ApiSetTimeout f t s r s' : poller_set_timeout f t s = Done (r, s') → api s s'
| ApiAddTimer v c s r s' : poller_add_timer v c s = Done (r, s') → api s s'
| ApiDelTimer l s r s' :
    unlisted None s l → poller_del_timer (Some l) s = Done (r, s') → api s s'
| ApiRemove p s r s' : __poller_remove_node p s = Done (r, s') → api s s'.

Lemma api_table `{E : Env} `{!EnvLaws E} s s' : api s s' → table_ok s → table_ok s'.
Proof.
  intros [] HT; [by eapply poller_add_table|by eapply poller_del_table|by eapply poller_mod_table
    |by eapply poller_set_timeout_table|by eapply poller_add_timer_table
    |by eapply poller_del_timer_table|by eapply remove_node_table].
Qed.
Lemma api_run_table `{E : Env} `{!EnvLaws E} s s' : rtc api s s' → table_ok s → table_ok s'.
Proof. induction 1; [done|]. intros. eauto using api_table. Qed.
