(* ===== verification/PollerExpire.v ===== *)
(** [__poller_handle_timeout] on the tree: which nodes leave it, and which of them
    the client hears of. *)
From S2P Require Export PollerTimer.

(** ** Collecting nodes with [list_add_tail(timeo_list.prev, node)] *)

(** Of the entries added so, only the last and the first are chained. *)
Definition survivors (acc : list loc) : list loc :=
  match acc with
  | [] => []
  | [a] => [a]
  | a :: rest => [lastof a rest; a]
  end.

Record collected (h : gmap positive cell) (L : loc) (acc : list loc) : Prop := Collected {
  c_nodup : NoDup (L :: acc);
  c_chain : fseg h L (survivors acc) L;
  c_prev : prv h L = Some (Some (default L (head acc)));
  c_first a : head acc = Some a → prv h a = Some (Some L);
}.

Lemma collected_frame h h' L acc :
  (∀ x, x ∈ L :: acc → h' !! x = h !! x) → collected h L acc → collected h' L acc.
Proof.
  intros E [H1 H2 H3 H4]. constructor; [done| | |].
  - eapply fseg_ext; [|done]. intros x Hx. unfold nxt. rewrite E; [done|].
    destruct acc as [|a [|b acc]]; simpl in Hx; [set_solver..|].
    apply elem_of_cons in Hx as [->|Hx]; [by left|]. right.
    apply elem_of_cons in Hx as [->|Hx]; [|set_solver].
    right. rewrite lastof_cons. apply lastof_in.
  - unfold prv. rewrite E; [done|by left].
  - intros a Ha. unfold prv. rewrite E; [by apply H4|]. destruct acc; simplify_eq/=. set_solver.
Qed.

Lemma collect_add h L acc e :
  collected h L acc → e ∉ L :: acc → is_Some (h !! e) →
  ∃ h', (let* tail := ld prev (Some L) in list_add_tail tail (Some e)) h = Done (tt, h') ∧
    collected h' L (acc ++ [e]) ∧ (∀ l, l ∉ L :: e :: acc → h' !! l = h !! l).
Proof.
  intros [H1 H2 H3 H4] He Hs. rewrite (bnd_done _ _ _ _ _ (ld_prev_run _ _ _ H3)).
  assert (NoDup (L :: acc ++ [e])) as Hnd.
  { rewrite app_comm_cons, <- Permutation_cons_append. by apply NoDup_cons. }
  destruct acc as [|a acc]; cbn [head default] in *.
  - destruct (list_add_tail_empty h L e) as (h' & Er & (_ & Hf & Hb) & Ho);
      [by split_and!|done|set_solver|].
    exists h'. split_and!; [done| |intros l Hl; apply Ho; set_solver].
    destruct Hb as [Hb1 Hb2]. constructor; [done..|]. by intros ? [= <-].
  - specialize (H4 a eq_refl).
    assert (∃ ys, survivors (a :: acc) = ys ++ [a]) as [ys Eys].
    { destruct acc as [|b acc]; [by exists []|by exists [lastof a (b :: acc)]]. }
    rewrite Eys in H2. apply (fseg_rotate h L ys a []) in H2. simpl in H2.
    assert (L ≠ a ∧ e ≠ a ∧ e ≠ L) as (Hla & Hea & HeL).
    { apply NoDup_cons in H1 as [H1 _]. set_solver. }
    destruct (list_add_tail_stale h a [L] ys e) as (h' & Er & Hf & Hp & [_ Hpl] & Ho);
      [done| |done|exact H4|done|].
    { simpl. rewrite !NoDup_cons. split_and!; [set_solver..|apply NoDup_nil_2]. }
    change (lastof a [L]) with L in *.
    exists h'. split_and!; [done| |intros l Hl; apply Ho; set_solver].
    assert (survivors ((a :: acc) ++ [e]) = [e; a]) as Es.
    { destruct acc as [|b acc]; [done|]. simpl. f_equal.
      exact (lastof_snoc a (b :: acc) e). }
    constructor; [done| | |].
    + rewrite Es. apply (fseg_rotate h' L [e] a []). done.
    + simpl. by rewrite Hpl.
    + intros ? [= <-]. done.
Qed.

(** ** Agreement on what the loops read *)

Definition facts (n : pnode) : timespec * Z * ptr := (timeout n, fd (data n), res n).
(** The nodes handed to the client, in order. *)
Definition call_back (c : call * Z) : list loc :=
  match c with (CCallback l _, _) => [l] | _ => [] end.
Fixpoint callbacks (cs : list (call * Z)) : list loc :=
  match cs with [] => [] | c :: cs => callbacks cs ++ call_back c end.

Definition same_facts (s s' : pstate) : Prop :=
  ∀ l, facts <$> pnodes s' !! l = facts <$> pnodes s !! l.
Definition agree (s s' : pstate) : Prop :=
  same_facts s s' ∧ callbacks (calls s') = callbacks (calls s).
#[export] Instance same_facts_equiv : Equivalence same_facts.
Proof.
  split; [done|by intros s s' H l; symmetry|]. intros s1 s2 s3 H1 H2 l. by rewrite H2.
Qed.
#[export] Instance agree_equiv : Equivalence agree.
Proof.
  split; [done|by intros s s' [H ?]; split; symmetry|].
  intros s1 s2 s3 [H1 E1] [H2 E2]. split; [by etrans|congruence].
Qed.

Lemma facts_node s s' l n :
  same_facts s s' → pnodes s !! l = Some n → ∃ n', pnodes s' !! l = Some n' ∧ facts n' = facts n.
Proof.
  intros H Hn. specialize (H l). rewrite Hn in H. simpl in H.
  destruct (pnodes s' !! l) as [n'|]; [|done]. exists n'. split; [done|]. by apply (inj Some) in H.
Qed.
Lemma facts_deadline s s' x : same_facts s s' → deadline s' x = deadline s x.
Proof.
  intros H. specialize (H x). unfold deadline, facts in *.
  destruct (pnodes s' !! x), (pnodes s !! x); simplify_eq/=; congruence.
Qed.
Lemma facts_timed s s' x : same_facts s s' → timed s x → timed s' x.
Proof.
  intros H (n & Hn & Ok). destruct (facts_node _ _ _ _ H Hn) as (n' & Hn' & Ef).
  unfold facts in Ef. exists n'. split; [done|].
  assert (timeout n' = timeout n) as -> by congruence. done.
Qed.

Definition fd_of (s : pstate) (x : loc) : Z :=
  match pnodes s !! x with Some n => fd (data n) | None => (-1)%Z end.
Lemma facts_fd s s' x : same_facts s s' → fd_of s' x = fd_of s x.
Proof.
  intros H. specialize (H x). unfold fd_of, facts in *.
  destruct (pnodes s' !! x), (pnodes s !! x); simplify_eq/=; congruence.
Qed.

(** The table slot of an expired descriptor. *)
Definition clear_slot (f : Z) (ns : list (option positive)) : list (option positive) :=
  if (0 <=? f)%Z then <[Z.to_nat f := None]> ns else ns.
Definition slot_ok (s : pstate) (x : loc) : Prop :=
  is_Some (pnodes s !! x) ∧ (Z.to_nat (fd_of s x) < length (nodes (po s)) ∨ (fd_of s x < 0)%Z).

Lemma tq_facts s s' q :
  same_facts s s' → mem s' = mem s → timeo_root (po s') = timeo_root (po s) →
  tree_first (po s') = tree_first (po s) → tree_last (po s') = tree_last (po s) →
  tq s q → tq s' q.
Proof.
  intros H E1 E2 E3 E4 (Ht & Hf & Hl & Htm & Hs). unfold tq. rewrite E1, E2, E3, E4.
  split_and!; [done..| |].
  - intros x Hx. eapply facts_timed; [done|auto].
  - eapply StronglySorted_weaken; [|exact Hs]. simpl. intros a b.
    by rewrite !(facts_deadline _ _ _ H).
Qed.

Section expire.
Context `{E : Env}.

Lemma expire_run s x :
  slot_ok s x →
  ∃ s', expire (Some x) s = Done (tt, s') ∧ agree s s' ∧ mem s' = mem s ∧
    po s' = set_nodes (clear_slot (fd_of s x) (nodes (po s))) (po s).
Proof.
  intros [[n Hn] Hf]. unfold expire, clear_slot, fd_of in *. rewrite Hn in *.
  rewrite (node_get_bnd _ _ _ _ _ Hn).
  destruct (0 <=? fd (data n))%Z eqn:Ef.
  - apply Z.leb_le in Ef. destruct Hf as [Hf|]; [|lia].
    destruct (lookup_lt_is_Some_2 (nodes (po s)) (Z.to_nat (fd (data n)))) as [p Hp]; [lia|].
    erewrite bnd_done; cycle 1.
    { unfold nodes_set. replace (fd (data n) <? 0)%Z with false by lia. by rewrite Hp. }
    erewrite node_get_bnd by exact Hn. unfold __poller_delete_fd. psteps. unfold sys, bnd.
    destruct (sys_result _ _) as [r e]. eexists. split_and!; [done| |done..].
    split; [done|]. simpl. by rewrite app_nil_r.
  - simpl. rewrite Hn. eexists. split_and!; [done| |done|by destruct s as [? ? ? []]].
    split; [|done]. intros l. simpl. destruct (decide (x = l)) as [<-|]; [|by rewrite lookup_insert_ne].
    by rewrite lookup_insert_eq, Hn.
Qed.

Lemma timeout_cmp_pos s x y :
  timed s x → timed s y →
  ∃ c, __timeout_cmp (Some x) (Some y) s = Done (c, s) ∧ (0 <? c)%Z = before s y x.
Proof.
  intros (nx & Hx & Ox) (ny & Hy & Oy). exists (timeout_diff (timeout nx) (timeout ny)).
  unfold __timeout_cmp. rewrite (node_get_bnd _ _ _ _ _ Hx), (node_get_bnd _ _ _ _ _ Hy).
  split; [done|]. unfold before, deadline. rewrite Hx, Hy.
  destruct (timeout_diff_sign _ _ Ox Oy) as [Hlt Heq].
  case_bool_decide; [apply Z.ltb_lt|apply Z.ltb_ge]; lia.
Qed.

Definition clear_slots (s : pstate) (q : list loc) (ns : list (option positive)) :=
  foldl (λ ns x, clear_slot (fd_of s x) ns) ns q.
Lemma clear_slot_length f ns : length (clear_slot f ns) = length ns.
Proof. unfold clear_slot. case_match; [by rewrite length_insert|done]. Qed.
Lemma clear_slots_facts s s' q ns : same_facts s s' → clear_slots s' q ns = clear_slots s q ns.
Proof.
  intros H. unfold clear_slots. revert ns. induction q as [|x q IH]; intros ns; [done|].
  simpl. by rewrite IH, (facts_fd _ _ _ H).
Qed.

(** One expired node: out of the table, out of the tree, onto the local list. *)
Lemma expire_step s L acc e q :
  tq s (e :: q) → collected (mem s) L acc →
  NoDup (timeo_root (po s) :: L :: acc ++ e :: q) → slot_ok s e →
  ∃ s', (expire (Some e) ;;;
         let* nx := lnk (rb_next (Some e)) in
         pol_set (set_tree_first nx) ;;;
         let* root := pol timeo_root in
         lnk (rb_erase (Some e) (Some root)) ;;;
         let* tail := lnk (ld prev (Some L)) in
         lnk (list_add_tail tail (Some e)) ;;;
         (if negb (nonnull nx) then pol_set (set_tree_last None) else ret tt)) s = Done (tt, s') ∧
    tq s' q ∧ collected (mem s') L (acc ++ [e]) ∧ agree s s' ∧
    po s' = set_ends q (set_nodes (clear_slot (fd_of s e) (nodes (po s))) (po s)) ∧
    (∀ x, x ∉ timeo_root (po s) :: L :: acc ++ e :: q → mem s' !! x = mem s !! x).
Proof.
  intros Hq Hc Hnd Hs. destruct (expire_run s e Hs) as (s1 & E1 & Hag & Hm & Hpo).
  rewrite (bnd_done _ _ _ _ _ E1).
  assert (timeo_root (po s1) = timeo_root (po s)) as Hr by by rewrite Hpo.
  assert (tq s1 (e :: q)) as Hq1 by (eapply tq_facts; [apply Hag|done| | | |done]; by rewrite Hpo).
  destruct Hq1 as ((t & Ht & Et) & _ & Hl & Htm & Hsort).
  rewrite (lnk_read _ _ _ _ (rb_next_ok _ _ _ [] _ _ Ht Et)), pol_set_bnd, pol_bnd. simpl po.
  destruct (rb_erase_ok _ _ _ [] _ _ Ht Et) as (h2 & t2 & E2 & H2 & Hio & Hfr & Hdom).
  rewrite Et in Hfr. simpl in Hio, Hfr. rewrite Hm in Hfr, Hdom.
  rewrite lnk_bnd with (a := tt) (h := h2) by exact E2.
  assert (∀ x, x ∈ L :: acc → x ∉ timeo_root (po s) :: e :: q) as Hout.
  { intros x Hx. apply occ_in in Hx. apply occ_notin. count Hnd x. simpl in *. lia. }
  destruct (collect_add h2 L acc e) as (h3 & E3 & Hc3 & Ho3).
  { eapply collected_frame; [|exact Hc]. intros x Hx. apply Hfr. rewrite Hr. by apply Hout. }
  { intros He. apply (Hout e He). right. by left. }
  { apply elem_of_dom. rewrite Hdom. apply elem_of_dom. rewrite <- Hm.
    destruct Ht as (Ht & _). eapply tree_at_dom; [exact Ht|]. rewrite Et. by left. }
  apply bnd_done_inv in E3 as (tail & h' & E3 & E4).
  assert (h' = h2) as -> by (unfold ld in E3; by case_match; simplify_eq).
  rewrite lnk_bnd with (a := tail) (h := h2) by exact E3.
  rewrite lnk_bnd with (a := tt) (h := h3) by exact E4.
  exists (set_mem h3 (set_po (set_ends q (po s1)) s1)).
  assert (∀ x, x ∉ timeo_root (po s) :: L :: acc ++ e :: q → h3 !! x = mem s !! x) as Hframe.
  { intros x Hx. rewrite Ho3, Hfr; [done|rewrite Hr; set_solver|set_solver]. }
  split_and!; [|split_and!| |done|by simpl; rewrite Hpo|done].
  - unfold set_ends. destruct q as [|x q]; simpl.
    + done.
    + rewrite (set_last_id (po s1)) by (rewrite Hl; done). done.
  - exists t2. split; [|done]. simpl. eapply rb_at_frame; [|exact H2].
    intros x Hx. rewrite Hio in Hx. apply Ho3. rewrite Hr in Hx.
    apply occ_in in Hx. apply occ_notin. count Hnd x. simpl in *. lia.
  - done.
  - done.
  - intros x Hx. destruct (Htm x) as (n & Hn & Hok); [by right|]. by exists n.
  - by apply StronglySorted_inv in Hsort as [? _].
  - done.
Qed.

(** The loop takes exactly the expired nodes out of the tree. *)
Lemma timeo_tree_loop_run T L q2 : ∀ q1 s acc fuel,
  tq s (q1 ++ q2) → timed s T → (∀ x, x ∈ q1 → before s T x = false) →
  (∀ x, head q2 = Some x → before s T x = true) → collected (mem s) L acc →
  NoDup (timeo_root (po s) :: L :: acc ++ q1 ++ q2) → (∀ x, x ∈ q1 → slot_ok s x) →
  length q1 < fuel →
  ∃ s', timeo_tree_loop fuel (Some T) (Some L) s = Done (tt, s') ∧
    tq s' q2 ∧ collected (mem s') L (acc ++ q1) ∧ agree s s' ∧
    po s' = set_ends q2 (set_nodes (clear_slots s q1 (nodes (po s))) (po s)) ∧
    (∀ x, x ∉ timeo_root (po s) :: L :: acc ++ q1 ++ q2 → mem s' !! x = mem s !! x).
Proof.
  induction q1 as [|e q1 IH]; intros s acc fuel Hq HT Hlt Hge Hc Hnd Hs Hf;
    (destruct fuel as [|fuel]; [simpl in Hf; lia|]); cbn [timeo_tree_loop].
  - simpl in *. exists s. rewrite app_nil_r. pose proof Hq as (_ & Hfst & Hlst & Htm & _).
    split_and!; [|done..|rewrite set_ends_id by done; by destruct (po s)|done].
    rewrite pol_bnd, Hfst. destruct q2 as [|x q2]; [done|]. cbn [head nonnull negb].
    destruct (timeout_cmp_pos s x T) as (c & Ec & Ep); [apply Htm; by left|done|].
    rewrite (bnd_done _ _ _ _ _ Ec), Ep. by rewrite Hge.
  - pose proof Hq as (_ & Hfst & _ & Htm & _). rewrite pol_bnd, Hfst. cbn [app head nonnull negb].
    destruct (timeout_cmp_pos s e T) as (c & Ec & Ep); [apply Htm; set_solver|done|].
    rewrite (bnd_done _ _ _ _ _ Ec), Ep, (Hlt e) by by left.
    destruct (expire_step s L acc e (q1 ++ q2)) as (s1 & E1 & Hq1 & Hc1 & Hag & Hpo & Ho);
      [done..|apply Hs; by left|].
    assert (∀ a b, before s1 a b = before s a b) as Hb.
    { intros a b. unfold before. by rewrite !(facts_deadline _ _ _ (proj1 Hag)). }
    edestruct (IH s1 (acc ++ [e]) fuel) as (s' & E2 & Hq2 & Hc2 & Hag2 & Hpo2 & Ho2);
      [done|by eapply facts_timed; [apply Hag|]|..|].
    + intros x Hx. rewrite Hb. apply Hlt. by right.
    + intros x Hx. rewrite Hb. by apply Hge.
    + done.
    + rewrite Hpo. simpl. rewrite <- (assoc_L (++)). done.
    + intros x Hx. destruct (Hs x) as [[n Hn] Hfd]; [by right|]. unfold slot_ok.
      rewrite (facts_fd _ _ _ (proj1 Hag)), Hpo. simpl. rewrite clear_slot_length. split; [|done].
      destruct (facts_node _ _ _ _ (proj1 Hag) Hn) as (n' & Hn' & _). by exists n'.
    + simpl in Hf. lia.
    + exists s'. split_and!.
      * rewrite <- E2. clear -E1. unfold bnd in *. 
        repeat match type of E1 with
        | context [match ?m with Done _ => _ | UB => _ | Blocked => _ | NoFuel => _ end] =>
            destruct m as [[? ?]| | |]; [|done..]
        end. by rewrite E1.
      * done.
      * by rewrite <- (assoc_L (++)) in Hc2.
      * by etrans.
      * rewrite Hpo2, Hpo. simpl. by rewrite (clear_slots_facts _ _ _ _ (proj1 Hag)).
      * intros x Hx. rewrite Ho2, Ho; [done|done|].
        rewrite Hpo. simpl. by rewrite <- (assoc_L (++)).
Qed.

(** ** The callbacks *)

(** The [res] of the nodes in [xs]: allocated, nobody else's, and none of [K]. *)
Definition res_of (s : pstate) (x : loc) : ptr := pnodes s !! x ≫= res.
Definition res_apart (s : pstate) (xs K : list loc) : Prop :=
  (∀ x r, x ∈ xs → res_of s x = Some r → is_Some (pnodes s !! r) ∧ r ∉ K) ∧
  (∀ x y r, x ∈ xs → y ∈ xs → res_of s x = Some r → res_of s y = Some r → x = y).

Lemma facts_res s s' x : facts <$> pnodes s' !! x = facts <$> pnodes s !! x → res_of s' x = res_of s x.
Proof.
  intros H. unfold res_of, facts in *.
  destruct (pnodes s' !! x), (pnodes s !! x); simplify_eq/=; congruence.
Qed.
Lemma res_apart_facts s s' xs K : same_facts s s' → res_apart s xs K → res_apart s' xs K.
Proof.
  intros H [R1 R2]. split.
  - intros x r Hx. rewrite (facts_res s s') by apply H. intros Hr.
    destruct (R1 x r Hx Hr) as [[n Hn] Hk]. split; [|done].
    destruct (facts_node _ _ _ _ H Hn) as (n' & Hn' & _). by exists n'.
  - intros x y r Hx Hy. rewrite !(facts_res s s') by apply H. by apply R2.
Qed.
Lemma res_apart_incl s xs ys K : (∀ x, x ∈ ys → x ∈ xs) → res_apart s xs K → res_apart s ys K.
Proof. intros Hi [R1 R2]. split; eauto. Qed.

(** Nothing of [K] is freed or moved. *)
Record kept (K : list loc) (s s' : pstate) : Prop := {
  k_facts l : l ∈ K → facts <$> pnodes s' !! l = facts <$> pnodes s !! l;
  k_mem l : l ∈ K → mem s' !! l = mem s !! l;
}.
Lemma kept_trans K s1 s2 s3 : kept K s1 s2 → kept K s2 s3 → kept K s1 s3.
Proof. intros [A1 B1] [A2 B2]. split; intros l Hl; [by rewrite A2, A1|by rewrite B2, B1]. Qed.

Lemma kept_deadline K s s' x : kept K s s' → x ∈ K → deadline s' x = deadline s x.
Proof.
  intros H Hx. pose proof (k_facts _ _ _ H x Hx) as Ex. unfold deadline, facts in *.
  destruct (pnodes s' !! x), (pnodes s !! x); simplify_eq/=; congruence.
Qed.
Lemma kept_timed K s s' x : kept K s s' → x ∈ K → timed s x → timed s' x.
Proof.
  intros H Hx (n & Hn & Ok). pose proof (k_facts _ _ _ H x Hx) as Ex. rewrite Hn in Ex.
  destruct (pnodes s' !! x) as [n'|] eqn:Hn'; [|done]. exists n'. split; [done|].
  unfold facts in Ex. simplify_eq/=. congruence.
Qed.
Lemma kept_tq K s s' q :
  kept K s s' → po s' = po s → (∀ x, x ∈ timeo_root (po s) :: q → x ∈ K) → tq s q → tq s' q.
Proof.
  intros H Hp Hk ((t & Ht & Et) & Hf & Hl & Htm & Hs). unfold tq. rewrite Hp. split_and!; [|done|done| |].
  - exists t. split; [|done]. eapply rb_at_frame; [|exact Ht]. intros x Hx. apply (k_mem _ _ _ H), Hk.
    by rewrite <- Et.
  - intros x Hx. eapply kept_timed; [done| |auto]. apply Hk. by right.
  - assert (∀ x, x ∈ q → deadline s' x = deadline s x) as Hd.
    { intros x Hx. eapply kept_deadline; [done|]. apply Hk. by right. }
    clear -Hs Hd. induction Hs as [|x q Hs IH Hx]; constructor; [apply IH; set_solver|].
    rewrite Forall_forall in *. intros y Hy. rewrite !Hd by set_solver. by apply Hx.
Qed.

(** The status an expired node is handed over with. *)
Definition expired_status (n : pnode) : pnode :=
  if (0 <=? fd (data n))%Z then set_status PR_ST_ERROR ETIMEDOUT n
  else set_status PR_ST_FINISHED 0 n.
Definition freed {A} (r : ptr) (m : gmap positive A) : gmap positive A :=
  match r with None => m | Some r => delete r m end.

Lemma callback_step s x n :
  pnodes s !! x = Some n → (∀ r, res n = Some r → is_Some (pnodes s !! r) ∧ r ≠ x) →
  (let* f := node_get (λ n, fd (data n)) (Some x) in
   (if (0 <=? f)%Z then node_set (set_status PR_ST_ERROR ETIMEDOUT) (Some x)
    else node_set (set_status PR_ST_FINISHED 0) (Some x)) ;;;
   let* r := node_get res (Some x) in
   free_node r ;;;
   callback (Some x)) s =
  Done (tt, log (CCallback x (expired_status n)) 0
              (set_mem (freed (res n) (mem s))
                 (set_pnodes (freed (res n) (<[x := expired_status n]> (pnodes s))) s))).
Proof.
  intros Hn Hr. rewrite (node_get_bnd _ _ _ _ _ Hn).
  transitivity ((free_node (res n) ;;; callback (Some x))
                  (set_pnodes (<[x := expired_status n]> (pnodes s)) s)).
  { unfold expired_status. destruct (0 <=? fd (data n))%Z; rewrite (node_set_bnd _ _ _ _ _ Hn);
      (erewrite node_get_bnd by (simpl; by rewrite lookup_insert_eq)); done. }
  unfold freed. destruct (res n) as [r|].
  - destruct (Hr r eq_refl) as [[m Hm] Hne].
    erewrite bnd_done by (simpl; rewrite lookup_insert_ne, Hm by done; done).
    simpl. by rewrite lookup_delete_ne, lookup_insert_eq.
  - unfold bnd, free_node, callback. simpl. rewrite lookup_insert_eq. by destruct s.
Qed.

(** A callback frees the [res] of its node and keeps the rest. *)
Lemma callback_kept s x n xs K c :
  pnodes s !! x = Some n → x ∈ K → x ∉ xs → (∀ y, y ∈ xs → y ∈ K) → res_apart s (x :: xs) K →
  let s1 := log c 0 (set_mem (freed (res n) (mem s))
              (set_pnodes (freed (res n) (<[x := expired_status n]> (pnodes s))) s)) in
  kept K s s1 ∧ res_apart s1 xs K.
Proof.
  intros Hn Hx Hxs Hin [R1 R2] s1.
  assert (∀ r, res n = Some r → is_Some (pnodes s !! r) ∧ r ∉ K) as Hr.
  { intros r Ex. apply (R1 x r); [by left|]. unfold res_of. by rewrite Hn. }
  assert (∀ (A : Type) (m : gmap positive A) l, res n ≠ Some l → freed (res n) m !! l = m !! l) as Hf.
  { intros A m l Hne. unfold freed. destruct (res n); [|done].
    apply lookup_delete_ne. congruence. }
  assert (∀ l, res n ≠ Some l → facts <$> pnodes s1 !! l = facts <$> pnodes s !! l) as Hfacts.
  { intros l Hne. simpl. rewrite Hf by done.
    destruct (decide (x = l)) as [<-|]; [|by rewrite lookup_insert_ne].
    rewrite lookup_insert_eq, Hn. unfold expired_status. by destruct (0 <=? _)%Z. }
  assert (∀ l, l ∈ K → res n ≠ Some l) as Hk by (intros l Hl Ex; by destruct (Hr l Ex)).
  assert (∀ y, y ∈ xs → res_of s1 y = res_of s y) as Hro.
  { intros y Hy. apply facts_res, Hfacts. auto. }
  split; [split; intros l Hl; [auto|simpl; auto]|]. split.
  - intros y r Hy. rewrite Hro by done. intros Ex. destruct (R1 y r) as [[m Hm] HrK]; [by right|done|].
    split; [|done]. assert (res n ≠ Some r) as Hne.
    { intros Ex'. apply Hxs. rewrite (R2 x y r); [done|by left|by right| |done].
      unfold res_of. by rewrite Hn. }
    specialize (Hfacts r Hne). rewrite Hm in Hfacts. by destruct (pnodes s1 !! r).
  - intros y z r Hy Hz. rewrite !Hro by done. apply R2; by right.
Qed.

(** The client gets the nodes of the local list, in its order. *)
Lemma timeo_callback_run L K xs : ∀ a s fuel,
  fseg (mem s) a xs L → L ∉ xs → NoDup xs → (∀ x, x ∈ L :: xs → x ∈ K) →
  (∀ x, x ∈ xs → is_Some (pnodes s !! x)) → res_apart s xs K → length xs < fuel →
  ∃ s', timeo_callback_loop fuel (Some (firstof xs L)) (Some L) s = Done (tt, s') ∧
    callbacks (calls s') = callbacks (calls s) ++ xs ∧ po s' = po s ∧ kept K s s'.
Proof.
  induction xs as [|x xs IH]; intros a s fuel Hf HL Hnd HK Hal Hres Hfuel;
    (destruct fuel as [|fuel]; [simpl in Hfuel; lia|]); cbn [timeo_callback_loop].
  - exists s. split_and!; [by rewrite decide_True|by rewrite app_nil_r|done|done].
  - change (firstof (x :: xs) L) with x. rewrite decide_False by set_solver.
    destruct (Hal x) as [n Hn]; [by left|]. destruct Hf as [_ Hf].
    apply NoDup_cons in Hnd as [Hx Hnd]. assert (x ∈ K) as HxK by set_solver.
    pose proof (callback_step s x n Hn) as E1.
    destruct (callback_kept s x n xs K (CCallback x (expired_status n)) Hn HxK Hx ltac:(set_solver) Hres)
      as [Hkept Hres1]. set (s1 := log _ _ _) in *.
    assert (fseg (mem s1) x xs L) as Hf1.
    { eapply fseg_ext; [|exact Hf]. intros y Hy. unfold nxt. rewrite (k_mem _ _ _ Hkept); [done|].
      set_solver. }
    destruct (IH x s1 fuel) as (s' & E2 & Hc & Hp & Hk2); [done|set_solver|done|set_solver| |done|simpl in Hfuel; lia|].
    { intros y Hy. pose proof (k_facts _ _ _ Hkept y ltac:(set_solver)) as Ex.
      destruct (Hal y) as [m Hm]; [by right|]. rewrite Hm in Ex. by destruct (pnodes s1 !! y). }
    exists s'. split_and!; [|rewrite Hc; simpl; by rewrite <- (assoc_L (++))|done|by eapply kept_trans].
    rewrite <- E2. apply fseg_first in Hf1.
    assert (Enx : ld next (Some x) (mem s1) = Done (Some (firstof xs L), mem s1)).
    { unfold nxt in Hf1. destruct (mem s1 !! x) as [c|] eqn:Ec; [|done].
      rewrite (ld_run _ _ _ _ Ec). simpl in Hf1. by injection Hf1 as ->. }
    rewrite <- (lnk_read _ (λ pos, timeo_callback_loop fuel pos (Some L)) _ _ Enx).
    assert (∀ r, res n = Some r → is_Some (pnodes s !! r) ∧ r ≠ x) as Hr.
    { intros r Ex. destruct (proj1 Hres x r) as [? Hk]; [by left|unfold res_of; by rewrite Hn|].
      split; [done|]. by intros ->. }
    specialize (E1 Hr). clear -E1. unfold bnd in *.
    repeat match type of E1 with
    | context [match ?m with Done _ => _ | UB => _ | Blocked => _ | NoFuel => _ end] =>
        destruct m as [[? ?]| | |]; [|done..]
    end. by rewrite E1.
Qed.

Lemma collected_nil h L : dlist h L [] → collected h L [].
Proof. intros (H1 & H2 & H3). by constructor. Qed.
Lemma survivors_in acc x : x ∈ survivors acc → x ∈ acc.
Proof.
  destruct acc as [|a [|b acc]]; simpl; [done..|]. rewrite lastof_cons.
  intros [->|Hx]%elem_of_cons; [right; apply lastof_in|set_solver].
Qed.
Lemma survivors_nodup acc : NoDup acc → NoDup (survivors acc).
Proof.
  destruct acc as [|a [|b acc]]; simpl; [done..|]. rewrite lastof_cons.
  intros [Ha _]%NoDup_cons. apply NoDup_cons. split; [|apply NoDup_singleton].
  intros Hl%list_elem_of_singleton. apply Ha. rewrite <- Hl. apply lastof_in.
Qed.

(** The list [timeo_list] has nothing that expired: its loop stops at once. *)
Lemma timeo_list_loop_stop s TL T local xs q fuel :
  queues s TL xs q → timed s T → (∀ x, head xs = Some x → before s T x = true) → fuel ≠ 0 →
  timeo_list_loop fuel (Some (firstof xs TL)) (Some T) local s = Done (tt, s).
Proof.
  intros Hq HT Hx Hf. destruct fuel as [|fuel]; [done|]. cbn [timeo_list_loop].
  rewrite pol_bnd, (q_head _ _ _ _ Hq). destruct xs as [|x xs]; [by rewrite decide_True|].
  change (firstof (x :: xs) TL) with x. rewrite decide_False; cycle 1.
  { intros [= ->]. destruct (q_next _ _ _ _ Hq) as ([Hn _]%NoDup_cons & _). set_solver. }
  destruct (timeout_cmp_pos s x T) as (c & Ec & Ep); [apply (q_timed _ _ _ _ Hq); by left|done|].
  by rewrite (bnd_done _ _ _ _ _ Ec), Ep, Hx.
Qed.

Lemma queues_frame s h TL xs q :
  (∀ x, x ∈ timeo_root (po s) :: TL :: xs ++ q → h !! x = mem s !! x) →
  queues s TL xs q → queues (set_mem h s) TL xs q.
Proof.
  intros Ho [H1 [H2 H2'] H3 H4 H5]. constructor; [done| | |done..].
  - split; [done|]. eapply fseg_ext; [|exact H2']. intros x Hx. unfold nxt. by rewrite Ho by set_solver.
  - apply tq_frame; [|done]. intros x Hx. apply Ho. set_solver.
Qed.

(** The handler once its local list [L] is set up. *)
Definition timeout_body (T local : ptr) : M pstate unit :=
  let* head := pol timeo_list in
  let* pos := lnk (ld next head) in
  bounded pnode_count (λ fuel, timeo_list_loop fuel pos T local) ;;;
  bounded pnode_count (λ fuel, timeo_tree_loop fuel T local) ;;;
  let* pos := lnk (ld next local) in
  bounded pnode_count (λ fuel, timeo_callback_loop fuel pos local).

Lemma timed_count s q : NoDup q → (∀ x, x ∈ q → timed s x) → length q < pnode_count s.
Proof.
  intros Hnd Ht. unfold pnode_count.
  assert (length q ≤ size (pnodes s)); [|lia]. apply NoDup_size; [done|].
  intros x Hx. destruct (Ht x Hx) as (n & Hn & _). by exists n.
Qed.

Lemma timeout_body_ok s TL L xs q1 q2 T :
  queues s TL xs (q1 ++ q2) → timed s T → dlist (mem s) L [] → pnodes s !! L = None →
  L ∉ timeo_root (po s) :: q1 ++ q2 →
  (∀ x, head xs = Some x → before s T x = true) →
  (∀ x, x ∈ q1 → before s T x = false) → (∀ x, head q2 = Some x → before s T x = true) →
  (∀ x, x ∈ q1 → slot_ok s x) → res_apart s q1 (timeo_root (po s) :: q1 ++ q2) →
  ∃ s', timeout_body (Some T) (Some L) s = Done (tt, s') ∧ tq s' q2 ∧
    po s' = set_ends q2 (set_nodes (clear_slots s q1 (nodes (po s))) (po s)) ∧
    callbacks (calls s') = callbacks (calls s) ++ survivors q1.
Proof.
  intros Hq HT Hd HLn HL Hx Hlt Hge Hs Hres. unfold timeout_body.
  rewrite pol_bnd, (q_head _ _ _ _ Hq), (lnk_read _ _ _ _ (queues_list_next _ _ _ _ Hq)).
  rewrite (bnd_done _ _ s tt s) by (eapply timeo_list_loop_stop; done).
  pose proof (q_disj _ _ _ _ Hq) as Hnd. pose proof (q_tree _ _ _ _ Hq) as Htq.
  assert (NoDup (timeo_root (po s) :: L :: [] ++ q1 ++ q2)) as Hnd'.
  { apply NoDup_occ. intros y. apply not_elem_of_cons in HL as [HL1 HL2].
    destruct (decide (y = L)) as [->|Hy].
    - simpl. autorewrite with occ. unfold same at 1.
      rewrite decide_False by done. destruct (decide (1 ≤ occ L (q1 ++ q2))) as [Hi|Hi];
        [by apply occ_in in Hi|]. rewrite occ_app in Hi. lia.
    - count Hnd y. simpl. autorewrite with occ. unfold same at 2. rewrite decide_False by done.
      lia. }
  destruct (timeo_tree_loop_run T L q2 q1 s [] (pnode_count s))
    as (s1 & E1 & Htq1 & Hc1 & Hag & Hpo & _); try done.
  { by apply collected_nil. }
  { apply timed_count.
    - apply NoDup_cons in Hnd' as [_ Hn]. apply NoDup_cons in Hn as [_ Hn].
      simpl in Hn. by apply NoDup_app in Hn as [? _].
    - intros x Hxq. eapply tq_timed; [exact Htq|]. set_solver. }
  erewrite bnd_done by exact E1. simpl in Hc1. destruct Hc1 as [Hcn Hcf _ _].
  apply NoDup_cons in Hcn as [HcL Hcn].
  assert (ld next (Some L) (mem s1) = Done (Some (firstof (survivors q1) L), mem s1)) as El.
  { pose proof (fseg_first _ _ _ _ Hcf) as Hf. unfold nxt in Hf.
    destruct (mem s1 !! L) as [c|] eqn:Ec; [|done]. rewrite (ld_run _ _ _ _ Ec).
    simpl in Hf. by injection Hf as ->. }
  rewrite (lnk_read _ _ _ _ El). unfold bounded.
  set (K := L :: timeo_root (po s) :: q1 ++ q2).
  assert (∀ x, x ∈ survivors q1 → is_Some (pnodes s1 !! x)) as Hal.
  { intros x Hi%survivors_in. destruct (Hs x Hi) as [[n Hn] _].
    destruct (facts_node _ _ _ _ (proj1 Hag) Hn) as (n' & Hn' & _). by exists n'. }
  destruct (timeo_callback_run L K (survivors q1) L s1 (pnode_count s1))
    as (s' & E2 & Hcb & Hp & Hk); [done| | | |done| | |].
  - intros Hi. by apply HcL, survivors_in.
  - by apply survivors_nodup.
  - intros x [->|Hi%survivors_in]%elem_of_cons; [by left|]. unfold K. set_solver.
  - eapply res_apart_facts; [apply Hag|]. eapply res_apart_incl; [intros x; apply survivors_in|].
    destruct Hres as [R1 R2]. split; [|done]. intros x r Hxq Hr. destruct (R1 x r Hxq Hr) as [Ha Hk].
    split; [done|]. unfold K. intros [->|?]%elem_of_cons; [|done]. rewrite HLn in Ha. by destruct Ha.
  - unfold pnode_count. assert (length (survivors q1) ≤ size (pnodes s1)); [|lia].
    by apply NoDup_size; [apply survivors_nodup|].
  - exists s'. split_and!; [done| |by rewrite Hp|by rewrite Hcb; destruct Hag as [_ ->]].
    eapply kept_tq; [exact Hk|done| |done]. rewrite Hpo. unfold K. simpl. set_solver.
Qed.
(** The local list is set up at [L], which nothing else uses, and gone at the end. *)
Lemma handle_timeout_local `{!EnvLaws E} s TL xs q T :
  queues s TL xs q →
  ∃ L h, let s1 := set_mem h s in
    __poller_handle_timeout (Some T) s =
      (let* r := timeout_body (Some T) (Some L) in
       modify (λ s, set_mem (delete L (mem s)) s) ;;; ret r) s1 ∧
    queues s1 TL xs q ∧ dlist h L [] ∧ pnodes s !! L = None ∧
    (∀ x, x ∈ timeo_root (po s) :: TL :: xs ++ q → x ≠ L).
Proof.
  intros Hq. unfold __poller_handle_timeout, with_local.
  set (L := stack_addr s). destruct (stack_fresh s) as [HL HLn]. fold L in HL, HLn. clearbody L.
  rewrite modify_bnd. set (s0 := set_mem _ s).
  destruct (list_init_dlist (mem s0) L) as (h1 & E1 & Hd & Ho1);
    [simpl; rewrite lookup_insert_eq; by eexists|].
  exists L, h1. cbv zeta. rewrite bnd_assoc, (lnk_bnd _ _ _ _ _ E1).
  assert (∀ x, x ∈ timeo_root (po s) :: TL :: xs ++ q → x ≠ L) as HneL.
  { intros x Hx' HxL. apply (eq_None_not_Some (mem s !! L)); [done|]. rewrite <- HxL.
    destruct (q_next _ _ _ _ Hq) as (_ & Hf).
    destruct (q_tree _ _ _ _ Hq) as ((t & (Htr & (cR & HR & _) & _) & Et) & _).
    apply elem_of_cons in Hx' as [->|Hx']; [by eexists|].
    rewrite app_comm_cons in Hx'. apply elem_of_app in Hx' as [Hx'|Hx'].
    - eapply (fseg_alloc _ _ _ _ _ Hf). exact Hx'.
    - eapply tree_at_dom; [exact Htr|]. by rewrite Et. }
  split_and!; [done| |done|done|done].
  apply (queues_frame s h1); [|done]. intros x Hx'. rewrite Ho1 by by apply HneL.
  simpl. rewrite lookup_insert_ne; [done|]. intros ->. by apply (HneL x).
Qed.

Lemma handle_timeout_ok `{!EnvLaws E} s TL xs q1 q2 T :
  queues s TL xs (q1 ++ q2) → timed s T →
  (∀ x, head xs = Some x → before s T x = true) →
  (∀ x, x ∈ q1 → before s T x = false) → (∀ x, head q2 = Some x → before s T x = true) →
  (∀ x, x ∈ q1 → slot_ok s x) → res_apart s q1 (timeo_root (po s) :: q1 ++ q2) →
  ∃ s', __poller_handle_timeout (Some T) s = Done (tt, s') ∧ tq s' q2 ∧
    po s' = set_ends q2 (set_nodes (clear_slots s q1 (nodes (po s))) (po s)) ∧
    callbacks (calls s') = callbacks (calls s) ++ survivors q1.
Proof.
  intros Hq HT Hx Hlt Hge Hs Hres.
  destruct (handle_timeout_local s TL xs (q1 ++ q2) T Hq) as (L & h & Er & Hq1 & Hd & HLn & HneL).
  destruct (timeout_body_ok (set_mem h s) TL L xs q1 q2 T) as (s2 & E2 & Htq & Hpo & Hcb); try done.
  { intros Hi. apply (HneL L); [|done]. clear -Hi. set_solver. }
  rewrite Er, (bnd_done _ _ _ _ _ E2), modify_bnd.
  eexists. split; [done|]. split_and!; [|done|done].
  apply tq_frame; [|done]. intros x Hi. rewrite lookup_delete_ne; [done|]. intros HxL.
  rewrite Hpo in Hi. simpl in Hi. apply (HneL x); [|done]. clear -Hi. set_solver.
Qed.

(** A node of [timeo_list] that expires is chained to the local list before the
    loop reads its [next]: the loop runs off [timeo_list], onto the local head. *)
Lemma timeo_list_loop_expired s TL L x xs q T fuel :
  queues s TL (x :: xs) q → timed s T → before s T x = false → slot_ok s x →
  dlist (mem s) L [] → L ∉ TL :: x :: xs → pnodes s !! L = None → 2 ≤ fuel →
  timeo_list_loop fuel (Some x) (Some T) (Some L) s = UB.
Proof.
  intros Hq HT Hb Hs Hd HL HLn Hf. destruct fuel as [|[|fuel]]; [lia|lia|].
  cbn [timeo_list_loop]. rewrite pol_bnd, (q_head _ _ _ _ Hq).
  destruct (q_next _ _ _ _ Hq) as ([Hn Hnd]%NoDup_cons & Hfs).
  rewrite decide_False by (intros [= ->]; set_solver).
  destruct (timeout_cmp_pos s x T) as (c & Ec & Ep); [apply (q_timed _ _ _ _ Hq); by left|done|].
  rewrite (bnd_done _ _ _ _ _ Ec), Ep, Hb.
  destruct (expire_run s x Hs) as (s1 & E1 & Hag & Hm & Hpo). rewrite (bnd_done _ _ _ _ _ E1).
  destruct (collect_add (mem s1) L [] x) as (h2 & E2 & Hc & _).
  { rewrite Hm. by apply collected_nil. }
  { set_solver. }
  { rewrite Hm. eapply fseg_alloc; [exact Hfs|]. right. by left. }
  apply bnd_done_inv in E2 as (tail & h' & E2 & E3).
  assert (h' = mem s1) as -> by (unfold ld in E2; by case_match; simplify_eq).
  rewrite (lnk_bnd _ _ _ _ _ E2). rewrite lnk_bnd with (a := tt) (h := h2) by exact E3.
  destruct Hc as [_ [_ Hcx] _ _]. simpl in Hcx; unfold nxt in Hcx.
  destruct (h2 !! x) as [cx|] eqn:Ecx; [|done].
  rewrite lnk_bnd with (a := Some L) (h := h2); cycle 1.
  { simpl. rewrite Ecx. simpl in Hcx. by injection Hcx as ->. }
  rewrite pol_bnd. cbn [po set_mem]. rewrite Hpo. cbn [timeo_list set_nodes].
  rewrite (q_head _ _ _ _ Hq), decide_False by (intros [= ->]; set_solver).
  pose proof (proj1 Hag L) as HL1. rewrite HLn in HL1.
  unfold __timeout_cmp, bnd. simpl. by destruct (pnodes s1 !! L).
Qed.

Lemma handle_timeout_ub `{!EnvLaws E} s TL x xs q T :
  queues s TL (x :: xs) q → timed s T → before s T x = false → slot_ok s x →
  __poller_handle_timeout (Some T) s = UB.
Proof.
  intros Hq HT Hb Hs.
  destruct (handle_timeout_local s TL (x :: xs) q T Hq) as (L & h & -> & Hq1 & Hd & HLn & HneL).
  apply bnd_ub. unfold timeout_body.
  rewrite pol_bnd, (q_head _ _ _ _ Hq1), (lnk_read _ _ _ _ (queues_list_next _ _ _ _ Hq1)).
  apply bnd_ub. unfold bounded. change (firstof (x :: xs) TL) with x.
  eapply (timeo_list_loop_expired _ TL L x xs q T); try done.
  - intros Hi. apply (HneL L); [|done]. clear -Hi. set_solver.
  - destruct Hs as [[n Hn] _]. unfold pnode_count. simpl.
    assert (1 ≤ size (pnodes s)); [|lia]. assert (size (pnodes s) ≠ 0); [|lia].
    rewrite map_size_ne_0_lookup. exists x. by rewrite Hn.
Qed.
End expire.
