(* ===== verification/PollerLife.v ===== *)
(** The life of a poller: creation, the descriptor check, stopping. *)
From S2P Require Export PollerTable PollerExpire.

(** ** The descriptor check of the interface *)

Lemma fd_out_ok f s :
  (0 ≤ max_open_files (po s) < 2 ^ 31)%Z → (- 2 ^ 31 ≤ f < 2 ^ 31)%Z →
  fd_out f s =
    if decide (0 ≤ f < max_open_files (po s))%Z then Done (false, s)
    else Done (true, set_errno (if decide (f < 0)%Z then EBADF else EMFILE) s).
Proof.
  intros Hm Hf. unfold fd_out. rewrite pol_bnd.
  destruct (decide (f < 0)%Z) as [Hn|Hn].
  - rewrite u64_neg, decide_False by lia. 
    replace (max_open_files (po s) <=? f + 2 ^ 64)%Z with true by lia.
    replace (f <? 0)%Z with true by lia. done.
  - rewrite u64_small by lia. replace (f <? 0)%Z with false by lia.
    case_decide; [replace (max_open_files (po s) <=? f)%Z with false by lia
                 |replace (max_open_files (po s) <=? f)%Z with true by lia]; done.
Qed.

(** ** Creation *)

Section life.
Context `{E : Env} `{Client}.

(** The table and the capacity of a new poller. *)
Lemma create_fields buf max s s' :
  __poller_create buf max s = Done (true, s') →
  nodes (po s') = buf ∧ max_open_files (po s') = max.
Proof.
  intros Hrun. unfold __poller_create in Hrun.
  rewrite gets_bnd in Hrun. destruct (poller_alloc s); [|done]. cbn [negb] in Hrun.
  apply bnd_done_inv in Hrun as (epfd & s1 & _ & Hrun). rewrite pol_set_bnd in Hrun.
  destruct (0 <=? epfd)%Z; [|done].
  apply bnd_done_inv in Hrun as (t & s2 & _ & Hrun).
  destruct (0 <=? t)%Z; cycle 1.
  { apply bnd_done_inv in Hrun as (? & ? & _ & Hrun). done. }
  rewrite !pol_set_bnd, pol_bnd in Hrun. set (s3 := set_po _ _) in Hrun.
  assert (nodes (po s3) = buf ∧ max_open_files (po s3) = max) as HT by done.
  clearbody s3.
  apply bnd_done_inv in Hrun as (u & s4 & E4%quiet_lnk & Hrun).
  rewrite !pol_set_bnd, pol_bnd in Hrun.
  apply bnd_done_inv in Hrun as (u5 & s6 & E6%quiet_lnk & Hrun).
  rewrite pol_bnd in Hrun. apply bnd_done_inv in Hrun as (u6 & s7 & E7%quiet_lnk & Hrun).
  rewrite pol_set_bnd in Hrun. injection Hrun as <-. simpl.
  rewrite (sc_nodes _ _ E7), (sc_nodes _ _ E6), (sc_max _ _ E7), (sc_max _ _ E6). simpl.
  by rewrite (sc_nodes _ _ E4), (sc_max _ _ E4).
Qed.

(** A table without nodes is ok. *)
Lemma empty_table s max :
  nodes (po s) = replicate (Z.to_nat max) None → max_open_files (po s) = max → table_ok s.
Proof.
  intros E1 E2. assert (∀ f l, ¬ entry None s f l) as He.
  { intros f l [Hl _]. rewrite E1 in Hl. by apply lookup_replicate in Hl as [? _]. }
  constructor; [by rewrite E1, E2, length_replicate|..]; intros f l; [|intros o r];
    intros Hl; by apply He in Hl.
Qed.

(** The poller [__poller_create] leaves: nothing is in the table. *)
Lemma create_table_ok max s s' :
  poller_create true max s = Done (true, s') → table_ok s'.
Proof. intros [E1 E2]%create_fields. by eapply empty_table. Qed.

(** [malloc] leaves [timeo_list] with whatever was in the memory; [list_init]
    writes through it. *)
Lemma create_list_ub max s s1 s2 e t root :
  poller_alloc s = true → __poller_create_pfd s = Done (e, s1) → (0 ≤ e)%Z →
  __poller_create_timer (set_po (set_pfd e (po s1)) s1) = Done (t, s2) → (0 ≤ t)%Z →
  mem s2 !! timeo_root (po s2) = Some root →
  (∀ l, timeo_list (po s2) = Some l → l ≠ timeo_root (po s2) ∧ mem s2 !! l = None) →
  poller_create true max s = UB.
Proof.
  intros Ha Ep He Et Ht Hroot Hl. simpl. unfold __poller_create.
  rewrite gets_bnd, Ha. cbn [negb]. rewrite (bnd_done _ _ _ _ _ Ep), pol_set_bnd.
  replace (0 <=? e)%Z with true by lia. rewrite (bnd_done _ _ _ _ _ Et).
  replace (0 <=? t)%Z with true by lia. rewrite !pol_set_bnd, pol_bnd.
  erewrite lnk_bnd by (simpl; rewrite Hroot; reflexivity).
  rewrite !pol_set_bnd, pol_bnd. unfold bnd, lnk, zoom, list_init, bnd. simpl.
  destruct (timeo_list (po s2)) as [l|] eqn:El; [|done].
  destruct (Hl l eq_refl) as [Hne Hnone]. simpl. by rewrite lookup_insert_ne, Hnone.
Qed.

(** ** Stopping *)

(** The third list of [poller_stop] replaces the second, and its head is taken
    for a node. *)
Lemma stop_lists_ub s TL xs q NTL ys L :
  queues s TL xs q → dlist (mem s) TL xs → dlist (mem s) NTL ys → dlist (mem s) L [] →
  no_timeo_list (po s) = Some NTL → pnodes s !! NTL = None →
  NoDup (L :: TL :: xs) → NoDup (L :: NTL :: ys) → TL ≠ NTL → NTL ∉ xs → TL ∉ ys →
  (let* tl := pol timeo_list in
   lnk (list_add_list (Some L) tl) ;;;
   let* ntl := pol no_timeo_list in
   lnk (list_add_list (Some L) ntl) ;;;
   let* pos := lnk (ld next (Some L)) in
   bounded pnode_count (λ fuel, stop_remove_loop fuel pos (Some L)) ;;;
   let* pos := lnk (ld next (Some L)) in
   bounded pnode_count (λ fuel, stop_callback_loop fuel pos (Some L))) s = UB.
Proof.
  intros Hq HT HN HL Hntl Hpn Hnd1 Hnd2 Hne Hx Hy. rewrite pol_bnd, (q_head _ _ _ _ Hq).
  destruct (list_add_list_run (mem s) L [] TL xs HL) as (h1 & E1 & _ & Hp1 & _ & Ho1);
    [done|done|].
  rewrite (lnk_bnd _ _ _ _ _ E1), pol_bnd. cbn [po set_mem]. rewrite Hntl.
  change (lastof L []) with L in Ho1.
  assert (L ≠ NTL) as HLN by (apply NoDup_cons in Hnd2 as [? _]; set_solver).
  destruct HL as (_ & _ & Hb). simpl in Hb. rewrite Hb in Hp1.
  assert (is_Some (mem s !! NTL)) as [cN HcN].
  { destruct HN as (_ & Hf & _). eapply fseg_alloc; [exact Hf|by left]. }
  assert (h1 !! NTL = Some cN) as HN1 by (rewrite Ho1; [done|set_solver]).
  assert (is_Some (h1 !! L)) as [cL HcL] by eauto with kernel.
  assert (∃ h2, list_add_list (Some L) (Some NTL) h1 = Done (tt, h2) ∧
            nxt h2 L = Some (Some NTL)) as (h2 & E2 & Hn2).
  { unfold list_add_list. rewrite (bnd_done _ _ _ _ _ (ld_prev_run _ _ _ Hp1)).
    eexists. split; [by msteps|].
    unfold nxt. rewrite !lookup_insert_ne by done. by rewrite lookup_insert_eq. }
  rewrite lnk_bnd with (a := tt) (h := h2) by exact E2.
  erewrite lnk_read; cycle 1.
  { unfold nxt in Hn2. simpl mem. destruct (h2 !! L) as [c|] eqn:Ec; [|done].
    simpl in Hn2. injection Hn2 as Hn2. rewrite (ld_run _ _ _ _ Ec), Hn2. reflexivity. }
  unfold bounded at 1. unfold pnode_count at 1. cbn [stop_remove_loop]. unfold bnd at 1.
  rewrite decide_False by congruence. unfold bnd at 1, expire. unfold bnd at 1. simpl.
  by rewrite Hpn.
Qed.

(** System calls change errno and the record of calls only. *)
Lemma sys_bnd {B} c (k : Z → M pstate B) s :
  ∃ r e, bnd (sys c) k s = k r (log c r (set_errno e s)).
Proof.
  unfold bnd, sys. destruct (sys_result c s) as [r e]. by exists r, e.
Qed.

Ltac run_call :=
  match goal with
  | |- bnd (sys ?c) ?k ?s = _ =>
      let r := fresh "r" in let e := fresh "e" in destruct (sys_bnd c k s) as (r & e & ->)
  end.

(** Stopping a poller with no node in its tree and none in the pipe. *)
Lemma stop_ub `{!EnvLaws E} s TL xs NTL ys :
  queues s TL xs [] → dlist (mem s) TL xs → dlist (mem s) NTL ys → no_timeo_list (po s) = Some NTL →
  pnodes s !! NTL = None → TL ≠ NTL → NTL ∉ xs → TL ∉ ys → timeo_root (po s) ∉ NTL :: ys →
  (∀ s', pipe_data s' = []) →
  poller_stop s = UB.
Proof.
  intros Hq HTL HN Hntl Hpn Hne Hx Hy HR Hpipe. unfold poller_stop, with_local.
  set (L := stack_addr s). destruct (stack_fresh s) as [HL _]. fold L in HL. clearbody L.
  rewrite modify_bnd. set (s0 := set_mem _ s).
  destruct (list_init_dlist (mem s0) L) as (h1 & E1 & Hd & Ho1);
    [simpl; rewrite lookup_insert_eq; by eexists|].
  rewrite bnd_assoc, (lnk_bnd _ _ _ _ _ E1), bnd_assoc, pol_bnd.
  destruct (q_next _ _ _ _ Hq) as (Hnd & Hf).
  destruct (q_tree _ _ _ _ Hq) as ((t & (_ & (cR & HcR & Er) & _) & Et) & _).
  assert (∀ x, is_Some (mem s !! x) → x ≠ L ∧ h1 !! x = mem s !! x) as Hout.
  { intros x [c Hc]. assert (x ≠ L) as Hxl by (intros ->; congruence). split; [done|].
    rewrite Ho1 by done. simpl. by rewrite lookup_insert_ne. }
  assert (∀ x, x ∈ TL :: xs → is_Some (mem s !! x)) as HinT by (intros x Hi; exact (fseg_alloc _ _ _ _ _ Hf Hi)).
  assert (∀ x, x ∈ NTL :: ys → is_Some (mem s !! x)) as HinN.
  { destruct HN as (_ & HfN & _). intros x Hi. exact (fseg_alloc _ _ _ _ _ HfN Hi). }
  assert (queues (set_mem h1 s0) TL xs []) as Hq1.
  { apply (queues_frame s h1); [|done]. intros x [->|Hi]%elem_of_cons.
    - apply Hout. by eexists.
    - rewrite app_nil_r in Hi. apply Hout. by apply HinT. }
  assert (dlist h1 TL xs) as HT1.
  { eapply dlist_frame; [|exact HTL]. intros x Hi. apply Hout. by apply HinT. }
  assert (dlist h1 NTL ys) as HN1.
  { eapply dlist_frame; [|exact HN]. intros x Hi. apply Hout. by apply HinN. }
  unfold __poller_handle_pipe, close. 
  repeat (psteps; rewrite ?Hpipe; run_call). rewrite take_nil. cbn [pipe_loop].
  repeat (psteps; run_call). psteps. set (s2 := set_po _ _).
  assert (rootp t = None) as Ert.
  { destruct t as [|? tl ? ?]; [done|]. simpl in Et. by destruct (inorder tl). }
  assert (bounded pnode_count (λ fuel, stop_tree_loop fuel (Some L)) s2 = Done (tt, s2)) as Eloop.
  { unfold bounded, pnode_count. cbn [stop_tree_loop]. rewrite pol_bnd.
    rewrite (lnk_read _ _ _ None); [done|]. unfold s2. cbn -[ld].
    rewrite (ld_run _ _ _ cR); [by rewrite Er, Ert|].
    rewrite (proj2 (Hout (timeo_root (po s)) ltac:(by eexists))). done. }
  rewrite (bnd_done _ _ _ _ _ Eloop).
  apply bnd_ub, (stop_lists_ub s2 TL xs [] NTL ys L); try done.
  - destruct Hq1 as [Q1 Q2 ((t1 & Ht1 & Et1) & _ & _ & Q3 & Q4) Q5 Q6].
    constructor; [done|done| |done..]. split_and!; [by exists t1|done..].
  - apply NoDup_cons. split; [|done]. intros Hi. by apply (Hout L); [apply HinT|].
  - apply NoDup_cons. split; [|apply HN1]. intros Hi. by apply (Hout L); [apply HinN|].
Qed.
End life.
