(* ===== verification/Mpoller.v ===== *)
(** mpoller.cc and mpoller.h: pollers that share one table of descriptors. *)
From S2P Require Export PollerLife.

(** [struct mpoller], and the state its pollers work on. The pollers share the
    links, the nodes, errno and the table [nodes_buf]; [rr] is the static counter
    of [mpoller_add_timer]. In [base] the field [po] is the poller that worked
    last. *)
Record mpoller : Type := MPoller {
  base : pstate;
  nodes_buf : list (option positive);
  mnthreads : Z;
  pollers : list poller;
  rr : Z;
}.

Definition set_base (b : pstate) (s : mpoller) : mpoller :=
  MPoller b (nodes_buf s) (mnthreads s) (pollers s) (rr s).
Definition set_nodes_buf (l : list (option positive)) (s : mpoller) : mpoller :=
  MPoller (base s) l (mnthreads s) (pollers s) (rr s).
Definition set_mnthreads (n : Z) (s : mpoller) : mpoller :=
  MPoller (base s) (nodes_buf s) n (pollers s) (rr s).
Definition set_pollers (l : list poller) (s : mpoller) : mpoller :=
  MPoller (base s) (nodes_buf s) (mnthreads s) l (rr s).
Definition set_rr (n : Z) (s : mpoller) : mpoller :=
  MPoller (base s) (nodes_buf s) (mnthreads s) (pollers s) n.

(** The memory [__poller_create] gets for a poller, and the other allocations. *)
Class MEnv : Type := {
  fresh_poller : pstate → poller;
  malloc_mpoller : bool;
  calloc_nodes : bool;
}.

(** The state as a poller sees it. [nodes_buf] is the one table that [mpoller_create]
    hands to every poller as its [nodes]: the model keeps it once, and puts it in the
    poller that works. *)
Definition view (p : poller) (s : mpoller) : pstate :=
  set_po (set_nodes (nodes_buf s) p) (base s).

(** Code of the poller [poller[i]]. *)
Definition on_poller {A} (i : Z) (m : M pstate A) : M mpoller A := λ s,
  if (i <? 0)%Z then UB else
  match pollers s !! Z.to_nat i with
  | None => UB
  | Some p =>
      match m (view p s) with
      | Done (a, b) =>
          Done (a, MPoller b (nodes (po b)) (mnthreads s)
                     (<[Z.to_nat i := po b]> (pollers s)) (rr s))
      | UB => UB
      | Blocked => Blocked
      | NoFuel => NoFuel
      end
  end.

Section mpoller.
Context `{Env} `{Client} `{MEnv}.

(** One poller more, at the end of [poller[]]; whether it was made. *)
Definition create_one (buf : list (option positive)) (max : Z) : M mpoller bool := λ s,
  match __poller_create buf max (set_po (fresh_poller (base s)) (base s)) with
  | Done (ok, b) =>
      Done (ok, set_pollers (if ok : bool then pollers s ++ [po b] else pollers s) (set_base b s))
  | UB => UB
  | Blocked => Blocked
  | NoFuel => NoFuel
  end.

(** [for (i = 0; i < mpoller->nthreads; i++)]: [i] after it. *)
Fixpoint create_loop (fuel : nat) (i : Z) (buf : list (option positive)) (max : Z) :
    M mpoller Z :=
  match fuel with
  | O => nofuel
  | S fuel =>
    let* n := gets mnthreads in
    if negb (i <? n)%Z then ret i else
    let* ok := create_one buf max in
    if negb ok then ret i else create_loop fuel (i + 1) buf max
  end.

(** [while (i > 0) f(mpoller->poller[--i])] *)
Fixpoint rollback (i : nat) (f : M pstate unit) : M mpoller unit :=
  match i with
  | O => ret tt
  | S i => on_poller (Z.of_nat i) f ;;; rollback i f
  end.

Definition __mpoller_create (max : Z) : M mpoller Z :=
  if calloc_nodes then
    let buf := replicate (Z.to_nat max) None in
    let* n := gets mnthreads in
    let* i := create_loop (S (Z.to_nat n)) 0 buf max in
    if (i =? n)%Z then
      modify (set_nodes_buf buf) ;;;
      ret 0%Z
    else
      rollback (Z.to_nat i) __poller_destroy ;;;
      ret (-1)%Z
  else ret (-1)%Z.

Definition mpoller_create (max nthreads : Z) : M mpoller bool :=
  let nthreads := if (nthreads =? 0)%Z then 1%Z else nthreads in
  if malloc_mpoller then
    modify (set_pollers []) ;;;
    modify (set_mnthreads (u32 nthreads)) ;;;
    let* r := __mpoller_create max in
    ret (0 <=? r)%Z
  else ret false.

(** [for (i = 0; i < mpoller->nthreads; i++)] of [mpoller_start]: [i] after it. *)
Fixpoint start_loop (fuel : nat) (i : Z) : M mpoller Z :=
  match fuel with
  | O => nofuel
  | S fuel =>
    let* n := gets mnthreads in
    if negb (i <? n)%Z then ret i else
    let* r := on_poller i poller_start in
    if (r <? 0)%Z then ret i else start_loop fuel (i + 1)
  end.

Definition mpoller_start : M mpoller Z :=
  let* n := gets mnthreads in
  let* i := start_loop (S (Z.to_nat n)) 0 in
  if (i =? n)%Z then ret 0%Z
  else rollback (Z.to_nat i) poller_stop ;;; ret (-1)%Z.

(** [for (i = 0; i < mpoller->nthreads; i++) f(mpoller->poller[i])] *)
Fixpoint each (fuel : nat) (i : Z) (f : M pstate unit) : M mpoller unit :=
  match fuel with
  | O => nofuel
  | S fuel =>
    let* n := gets mnthreads in
    if negb (i <? n)%Z then ret tt else
    on_poller i f ;;;
    each fuel (i + 1) f
  end.

Definition mpoller_stop : M mpoller unit :=
  bounded (λ s, S (Z.to_nat (mnthreads s))) (λ fuel, each fuel 0 poller_stop).

Definition mpoller_destroy : M mpoller unit :=
  bounded (λ s, S (Z.to_nat (mnthreads s))) (λ fuel, each fuel 0 __poller_destroy) ;;;
  modify (set_nodes_buf []) ;;;
  modify (set_pollers []).

(** [(unsigned int)fd % mpoller->nthreads], as an [int]; a division by 0 is
    undefined behaviour. *)
Definition mindex (fd : Z) : M mpoller Z :=
  let* n := gets mnthreads in
  if (n =? 0)%Z then ub else ret (i32 (u32 fd mod n)).

Definition mpoller_add (d : poller_data) (timeout : Z) : M mpoller Z :=
  let* index := mindex (fd d) in
  on_poller index (poller_add d timeout).
Definition mpoller_del (fd : Z) : M mpoller Z :=
  let* index := mindex fd in
  on_poller index (poller_del fd).
Definition mpoller_mod (d : poller_data) (timeout : Z) : M mpoller Z :=
  let* index := mindex (fd d) in
  on_poller index (poller_mod d timeout).
Definition mpoller_set_timeout (fd timeout : Z) : M mpoller Z :=
  let* index := mindex fd in
  on_poller index (poller_set_timeout fd timeout).

(** The result, the timer and its poller's index. *)
Definition mpoller_add_timer (value : timespec) (ctx : ptr) : M mpoller (Z * ptr * Z) :=
  let* n := gets rr in
  let* index := mindex n in
  modify (set_rr (u32 (n + 1))) ;;;
  let* (r, timer) := on_poller index (poller_add_timer value ctx) in
  ret (r, timer, index).

Definition mpoller_del_timer (timer : ptr) (index : Z) : M mpoller Z :=
  on_poller index (poller_del_timer timer).
End mpoller.

(** ** The shared table *)

(** Every poller is for descriptors below [max], and sees a table that is ok. *)
Record shared_ok (max : Z) (s : mpoller) : Prop := {
  sh_max p : p ∈ pollers s → max_open_files p = max;
  sh_table p : p ∈ pollers s → table_ok (view p s);
}.

(** The table depends on the slots, the capacity and the nodes only. *)
Lemma table_ok_agree s s' :
  nodes (po s') = nodes (po s) → max_open_files (po s') = max_open_files (po s) →
  pnodes s' = pnodes s → table_ok s → table_ok s'.
Proof.
  intros E1 E2 E3 [T1 T2 T3].
  assert (∀ f l, entry None s' f l ↔ entry None s f l) as E by (intros; by apply entry_eq).
  assert (∀ l, owns s' l = owns s l) as Eo by (intros; unfold owns; by rewrite E3).
  constructor; [congruence| |].
  - intros f l Hf%E. rewrite Eo. eauto.
  - intros f l o r Hf%E. rewrite Eo, E3. intros Ho Hr. destruct (T3 f l o r Hf Ho Hr) as (H1 & H2 & H3).
    split_and!; [done| |].
    + intros f'. by rewrite E.
    + intros f' l' o'. rewrite E, Eo. eauto.
Qed.

(** *** The operations keep the capacity *)

Definition steady {A} (m : M pstate A) : Prop :=
  ∀ s a s', m s = Done (a, s') → max_open_files (po s') = max_open_files (po s).

Lemma steady_quiet {A} (m : M pstate A) : quiet m → steady m.
Proof. intros H s a s' E. by apply H in E as []. Qed.
Lemma steady_bnd {A B} (m : M pstate A) (k : A → M pstate B) :
  steady m → (∀ a, steady (k a)) → steady (bnd m k).
Proof.
  intros Hm Hk s b s' (a & s1 & E1 & E2)%bnd_done_inv. etrans; [by eapply Hk|by eapply Hm].
Qed.
Lemma steady_node_set f p : steady (node_set f p).
Proof. intros s a s' E. destruct p; simpl in E; [|done]. by case_match; simplify_eq. Qed.
Lemma steady_nodes_set f p : steady (nodes_set f p).
Proof. intros s a s' E. unfold nodes_set in E. by repeat case_match; simplify_eq. Qed.
Lemma steady_nodes_get f : steady (nodes_get f).
Proof. intros s a s' E. unfold nodes_get in E. by repeat case_match; simplify_eq. Qed.
Lemma steady_free p : steady (free_node p).
Proof. intros s a s' E. destruct p; simpl in E; by repeat case_match; simplify_eq. Qed.
Lemma steady_malloc `{Env} : steady malloc_node.
Proof. intros s a s' E. unfold malloc_node in E. by case_match; simplify_eq. Qed.
Lemma steady_callback p : steady (callback p).
Proof. intros s a s' E. destruct p; simpl in E; by repeat case_match; simplify_eq. Qed.

Ltac settle :=
  repeat first
    [ progress intros
    | apply steady_bnd | apply steady_node_set | apply steady_nodes_set | apply steady_nodes_get
    | apply steady_free | apply steady_malloc | apply steady_callback
    | solve [apply steady_quiet; hush]
    | case_match ].

Section steady.
Context `{Env} `{Client}.
Lemma steady_new_node d t : steady (__poller_new_node d t).
Proof. unfold __poller_new_node. settle. Qed.
Lemma steady_discard p : steady (discard p).
Proof. unfold discard. settle. Qed.
Lemma steady_notify p : steady (notify_removed p).
Proof. unfold notify_removed. settle. Qed.
#[local] Hint Resolve steady_new_node steady_discard steady_notify : core.
Lemma steady_add d t : steady (poller_add d t).
Proof. unfold poller_add. settle; auto. Qed.
Lemma steady_del f : steady (poller_del f).
Proof. unfold poller_del. settle; auto. Qed.
Lemma steady_mod d t : steady (poller_mod d t).
Proof. unfold poller_mod. settle; auto. Qed.
Lemma steady_set_timeout f t : steady (poller_set_timeout f t).
Proof. unfold poller_set_timeout, clock_gettime. settle; auto. Qed.
Lemma steady_add_timer v c : steady (poller_add_timer v c).
Proof. unfold poller_add_timer, clock_gettime. settle; auto. Qed.
Lemma steady_del_timer p : steady (poller_del_timer p).
Proof. unfold poller_del_timer. settle; auto. Qed.
Lemma steady_remove p : steady (__poller_remove_node p).
Proof. unfold __poller_remove_node, remove_locked. settle; auto. Qed.
End steady.

(** *** Runs of the interface *)

Section runs.
Context `{E : Env} `{!EnvLaws E} `{Client} `{MEnv}.

Lemma on_poller_inv {A} i (m : M pstate A) s a s' :
  on_poller i m s = Done (a, s') →
  ∃ p b, pollers s !! Z.to_nat i = Some p ∧ m (view p s) = Done (a, b) ∧
    s' = MPoller b (nodes (po b)) (mnthreads s) (<[Z.to_nat i := po b]> (pollers s)) (rr s).
Proof.
  unfold on_poller. destruct (i <? 0)%Z; [done|].
  destruct (pollers s !! Z.to_nat i) as [p|]; [|done].
  destruct (m (view p s)) as [[x b]| | |] eqn:Em; [|done..].
  intros Ed. assert (x = a ∧ MPoller b (nodes (po b)) (mnthreads s)
    (<[Z.to_nat i := po b]> (pollers s)) (rr s) = s') as [-> <-] by (split; congruence).
  by exists p, b.
Qed.

Lemma elem_of_insert_inv {A} (l : list A) i x y : x ∈ <[i := y]> l → x = y ∨ x ∈ l.
Proof.
  intros [j Hj]%list_elem_of_lookup. apply list_lookup_insert_Some in Hj as [(_ & -> & _)|[_ Hj]].
  - by left.
  - right. by eapply list_elem_of_lookup_2.
Qed.

(** Code of one poller that keeps its table and capacity keeps the shared table
    for all of them. *)
Lemma on_poller_shared {A} max i (m : M pstate A) s a s' :
  (∀ s1 s2 b, table_ok s1 → m s1 = Done (b, s2) → table_ok s2) → steady m →
  shared_ok max s → on_poller i m s = Done (a, s') → shared_ok max s'.
Proof.
  intros Ht Hm [S1 S2] (p & b & Hp & Em & ->)%on_poller_inv.
  apply list_elem_of_lookup_2 in Hp as Hin. pose proof (Hm _ _ _ Em) as Hmax. simpl in Hmax.
  apply (Ht _ _ _ (S2 p Hin)) in Em.
  assert (∀ p', p' ∈ <[Z.to_nat i := po b]> (pollers s) → max_open_files p' = max) as Hall.
  { intros p' Hp'. apply elem_of_insert_inv in Hp' as [->|Hp']; [|by apply S1].
    rewrite Hmax. by apply S1. }
  constructor; simpl; [done|]. intros p' Hp'. unfold view. simpl.
  eapply table_ok_agree; [| | |exact Em]; [done| |done]. simpl. rewrite (Hall p' Hp').
  rewrite Hmax. symmetry. by apply S1.
Qed.

(** A call of the interface, or a removal by the thread of the [i]th poller. *)
Inductive mapi (s s' : mpoller) : Prop :=
| MApiAdd d t r : mpoller_add d t s = Done (r, s') → mapi s s'
| MApiDel f r : mpoller_del f s = Done (r, s') → mapi s s'
| MApiMod d t r : mpoller_mod d t s = Done (r, s') → mapi s s'
| MApiSetTimeout f t r : mpoller_set_timeout f t s = Done (r, s') → mapi s s'
| MApiAddTimer v c r : mpoller_add_timer v c s = Done (r, s') → mapi s s'
| MApiDelTimer l i r :
    (∀ p, p ∈ pollers s → unlisted None (view p s) l) →
    mpoller_del_timer (Some l) i s = Done (r, s') → mapi s s'
| MApiRemove i p r : on_poller i (__poller_remove_node p) s = Done (r, s') → mapi s s'.

Lemma mindex_inv f s i s' : mindex f s = Done (i, s') → s' = s.
Proof.
  unfold mindex. rewrite gets_bnd. destruct (_ =? _)%Z; [done|]. unfold ret. congruence.
Qed.
Lemma at_index_inv {A} f (k : Z → M mpoller A) s a s' :
  bnd (mindex f) k s = Done (a, s') → ∃ i, k i s = Done (a, s').
Proof. intros (i & s1 & ->%mindex_inv & Hk)%bnd_done_inv. by exists i. Qed.

Lemma mapi_shared max s s' : mapi s s' → shared_ok max s → shared_ok max s'.
Proof.
  intros Hs Hok. destruct Hs as [d t r Hr|f r Hr|d t r Hr|f t r Hr|v c r Hr|l i r Hl Hr|i p r Hr].
  - apply at_index_inv in Hr as [i Hr]. eapply on_poller_shared; [|apply steady_add|done..].
    intros. by eapply poller_add_table.
  - apply at_index_inv in Hr as [i Hr]. eapply on_poller_shared; [|apply steady_del|done..].
    intros. by eapply poller_del_table.
  - apply at_index_inv in Hr as [i Hr]. eapply on_poller_shared; [|apply steady_mod|done..].
    intros. by eapply poller_mod_table.
  - apply at_index_inv in Hr as [i Hr]. eapply on_poller_shared; [|apply steady_set_timeout|done..].
    intros. by eapply poller_set_timeout_table.
  - unfold mpoller_add_timer in Hr. rewrite gets_bnd in Hr. apply at_index_inv in Hr as [i Hr].
    rewrite modify_bnd in Hr. apply bnd_done_inv in Hr as ([r1 timer] & s1 & Hr & E1).
    injection E1 as _ <-. eapply on_poller_shared; [|apply steady_add_timer| |exact Hr].
    + intros. by eapply poller_add_timer_table.
    + destruct Hok. by constructor.
  - destruct Hok as [S1 S2]. apply on_poller_inv in Hr as (p & b & Hp & Em & ->).
    apply list_elem_of_lookup_2 in Hp as Hin.
    pose proof (steady_del_timer _ _ _ _ Em) as Hmax. simpl in Hmax.
    eapply poller_del_timer_table in Em as HT; [|by apply S2|by apply Hl].
    assert (∀ p', p' ∈ <[Z.to_nat i := po b]> (pollers s) → max_open_files p' = max) as Hall.
    { intros p' Hp'. apply elem_of_insert_inv in Hp' as [->|Hp']; [|by apply S1].
      rewrite Hmax. by apply S1. }
    constructor; simpl; [done|]. intros p' Hp'.
    eapply table_ok_agree; [| | |exact HT]; [done| |done]. simpl. rewrite (Hall p' Hp'), Hmax.
    symmetry. by apply S1.
  - eapply on_poller_shared; [|apply steady_remove|done..]. intros. by eapply remove_node_table.
Qed.
End runs.
