(* ===== verification/MpollerSpec.v ===== *)
(** What an [mpoller] promises: every poller works on the one table, a descriptor
    has its poller, and a creation that fails closes what it opened. *)
From S2P Require Export Mpoller.

(** How often [f] was opened less how often it was closed, by the system calls a
    poller's creation and destruction make. *)
Definition ind (b : bool) : Z := if b then 1%Z else 0%Z.
Definition opens (f : Z) (c : call * Z) : Z :=
  match c with
  | (CEpollCreate, r) | (CTimerCreate, r) => ind ((0 <=? r) && (r =? f))%Z
  | (CClose g, _) => (- ind (g =? f))%Z
  | _ => 0%Z
  end.
Fixpoint balance (f : Z) (cs : list (call * Z)) : Z :=
  match cs with
  | [] => 0%Z
  | c :: cs => (opens f c + balance f cs)%Z
  end.

(** The descriptors of a poller, and those of all pollers. *)
Definition holds_fd (f : Z) (p : poller) : Z := (ind (pfd p =? f) + ind (timerfd p =? f))%Z.
Fixpoint held (f : Z) (ps : list poller) : Z :=
  match ps with
  | [] => 0%Z
  | p :: ps => (holds_fd f p + held f ps)%Z
  end.

Lemma held_app f ps qs : held f (ps ++ qs) = (held f ps + held f qs)%Z.
Proof. induction ps; simpl; lia. Qed.

Section spec.
Context `{E : Env} `{!EnvLaws E} `{Client} `{MEnv}.

(** *** Inversion of the instructions *)

Lemma lnk_inv {A} (m : M (gmap positive cell) A) s a s' :
  lnk m s = Done (a, s') → ∃ h, s' = set_mem h s.
Proof.
  unfold lnk, zoom. destruct (m (mem s)) as [[x h]| | |]; [|done..]. intros [= -> <-].
  by eexists.
Qed.
Lemma sys_inv c s r s' :
  sys c s = Done (r, s') → ∃ e, s' = log c r (set_errno e s).
Proof.
  unfold sys. destruct (sys_result c s) as [x e]. intros [= -> <-]. by exists e.
Qed.

Ltac next_step H :=
  first
    [ rewrite gets_bnd in H | rewrite pol_bnd in H | rewrite pol_set_bnd in H
    | rewrite modify_bnd in H | rewrite ret_bnd in H | rewrite bnd_assoc in H ].

Lemma poller_destroy_inv s u s' :
  __poller_destroy s = Done (u, s') →
  po s' = po s ∧ ∀ f, balance f (calls s') = (balance f (calls s) - holds_fd f (po s))%Z.
Proof.
  unfold __poller_destroy, __poller_close_timerfd, close. intros Hr.
  repeat next_step Hr. apply bnd_done_inv in Hr as (r1 & s1 & [e1 ->]%sys_inv & Hr).
  repeat next_step Hr. apply bnd_done_inv in Hr as (r2 & s2 & [e2 ->]%sys_inv & Hr).
  injection Hr as _ <-. split; [done|]. intros f. unfold holds_fd. simpl. lia.
Qed.

Lemma create_timer_inv s t s' :
  __poller_create_timer s = Done (t, s') →
  if (0 <=? t)%Z then
    pfd (po s') = pfd (po s) ∧
    ∀ f, balance f (calls s') = (balance f (calls s) + ind (timerfd (po s') =? f))%Z
  else po s' = po s ∧ ∀ f, balance f (calls s') = balance f (calls s).
Proof.
  unfold __poller_create_timer, __poller_create_timerfd, __poller_add_timerfd,
    __poller_close_timerfd, close. intros Hr.
  apply bnd_done_inv in Hr as (tfd & s1 & [e1 ->]%sys_inv & Hr).
  destruct (0 <=? tfd)%Z eqn:Et.
  - repeat next_step Hr. apply bnd_done_inv in Hr as (a & s2 & [e2 ->]%sys_inv & Hr).
    destruct (0 <=? a)%Z.
    + repeat next_step Hr. injection Hr as <- <-. simpl. split; [done|]. intros f.
      rewrite Et. simpl. lia.
    + apply bnd_done_inv in Hr as (r & s3 & [e3 ->]%sys_inv & Hr). injection Hr as <- <-.
      simpl. split; [done|]. intros f. rewrite Et. simpl. lia.
  - injection Hr as <- <-. simpl. split; [done|]. intros f. by rewrite Et.
Qed.

Lemma poller_create_inv buf max s ok s' :
  __poller_create buf max s = Done (ok, s') →
  ∀ f, balance f (calls s') =
    (balance f (calls s) + if ok then holds_fd f (po s') else 0)%Z.
Proof.
  unfold __poller_create, __poller_create_pfd, close. intros Hr f.
  rewrite gets_bnd in Hr. destruct (poller_alloc s); simpl negb in Hr; cbn iota in Hr; cycle 1.
  { injection Hr as <- <-. lia. }
  apply bnd_done_inv in Hr as (epfd & s1 & [e1 ->]%sys_inv & Hr). rewrite pol_set_bnd in Hr.
  destruct (0 <=? epfd)%Z eqn:Ee; cycle 1.
  { injection Hr as <- <-. simpl. rewrite Ee. simpl. lia. }
  apply bnd_done_inv in Hr as (t & s2 & Ht%create_timer_inv & Hr).
  destruct (0 <=? t)%Z; destruct Ht as [Hp Hb]; simpl in Hp, Hb; rewrite Ee in Hb.
  - repeat next_step Hr. apply bnd_done_inv in Hr as (u1 & s3 & [h3 ->]%lnk_inv & Hr).
    repeat next_step Hr. apply bnd_done_inv in Hr as (u4 & s4 & [h4 ->]%lnk_inv & Hr).
    repeat next_step Hr. apply bnd_done_inv in Hr as (u5 & s5 & [h5 ->]%lnk_inv & Hr).
    repeat next_step Hr. injection Hr as <- <-. unfold holds_fd. simpl. rewrite Hb, Hp. simpl. lia.
  - apply bnd_done_inv in Hr as (r & s3 & [e3 ->]%sys_inv & Hr). injection Hr as <- <-.
    simpl. rewrite Hb. simpl. lia.
Qed.

(** *** Creation *)

(** A poller that [__poller_create] made for [buf] and [max]. *)
Definition made (buf : list (option positive)) (max : Z) (p : poller) : Prop :=
  nodes p = buf ∧ max_open_files p = max.

Lemma create_one_inv buf max s ok s' :
  create_one buf max s = Done (ok, s') →
  ∃ b, s' = set_pollers (if ok then pollers s ++ [po b] else pollers s) (set_base b s) ∧
    (ok = true → made buf max (po b)) ∧
    ∀ f, balance f (calls b) = (balance f (calls (base s)) + if ok then holds_fd f (po b) else 0)%Z.
Proof.
  unfold create_one. destruct (__poller_create _ _ _) as [[x b]| | |] eqn:Ec; [|done..].
  intros [= -> <-]. exists b. split; [done|]. split.
  - intros ->. by apply create_fields in Ec as [].
  - intros f. apply poller_create_inv with (f := f) in Ec. exact Ec.
Qed.

(** The loop adds its pollers one by one until one cannot be made. *)
Lemma create_loop_inv buf max fuel i s i' s' :
  create_loop fuel i buf max s = Done (i', s') →
  ∃ ps, pollers s' = pollers s ++ ps ∧ i' = (i + Z.of_nat (length ps))%Z ∧
    mnthreads s' = mnthreads s ∧ Forall (made buf max) ps ∧
    ∀ f, balance f (calls (base s')) = (balance f (calls (base s)) + held f ps)%Z.
Proof.
  assert (∀ i, ∃ ps : list poller, pollers s = pollers s ++ ps ∧ i = (i + Z.of_nat (length ps))%Z ∧
    mnthreads s = mnthreads s ∧ Forall (made buf max) ps ∧
    ∀ f, balance f (calls (base s)) = (balance f (calls (base s)) + held f ps)%Z) as Hnil.
  { intros j. exists []. rewrite app_nil_r. split_and!; [done|simpl; lia|done|constructor|].
    intros f. simpl. lia. }
  revert i s Hnil. induction fuel as [|fuel IH]; intros i s Hnil; [done|]. cbn [create_loop].
  rewrite gets_bnd. destruct (i <? mnthreads s)%Z; simpl negb; cbn iota.
  2: { intros [= <- <-]. apply Hnil. }
  intros Hr. apply bnd_done_inv in Hr as (ok & s1 & Hone & Hr).
  apply create_one_inv in Hone as (b & -> & Hm & Hb). destruct ok; simpl negb in Hr; cbn iota in Hr.
  - apply IH in Hr as (ps & E1 & -> & E3 & E4 & E5).
    2: { intros j. exists []. rewrite app_nil_r. split_and!; [done|simpl; lia|done|constructor|].
         intros f. simpl. lia. }
    exists (po b :: ps). simpl in E1, E5. split_and!.
    + by rewrite E1, <- app_assoc.
    + simpl length. lia.
    + done.
    + constructor; [by apply Hm|done].
    + intros f. rewrite E5, Hb. simpl. lia.
  - injection Hr as <- <-. destruct (Hnil i) as (ps & E1 & E2 & _ & E4 & E5).
    exists ps. split_and!; [done..|]. intros f. simpl. rewrite Hb. specialize (E5 f). lia.
Qed.

(** Destroying the first [i] pollers, from the last of them. *)
Lemma rollback_destroy i s u s' :
  rollback i __poller_destroy s = Done (u, s') →
  ∀ f, balance f (calls (base s')) = (balance f (calls (base s)) - held f (take i (pollers s)))%Z.
Proof.
  revert s. induction i as [|i IH]; intros s; simpl.
  { intros [= _ <-] f. lia. }
  intros Hr f. apply bnd_done_inv in Hr as (u1 & s1 & (p & b & Hp & Hd & ->)%on_poller_inv & Hr).
  rewrite Nat2Z.id in Hp. apply poller_destroy_inv in Hd as [_ Hb]. simpl in Hb.
  apply IH with (f := f) in Hr. simpl in Hr. rewrite Nat2Z.id in Hr.
  rewrite take_insert_ge in Hr by lia. rewrite Hr, Hb, (take_S_r _ _ p) by done.
  rewrite held_app. unfold holds_fd. simpl. unfold holds_fd. lia.
Qed.

Lemma each_destroy_bal fuel i s u s' :
  (0 ≤ i)%Z → mnthreads s = Z.of_nat (length (pollers s)) →
  each fuel i __poller_destroy s = Done (u, s') →
  ∀ f, balance f (calls (base s')) =
    (balance f (calls (base s)) - held f (drop (Z.to_nat i) (pollers s)))%Z.
Proof.
  revert i s. induction fuel as [|fuel IH]; intros i s Hi Hn Hr f; [done|]. cbn [each] in Hr.
  rewrite gets_bnd in Hr. destruct (i <? mnthreads s)%Z eqn:El; simpl negb in Hr; cbn iota in Hr.
  - apply bnd_done_inv in Hr as (u1 & s1 & (p & b & Hp & Hd & ->)%on_poller_inv & Hr).
    apply poller_destroy_inv in Hd as [_ Hb]. simpl in Hb.
    apply IH with (f := f) in Hr; [|lia|simpl; by rewrite length_insert]. simpl in Hr.
    rewrite Hr, Hb, (drop_S _ p (Z.to_nat i)) by done.
    replace (Z.to_nat (i + 1)) with (S (Z.to_nat i)) by lia.
    rewrite drop_insert_lt by lia. simpl. unfold holds_fd. simpl. lia.
  - injection Hr as _ <-. rewrite drop_ge by lia. simpl. lia.
Qed.

(** *** [mpoller_create] *)

Definition thread_count (nthreads : Z) : Z := u32 (if (nthreads =? 0)%Z then 1 else nthreads).

(** A creation that returns NULL has closed every descriptor it opened. *)
Lemma create_fail_balance max n s s' :
  mpoller_create max n s = Done (false, s') →
  ∀ f, balance f (calls (base s')) = balance f (calls (base s)).
Proof.
  unfold mpoller_create. destruct malloc_mpoller; [|intros Hr; by injection Hr as <-].
  rewrite !modify_bnd. intros Hr f. apply bnd_done_inv in Hr as (r & s1 & Hr & E1).
  unfold __mpoller_create in Hr. destruct calloc_nodes; cycle 1.
  { injection Hr as <- <-. by injection E1 as <-. }
  rewrite gets_bnd in Hr. apply bnd_done_inv in Hr as (i & s2 & Hl%create_loop_inv & Hr).
  destruct Hl as (ps & Eps & -> & _ & _ & Hb). simpl in Eps, Hb. destruct (_ =? _)%Z.
  { rewrite modify_bnd in Hr. injection Hr as <- <-. done. }
  apply bnd_done_inv in Hr as (u & s3 & Hd & Hr). injection Hr as <- <-. injection E1 as <-.
  rewrite (rollback_destroy _ _ _ _ Hd f), Hb, Eps.
  rewrite take_ge by lia. simpl. lia.
Qed.

(** The pollers of a new mpoller. *)
Lemma create_made max n s s' :
  mpoller_create max n s = Done (true, s') →
  mnthreads s' = thread_count n ∧ Z.of_nat (length (pollers s')) = thread_count n ∧
  nodes_buf s' = replicate (Z.to_nat max) None ∧
  Forall (made (replicate (Z.to_nat max) None) max) (pollers s') ∧
  ∀ f, balance f (calls (base s')) = (balance f (calls (base s)) + held f (pollers s'))%Z.
Proof.
  unfold mpoller_create. destruct malloc_mpoller; [|done]. fold (thread_count n).
  rewrite !modify_bnd. intros Hr. apply bnd_done_inv in Hr as (r & s1 & Hr & E1).
  unfold __mpoller_create in Hr. destruct calloc_nodes; cycle 1.
  { injection Hr as <- <-. done. }
  rewrite gets_bnd in Hr. apply bnd_done_inv in Hr as (i & s2 & Hl%create_loop_inv & Hr).
  destruct Hl as (ps & Eps & -> & En & Hm & Hb). simpl in Eps, En, Hb, Hr. 
  destruct (_ =? _)%Z eqn:Ei.
  - rewrite modify_bnd in Hr. injection Hr as <- <-. injection E1 as <-. simpl.
    rewrite Eps. fold (thread_count n) in Ei. split_and!; [done|lia|done..].
  - apply bnd_done_inv in Hr as (u & s3 & Hd & Hr). injection Hr as <- <-. done.
Qed.

Lemma create_shared max n s s' :
  mpoller_create max n s = Done (true, s') → shared_ok max s'.
Proof.
  intros (_ & _ & Eb & Hm & _)%create_made. rewrite Forall_forall in Hm.
  constructor; intros p Hp; [by apply Hm|].
  apply (empty_table _ max); simpl; [done|]. by apply Hm.
Qed.

Lemma destroy_balance s u s' :
  mnthreads s = Z.of_nat (length (pollers s)) → mpoller_destroy s = Done (u, s') →
  ∀ f, balance f (calls (base s')) = (balance f (calls (base s)) - held f (pollers s))%Z.
Proof.
  intros Hn Hr f. unfold mpoller_destroy in Hr.
  apply bnd_done_inv in Hr as (u1 & s1 & Hr & E1). rewrite modify_bnd in E1.
  injection E1 as _ <-. simpl. eapply each_destroy_bal with (f := f) in Hr; [exact Hr|done..].
Qed.

(** *** Which poller a descriptor has *)

(** What the calls never change: the number of pollers. *)
Definition sized (n : Z) (s : mpoller) : Prop :=
  mnthreads s = n ∧ Z.of_nat (length (pollers s)) = n.

Lemma on_poller_sized {A} n i (m : M pstate A) s a s' :
  on_poller i m s = Done (a, s') → sized n s → sized n s'.
Proof.
  intros (p & b & _ & _ & ->)%on_poller_inv [H1 H2]. split; simpl; [done|].
  by rewrite length_insert.
Qed.

Lemma mapi_sized n s s' : mapi s s' → sized n s → sized n s'.
Proof.
  intros Hs Hn.
  destruct Hs as [d t r Hr|f r Hr|d t r Hr|f t r Hr|v c r Hr|l i r Hl Hr|i p r Hr].
  1-4: apply at_index_inv in Hr as [i Hr]; by eapply on_poller_sized.
  - unfold mpoller_add_timer in Hr. rewrite gets_bnd in Hr. apply at_index_inv in Hr as [i Hr].
    rewrite modify_bnd in Hr. apply bnd_done_inv in Hr as ([r1 timer] & s1 & Hr & E1).
    injection E1 as _ <-. by eapply on_poller_sized.
  - by eapply on_poller_sized.
  - by eapply on_poller_sized.
Qed.

Lemma mindex_run n f s :
  sized n s → (0 < n < 2 ^ 31)%Z →
  mindex f s = Done ((u32 f mod n)%Z, s) ∧
  ∃ p, pollers s !! Z.to_nat (u32 f mod n) = Some p.
Proof.
  intros [Hn Hl] Hb. pose proof (Z.mod_pos_bound (u32 f) n ltac:(lia)). split.
  - unfold mindex. rewrite gets_bnd, Hn. replace (n =? 0)%Z with false by lia.
    unfold ret. rewrite i32_small by lia. done.
  - apply lookup_lt_is_Some. lia.
Qed.

(** A count of threads that is a multiple of [2^32] leaves no poller. *)
Lemma create_zero max n s :
  malloc_mpoller = true → calloc_nodes = true → n ≠ 0%Z → u32 n = 0%Z →
  mpoller_create max n s =
    Done (true, set_nodes_buf (replicate (Z.to_nat max) None) (set_mnthreads 0 (set_pollers [] s))).
Proof.
  intros Hm Hc Hn Hz. unfold mpoller_create. rewrite Hm.
  replace (n =? 0)%Z with false by lia. rewrite !modify_bnd, Hz.
  unfold __mpoller_create. rewrite Hc. done.
Qed.
Lemma mindex_zero f s : mnthreads s = 0%Z → mindex f s = UB.
Proof. intros Hn. unfold mindex. by rewrite gets_bnd, Hn. Qed.
End spec.
