(* ===== verification/MsgQueue.v ===== *)
(** msgqueue.cc: the message queue with a list to get from and a list to put to.

    Messages are chained through a word [linkoff] bytes into each of them. The
    pointers of the code are pointers to such words, so the memory here is a map
    from addresses to words. Each operation takes the thread that runs it: the
    mutexes record their owner. *)
From S2P Require Export Prelude.

(** ** Data *)

(** [struct __msgqueue]; the words [head1] and [head2] are in memory, at
    [self + 24] and [self + 32]. *)
Record msgqueue : Type := MQ {
  self : Z;
  msg_max : Z;
  msg_cnt : Z;
  linkoff : Z;
  nonblock : Z;
  get_head : Z;
  put_head : Z;
  put_tail : Z;
}.

Definition head1_at (q : Z) : Z := q + 24.
Definition head2_at (q : Z) : Z := q + 32.

Inductive signal : Type := NotifyOneGet | NotifyAllPut.

(** The memory words, the queue, the owners of its mutexes, and the calls on its
    condition variables so far, latest first. *)
Record mqstate : Type := MQState {
  words : gmap Z Z;
  mq : msgqueue;
  get_mutex : option nat;
  put_mutex : option nat;
  signals : list signal;
}.

Definition set_words (w : gmap Z Z) (s : mqstate) : mqstate :=
  MQState w (mq s) (get_mutex s) (put_mutex s) (signals s).
Definition set_mq (q : msgqueue) (s : mqstate) : mqstate :=
  MQState (words s) q (get_mutex s) (put_mutex s) (signals s).
Definition set_get_mutex (o : option nat) (s : mqstate) : mqstate :=
  MQState (words s) (mq s) o (put_mutex s) (signals s).
Definition set_put_mutex (o : option nat) (s : mqstate) : mqstate :=
  MQState (words s) (mq s) (get_mutex s) o (signals s).
Definition add_signal (g : signal) (s : mqstate) : mqstate :=
  MQState (words s) (mq s) (get_mutex s) (put_mutex s) (g :: signals s).

Definition set_cnt (c : Z) (q : msgqueue) : msgqueue :=
  MQ (self q) (msg_max q) c (linkoff q) (nonblock q) (get_head q) (put_head q) (put_tail q).
Definition set_nonblock_field (b : Z) (q : msgqueue) : msgqueue :=
  MQ (self q) (msg_max q) (msg_cnt q) (linkoff q) b (get_head q) (put_head q) (put_tail q).
Definition set_heads (g p t : Z) (q : msgqueue) : msgqueue :=
  MQ (self q) (msg_max q) (msg_cnt q) (linkoff q) (nonblock q) g p t.
Definition set_tail (t : Z) (q : msgqueue) : msgqueue :=
  set_heads (get_head q) (put_head q) t q.

(** ** Instructions *)

(** [*p] and [*p = v] for a [void **p]. *)
Definition ldw (p : Z) : M mqstate Z := λ s,
  match words s !! p with
  | Some v => if (p =? 0)%Z then UB else Done (v, s)
  | None => UB
  end.
Definition stw (p v : Z) : M mqstate unit := λ s,
  match words s !! p with
  | Some _ => if (p =? 0)%Z then UB else Done (tt, set_words (<[p := v]> (words s)) s)
  | None => UB
  end.
Definition que {A} (f : msgqueue → A) : M mqstate A := gets (λ s, f (mq s)).
Definition que_set (f : msgqueue → msgqueue) : M mqstate unit :=
  modify (λ s, set_mq (f (mq s)) s).
Definition notify (g : signal) : M mqstate unit := modify (add_signal g).

(** std::mutex: to lock, or try to lock, a mutex one owns, and to unlock one that
    one does not own, is undefined behaviour. *)
Section mutex.
Context (get : mqstate → option nat) (set : option nat → mqstate → mqstate) (me : nat).

Definition lock : M mqstate unit := λ s,
  match get s with
  | None => Done (tt, set (Some me) s)
  | Some o => if decide (o = me) then UB else Blocked
  end.
Definition try_lock : M mqstate bool := λ s,
  match get s with
  | None => Done (true, set (Some me) s)
  | Some o => if decide (o = me) then UB else Done (false, s)
  end.
Definition unlock : M mqstate unit := λ s,
  match get s with
  | Some o => if decide (o = me) then Done (tt, set None s) else UB
  | None => UB
  end.
End mutex.
Abbreviation lock_get := (lock get_mutex set_get_mutex) (only parsing).
Abbreviation unlock_get := (unlock get_mutex set_get_mutex) (only parsing).
Abbreviation lock_put := (lock put_mutex set_put_mutex) (only parsing).
Abbreviation unlock_put := (unlock put_mutex set_put_mutex) (only parsing).

(** ** Operations *)

(** [msgqueue_create] on the memory at [self]: NULL when malloc failed. The
    mutexes are whatever the memory holds. *)
Definition msgqueue_create (addr : option Z) (maxlen off : Z) : M mqstate bool :=
  match addr with
  | None => ret false
  | Some q =>
    modify (λ s, set_words (<[head1_at q := 0%Z]> (<[head2_at q := 0%Z]> (words s))) s) ;;;
    que_set (λ _, MQ q maxlen 0 off 0 (head1_at q) (head2_at q) (head2_at q)) ;;;
    ret true
  end.

Definition msgqueue_destroy : M mqstate unit :=
  let* q := que self in
  modify (λ s, set_words (delete (head1_at q) (delete (head2_at q) (words s))) s).

Section operations.
Context (me : nat).

Definition msgqueue_set_nonblock : M mqstate unit :=
  que_set (set_nonblock_field 1) ;;;
  lock_put me ;;;
  notify NotifyOneGet ;;;
  notify NotifyAllPut ;;;
  unlock_put me.

Definition msg_queue_set_block : M mqstate unit := que_set (set_nonblock_field 0).

(** [queue->msg_cnt == queue->msg_max && !queue->nonblock] *)
Definition put_full (q : msgqueue) : bool :=
  (msg_cnt q =? msg_max q)%Z && (nonblock q =? 0)%Z.

(** The part of [msg_queue_put] under the lock. A thread that waits gives up the
    lock and starts over: it is blocked until the condition is false. *)
Definition put_locked (link : Z) : M mqstate unit :=
  lock_put me ;;;
  let* full := que put_full in
  if full : bool then blocked else
  let* tail := que put_tail in
  stw tail link ;;;
  que_set (set_tail link) ;;;
  que_set (λ q, set_cnt (u64 (msg_cnt q + 1)) q) ;;;
  unlock_put me ;;;
  notify NotifyOneGet.

(** The part before the lock: the link word, set to NULL. *)
Definition put_link (msg : Z) : M mqstate Z :=
  let* off := que linkoff in
  let link := (msg + off)%Z in
  stw link 0 ;;;
  ret link.

Definition msg_queue_put (msg : Z) : M mqstate unit :=
  let* link := put_link msg in
  put_locked link.

(** [while ( *queue->get_head)]: whether the function returned inside. *)
Fixpoint put_head_loop (fuel : nat) (link : Z) : M mqstate bool :=
  match fuel with
  | O => nofuel
  | S fuel =>
    let* gh := que get_head in
    let* first := ldw gh in
    if (first =? 0)%Z then ret false else
    let* locked := try_lock get_mutex set_get_mutex me in
    if (b2z locked =? 0)%Z then
      unlock_put me ;;;
      let* gh := que get_head in
      let* first := ldw gh in
      stw link first ;;;
      let* gh := que get_head in
      stw gh link ;;;
      unlock_get me ;;;
      ret true
    else put_head_loop fuel link
  end.

(** [queue->msg_cnt == queue->msg_max && queue->nonblock] *)
Definition put_head_full (q : msgqueue) : bool :=
  (msg_cnt q =? msg_max q)%Z && negb (nonblock q =? 0)%Z.

Definition msgqueue_put_head (fuel : nat) (msg : Z) : M mqstate unit :=
  let* off := que linkoff in
  let link := (msg + off)%Z in
  lock_put me ;;;
  let* returned := put_head_loop fuel link in
  if returned : bool then ret tt else
  let* full := que put_head_full in
  if full : bool then blocked else
  let* ph := que put_head in
  let* first := ldw ph in
  stw link first ;;;
  let* l := ldw link in
  (if (l =? 0)%Z then que_set (set_tail link) else ret tt) ;;;
  let* ph := que put_head in
  stw ph link ;;;
  que_set (λ q, set_cnt (u64 (msg_cnt q + 1)) q) ;;;
  notify NotifyOneGet ;;;
  unlock_put me.

(** [queue->msg_cnt == 0 && !queue->nonblock] *)
Definition swap_empty (q : msgqueue) : bool :=
  (msg_cnt q =? 0)%Z && (nonblock q =? 0)%Z.

Definition __msgqueue_swap : M mqstate Z :=
  let* gh := que get_head in
  lock_put me ;;;
  let* empty := que swap_empty in
  if empty : bool then blocked else
  let* cnt := que msg_cnt in
  let* max := que msg_max in
  (if (u64 (max - 1) <? cnt)%Z then notify NotifyAllPut else ret tt) ;;;
  que_set (λ q, set_heads (put_head q) gh gh q) ;;;
  que_set (set_cnt 0) ;;;
  unlock_put me ;;;
  ret cnt.

(** Take the first message of the list at [get_head]. *)
Definition get_pop : M mqstate Z :=
  let* gh := que get_head in
  let* first := ldw gh in
  let* off := que linkoff in
  let* nx := ldw first in
  stw gh nx ;;;
  ret (first - off)%Z.

(** [*queue->get_head] as a condition. *)
Definition get_first : M mqstate bool :=
  let* gh := que get_head in
  let* first := ldw gh in
  ret (negb (first =? 0)%Z).

(** The part of [msgqueue_get] under the lock. *)
Definition get_locked : M mqstate Z :=
  let* first := get_first in
  let* some := (if first : bool then ret true
                else let* cnt := __msgqueue_swap in ret (0 <? cnt)%Z) in
  if some : bool then get_pop else ret 0%Z.

Definition msgqueue_get : M mqstate Z :=
  lock_get me ;;;
  let* msg := get_locked in
  unlock_get me ;;;
  ret msg.
End operations.
