(* ===== verification/MsgQueueFifo.v ===== *)
(** The message queue refines a FIFO queue, also when its operations interleave. *)
From S2P Require Export MsgQueue.

(** ** Chains of link words *)

(** From the word at [a], the links [ls] follow one another and the last is NULL. *)
Fixpoint chain (h : gmap Z Z) (a : Z) (ls : list Z) : Prop :=
  match ls with
  | [] => h !! a = Some 0%Z
  | l :: ls => h !! a = Some l ∧ chain h l ls
  end.
Definition chain_end (a : Z) (ls : list Z) : Z := default a (last ls).

Lemma chain_end_cons a l ls : chain_end a (l :: ls) = chain_end l ls.
Proof. unfold chain_end. rewrite last_cons. by destruct (last ls). Qed.
Lemma chain_end_app a ls l : chain_end a (ls ++ [l]) = l.
Proof. unfold chain_end. by rewrite last_app. Qed.
Lemma chain_end_in a ls : chain_end a ls ∈ a :: ls.
Proof.
  revert a. induction ls as [|l ls IH]; intros a; [set_solver|].
  rewrite chain_end_cons. set_solver.
Qed.

Lemma chain_frame h h' a ls :
  (∀ x, x ∈ a :: ls → h' !! x = h !! x) → chain h a ls → chain h' a ls.
Proof.
  revert a. induction ls as [|l ls IH]; intros a Hx; simpl.
  - rewrite Hx; set_solver.
  - intros [E Hc]. split; [by rewrite Hx by set_solver|]. apply IH; set_solver.
Qed.

Lemma chain_insert_out h a ls x v : x ∉ a :: ls → chain h a ls → chain (<[x := v]> h) a ls.
Proof.
  intros Hx. apply chain_frame. intros y Hy. apply lookup_insert_ne. set_solver.
Qed.

Lemma chain_snoc h a ls l :
  NoDup (a :: ls) → l ∉ a :: ls → h !! l = Some 0%Z → chain h a ls →
  chain (<[chain_end a ls := l]> h) a (ls ++ [l]).
Proof.
  revert a. induction ls as [|x ls IH]; intros a Hnd Hl Hz; simpl.
  - intros _. unfold chain_end. simpl. rewrite lookup_insert_eq, lookup_insert_ne by set_solver.
    done.
  - intros [E Hc]. apply NoDup_cons in Hnd as [Ha Hnd]. rewrite chain_end_cons. split.
    + rewrite lookup_insert_ne; [done|]. pose proof (chain_end_in x ls). set_solver.
    + apply IH; [done|set_solver|done|done].
Qed.

Lemma chain_end_is h a ls : chain h a ls → h !! chain_end a ls = Some 0%Z.
Proof.
  revert a. induction ls as [|l ls IH]; intros a; simpl; [done|].
  intros [_ Hc]. rewrite chain_end_cons. auto.
Qed.

Lemma chain_head h a ls : chain h a ls → h !! a = Some (default 0%Z (head ls)).
Proof. destruct ls; simpl; naive_solver. Qed.

(** ** The queue as two lists *)

Definition addr_ok (a : Z) : Prop := (0 < a < 2 ^ 64)%Z.

(** [s] holds the messages [gs] to get from and, after them, the messages [ps]
    put since the last swap. *)
Record mq_rep (s : mqstate) (gs ps : list Z) : Prop := {
  rep_get : chain (words s) (get_head (mq s)) gs;
  rep_put : chain (words s) (put_head (mq s)) ps;
  rep_tail : put_tail (mq s) = chain_end (put_head (mq s)) ps;
  rep_cnt : msg_cnt (mq s) = Z.of_nat (length ps);
  rep_nodup : NoDup (get_head (mq s) :: put_head (mq s) :: gs ++ ps);
  rep_addr : Forall addr_ok (get_head (mq s) :: put_head (mq s) :: gs ++ ps);
}.

(** Distinct addresses are fewer than [2^64]. *)
Lemma addr_length ls : NoDup ls → Forall addr_ok ls → (Z.of_nat (length ls) < 2 ^ 64)%Z.
Proof.
  intros Hnd Hok.
  assert (length ls ≤ length (seqZ 1 (2 ^ 64 - 1))) as Hle.
  { apply submseteq_length, NoDup_submseteq; [done|]. intros x Hx. rewrite Forall_forall in Hok.
    apply elem_of_seqZ. specialize (Hok x Hx). unfold addr_ok in Hok. lia. }
  rewrite length_seqZ in Hle. lia.
Qed.

Lemma ldw_bnd {B} p v (k : Z → M mqstate B) s :
  p ≠ 0%Z → words s !! p = Some v → bnd (ldw p) k s = k v s.
Proof.
  intros Hp E. apply bnd_done. unfold ldw. rewrite E. by rewrite (proj2 (Z.eqb_neq _ _) Hp).
Qed.
Lemma stw_bnd {B} p v (k : unit → M mqstate B) s :
  p ≠ 0%Z → is_Some (words s !! p) →
  bnd (stw p v) k s = k tt (set_words (<[p := v]> (words s)) s).
Proof.
  intros Hp [w E]. apply bnd_done. unfold stw. rewrite E. by rewrite (proj2 (Z.eqb_neq _ _) Hp).
Qed.
Lemma lock_put_bnd {B} me (k : unit → M mqstate B) s :
  put_mutex s = None → bnd (lock_put me) k s = k tt (set_put_mutex (Some me) s).
Proof. intros E. apply bnd_done. unfold lock. by rewrite E. Qed.
Lemma unlock_put_bnd {B} me (k : unit → M mqstate B) s :
  put_mutex s = Some me → bnd (unlock_put me) k s = k tt (set_put_mutex None s).
Proof. intros E. apply bnd_done. unfold unlock. by rewrite E, decide_True. Qed.
Lemma lock_get_bnd {B} me (k : unit → M mqstate B) s :
  get_mutex s = None → bnd (lock_get me) k s = k tt (set_get_mutex (Some me) s).
Proof. intros E. apply bnd_done. unfold lock. by rewrite E. Qed.
Lemma unlock_get_bnd {B} me (k : unit → M mqstate B) s :
  get_mutex s = Some me → bnd (unlock_get me) k s = k tt (set_get_mutex None s).
Proof. intros E. apply bnd_done. unfold unlock. by rewrite E, decide_True. Qed.
Lemma que_bnd {A B} (f : msgqueue → A) (k : A → M mqstate B) s : bnd (que f) k s = k (f (mq s)) s.
Proof. done. Qed.
Lemma que_set_bnd {B} f (k : unit → M mqstate B) s :
  bnd (que_set f) k s = k tt (set_mq (f (mq s)) s).
Proof. done. Qed.
Lemma notify_bnd {B} g (k : unit → M mqstate B) s :
  bnd (notify g) k s = k tt (add_signal g s).
Proof. done. Qed.

Ltac qstep :=
  first
    [ rewrite que_bnd | rewrite que_set_bnd | rewrite notify_bnd | rewrite bnd_assoc
    | rewrite ret_bnd
    | rewrite lock_put_bnd by done | rewrite unlock_put_bnd by done
    | rewrite lock_get_bnd by done | rewrite unlock_get_bnd by done ];
  cbn [words mq get_mutex put_mutex signals set_words set_mq set_get_mutex set_put_mutex
       add_signal].
Ltac qsteps := repeat qstep.

(** The two lists and their heads are disjoint. *)
Lemma rep_disjoint s gs ps x :
  mq_rep s gs ps → x ∈ get_head (mq s) :: gs → x ∉ put_head (mq s) :: ps.
Proof.
  intros [_ _ _ _ Hnd _]. apply NoDup_cons in Hnd as [H1 [H2 [_ [H3 _]]%NoDup_app]%NoDup_cons].
  rewrite elem_of_cons, elem_of_app in H1. rewrite elem_of_app in H2. rewrite !elem_of_cons.
  intros [->|Hx] [E|Hy]; subst; naive_solver.
Qed.

Lemma rep_heads_apart s gs ps x :
  mq_rep s gs ps → x ∈ [get_head (mq s); put_head (mq s)] → x ∉ gs ++ ps.
Proof.
  intros [_ _ _ _ Hnd _]. apply NoDup_cons in Hnd as [H1 [H2 _]%NoDup_cons].
  rewrite !elem_of_cons. intros [->|[->|[]%elem_of_nil]]; [|done].
  intros H. apply H1. by right.
Qed.

Lemma rep_link_ok s gs ps x :
  mq_rep s gs ps → x ∈ get_head (mq s) :: put_head (mq s) :: gs ++ ps → x ≠ 0%Z.
Proof. intros [_ _ _ _ _ H] Hx. rewrite Forall_forall in H. specialize (H x Hx). unfold addr_ok in H. lia. Qed.

(** The side conditions of a load or store at a link of the queue. *)
Ltac link_ok :=
  first [ done | eassumption | by eexists | by eapply chain_head; eauto using rep_get, rep_put
        | eapply rep_link_ok; [eassumption|set_solver] ].

(** ** Putting *)

(** The state after [link] was chained at the end of the list to put to. *)
Definition put_result (link : Z) (s : mqstate) : mqstate :=
  MQState (<[put_tail (mq s) := link]> (words s))
    (set_cnt (msg_cnt (mq s) + 1) (set_tail link (mq s)))
    (get_mutex s) None (NotifyOneGet :: signals s).

(** A link word that is not in the queue. *)
Definition fresh_link (s : mqstate) (gs ps : list Z) (l : Z) : Prop :=
  (l ∉ get_head (mq s) :: put_head (mq s) :: gs ++ ps) ∧ addr_ok l ∧ words s !! l = Some 0%Z.

Lemma put_locked_run me s gs ps link :
  mq_rep s gs ps → fresh_link s gs ps link → put_mutex s = None → put_full (mq s) = false →
  put_locked me link s = Done (tt, put_result link s) ∧
  mq_rep (put_result link s) gs (ps ++ [link]).
Proof.
  intros Hr (Hl & Ha & Hz) Hm Hf. pose proof Hr as [Hg Hp Ht Hc Hnd Hok].
  pose proof (chain_end_in (put_head (mq s)) ps) as Hin. rewrite <- Ht in Hin.
  assert (put_tail (mq s) ≠ 0%Z) as Hne by (eapply rep_link_ok; [done|set_solver]).
  pose proof (chain_end_is _ _ _ Hp) as Hend. rewrite <- Ht in Hend.
  assert (Z.of_nat (length (link :: gs ++ ps)) < 2 ^ 64)%Z as Hlen.
  { apply addr_length; [|by constructor; repeat apply Forall_cons in Hok as [_ Hok]].
    constructor; [set_solver|]. by do 2 apply NoDup_cons in Hnd as [_ Hnd]. }
  simpl in Hlen. rewrite length_app in Hlen. split.
  - unfold put_locked. qsteps. rewrite Hf. qsteps. rewrite stw_bnd by (simpl; eauto). qsteps.
    unfold notify, modify, put_result, set_tail, set_heads, set_cnt. simpl.
    by rewrite u64_small by lia.
  - constructor; simpl.
    + apply chain_insert_out; [|done]. intros E. by apply (rep_disjoint s gs ps _ Hr E).
    + rewrite Ht. apply chain_snoc; [|set_solver|done..].
      apply NoDup_cons in Hnd as [_ [? [_ [_ ?]]%NoDup_app]%NoDup_cons].
      constructor; set_solver.
    + by rewrite chain_end_app.
    + rewrite Hc, length_app. simpl. lia.
    + rewrite (assoc_L (++)). apply NoDup_cons in Hnd as [? [? Hnd]%NoDup_cons].
      do 2 (constructor; [set_solver|]). apply NoDup_app. split; [done|].
      split; [set_solver|apply NoDup_singleton].
    + rewrite (assoc_L (++)). repeat apply Forall_cons in Hok as [? Hok].
      do 2 (constructor; [done|]). apply Forall_app. split; [done|by apply Forall_singleton].
Qed.

(** ** Getting *)

(** The state after the two lists were swapped. *)
Definition swap_result (s : mqstate) : mqstate :=
  MQState (words s)
    (set_cnt 0 (set_heads (put_head (mq s)) (get_head (mq s)) (get_head (mq s)) (mq s)))
    (get_mutex s) None
    (if (u64 (msg_max (mq s) - 1) <? msg_cnt (mq s))%Z then NotifyAllPut :: signals s
     else signals s).

Lemma swap_run me s ps :
  mq_rep s [] ps → put_mutex s = None → swap_empty (mq s) = false →
  __msgqueue_swap me s = Done (Z.of_nat (length ps), swap_result s) ∧
  mq_rep (swap_result s) ps [].
Proof.
  intros [Hg Hp Ht Hc Hnd Hok] Hm Hf. split.
  - unfold __msgqueue_swap. qsteps. rewrite Hf. qsteps. rewrite Hc.
    unfold swap_result. rewrite Hc. by destruct (_ <? _)%Z; qsteps.
  - constructor; simpl; [done|done|done|done| |].
    + rewrite app_nil_r. apply NoDup_cons in Hnd as [H1 [H2 H3]%NoDup_cons].
      simpl in *. constructor; [|constructor]; set_solver.
    + rewrite app_nil_r. apply Forall_cons in Hok as [? [? ?]%Forall_cons].
      by do 2 (constructor; [done|]).
Qed.

(** The state after the first message [g], followed by [nx], was taken. *)
Definition pop_result (nx : Z) (s : mqstate) : mqstate :=
  set_words (<[get_head (mq s) := nx]> (words s)) s.

Lemma pop_run s g gs ps :
  mq_rep s (g :: gs) ps →
  let s' := pop_result (default 0%Z (head gs)) s in
  get_pop s = Done ((g - linkoff (mq s))%Z, s') ∧ mq_rep s' gs ps.
Proof.
  intros Hr. pose proof Hr as [[Eg Hg] Hp Ht Hc Hnd Hok]. split.
  - unfold get_pop. qsteps.
    rewrite (ldw_bnd _ g) by link_ok. qsteps.
    rewrite (ldw_bnd _ (default 0%Z (head gs)))
      by link_ok.
    rewrite stw_bnd by link_ok. done.
  - apply NoDup_cons in Hnd as [H1 [H2 H3]%NoDup_cons]. simpl in H3.
    apply NoDup_cons in H3 as [H3 H4]. simpl in H1.
    constructor; simpl; [| |done|done| |].
    + destruct gs as [|g' gs]; simpl in Hg |- *; [by rewrite lookup_insert_eq|].
      destruct Hg as [E Hg]. rewrite lookup_insert_eq. split; [done|].
      apply chain_insert_out; [|done]. set_solver.
    + apply chain_insert_out; [|done]. set_solver.
    + constructor; [set_solver|]. constructor; [|done]. set_solver.
    + apply Forall_cons in Hok as [? [? [_ ?]%Forall_cons]%Forall_cons].
      by do 2 (constructor; [done|]).
Qed.

Lemma get_first_run s gs ps :
  mq_rep s gs ps → get_first s = Done (bool_decide (gs ≠ []), s).
Proof.
  intros Hr. unfold get_first. qsteps.
  rewrite (ldw_bnd _ (default 0%Z (head gs)))
    by link_ok.
  unfold ret. do 2 f_equal. destruct gs as [|g gs]; simpl; [done|].
  rewrite (proj2 (Z.eqb_neq g 0)); [done|]. eapply rep_link_ok; [done|set_solver].
Qed.

(** What [msgqueue_get] returns, and the lists it leaves: the first message in
    order, or NULL when there is none and the queue does not block. *)
Definition got (off : Z) (ls : list Z) : Z :=
  match ls with l :: _ => (l - off)%Z | [] => 0%Z end.

Lemma get_locked_run me s gs ps :
  mq_rep s gs ps → put_mutex s = None →
  (gs ++ ps = [] → nonblock (mq s) ≠ 0%Z) →
  ∃ s' gs' ps', get_locked me s = Done (got (linkoff (mq s)) (gs ++ ps), s') ∧
    mq_rep s' gs' ps' ∧ gs' ++ ps' = tail (gs ++ ps) ∧
    put_mutex s' = None ∧ get_mutex s' = get_mutex s ∧
    linkoff (mq s') = linkoff (mq s) ∧ nonblock (mq s') = nonblock (mq s) ∧
    (∀ x, x ∈ [get_head (mq s'); put_head (mq s')] → x ∈ [get_head (mq s); put_head (mq s)]).
Proof.
  intros Hr Hm Hb. unfold get_locked. rewrite (bnd_done _ _ _ _ _ (get_first_run _ _ _ Hr)).
  destruct gs as [|g gs]; simpl.
  - qsteps. destruct (swap_run me s ps Hr Hm) as [E Hr'].
    { unfold swap_empty. rewrite (rep_cnt _ _ _ Hr). destruct ps; simpl; [|done].
      by apply Z.eqb_neq, Hb. }
    rewrite (bnd_done _ _ _ _ _ E). qsteps. destruct ps as [|p ps]; simpl.
    + eexists _, [], []. split_and!; try done. simpl. set_solver.
    + destruct (pop_run _ _ _ _ Hr') as [E2 Hr2]. rewrite E2. simpl.
      eexists _, ps, []. rewrite app_nil_r. split_and!; try done. simpl. set_solver.
  - qsteps. destruct (pop_run _ _ _ _ Hr) as [E2 Hr2]. rewrite E2. by eexists _, gs, ps.
Qed.

Lemma get_run me s gs ps :
  mq_rep s gs ps → put_mutex s = None → get_mutex s = None →
  (gs ++ ps = [] → nonblock (mq s) ≠ 0%Z) →
  ∃ s' gs' ps', msgqueue_get me s = Done (got (linkoff (mq s)) (gs ++ ps), s') ∧
    mq_rep s' gs' ps' ∧ gs' ++ ps' = tail (gs ++ ps) ∧
    put_mutex s' = None ∧ get_mutex s' = None ∧
    linkoff (mq s') = linkoff (mq s) ∧ nonblock (mq s') = nonblock (mq s) ∧
    (∀ x, x ∈ [get_head (mq s'); put_head (mq s')] → x ∈ [get_head (mq s); put_head (mq s)]).
Proof.
  intros Hr Hp Hg Hb. unfold msgqueue_get. qsteps.
  destruct (get_locked_run me (set_get_mutex (Some me) s) gs ps)
    as (s' & gs' & ps' & E & Hr' & Ht & H1 & H2 & H3 & H4 & H5);
    [by destruct Hr; constructor|done|done|].
  rewrite (bnd_done _ _ _ _ _ E), unlock_get_bnd by done.
  eexists _, gs', ps'. split; [done|]. split; [by destruct Hr'; constructor|]. done.
Qed.

(** An empty queue that blocks makes the consumer wait. *)
Lemma get_blocks me s :
  mq_rep s [] [] → put_mutex s = None → get_mutex s = None → nonblock (mq s) = 0%Z →
  msgqueue_get me s = Blocked.
Proof.
  intros Hr Hp Hg Hb. unfold msgqueue_get. qsteps. unfold get_locked.
  assert (mq_rep (set_get_mutex (Some me) s) [] []) as Hr' by by destruct Hr; constructor.
  rewrite bnd_assoc, (bnd_done _ _ _ _ _ (get_first_run _ _ _ Hr')). simpl. qsteps.
  unfold __msgqueue_swap. qsteps. unfold swap_empty. by rewrite (rep_cnt _ _ _ Hr), Hb.
Qed.

(** Putting on a queue that is full, or of capacity 0 and empty, waits. *)
Lemma put_blocks me s gs ps link :
  mq_rep s gs ps → put_mutex s = None →
  msg_max (mq s) = Z.of_nat (length ps) → nonblock (mq s) = 0%Z →
  put_locked me link s = Blocked.
Proof.
  intros Hr Hp Hmax Hb. unfold put_locked. qsteps. unfold put_full.
  by rewrite (rep_cnt _ _ _ Hr), Hmax, Hb, Z.eqb_refl.
Qed.

(** ** Putting at the front, creating, switching the mode *)

(** The state after [link] was put in front of the list to put to. *)
Definition put_head_result (link : Z) (ps : list Z) (s : mqstate) : mqstate :=
  MQState (<[put_head (mq s) := link]> (<[link := default 0%Z (head ps)]> (words s)))
    (set_cnt (msg_cnt (mq s) + 1)
       (match ps with [] => set_tail link (mq s) | _ => mq s end))
    (get_mutex s) None (NotifyOneGet :: signals s).

Lemma put_head_run me fuel s ps msg :
  mq_rep s [] ps → put_mutex s = None → put_head_full (mq s) = false →
  let link := (msg + linkoff (mq s))%Z in
  link ∉ get_head (mq s) :: put_head (mq s) :: ps → addr_ok link → is_Some (words s !! link) →
  msgqueue_put_head me (S fuel) msg s = Done (tt, put_head_result link ps s) ∧
  mq_rep (put_head_result link ps s) [] (link :: ps).
Proof.
  intros Hr Hm Hf link Hl Ha Hz. pose proof Hr as [Hg Hp Ht Hc Hnd Hok].
  apply not_elem_of_cons in Hl as [Hl1 [Hl2 Hl3]%not_elem_of_cons].
  assert (Z.of_nat (length (link :: ps)) < 2 ^ 64)%Z as Hlen.
  { apply Forall_cons in Hok as [_ [_ Hok]%Forall_cons].
    apply NoDup_cons in Hnd as [_ [_ Hnd]%NoDup_cons].
    apply addr_length; by constructor. }
  assert (link ≠ 0%Z) as Hne by (unfold addr_ok in Ha; lia).
  split.
  - unfold msgqueue_put_head. qsteps. fold link. cbn [put_head_loop]. qsteps.
    rewrite (ldw_bnd _ 0) by link_ok. simpl. qsteps. rewrite Hf. qsteps.
    rewrite (ldw_bnd _ (default 0%Z (head ps))) by link_ok.
    rewrite stw_bnd by done. cbn [words set_words].
    rewrite (ldw_bnd _ (default 0%Z (head ps)))
      by first [done|simpl; by rewrite lookup_insert_eq].
    assert (is_Some (<[link:=default 0%Z (head ps)]> (words s) !! put_head (mq s))) as Hw.
    { rewrite lookup_insert_ne by done. by eexists; apply chain_head. }
    assert (put_head (mq s) ≠ 0%Z) as Hp0 by link_ok.
    simpl in Hlen. destruct ps as [|p ps]; simpl.
    + qsteps. rewrite stw_bnd by done. qsteps. unfold unlock, put_head_result. simpl.
      rewrite decide_True by done. by rewrite u64_small by (rewrite Hc; simpl; lia).
    + rewrite (proj2 (Z.eqb_neq p 0)) by link_ok. qsteps. rewrite stw_bnd by done. qsteps.
      unfold unlock, put_head_result. simpl. rewrite decide_True by done.
      by rewrite u64_small by (rewrite Hc; simpl in *; lia).
  - clearbody link. apply NoDup_cons in Hnd as [H1 H2]. constructor.
    + assert (put_head (mq s) ≠ get_head (mq s)) as Hpg.
      { intros E. apply H1. rewrite E. by left. }
      destruct ps; simpl; rewrite !lookup_insert_ne by done; done.
    + destruct ps as [|p ps]; simpl; rewrite lookup_insert_eq; (split; [done|]).
      * by rewrite lookup_insert_ne, lookup_insert_eq by done.
      * rewrite lookup_insert_ne, lookup_insert_eq by done. split; [done|].
        destruct Hp as [_ Hp]. apply NoDup_cons in H2 as [H2 _].
        do 2 (apply chain_insert_out; [set_solver|]). done.
    + destruct ps as [|p ps]; simpl; [done|]. rewrite Ht. by rewrite !chain_end_cons.
    + destruct ps; simpl; rewrite Hc; simpl; lia.
    + assert (get_head (mq (put_head_result link ps s)) = get_head (mq s)) as -> by by destruct ps.
      assert (put_head (mq (put_head_result link ps s)) = put_head (mq s)) as -> by by destruct ps.
      apply NoDup_cons in H2 as [H2 H3]. simpl in *.
      repeat (constructor; [set_solver|]). done.
    + assert (get_head (mq (put_head_result link ps s)) = get_head (mq s)) as -> by by destruct ps.
      assert (put_head (mq (put_head_result link ps s)) = put_head (mq s)) as -> by by destruct ps.
      apply Forall_cons in Hok as [? [? ?]%Forall_cons]. simpl in *.
      by do 3 (constructor; [done|]).
Qed.

(** A full queue that does not block makes [msgqueue_put_head] wait. *)
Lemma put_head_waits me fuel s ps msg :
  mq_rep s [] ps → put_mutex s = None → put_head_full (mq s) = true →
  msgqueue_put_head me (S fuel) msg s = Blocked.
Proof.
  intros Hr Hm Hf. unfold msgqueue_put_head. qsteps. cbn [put_head_loop]. qsteps.
  rewrite (ldw_bnd _ 0) by first [link_ok|by destruct Hr]. simpl. qsteps. by rewrite Hf.
Qed.

(** With messages in the list to get from, [msgqueue_put_head] is undefined
    behaviour whoever holds the lock of that list. *)
Lemma put_head_ub me fuel s g gs ps msg :
  mq_rep s (g :: gs) ps → put_mutex s = None →
  let link := (msg + linkoff (mq s))%Z in
  link ∉ get_head (mq s) :: put_head (mq s) :: (g :: gs) ++ ps →
  msgqueue_put_head me (S (S fuel)) msg s = UB.
Proof.
  intros Hr Hm link Hl. unfold msgqueue_put_head. qsteps. fold link.
  assert (words s !! get_head (mq s) = Some g) as Eg by apply Hr.
  assert (g ≠ 0%Z) as Hg by link_ok.
  assert (get_head (mq s) ≠ 0%Z) as Hh by link_ok.
  assert (∀ k (B : Type) (kk : bool → M mqstate B) o,
    bnd (put_head_loop me (S k) link) kk
        (MQState (words s) (mq s) (Some me) o (signals s)) = UB) as Hown.
  { intros k B kk o. cbn [put_head_loop]. rewrite bnd_assoc. qsteps.
    rewrite (ldw_bnd _ g) by done. rewrite (proj2 (Z.eqb_neq g 0)) by done.
    unfold bnd at 1. unfold bnd at 1. unfold try_lock. simpl. by rewrite decide_True. }
  destruct (get_mutex s) as [o|] eqn:Eo.
  - destruct (decide (o = me)) as [->|Ho].
    { unfold set_put_mutex. rewrite Eo. apply Hown. }
    cbn [put_head_loop]. qsteps. rewrite (ldw_bnd _ g) by done.
    rewrite (proj2 (Z.eqb_neq g 0)) by done. qsteps.
    erewrite bnd_done; cycle 1.
    { unfold try_lock. simpl. rewrite Eo. by rewrite decide_False. }
    simpl. qsteps. rewrite (ldw_bnd _ g) by done. qsteps.
    unfold bnd at 1. unfold stw at 1.
    cbn [words set_put_mutex]. destruct (words s !! link); [|done]. destruct (link =? 0)%Z; [done|].
    qsteps. rewrite stw_bnd; [|done|].
    + unfold bnd at 1. unfold bnd at 1. unfold unlock. simpl. rewrite Eo. by rewrite decide_False.
    + simpl. rewrite lookup_insert_ne by set_solver. by eexists.
  - cbn [put_head_loop]. qsteps. rewrite (ldw_bnd _ g) by done.
    rewrite (proj2 (Z.eqb_neq g 0)) by done. qsteps.
    erewrite bnd_done; cycle 1. { unfold try_lock. simpl. by rewrite Eo. }
    cbn [b2z]. change (1 =? 0)%Z with false. cbv iota. apply Hown.
Qed.

(** A new queue is empty. *)
Lemma create_run q max off s :
  addr_ok (head1_at q) → addr_ok (head2_at q) → get_mutex s = None → put_mutex s = None →
  ∃ s', msgqueue_create (Some q) max off s = Done (true, s') ∧ mq_rep s' [] [] ∧
    mq s' = MQ q max 0 off 0 (head1_at q) (head2_at q) (head2_at q) ∧
    get_mutex s' = None ∧ put_mutex s' = None ∧
    (∀ x, x ∉ [head1_at q; head2_at q] → words s' !! x = words s !! x).
Proof.
  intros H1 H2 Hg Hp. eexists. split; [done|].
  assert (head1_at q ≠ head2_at q) as Hne by (unfold head1_at, head2_at; lia). split.
  - constructor; simpl; [by rewrite lookup_insert_eq| |done|done| |].
    + by rewrite lookup_insert_ne, lookup_insert_eq.
    + constructor; [|constructor; [|constructor]]; set_solver.
    + by do 2 (constructor; [done|]).
  - split; [done|]. split; [done|]. split; [done|]. intros x Hx. simpl.
    rewrite !lookup_insert_ne by set_solver. done.
Qed.

Lemma set_nonblock_run me s :
  put_mutex s = None →
  msgqueue_set_nonblock me s =
    Done (tt, MQState (words s) (set_nonblock_field 1 (mq s)) (get_mutex s) None
                (NotifyAllPut :: NotifyOneGet :: signals s)).
Proof.
  intros Hm. unfold msgqueue_set_nonblock. qsteps. unfold unlock. simpl. by rewrite decide_True.
Qed.

Lemma set_nonblock_rep s gs ps b m l :
  mq_rep s gs ps → mq_rep (MQState (words s) (set_nonblock_field b (mq s)) (get_mutex s) m l) gs ps.
Proof. by intros []; constructor. Qed.

(** ** The abstract queue *)

(** The queue holds the messages whose links are [ls], first to be got first, and no
    thread is inside. *)
Definition holding (s : mqstate) (ls : list Z) : Prop :=
  get_mutex s = None ∧ put_mutex s = None ∧ ∃ gs ps, mq_rep s gs ps ∧ ls = gs ++ ps.

(** A message that can be put: its link is memory that the queue does not use. *)
Definition puttable (s : mqstate) (ls : list Z) (l : Z) : Prop :=
  (l ∉ get_head (mq s) :: put_head (mq s) :: ls) ∧ addr_ok l ∧ is_Some (words s !! l).

Lemma put_link_run me s ls msg :
  holding s ls → puttable s ls (msg + linkoff (mq s)) →
  let link := (msg + linkoff (mq s))%Z in
  msg_queue_put me msg s = put_locked me link (set_words (<[link := 0%Z]> (words s)) s) ∧
  holding (set_words (<[link := 0%Z]> (words s)) s) ls.
Proof.
  intros (Hg & Hp & gs & ps & Hr & ->) (Hl & Ha & Hw) link. fold link in Hl, Ha, Hw. split.
  - unfold msg_queue_put, put_link. rewrite bnd_assoc, que_bnd. fold link.
    rewrite bnd_assoc, stw_bnd; [done|unfold addr_ok in Ha; lia|done].
  - split_and!; [done|done|]. exists gs, ps. split; [|done].
    clearbody link. destruct Hr. constructor; simpl; try done; apply chain_insert_out; set_solver.
Qed.

Lemma put_run me s ls msg :
  holding s ls → puttable s ls (msg + linkoff (mq s)) →
  if put_full (mq s) then msg_queue_put me msg s = Blocked
  else ∃ s', msg_queue_put me msg s = Done (tt, s') ∧
    holding s' (ls ++ [(msg + linkoff (mq s))%Z]).
Proof.
  intros Hh Hpt. destruct (put_link_run me s ls msg Hh Hpt) as [-> (Hg & Hp & gs & ps & Hr & ->)].
  destruct Hpt as (Hl & Ha & _). set (link := (msg + linkoff (mq s))%Z) in *. clearbody link.
  destruct (put_full (mq s)) eqn:Hf.
  - unfold put_locked. qsteps. simpl. by rewrite Hf.
  - destruct (put_locked_run me _ gs ps link Hr) as [E Hr'].
    { split_and!; [done|done|]. simpl. by rewrite lookup_insert_eq. }
    { done. }
    { done. }
    eexists. split; [exact E|]. split_and!; [done|done|]. exists gs, (ps ++ [link]).
    split; [done|]. by rewrite app_assoc.
Qed.

Lemma get_holding me s ls :
  holding s ls → (ls = [] → nonblock (mq s) ≠ 0%Z) →
  ∃ s', msgqueue_get me s = Done (got (linkoff (mq s)) ls, s') ∧ holding s' (tail ls).
Proof.
  intros (Hg & Hp & gs & ps & Hr & ->) Hb.
  destruct (get_run me s gs ps Hr Hp Hg Hb) as (s' & gs' & ps' & E & Hr' & Ht & H1 & H2 & _).
  exists s'. split; [done|]. split_and!; [done|done|]. by exists gs', ps'.
Qed.

Lemma get_empty_blocks me s :
  holding s [] → nonblock (mq s) = 0%Z → msgqueue_get me s = Blocked.
Proof.
  intros (Hg & Hp & gs & ps & Hr & E) Hb. symmetry in E. apply app_eq_nil in E as [-> ->].
  by apply get_blocks.
Qed.
