(* ===== verification/MsgQueueSteps.v ===== *)
(** The message queue under threads that interleave: each critical section, and
    each access outside of one, is a step. *)
From S2P Require Export MsgQueueFifo.

(** What a thread is in the middle of: putting the message with this link word
    (before the critical section), getting (it holds the get mutex), or getting
    after a swap that found messages. *)
Inductive pc : Type := Putting (link : Z) | Getting | Popping.

(** What a completed operation did, by the link of its message. *)
Inductive qop : Type := OPut (l : Z) | OHead (l : Z) | OGet (l : Z).
#[export] Instance qop_eq_dec : EqDecision qop.
Proof. solve_decision. Defined.

(** The reference: a sequence. Putting appends, [msgqueue_put_head] puts first, a
    message is got from the front. [None] when an operation got another message. *)
Definition op_step (o : qop) (ls : list Z) : option (list Z) :=
  match o, ls with
  | OPut l, _ => Some (ls ++ [l])
  | OHead l, _ => Some (l :: ls)
  | OGet l, x :: ls => if decide (x = l) then Some ls else None
  | OGet _, [] => None
  end.
Fixpoint replay (ls : list Z) (ops : list qop) : option (list Z) :=
  match ops with
  | [] => Some ls
  | o :: ops => op_step o ls ≫= λ ls, replay ls ops
  end.

Definition is_head (o : qop) : bool := match o with OHead _ => true | _ => false end.
(** The links put, and those got, in order. *)
Definition puts (ops : list qop) : list Z :=
  omap (λ o, match o with OPut l | OHead l => Some l | OGet _ => None end) ops.
Definition gots (ops : list qop) : list Z :=
  omap (λ o, match o with OGet l => Some l | _ => None end) ops.

(** The queue, the threads that are not idle, and the operations completed so far. *)
Record qsys : Type := QSys {
  qs : mqstate;
  threads : gmap nat pc;
  history : list qop;
}.

(** The caller's obligation: a message that is put is not in the queue, nor being
    put by another thread. *)
Definition unused (c : qsys) (l : Z) : Prop :=
  addr_ok l ∧ is_Some (words (qs c) !! l) ∧
  (l ∉ [head1_at (self (mq (qs c))); head2_at (self (mq (qs c)))]) ∧
  (l ∉ default [] (replay [] (history c))) ∧ ∀ t, threads c !! t ≠ Some (Putting l).

Definition pop_unlock (t : nat) : M mqstate Z :=
  let* msg := get_pop in
  unlock_get t ;;;
  ret msg.
Definition swap_null (t : nat) : M mqstate Z :=
  let* cnt := __msgqueue_swap t in
  unlock_get t ;;;
  ret cnt.

(** [msgqueue_put_head] reads and writes under the put mutex only, so it is one step;
    its loop never runs a third time. *)
Inductive qcore (c : qsys) : qsys → Prop :=
| StepLink t msg link s :
    threads c !! t = None → unused c (msg + linkoff (mq (qs c))) →
    put_link msg (qs c) = Done (link, s) →
    qcore c (QSys s (<[t := Putting link]> (threads c)) (history c))
| StepPut t link s :
    threads c !! t = Some (Putting link) → put_locked t link (qs c) = Done (tt, s) →
    qcore c (QSys s (delete t (threads c)) (history c ++ [OPut link]))
| StepHead t msg s :
    threads c !! t = None → unused c (msg + linkoff (mq (qs c))) →
    msgqueue_put_head t 2 msg (qs c) = Done (tt, s) →
    qcore c (QSys s (threads c) (history c ++ [OHead (msg + linkoff (mq (qs c)))]))
| StepLock t s :
    threads c !! t = None → lock_get t (qs c) = Done (tt, s) →
    qcore c (QSys s (<[t := Getting]> (threads c)) (history c))
| StepFirst t msg s :
    threads c !! t = Some Getting → get_first (qs c) = Done (true, qs c) →
    pop_unlock t (qs c) = Done (msg, s) →
    qcore c (QSys s (delete t (threads c)) (history c ++ [OGet (msg + linkoff (mq s))]))
| StepSwap t cnt s :
    threads c !! t = Some Getting → get_first (qs c) = Done (false, qs c) →
    __msgqueue_swap t (qs c) = Done (cnt, s) → (0 < cnt)%Z →
    qcore c (QSys s (<[t := Popping]> (threads c)) (history c))
| StepNull t cnt s :
    threads c !! t = Some Getting → get_first (qs c) = Done (false, qs c) →
    swap_null t (qs c) = Done (cnt, s) → (cnt ≤ 0)%Z →
    qcore c (QSys s (delete t (threads c)) (history c))
| StepPop t msg s :
    threads c !! t = Some Popping → pop_unlock t (qs c) = Done (msg, s) →
    qcore c (QSys s (delete t (threads c)) (history c ++ [OGet (msg + linkoff (mq s))])).

(** The steps with those that switch the mode of the queue. *)
Inductive qstep (c : qsys) : qsys → Prop :=
| StepCore c' : qcore c c' → qstep c c'
| StepNonblock t s :
    threads c !! t = None → msgqueue_set_nonblock t (qs c) = Done (tt, s) →
    qstep c (QSys s (threads c) (history c))
| StepBlock s :
    msg_queue_set_block (qs c) = Done (tt, s) →
    qstep c (QSys s (threads c) (history c)).

(** [c] is a new queue no thread has used. *)
Definition qinit (q max off : Z) (c : qsys) : Prop :=
  ∃ s, addr_ok (head1_at q) ∧ addr_ok (head2_at q) ∧ get_mutex s = None ∧ put_mutex s = None ∧
    msgqueue_create (Some q) max off s = Done (true, qs c) ∧
    threads c = ∅ ∧ history c = [].

(** ** The invariant *)

Definition holds (c : qsys) (t : nat) : Prop :=
  threads c !! t = Some Getting ∨ threads c !! t = Some Popping.

Record qinv (c : qsys) (gs ps : list Z) : Prop := {
  inv_rep : mq_rep (qs c) gs ps;
  inv_hist : replay [] (history c) = Some (gs ++ ps);
  inv_put : put_mutex (qs c) = None;
  inv_get t : holds c t ↔ get_mutex (qs c) = Some t;
  inv_heads : get_head (mq (qs c)) ∈ [head1_at (self (mq (qs c))); head2_at (self (mq (qs c)))] ∧
              put_head (mq (qs c)) ∈ [head1_at (self (mq (qs c))); head2_at (self (mq (qs c)))];
  inv_links t l : threads c !! t = Some (Putting l) → fresh_link (qs c) gs ps l;
  inv_apart t t' l : threads c !! t = Some (Putting l) → threads c !! t' = Some (Putting l) → t = t';
  inv_popping t : threads c !! t = Some Popping → gs ≠ [];
}.

Lemma qinit_inv q max off c : qinit q max off c → qinv c [] [].
Proof.
  intros (s & H1 & H2 & Hg & Hp & E & Et & E1).
  destruct (create_run q max off s) as (s' & E' & Hr & Hq & Hg' & Hp' & _); [done..|].
  rewrite E' in E. injection E as E.
  constructor; rewrite ?E1, <- ?E, ?Hq; try done; simpl.
  - intros t. unfold holds. rewrite Et, lookup_empty, Hg'. split; [by intros []|done].
  - set_solver.
  - by rewrite Et.
  - by rewrite Et.
  - by rewrite Et.
Qed.

(** *** The history *)

Lemma replay_permutation ops : ∀ ls0 ls,
  replay ls0 ops = Some ls → ls0 ++ puts ops ≡ₚ gots ops ++ ls.
Proof.
  induction ops as [|[l|l|l] ops IH]; intros ls0 ls; simpl.
  - intros [= ->]. by rewrite app_nil_r.
  - intros <-%IH. by rewrite <- (assoc_L (++)).
  - intros <-%IH. by rewrite <- Permutation_middle.
  - destruct ls0 as [|x ls0]; [done|]. destruct (decide (x = l)) as [->|]; [|done]. simpl.
    by intros ->%IH.
Qed.

Lemma replay_fifo ops : ∀ ls0 ls,
  replay ls0 ops = Some ls → Forall (λ o, is_head o = false) ops →
  ls0 ++ puts ops = gots ops ++ ls.
Proof.
  induction ops as [|[l|l|l] ops IH]; intros ls0 ls; simpl; rewrite ?Forall_cons.
  - intros [= ->] _. by rewrite app_nil_r.
  - intros E [_ H]. by rewrite <- (IH _ _ E H), <- (assoc_L (++)).
  - by intros _ [? _].
  - destruct ls0 as [|x ls0]; [done|]. destruct (decide (x = l)) as [->|]; [|done]. simpl.
    intros E [_ H]. by rewrite (IH _ _ E H).
Qed.

(** The threads that put keep their links when others work. *)
Lemma fresh_keep s s' gs ps gs' ps' l :
  fresh_link s gs ps l → words s' !! l = words s !! l →
  (l ∈ get_head (mq s') :: put_head (mq s') :: gs' ++ ps' →
   l ∈ get_head (mq s) :: put_head (mq s) :: gs ++ ps) →
  fresh_link s' gs' ps' l.
Proof.
  intros (H1 & H2 & H3) Hw Hi. split; [by intros ?%Hi|]. split; [done|by rewrite Hw].
Qed.

Lemma holds_insert_other c t p s h u :
  u ≠ t → holds (QSys s (<[t := p]> (threads c)) h) u ↔ holds c u.
Proof. intros. unfold holds. simpl. by rewrite lookup_insert_ne by done. Qed.
Lemma holds_delete_other c t s h u :
  u ≠ t → holds (QSys s (delete t (threads c)) h) u ↔ holds c u.
Proof. intros. unfold holds. simpl. by rewrite lookup_delete_ne by done. Qed.

(** The queue keeps its shape when only its mutexes and signals change. *)
Lemma rep_mutex s gs ps g m l :
  mq_rep s gs ps → mq_rep (MQState (words s) (mq s) g m l) gs ps.
Proof. by intros []; constructor. Qed.

(** An unused link is not in the queue. *)
Lemma unused_free c gs ps l :
  qinv c gs ps → unused c l → l ∉ get_head (mq (qs c)) :: put_head (mq (qs c)) :: gs ++ ps.
Proof.
  intros [_ Hh _ _ [Hd1 Hd2] _ _ _] (_ & _ & U3 & U4 & _). rewrite Hh in U4. simpl in U4.
  rewrite !elem_of_cons. intros [->|[->|?]]; done.
Qed.

(** One operation more. *)
Lemma replay_snoc ls ops o ls1 ls2 :
  replay ls ops = Some ls1 → op_step o ls1 = Some ls2 → replay ls (ops ++ [o]) = Some ls2.
Proof.
  revert ls. induction ops as [|x ops IH]; intros ls; simpl.
  - intros [= ->] ->. done.
  - destruct (op_step x ls) as [l|]; [|done]. apply IH.
Qed.

Lemma step_link c gs ps t msg link s :
  qinv c gs ps → threads c !! t = None → unused c (msg + linkoff (mq (qs c))) →
  put_link msg (qs c) = Done (link, s) →
  qinv (QSys s (<[t := Putting link]> (threads c)) (history c)) gs ps.
Proof.
  intros [Hr Hh Hp Hg [Hd1 Hd2] Hl Ha Hpop] Ht (U1 & U2 & U3 & U4 & U5) E.
  assert (msg + linkoff (mq (qs c)) ∉ get_head (mq (qs c)) :: put_head (mq (qs c)) :: gs ++ ps)%Z
    as Hfree.
  { by eapply unused_free; [constructor|]. }
  set (l := (msg + linkoff (mq (qs c)))%Z) in *.
  assert (l ≠ 0%Z) as Hl0 by (unfold addr_ok in U1; lia).
  unfold put_link in E. rewrite que_bnd, stw_bnd in E by done. fold l in E.
  unfold ret in E. assert (link = l ∧ s = set_words (<[l := 0%Z]> (words (qs c))) (qs c))
    as [-> ->] by (split; congruence). clear E.
  constructor; simpl; [|done|done| |done| | |].
  - destruct Hr. constructor; simpl; try done; apply chain_insert_out; try done; set_solver.
  - intros u. destruct (decide (u = t)) as [->|Hu]; [|by rewrite holds_insert_other].
    rewrite <- Hg. unfold holds. simpl. rewrite lookup_insert_eq, Ht. naive_solver.
  - intros u l' E. destruct (decide (u = t)) as [->|Hu].
    + rewrite lookup_insert_eq in E. injection E as <-. split; [done|]. split; [done|].
      simpl. by rewrite lookup_insert_eq.
    + rewrite lookup_insert_ne in E by done. eapply fresh_keep; [by eapply Hl| |done].
      simpl. rewrite lookup_insert_ne; [done|]. intros ->. by apply (U5 u).
  - intros u v l' Eu Ev. destruct (decide (u = t)) as [->|Hu], (decide (v = t)) as [->|Hv];
      [done| | |].
    + rewrite lookup_insert_eq in Eu. rewrite lookup_insert_ne in Ev by done.
      injection Eu as <-. by apply U5 in Ev.
    + rewrite lookup_insert_eq in Ev. rewrite lookup_insert_ne in Eu by done.
      injection Ev as <-. by apply U5 in Eu.
    + rewrite lookup_insert_ne in Eu, Ev by done. by eapply Ha.
  - intros u Eu. destruct (decide (u = t)) as [->|Hu].
    + by rewrite lookup_insert_eq in Eu.
    + rewrite lookup_insert_ne in Eu by done. by eapply Hpop.
Qed.

Lemma step_put c gs ps t link s :
  qinv c gs ps → threads c !! t = Some (Putting link) → put_locked t link (qs c) = Done (tt, s) →
  s = put_result link (qs c) ∧
  qinv (QSys s (delete t (threads c)) (history c ++ [OPut link])) gs (ps ++ [link]).
Proof.
  intros [Hr Hh Hp Hg Hd Hl Ha Hpop] Ht E. pose proof (Hl _ _ Ht) as Hf.
  destruct (put_full (mq (qs c))) eqn:Efull.
  { unfold put_locked in E. rewrite lock_put_bnd, que_bnd in E by done. simpl in E.
    by rewrite Efull in E. }
  destruct (put_locked_run t (qs c) gs ps link Hr Hf Hp Efull) as [E' Hr'].
  rewrite E' in E. injection E as <-. split; [done|].
  constructor; simpl;
    [done|rewrite (assoc_L (++)); by eapply replay_snoc|done| |done| | |].
  - intros u. destruct (decide (u = t)) as [->|Hu]; [|by rewrite holds_delete_other].
    rewrite <- Hg. unfold holds. simpl. rewrite lookup_delete_eq, Ht. naive_solver.
  - intros u l [Hne E]%lookup_delete_Some. pose proof (Hl _ _ E) as Hfl.
    assert (l ≠ link) as Hll by (intros ->; by apply Hne, (Ha _ _ link)).
    eapply fresh_keep; [done| |].
    + simpl. apply lookup_insert_ne. intros <-. destruct Hfl as [Hfl _].
      apply Hfl. rewrite (rep_tail _ _ _ Hr). pose proof (chain_end_in (put_head (mq (qs c))) ps).
      set_solver.
    + simpl. set_solver.
  - intros u v l [_ Eu]%lookup_delete_Some [_ Ev]%lookup_delete_Some. by eapply Ha.
  - intros u [_ Eu]%lookup_delete_Some. by eapply Hpop.
Qed.

Lemma step_head c gs ps t msg s :
  qinv c gs ps → threads c !! t = None → unused c (msg + linkoff (mq (qs c))) →
  msgqueue_put_head t 2 msg (qs c) = Done (tt, s) →
  let link := (msg + linkoff (mq (qs c)))%Z in
  gs = [] ∧ put_head_full (mq (qs c)) = false ∧ s = put_head_result link ps (qs c) ∧
  qinv (QSys s (threads c) (history c ++ [OHead link])) [] (link :: ps).
Proof.
  intros Hi Ht Hu E link. pose proof (unused_free _ _ _ _ Hi Hu) as Hfree. fold link in Hfree.
  pose proof Hi as [Hr Hh Hp Hg Hd Hl Ha Hpop]. destruct Hu as (U1 & U2 & _ & _ & U5).
  destruct gs as [|g gs]; [|by rewrite (put_head_ub t 0 _ g gs ps) in E].
  destruct (put_head_full (mq (qs c))) eqn:Ef.
  { by rewrite (put_head_waits t 1 _ ps) in E. }
  destruct (put_head_run t 1 (qs c) ps msg Hr Hp Ef) as [E' Hr']; [done..|].
  fold link in E', Hr', U5. rewrite E' in E. injection E as <-. split_and!; [done..|].
  assert (get_head (mq (put_head_result link ps (qs c))) = get_head (mq (qs c))) as Egh
    by by destruct ps.
  assert (put_head (mq (put_head_result link ps (qs c))) = put_head (mq (qs c))) as Eph
    by by destruct ps.
  clearbody link. constructor; simpl; [done| |done|done|by destruct ps| |done|done].
  - by eapply replay_snoc.
  - intros u l Eu. pose proof (Hl _ _ Eu) as Hfl. assert (l ≠ link) as Hne by (intros ->; by eapply U5).
    eapply fresh_keep; [done| |].
    + simpl. destruct Hfl as [Hfl _]. rewrite !lookup_insert_ne; [done|done|].
      intros <-. set_solver.
    + rewrite Egh, Eph. simpl. set_solver.
Qed.

Lemma step_lock c gs ps t s :
  qinv c gs ps → threads c !! t = None → lock_get t (qs c) = Done (tt, s) →
  qinv (QSys s (<[t := Getting]> (threads c)) (history c)) gs ps.
Proof.
  intros [Hr Hh Hp Hg Hd Hl Ha Hpop] Ht E. unfold lock in E.
  destruct (get_mutex (qs c)) as [o|] eqn:Em; [by case_decide|]. injection E as <-.
  constructor; simpl; [by apply rep_mutex|done|done| |done| | |].
  - intros u. destruct (decide (u = t)) as [->|Hu].
    + unfold holds. simpl. rewrite lookup_insert_eq. naive_solver.
    + rewrite holds_insert_other, Hg by done. naive_solver.
  - intros u l E. destruct (decide (u = t)) as [->|Hu]; [by rewrite lookup_insert_eq in E|].
    rewrite lookup_insert_ne in E by done. by apply (Hl u).
  - intros u v l Eu Ev. destruct (decide (u = t)) as [->|Hu], (decide (v = t)) as [->|Hv];
      simplify_map_eq; try done; by eapply Ha.
  - intros u Eu. destruct (decide (u = t)) as [->|Hu]; simplify_map_eq; by eapply Hpop.
Qed.

Lemma step_pop c g gs ps t msg s :
  qinv c (g :: gs) ps → holds c t → pop_unlock t (qs c) = Done (msg, s) →
  (msg + linkoff (mq s) = g)%Z ∧
  qinv (QSys s (delete t (threads c)) (history c ++ [OGet (msg + linkoff (mq s))])) gs ps.
Proof.
  intros [Hr Hh Hp Hg Hd Hl Ha Hpop] Ht E. destruct (pop_run _ _ _ _ Hr) as [E' Hr'].
  unfold pop_unlock in E. rewrite (bnd_done _ _ _ _ _ E') in E.
  rewrite unlock_get_bnd in E by by apply Hg. unfold ret in E.
  assert (msg = g - linkoff (mq (qs c)) ∧
          s = set_get_mutex None (pop_result (default 0 (head gs)) (qs c)))%Z
    as [-> ->] by (split; congruence). clear E.
  assert (g - linkoff (mq (qs c)) + linkoff (mq (qs c)) = g)%Z as Eg by lia.
  split; [done|]. cbn [mq set_get_mutex pop_result set_words]. rewrite Eg.
  assert (∀ u, holds c u → u = t) as Honly.
  { intros u Hu. apply Hg in Hu, Ht. congruence. }
  constructor; simpl; [by apply rep_mutex| |done| |done| | |].
  - eapply replay_snoc; [done|]. simpl. by rewrite decide_True.
  - intros u. split; [|done]. destruct (decide (u = t)) as [->|Hu].
    + unfold holds. simpl. rewrite lookup_delete_eq. naive_solver.
    + rewrite holds_delete_other by done. by intros ?%Honly.
  - intros u l [_ E]%lookup_delete_Some. pose proof (Hl _ _ E) as Hfl.
    eapply fresh_keep; [done| |].
    + simpl. apply lookup_insert_ne. intros <-. destruct Hfl as [Hfl _]. set_solver.
    + simpl. set_solver.
  - intros u v l [_ Eu]%lookup_delete_Some [_ Ev]%lookup_delete_Some. by eapply Ha.
  - intros u [Hu Eu]%lookup_delete_Some. exfalso. apply Hu. symmetry. apply Honly. by right.
Qed.

(** A swap: [p] is what the thread does then, and [om] the owner of the get mutex. *)
Lemma step_swap c ps t cnt s :
  qinv c [] ps → threads c !! t = Some Getting → __msgqueue_swap t (qs c) = Done (cnt, s) →
  cnt = Z.of_nat (length ps) ∧ get_mutex s = Some t ∧ s = swap_result (qs c) ∧
  (ps ≠ [] → qinv (QSys s (<[t := Popping]> (threads c)) (history c)) ps []) ∧
  (ps = [] → qinv (QSys (set_get_mutex None s) (delete t (threads c)) (history c)) [] []).
Proof.
  intros [Hr Hh Hp Hg [Hd1 Hd2] Hl Ha Hpop] Ht E.
  destruct (swap_empty (mq (qs c))) eqn:Ee.
  { unfold __msgqueue_swap in E. rewrite que_bnd, lock_put_bnd, que_bnd in E by done.
    simpl in E. by rewrite Ee in E. }
  destruct (swap_run t (qs c) ps Hr Hp Ee) as [E' Hr'].
  rewrite E' in E. assert (cnt = Z.of_nat (length ps) ∧ s = swap_result (qs c)) as [-> ->]
    by (split; congruence). clear E E' Ee.
  assert (holds c t) as Hht by by left. pose proof (proj1 (Hg t) Hht) as Hgt.
  assert (∀ u, holds c u → u = t) as Honly.
  { intros u Hu. apply Hg in Hu. congruence. }
  assert (∀ u l, threads c !! u = Some (Putting l) → fresh_link (swap_result (qs c)) ps [] l)
    as Hl'.
  { intros u l E. eapply fresh_keep; [by eapply Hl|done|]. simpl. rewrite app_nil_r. set_solver. }
  split; [done|]. split; [done|]. split; [done|]. split; intros Hps.
  - constructor; simpl; [done|by rewrite app_nil_r|done| |done| | |done].
    + intros u. destruct (decide (u = t)) as [->|Hu].
      * unfold holds. simpl. rewrite lookup_insert_eq. naive_solver.
      * by rewrite holds_insert_other.
    + intros u l E. destruct (decide (u = t)) as [->|Hu]; simplify_map_eq. by eapply Hl'.
    + intros u v l Eu Ev. destruct (decide (u = t)) as [->|Hu], (decide (v = t)) as [->|Hv];
        simplify_map_eq; try done; by eapply Ha.
  - subst ps. constructor; simpl; [by apply rep_mutex|done|done| |done| | |].
    + intros u. split; [|done]. destruct (decide (u = t)) as [->|Hu].
      * unfold holds. simpl. rewrite lookup_delete_eq. naive_solver.
      * rewrite holds_delete_other by done. by intros ?%Honly.
    + intros u l [_ E]%lookup_delete_Some. by apply (Hl' u l).
    + intros u v l [_ Eu]%lookup_delete_Some [_ Ev]%lookup_delete_Some. by eapply Ha.
    + intros u [Hu Eu]%lookup_delete_Some. exfalso. apply Hu. symmetry. apply Honly. by right.
Qed.

Lemma qcore_inv c c' gs ps : qinv c gs ps → qcore c c' → ∃ gs' ps', qinv c' gs' ps'.
Proof.
  intros Hi Hs. pose proof (inv_rep _ _ _ Hi) as Hr.
  destruct Hs as [t msg link s H1 H2 H3|t link s H1 H2|t msg s H1 H2 H3|t s H1 H2|t msg s H1 H2 H3
    |t cnt s H1 H2 H3 H4|t cnt s H1 H2 H3 H4|t msg s H1 H2].
  - exists gs, ps. by eapply step_link.
  - exists gs, (ps ++ [link]). by apply step_put.
  - destruct (step_head _ _ _ _ _ _ Hi H1 H2 H3) as (_ & _ & _ & Hi'). by eexists _, _.
  - exists gs, ps. by eapply step_lock.
  - rewrite (get_first_run _ _ _ Hr) in H2. destruct gs as [|g gs]; [done|].
    exists gs, ps. eapply step_pop; [done|by left|done].
  - rewrite (get_first_run _ _ _ Hr) in H2. destruct gs as [|g gs]; [|done].
    destruct (step_swap _ _ _ _ _ Hi H1 H3) as (-> & _ & _ & H & _).
    exists ps, []. apply H. by intros ->.
  - rewrite (get_first_run _ _ _ Hr) in H2. destruct gs as [|g gs]; [|done].
    unfold swap_null in H3. apply bnd_done_inv in H3 as (n & s1 & E & H3).
    destruct (step_swap _ _ _ _ _ Hi H1 E) as (-> & Hg & _ & _ & H).
    rewrite unlock_get_bnd in H3 by done. injection H3 as <- <-.
    exists [], []. apply H. destruct ps; [done|]. simpl in H4. lia.
  - destruct gs as [|g gs]; [by destruct (inv_popping _ _ _ Hi _ H1)|].
    exists gs, ps. eapply step_pop; [done|by right|done].
Qed.

Lemma mode_inv c gs ps b g m l :
  qinv c gs ps → get_mutex (qs c) = g → m = None →
  qinv (QSys (MQState (words (qs c)) (set_nonblock_field b (mq (qs c))) g m l)
          (threads c) (history c)) gs ps.
Proof. intros [] <- ->. constructor; simpl; try done. by apply set_nonblock_rep. Qed.

Lemma qstep_inv c c' gs ps : qinv c gs ps → qstep c c' → ∃ gs' ps', qinv c' gs' ps'.
Proof.
  intros Hi [c2 Hs|t s H1 H2|s H2].
  - by eapply qcore_inv.
  - rewrite set_nonblock_run in H2 by apply Hi. injection H2 as <-. exists gs, ps.
    by apply mode_inv.
  - injection H2 as <-. exists gs, ps. apply mode_inv; [done|done|apply Hi].
Qed.

Lemma qsteps_inv c c' gs ps :
  qinv c gs ps → rtc qstep c c' → ∃ gs' ps', qinv c' gs' ps'.
Proof.
  intros Hi Hr. revert gs ps Hi. induction Hr as [|c c1 c' Hs _ IH]; intros gs ps Hi; [by eauto|].
  destruct (qstep_inv _ _ _ _ Hi Hs) as (gs' & ps' & Hi'). by eapply IH.
Qed.

(** ** What every interleaving guarantees *)

(** What the queue holds is what its history, replayed on a sequence, leaves. *)
Lemma interleaving_history q max off c0 c :
  qinit q max off c0 → rtc qstep c0 c →
  ∃ gs ps, mq_rep (qs c) gs ps ∧ replay [] (history c) = Some (gs ++ ps) ∧
    puts (history c) ≡ₚ gots (history c) ++ gs ++ ps ∧
    (Forall (λ o, is_head o = false) (history c) →
     puts (history c) = gots (history c) ++ gs ++ ps).
Proof.
  intros Hi%qinit_inv Hr. destruct (qsteps_inv _ _ _ _ Hi Hr) as (gs & ps & []).
  exists gs, ps. split_and!; [done|done|by apply (replay_permutation _ [])|].
  by intros ?%(replay_fifo _ [] (gs ++ ps)).
Qed.

(** A thread in the middle of an operation is never at undefined behaviour, and one
    that has found messages gets one without waiting. *)
Lemma inv_busy_safe c gs ps t p :
  qinv c gs ps → threads c !! t = Some p →
  match p with
  | Putting link => put_locked t link (qs c) ≠ UB
  | Getting => get_locked t (qs c) ≠ UB
  | Popping => ∃ msg s, pop_unlock t (qs c) = Done (msg, s) ∧ head (gs ++ ps) = Some (msg + linkoff (mq s))%Z
  end.
Proof.
  intros Hinv Ht. destruct Hinv as [Hrep Hh Hp Hg Hd Hl Ha Hpop]. destruct p as [link| |].
  - destruct (put_full (mq (qs c))) eqn:Ef.
    + unfold put_locked. rewrite lock_put_bnd, que_bnd by done. simpl. by rewrite Ef.
    + destruct (put_locked_run t (qs c) gs ps link) as [-> _]; [done|by eapply Hl|done..].
  - destruct (decide (gs ++ ps = [] ∧ nonblock (mq (qs c)) = 0%Z)) as [[E1 E2]|Hn].
    + apply app_eq_nil in E1 as [-> ->]. unfold get_locked.
      rewrite (bnd_done _ _ _ _ _ (get_first_run _ _ _ Hrep)). simpl. unfold __msgqueue_swap.
      rewrite !bnd_assoc, que_bnd, bnd_assoc, lock_put_bnd, bnd_assoc, que_bnd by done.
      unfold swap_empty. simpl. by rewrite (rep_cnt _ _ _ Hrep), E2.
    + destruct (get_locked_run t (qs c) gs ps) as (s' & gs' & ps' & -> & _); [done|done| |done].
      intros E1 E2. by apply Hn.
  - destruct gs as [|g gs]; [by destruct (Hpop t)|].
    destruct (pop_run _ _ _ _ Hrep) as [E _]. unfold pop_unlock.
    rewrite (bnd_done _ _ _ _ _ E), unlock_get_bnd by (apply Hg; by right).
    eexists _, _. split; [done|]. simpl. f_equal. lia.
Qed.

(** A thread that starts an operation on an unused message. [msgqueue_put_head] is
    the one that can be undefined behaviour: it is, exactly when there are messages
    on the list to get from. *)
Lemma inv_idle_safe c gs ps t msg :
  qinv c gs ps → threads c !! t = None → unused c (msg + linkoff (mq (qs c))) →
  put_link msg (qs c) ≠ UB ∧ lock_get t (qs c) ≠ UB ∧ msgqueue_set_nonblock t (qs c) ≠ UB ∧
  (msgqueue_put_head t 2 msg (qs c) = UB ↔ gs ≠ []) ∧
  msgqueue_put_head t 2 msg (qs c) ≠ NoFuel.
Proof.
  intros Hi Ht Hu. pose proof (unused_free _ _ _ _ Hi Hu) as Hfree.
  destruct Hi as [Hr _ Hp Hg _ _ _ _]. destruct Hu as (U1 & U2 & _).
  assert (msg + linkoff (mq (qs c)) ≠ 0)%Z as H0 by (unfold addr_ok in U1; lia). split_and!.
  - unfold put_link. by rewrite que_bnd, stw_bnd by done.
  - unfold lock. destruct (get_mutex (qs c)) as [o|] eqn:Eo; [|done].
    rewrite decide_False; [done|]. intros ->. assert (holds c t) as [E|E] by (by apply Hg); congruence.
  - by rewrite set_nonblock_run.
  - destruct gs as [|g gs]; [split; [|done]|by rewrite (put_head_ub t 0 _ g gs ps)].
    destruct (put_head_full (mq (qs c))) eqn:Ef; [by rewrite (put_head_waits t 1 _ ps)|].
    by destruct (put_head_run t 1 (qs c) ps msg) as [-> _].
  - destruct gs as [|g gs]; [|by rewrite (put_head_ub t 0 _ g gs ps)].
    destruct (put_head_full (mq (qs c))) eqn:Ef; [by rewrite (put_head_waits t 1 _ ps)|].
    by destruct (put_head_run t 1 (qs c) ps msg) as [-> _].
Qed.

Lemma interleaving_safe q max off c0 c t :
  qinit q max off c0 → rtc qstep c0 c →
  match threads c !! t with
  | Some (Putting link) => put_locked t link (qs c) ≠ UB
  | Some Getting => get_locked t (qs c) ≠ UB
  | Some Popping => ∃ msg s, pop_unlock t (qs c) = Done (msg, s) ∧
      (replay [] (history c) ≫= head) = Some (msg + linkoff (mq s))%Z
  | None => ∀ msg, unused c (msg + linkoff (mq (qs c))) →
      put_link msg (qs c) ≠ UB ∧ lock_get t (qs c) ≠ UB ∧ msgqueue_set_nonblock t (qs c) ≠ UB ∧
      (msgqueue_put_head t 2 msg (qs c) = UB ↔ get_first (qs c) = Done (true, qs c)) ∧
      msgqueue_put_head t 2 msg (qs c) ≠ NoFuel
  end.
Proof.
  intros Hi%qinit_inv Hr. destruct (qsteps_inv _ _ _ _ Hi Hr) as (gs & ps & Hinv).
  destruct (threads c !! t) as [p|] eqn:Ht.
  - pose proof (inv_busy_safe _ _ _ _ _ Hinv Ht) as H. destruct p; [done|done|].
    by rewrite (inv_hist _ _ _ Hinv).
  - intros msg Hu. destruct (inv_idle_safe _ _ _ _ _ Hinv Ht Hu) as (H1 & H2 & H3 & H4 & H5).
    rewrite (get_first_run _ _ _ (inv_rep _ _ _ Hinv)). split_and!; [done..| |done].
    rewrite H4. destruct gs; simpl; [|done]. split; [done|congruence].
Qed.

Lemma pop_unlock_mq t s m s' : pop_unlock t s = Done (m, s') → mq s' = mq s.
Proof.
  unfold pop_unlock, get_pop. intros (a & s1 & E & H)%bnd_done_inv.
  rewrite !que_bnd in E. apply bnd_done_inv in E as (f & s2 & E1 & E). rewrite que_bnd in E.
  apply bnd_done_inv in E as (n & s3 & E2 & E). apply bnd_done_inv in E as ([] & s4 & E3 & E).
  apply bnd_done_inv in H as ([] & s5 & E5 & H).
  unfold ldw, stw, unlock, ret in *. repeat case_match; simplify_eq/=; done.
Qed.

(** Without [msgqueue_set_nonblock] and [msgqueue_put_head] the list to put to holds
    at most [msg_max]. *)
Lemma qcore_bound c c' gs ps :
  qinv c gs ps → nonblock (mq (qs c)) = 0%Z → (msg_cnt (mq (qs c)) ≤ msg_max (mq (qs c)))%Z →
  qcore c c' → Forall (λ o, is_head o = false) (history c') →
  nonblock (mq (qs c')) = 0%Z ∧ msg_max (mq (qs c')) = msg_max (mq (qs c)) ∧
  (msg_cnt (mq (qs c')) ≤ msg_max (mq (qs c')))%Z.
Proof.
  intros Hi Hb Hc Hs Hnh. pose proof (inv_rep _ _ _ Hi) as Hr. pose proof (inv_put _ _ _ Hi) as Hpm.
  assert (0 ≤ msg_cnt (mq (qs c)))%Z as H0 by (rewrite (rep_cnt _ _ _ Hr); lia).
  destruct Hs as [t msg link s H1 H2 H3|t link s H1 H2|t msg s H1 H2 H3|t s H1 H2|t msg s H1 H2 H3
    |t cnt s H1 H2 H3 H4|t cnt s H1 H2 H3 H4|t msg s H1 H2]; simpl.
  - unfold put_link in H3. destruct H2 as (U1 & U2 & _).
    rewrite que_bnd, stw_bnd in H3; [|unfold addr_ok in U1; lia|done]. by injection H3 as <- <-.
  - destruct (put_full (mq (qs c))) eqn:Ef.
    { unfold put_locked in H2. rewrite lock_put_bnd, que_bnd in H2 by done. simpl in H2.
      by rewrite Ef in H2. }
    destruct (step_put _ _ _ _ _ _ Hi H1 H2) as [-> _]. simpl.
    unfold put_full in Ef. rewrite Hb in Ef. simpl in Ef. rewrite andb_true_r in Ef.
    apply Z.eqb_neq in Ef. split; [done|]. split; [done|]. lia.
  - simpl in Hnh. apply Forall_app in Hnh as [_ Hnh]. by apply Forall_cons in Hnh as [? _].
  - unfold lock in H2. destruct (get_mutex (qs c)); [by case_decide|]. by injection H2 as <-.
  - by rewrite (pop_unlock_mq _ _ _ _ H3).
  - rewrite (get_first_run _ _ _ Hr) in H2. destruct gs as [|g gs]; [|done].
    destruct (step_swap _ _ _ _ _ Hi H1 H3) as (_ & _ & -> & _). simpl. lia.
  - rewrite (get_first_run _ _ _ Hr) in H2. destruct gs as [|g gs]; [|done].
    unfold swap_null in H3. apply bnd_done_inv in H3 as (n & s1 & E & H3).
    destruct (step_swap _ _ _ _ _ Hi H1 E) as (_ & Hg & -> & _).
    rewrite unlock_get_bnd in H3 by done. injection H3 as <- <-. simpl. lia.
  - by rewrite (pop_unlock_mq _ _ _ _ H2).
Qed.

(** The history only grows. *)
Lemma qcore_history c c' : qcore c c' → history c `prefix_of` history c'.
Proof. intros []; simpl; first [done|by apply prefix_app_r]. Qed.

Lemma qcore_histories c c' : rtc qcore c c' → history c `prefix_of` history c'.
Proof. induction 1; [done|]. etrans; [by apply qcore_history|done]. Qed.

Lemma interleaving_bound q max off c0 c :
  qinit q max off c0 → (0 ≤ max)%Z → rtc qcore c0 c →
  Forall (λ o, is_head o = false) (history c) →
  (msg_cnt (mq (qs c)) ≤ max)%Z.
Proof.
  intros Hi Hmax Hr Hnh.
  assert (mq (qs c0) = MQ q max 0 off 0 (head1_at q) (head2_at q) (head2_at q)) as E.
  { destruct Hi as (s & H1 & H2 & H3 & H4 & E & _).
    destruct (create_run q max off s) as (s' & E' & _ & Hq & _); [done..|].
    rewrite E' in E. injection E as <-. done. }
  assert (∀ gs ps, qinv c0 gs ps →
    (nonblock (mq (qs c0)) = 0 ∧ msg_max (mq (qs c0)) = max ∧ msg_cnt (mq (qs c0)) ≤ max)%Z →
    (msg_cnt (mq (qs c)) ≤ max)%Z) as Hgen.
  { clear Hi E. induction Hr as [c|c c1 c' Hs Hr IH]; intros gs ps Hinv (H1 & H2 & H3); [done|].
    destruct (qcore_inv _ _ _ _ Hinv Hs) as (gs' & ps' & Hinv').
    destruct (qcore_bound _ _ _ _ Hinv H1 ltac:(by rewrite H2) Hs) as (H4 & H5 & H6).
    { destruct (qcore_histories _ _ Hr) as [k Hk]. rewrite Hk in Hnh. by apply Forall_app in Hnh as [? _]. }
    eapply IH; [done|done|]. by rewrite <- H2, <- H5 in *. }
  eapply Hgen; [by eapply qinit_inv|]. by rewrite E.
Qed.
