(* ===== verification/ThrdPool.v ===== *)
(** thrdpool.cc: the thread pool over the message queue. *)
From S2P Require Export MsgQueueFifo.

(** ** Data *)

(** [struct thrdpool_task]; [EXIT_ROUTINE] is the address of
    [__thrdpool_exit_routine]. *)
Record task : Type := Task { routine : Z; context : Z }.
#[export] Instance task_eq_dec : EqDecision task.
Proof. solve_decision. Defined.
Definition EXIT_ROUTINE : Z := 1.

(** [struct thrdpool]; [tid] is a [pthread_t], 0 for [__zero_tid]. *)
Record thrdpool : Type := TPool {
  nthreads : Z;
  stacksize : Z;
  tid : Z;
  stop : bool;
}.

(** Calls on the system and on the client. *)
Inductive pcall : Type :=
| PAttrInit
| PAttrSetStack (size : Z)
| PAttrDestroy
| PCreate
| PJoin (t : Z)
| PDetach (t : Z)
| PExit (t : Z)
| PNotifyTerminate
| PPending (t : task)
| PRun (t : task).

(** The queue with its memory, the tasks of the allocated entries by address, the
    pool (while it is allocated), the pool of each thread ([parent_thrdpool]),
    errno and the calls so far, latest first. *)
Record tpstate : Type := TPState {
  queue : mqstate;
  entries : gmap Z task;
  pool : option thrdpool;
  parent : nat → bool;
  perrno : Z;
  pcalls : list pcall;
}.

Definition set_queue (q : mqstate) (s : tpstate) : tpstate :=
  TPState q (entries s) (pool s) (parent s) (perrno s) (pcalls s).
Definition set_entries (e : gmap Z task) (s : tpstate) : tpstate :=
  TPState (queue s) e (pool s) (parent s) (perrno s) (pcalls s).
Definition set_pool (p : option thrdpool) (s : tpstate) : tpstate :=
  TPState (queue s) (entries s) p (parent s) (perrno s) (pcalls s).
Definition set_parent (f : nat → bool) (s : tpstate) : tpstate :=
  TPState (queue s) (entries s) (pool s) f (perrno s) (pcalls s).
Definition set_perrno (e : Z) (s : tpstate) : tpstate :=
  TPState (queue s) (entries s) (pool s) (parent s) e (pcalls s).
Definition add_pcall (c : pcall) (s : tpstate) : tpstate :=
  TPState (queue s) (entries s) (pool s) (parent s) (perrno s) (c :: pcalls s).

Definition set_nthreads (n : Z) (p : thrdpool) : thrdpool :=
  TPool n (stacksize p) (tid p) (stop p).
Definition set_tid (t : Z) (p : thrdpool) : thrdpool :=
  TPool (nthreads p) (stacksize p) t (stop p).
Definition set_stop (b : bool) (p : thrdpool) : thrdpool :=
  TPool (nthreads p) (stacksize p) (tid p) b.

(** What the system answers: the results of the pthread functions, and fresh
    memory for the pool, the queue and the entries. [pool_at] is the address of the
    pool. *)
Class ThreadEnv : Type := {
  pool_at : Z;
  pthread_result : pcall → tpstate → Z;
  malloc_pool : tpstate → bool;
  malloc_queue : tpstate → option Z;
  malloc_entry : tpstate → option Z;
}.

(** The client: the functions scheduled as tasks; whether one of them ended the
    thread (through [thrdpool_exit]). *)
Class TaskClient : Type := {
  run_routine : nat → task → M tpstate bool;
}.

(** ** Instructions *)

(** Read or change a field of [*pool]: undefined behaviour once it is freed. *)
Definition pool_get {A} (f : thrdpool → A) : M tpstate A := λ s,
  match pool s with Some p => Done (f p, s) | None => UB end.
Definition pool_set (f : thrdpool → thrdpool) : M tpstate unit := λ s,
  match pool s with Some p => Done (tt, set_pool (Some (f p)) s) | None => UB end.
Definition free_pool : M tpstate unit := λ s,
  match pool s with Some _ => Done (tt, set_pool None s) | None => UB end.
Definition onq {A} (m : M mqstate A) : M tpstate A := zoom queue set_queue m.
Definition pthread `{ThreadEnv} (c : pcall) : M tpstate Z := λ s,
  Done (pthread_result c s, add_pcall c s).
Definition pcall_ (c : pcall) : M tpstate unit := modify (add_pcall c).

(** [malloc(sizeof(struct __thrdpool_task_entry))]: the link word is at offset 0. *)
Definition new_entry `{ThreadEnv} : M tpstate Z := λ s,
  match malloc_entry s with
  | Some a =>
      Done (a, set_entries (<[a := Task 0 0]> (entries s))
                 (set_queue (set_words (<[a := 0%Z]> (words (queue s))) (queue s)) s))
  | None => Done (0%Z, s)
  end.
Definition free_entry (a : Z) : M tpstate unit := λ s,
  match entries s !! a with
  | Some _ => Done (tt, set_entries (delete a (entries s))
                 (set_queue (set_words (delete a (words (queue s))) (queue s)) s))
  | None => UB
  end.
Definition entry_task (a : Z) : M tpstate task := λ s,
  match entries s !! a with Some t => Done (t, s) | None => UB end.
Definition set_entry_task (a : Z) (t : task) : M tpstate unit := λ s,
  match entries s !! a with
  | Some _ => Done (tt, set_entries (<[a := t]> (entries s)) s)
  | None => UB
  end.

(** ** The functions of the pool *)

Section pool.
Context `{ThreadEnv} `{TaskClient}.
(** The thread that runs. *)
Context (me : nat).

Definition pthread_self : Z := Z.of_nat me.

(** The critical section of [__thrdpool_exit_routine]: the thread to join. *)
Definition exit_locked : M tpstate Z :=
  let* t := pool_get tid in
  pool_set (set_tid pthread_self) ;;;
  pool_set (λ p, set_nthreads (u64 (nthreads p - 1)) p) ;;;
  let* n := pool_get nthreads in
  let* st := pool_get stop in
  (if (n =? 0)%Z && st then pcall_ PNotifyTerminate else ret tt) ;;;
  ret t.

Definition __thrdpool_exit_routine : M tpstate unit :=
  let* t := exit_locked in
  (if negb (t =? 0)%Z then let* _ := pthread (PJoin t) in ret tt else ret tt) ;;;
  pcall_ (PExit pthread_self).

(** Run a task: whether it ended the thread. *)
Definition task_routine (t : task) : M tpstate bool :=
  pcall_ (PRun t) ;;;
  if (routine t =? EXIT_ROUTINE)%Z then __thrdpool_exit_routine ;;; ret true
  else run_routine me t.

(** The loop of [__thrdpool_routine]: whether the thread still has to leave the
    pool. *)
Fixpoint routine_loop (fuel : nat) : M tpstate bool :=
  match fuel with
  | O => nofuel
  | S fuel =>
    let* st := pool_get stop in
    if st : bool then ret true else
    let* entry := onq (msgqueue_get me) in
    if (entry =? 0)%Z then ret true else
    let* t := entry_task entry in
    free_entry entry ;;;
    let* ended := task_routine t in
    if ended : bool then ret false else
    let* n := pool_get nthreads in
    if (n =? 0)%Z then free_pool ;;; ret false
    else routine_loop fuel
  end.

Definition __thrdpool_routine (fuel : nat) : M tpstate unit :=
  modify (λ s, set_parent (λ t, if decide (t = me) then true else parent s t) s) ;;;
  let* leave := routine_loop fuel in
  if leave : bool then __thrdpool_exit_routine else ret tt.

(** [__thrdpool_terminate] up to the wait, and from there on. *)
Definition terminate_begin (in_pool : bool) : M tpstate unit :=
  onq (msgqueue_set_nonblock me) ;;;
  pool_set (set_stop true) ;;;
  if in_pool then
    let* _ := pthread (PDetach pthread_self) in
    pool_set (λ p, set_nthreads (u64 (nthreads p - 1)) p)
  else ret tt.
Definition terminate_wait : M tpstate unit :=
  let* n := pool_get nthreads in
  if (0 <? n)%Z then blocked else
  let* t := pool_get tid in
  if negb (t =? 0)%Z then let* _ := pthread (PJoin t) in ret tt else ret tt.

Definition __thrdpool_terminate (in_pool : bool) : M tpstate unit :=
  terminate_begin in_pool ;;;
  terminate_wait.

(** [while (pool->nthreads < nthreads)]: the last result of pthread_create. *)
Fixpoint create_loop (fuel : nat) (n r : Z) : M tpstate Z :=
  match fuel with
  | O => nofuel
  | S fuel =>
    let* cur := pool_get nthreads in
    if negb (cur <? n)%Z then ret r else
    let* r := pthread PCreate in
    if (r =? 0)%Z then
      pool_set (λ p, set_nthreads (u64 (nthreads p + 1)) p) ;;;
      create_loop fuel n r
    else ret r
  end.

(** The attributes of the threads to create. *)
Definition set_stack : M tpstate unit :=
  let* size := pool_get stacksize in
  if negb (size =? 0)%Z then let* _ := pthread (PAttrSetStack size) in ret tt else ret tt.

Definition __thrdpool_create_threads (n : Z) : M tpstate Z :=
  let* r := pthread PAttrInit in
  let* r :=
    (if (r =? 0)%Z then
       set_stack ;;;
       let* r := create_loop (S (Z.to_nat n)) n r in
       let* _ := pthread PAttrDestroy in
       let* cur := pool_get nthreads in
       if (cur =? n)%Z then ret None
       else __thrdpool_terminate false ;;; ret (Some r)
     else ret (Some r)) in
  match r with
  | None => ret 0%Z
  | Some r => modify (set_perrno r) ;;; ret (-1)%Z
  end.

(** The queue has no capacity; whether a pool was made. *)
Definition thrdpool_create (n size : Z) : M tpstate bool :=
  let* ok := gets malloc_pool in
  if negb ok then modify (set_perrno 0) ;;; ret false else
  modify (set_pool (Some (TPool 0 0 0 false))) ;;;
  let* qa := gets malloc_queue in
  let* made := onq (msgqueue_create qa 0 0) in
  let* r :=
    (if made : bool then
       modify (set_pool (Some (TPool n size 0 false))) ;;;
       __thrdpool_create_threads n
     else ret (-1)%Z) in
  if made && (0 <=? r)%Z then ret true else
  modify (set_perrno 0) ;;;
  (if made : bool then onq msgqueue_destroy else ret tt) ;;;
  free_pool ;;;
  ret false.

Definition __thrdpool_schedule (t : task) (buf : Z) : M tpstate unit :=
  set_entry_task buf t ;;;
  onq (msg_queue_put me buf).

Definition thrdpool_schedule (t : task) : M tpstate Z :=
  let* buf := new_entry in
  if negb (buf =? 0)%Z then __thrdpool_schedule t buf ;;; ret 0%Z
  else ret (-1)%Z.

Definition thrdpool_in_pool : M tpstate bool := gets (λ s, parent s me).

Definition thrdpool_increase : M tpstate Z :=
  let* r := pthread PAttrInit in
  let* r :=
    (if (r =? 0)%Z then
       set_stack ;;;
       let* r := pthread PCreate in
       (if (r =? 0)%Z then pool_set (λ p, set_nthreads (u64 (nthreads p + 1)) p)
        else ret tt) ;;;
       let* _ := pthread PAttrDestroy in
       ret r
     else ret r) in
  if (r =? 0)%Z then ret 0%Z
  else modify (set_perrno r) ;;; ret (-1)%Z.

Definition thrdpool_decrease (fuel : nat) : M tpstate Z :=
  let* buf := new_entry in
  if negb (buf =? 0)%Z then
    set_entry_task buf (Task EXIT_ROUTINE pool_at) ;;;
    onq (msgqueue_put_head me fuel buf) ;;;
    ret 0%Z
  else ret (-1)%Z.

Definition thrdpool_exit : M tpstate unit :=
  let* inp := thrdpool_in_pool in
  if inp : bool then __thrdpool_exit_routine else ret tt.

(** The loop of [thrdpool_destroy] that empties the queue. *)
Fixpoint destroy_loop (fuel : nat) (pending : bool) : M tpstate unit :=
  match fuel with
  | O => nofuel
  | S fuel =>
    let* entry := onq (msgqueue_get me) in
    if (entry =? 0)%Z then ret tt else
    let* t := entry_task entry in
    (if pending && negb (routine t =? EXIT_ROUTINE)%Z then pcall_ (PPending t) else ret tt) ;;;
    free_entry entry ;;;
    destroy_loop fuel pending
  end.

(** Every entry of the queue is allocated and taken once, which bounds the loop. *)
Definition entry_count (s : tpstate) : nat := S (size (entries s)).

Definition thrdpool_destroy (pending : bool) : M tpstate unit :=
  let* inp := thrdpool_in_pool in
  __thrdpool_terminate inp ;;;
  bounded entry_count (λ fuel, destroy_loop fuel pending) ;;;
  onq msgqueue_destroy ;;;
  if negb inp then free_pool else ret tt.
End pool.
