(* ===== verification/ThrdPoolSpec.v ===== *)
(** The thread pool: what creating one does, emptying the queue on destruction, and
    the protocol by which its threads leave and are joined. *)
From S2P Require Export ThrdPool.

(** Memory is handed out fresh. *)
Class ThreadLaws (E : ThreadEnv) : Prop := {
  entry_fresh s a : malloc_entry s = Some a →
    addr_ok a ∧ words (queue s) !! a = None ∧ entries s !! a = None ∧
    (a ∉ [head1_at (self (mq (queue s))); head2_at (self (mq (queue s)))]);
  queue_fresh s q : malloc_queue s = Some q → addr_ok (head1_at q) ∧ addr_ok (head2_at q);
}.

Lemma onq_bnd {A B} (m : M mqstate A) (k : A → M tpstate B) s a q :
  m (queue s) = Done (a, q) → bnd (onq m) k s = k a (set_queue q s).
Proof. intros E. unfold bnd, onq, zoom. by rewrite E. Qed.
Lemma pool_get_bnd {A B} (f : thrdpool → A) (k : A → M tpstate B) s p :
  pool s = Some p → bnd (pool_get f) k s = k (f p) s.
Proof. intros E. apply bnd_done. unfold pool_get. by rewrite E. Qed.
Lemma pool_set_bnd {B} f (k : unit → M tpstate B) s p :
  pool s = Some p → bnd (pool_set f) k s = k tt (set_pool (Some (f p)) s).
Proof. intros E. apply bnd_done. unfold pool_set. by rewrite E. Qed.
Lemma pthread_bnd `{ThreadEnv} {B} c (k : Z → M tpstate B) s :
  bnd (pthread c) k s = k (pthread_result c s) (add_pcall c s).
Proof. done. Qed.
Lemma pcall_bnd {B} c (k : unit → M tpstate B) s : bnd (pcall_ c) k s = k tt (add_pcall c s).
Proof. done. Qed.

Ltac tstep :=
  first
    [ rewrite pthread_bnd | rewrite pcall_bnd | rewrite bnd_assoc | rewrite ret_bnd
    | erewrite pool_get_bnd by reflexivity | erewrite pool_set_bnd by reflexivity
    | erewrite pool_get_bnd by eassumption | erewrite pool_set_bnd by eassumption ];
  cbn [queue entries pool parent perrno pcalls set_queue set_entries set_pool set_parent
       set_perrno add_pcall nthreads stacksize tid stop set_nthreads set_tid set_stop].
Ltac tsteps := repeat tstep.

(** A freed word that is not of the queue. *)
Lemma rep_delete_free s gs ps x :
  mq_rep s gs ps → (x ∉ get_head (mq s) :: put_head (mq s) :: gs ++ ps) →
  mq_rep (set_words (delete x (words s)) s) gs ps.
Proof.
  intros [] Hx. constructor; simpl; try done;
    (apply (chain_frame (words s)); [|done]);
    intros y Hy; apply lookup_delete_ne; set_solver.
Qed.

(** ** Creation *)

Section create.
Context `{E : ThreadEnv} `{!ThreadLaws E} `{TaskClient}.

(** The calls of [set_stack]. *)
Definition stack_calls (size : Z) : list pcall :=
  if (size =? 0)%Z then [] else [PAttrSetStack size].

Lemma set_stack_bnd {B} (k : unit → M tpstate B) s p :
  pool s = Some p →
  bnd set_stack k s =
    k tt (TPState (queue s) (entries s) (pool s) (parent s) (perrno s)
            (stack_calls (stacksize p) ++ pcalls s)).
Proof.
  intros Hp. unfold set_stack, stack_calls. tsteps.
  destruct (stacksize p =? 0)%Z; simpl; tsteps; by destruct s.
Qed.

Lemma create_threads_none me s n size :
  pool s = Some (TPool n size 0 false) → pthread_result PAttrInit s = 0%Z →
  __thrdpool_create_threads me n s =
    Done (0%Z, TPState (queue s) (entries s) (pool s) (parent s) (perrno s)
                 (PAttrDestroy :: stack_calls size ++ PAttrInit :: pcalls s)).
Proof.
  intros Hp Hi. unfold __thrdpool_create_threads. tsteps. rewrite Hi. simpl.
  rewrite bnd_assoc, (set_stack_bnd _ _ (TPool n size 0 false)) by done.
  cbn [create_loop]. tsteps. rewrite Z.ltb_irrefl. simpl. tsteps. rewrite Z.eqb_refl.
  by tsteps.
Qed.

(** A pool of [n] threads is made without creating a thread. *)
Lemma pool_create_run me n size s q :
  malloc_pool s = true → malloc_queue (set_pool (Some (TPool 0 0 0 false)) s) = Some q →
  (∀ s, pthread_result PAttrInit s = 0%Z) →
  get_mutex (queue s) = None → put_mutex (queue s) = None →
  ∃ s', thrdpool_create me n size s = Done (true, s') ∧
    pool s' = Some (TPool n size 0 false) ∧ parent s' = parent s ∧ entries s' = entries s ∧
    pcalls s' = PAttrDestroy :: stack_calls size ++ PAttrInit :: pcalls s ∧
    mq_rep (queue s') [] [] ∧ get_mutex (queue s') = None ∧ put_mutex (queue s') = None ∧
    mq (queue s') = MQ q 0 0 0 0 (head1_at q) (head2_at q) (head2_at q).
Proof.
  intros Hm Hq Hi Hg Hp. destruct (queue_fresh _ _ Hq) as [H1 H2].
  destruct (MsgQueueFifo.create_run q 0 0 (queue s) H1 H2 Hg Hp)
    as (q' & Eq & Hrep & Hmq & Hg' & Hp' & _).
  unfold thrdpool_create. rewrite gets_bnd, Hm. simpl. rewrite modify_bnd, gets_bnd, Hq.
  rewrite (onq_bnd _ _ _ true q') by done. rewrite !bnd_assoc, modify_bnd.
  erewrite bnd_done by (apply create_threads_none; [done|apply Hi]). simpl.
  eexists. split; [done|]. by split_and!.
Qed.

(** On a queue of capacity 0 every [thrdpool_schedule] waits for ever, unless it
    has no memory. *)
Lemma schedule_blocks me t s :
  mq_rep (queue s) [] [] → put_mutex (queue s) = None → linkoff (mq (queue s)) = 0%Z →
  msg_max (mq (queue s)) = 0%Z → nonblock (mq (queue s)) = 0%Z →
  thrdpool_schedule me t s =
    match malloc_entry s with Some _ => Blocked | None => Done ((-1)%Z, s) end.
Proof.
  intros Hr Hp Hoff Hmax Hb. unfold thrdpool_schedule, new_entry, bnd at 1.
  destruct (malloc_entry s) as [a|] eqn:Ea; [|done].
  destruct (entry_fresh _ _ Ea) as (Ha & Hw & _ & Hh).
  rewrite (proj2 (Z.eqb_neq a 0)) by (unfold addr_ok in Ha; lia). simpl.
  unfold __thrdpool_schedule, set_entry_task, bnd at 1, bnd at 1. simpl. rewrite lookup_insert_eq.
  unfold onq, zoom. simpl. unfold msg_queue_put, put_link.
  rewrite !bnd_assoc, que_bnd. cbn [mq set_words]. rewrite Hoff, Z.add_0_r.
  rewrite bnd_assoc, stw_bnd; cycle 1.
  - unfold addr_ok in Ha. lia.
  - simpl. rewrite lookup_insert_eq. by eexists.
  - rewrite ret_bnd. rewrite (put_blocks me _ [] []); [done| |done..].
    destruct Hr as [Hg Hpt Ht Hc Hnd Hok]. simpl in *.
    constructor; simpl; try done.
    + rewrite !lookup_insert_ne; [done|intros ->; congruence..].
    + rewrite !lookup_insert_ne; [done|intros ->; congruence..].
Qed.

(** Destroying, from outside of the pool, a pool whose [nthreads] is not 0 waits. *)
Lemma destroy_blocks me pending s p :
  pool s = Some p → (0 < nthreads p)%Z → parent s me = false → put_mutex (queue s) = None →
  thrdpool_destroy me pending s = Blocked.
Proof.
  intros Hp Hn Hpar Hm. unfold thrdpool_destroy, thrdpool_in_pool. rewrite gets_bnd, Hpar.
  unfold __thrdpool_terminate, terminate_begin. rewrite !bnd_assoc.
  rewrite (onq_bnd _ _ _ _ _ (set_nonblock_run me (queue s) Hm)). tsteps.
  unfold terminate_wait. tsteps. by rewrite (proj2 (Z.ltb_lt 0 (nthreads p))) by done.
Qed.

End create.

(** ** Destruction *)

(** The calls [thrdpool_destroy] makes for the entries left, latest first. *)
Fixpoint pendings (pending : bool) (ts : list task) (cs : list pcall) : list pcall :=
  match ts with
  | [] => cs
  | t :: ts =>
      pendings pending ts
        (if pending && negb (routine t =? EXIT_ROUTINE)%Z then PPending t :: cs else cs)
  end.

Section destroy.
Context `{E : ThreadEnv} `{TaskClient}.

Lemma destroy_loop_run me pending ls : ∀ fuel ts s gs ps,
  mq_rep (queue s) gs ps → gs ++ ps = ls → length ls < fuel →
  put_mutex (queue s) = None → get_mutex (queue s) = None →
  linkoff (mq (queue s)) = 0%Z → nonblock (mq (queue s)) ≠ 0%Z →
  Forall2 (λ l t, entries s !! l = Some t) ls ts →
  ∃ s', destroy_loop me fuel pending s = Done (tt, s') ∧
    pcalls s' = pendings pending ts (pcalls s) ∧ pool s' = pool s ∧
    (∀ l, entries s' !! l = if decide (l ∈ ls) then None else entries s !! l).
Proof.
  induction ls as [|l ls IH]; intros fuel ts s gs ps Hr Els Hf Hp Hg Hoff Hb Hts;
    (destruct fuel as [|fuel]; [simpl in Hf; lia|]); cbn [destroy_loop].
  - destruct (get_run me (queue s) gs ps Hr Hp Hg) as (q & gs' & ps' & Eq & _); [done|].
    rewrite Els in Eq. rewrite (onq_bnd _ _ _ _ _ Eq). simpl.
    apply Forall2_nil_inv_l in Hts as ->. eexists. split; [done|]. split; [done|].
    by split.
  - apply Forall2_cons_inv_l in Hts as (t & ts' & Ht & Hts & ->).
    destruct (get_run me (queue s) gs ps Hr Hp Hg)
      as (q & gs' & ps' & Eq & Hr' & El & Hp' & Hg' & Hoff' & Hb' & Hh); [by rewrite Els|].
    rewrite Els in Eq, El. simpl in Eq, El. rewrite Hoff, Z.sub_0_r in Eq.
    rewrite (onq_bnd _ _ _ _ _ Eq).
    assert (l ∈ gs ++ ps) as Hl by (rewrite Els; by left).
    rewrite (proj2 (Z.eqb_neq l 0)); [|eapply rep_link_ok; [exact Hr|set_solver]].
    erewrite bnd_done by (unfold entry_task; simpl; by rewrite Ht).
    set (cs := if pending && negb (routine t =? EXIT_ROUTINE)%Z then PPending t :: pcalls s
               else pcalls s).
    erewrite bnd_done with (a := tt)
      (s' := TPState q (entries s) (pool s) (parent s) (perrno s) cs);
      [|unfold cs; by destruct (pending && _)].
    erewrite bnd_done by (unfold free_entry; simpl; by rewrite Ht).
    assert (NoDup (l :: ls)) as Hnd.
    { rewrite <- Els. apply rep_nodup in Hr. by apply NoDup_cons in Hr as [_ [_ ?]%NoDup_cons]. }
    match goal with |- ∃ _, destroy_loop _ _ _ ?s1 = _ ∧ _ =>
      destruct (IH fuel ts' s1 gs' ps') as (s' & E' & Hc & Hpl & He) end;
      [|done|simpl in Hf; lia|..].
    + simpl. clear cs. apply rep_delete_free; [done|]. rewrite El.
      intros [Ex|[Ex|Ex]%elem_of_cons]%elem_of_cons.
      * apply (rep_heads_apart _ _ _ l Hr); [|done]. apply Hh. rewrite Ex. by left.
      * apply (rep_heads_apart _ _ _ l Hr); [|done]. apply Hh. rewrite Ex. by right; left.
      * by apply NoDup_cons in Hnd as [? _].
    + done.
    + done.
    + simpl. by rewrite Hoff'.
    + simpl. by rewrite Hb'.
    + apply (Forall2_impl_in _ _ _ _ Hts). intros x y Hx Hy. simpl.
      rewrite lookup_delete_ne; [done|]. intros <-. by apply NoDup_cons in Hnd as [? _].
    + exists s'. split; [exact E'|]. split; [by rewrite Hc|]. split; [done|].
      intros x. rewrite He. simpl. destruct (decide (x = l)) as [->|Hx].
      * rewrite lookup_delete_eq.
        destruct (decide (l ∈ ls)), (decide (l ∈ l :: ls)) as [|Hn]; try done; destruct Hn; by left.
      * rewrite lookup_delete_ne by done.
        destruct (decide (x ∈ ls)) as [Hi|Hi], (decide (x ∈ l :: ls)) as [Hj|Hj]; try done.
        -- destruct Hj. by right.
        -- by apply elem_of_cons in Hj as [?|?].
Qed.

(** [__thrdpool_terminate] when no other thread is left. *)
Definition terminated (me : nat) (inp : bool) (p : thrdpool) (s : tpstate) : tpstate :=
  TPState
    (MQState (words (queue s)) (set_nonblock_field 1 (mq (queue s))) (get_mutex (queue s)) None
       (NotifyAllPut :: NotifyOneGet :: signals (queue s)))
    (entries s) (Some (TPool 0 (stacksize p) (tid p) true)) (parent s) (perrno s)
    ((if (tid p =? 0)%Z then [] else [PJoin (tid p)]) ++
     (if inp then [PDetach (Z.of_nat me)] else []) ++ pcalls s).

Lemma terminate_run me (inp : bool) s p :
  pool s = Some p → nthreads p = (if inp then 1 else 0)%Z → put_mutex (queue s) = None →
  __thrdpool_terminate me inp s = Done (tt, terminated me inp p s).
Proof.
  intros Hpool Hn Hp. unfold __thrdpool_terminate, terminate_begin, terminate_wait.
  rewrite !bnd_assoc, (onq_bnd _ _ _ _ _ (set_nonblock_run me (queue s) Hp)). tsteps.
  unfold terminated. destruct inp; tsteps; rewrite Hn.
  - change (u64 (1 - 1)) with 0%Z. cbn [Z.ltb Z.compare]. tsteps.
    by destruct (tid p =? 0)%Z; cbn [negb]; tsteps.
  - cbn [Z.ltb Z.compare]. tsteps.
    destruct (tid p =? 0)%Z; cbn [negb]; tsteps; unfold ret; rewrite <- Hn; by destruct p.
Qed.

(** Destroying a pool all of whose threads are gone. *)
Lemma destroy_run me pending s p gs ps ts :
  pool s = Some p → nthreads p = (if parent s me then 1 else 0)%Z →
  mq_rep (queue s) gs ps → put_mutex (queue s) = None → get_mutex (queue s) = None →
  linkoff (mq (queue s)) = 0%Z →
  Forall2 (λ l t, entries s !! l = Some t) (gs ++ ps) ts →
  ∃ s', thrdpool_destroy me pending s = Done (tt, s') ∧
    pcalls s' = pendings pending ts
      ((if (tid p =? 0)%Z then [] else [PJoin (tid p)]) ++
       (if parent s me then [PDetach (Z.of_nat me)] else []) ++ pcalls s) ∧
    (parent s me = false → pool s' = None) ∧
    (∀ l, entries s' !! l = if decide (l ∈ gs ++ ps) then None else entries s !! l).
Proof.
  intros Hpool Hn Hr Hp Hg Hoff Hts. unfold thrdpool_destroy, thrdpool_in_pool.
  rewrite gets_bnd, (bnd_done _ _ _ _ _ (terminate_run me _ s p Hpool Hn Hp)).
  set (s1 := terminated me (parent s me) p s).
  destruct (destroy_loop_run me pending (gs ++ ps) (entry_count s1) ts s1 gs ps)
    as (s2 & E2 & Hc & Hpl & He);
    [by apply set_nonblock_rep|done| |done|done|done|simpl; lia|done|].
  { unfold entry_count. apply Nat.lt_succ_r, NoDup_size.
    - apply rep_nodup in Hr. by apply NoDup_cons in Hr as [_ [_ ?]%NoDup_cons].
    - intros x [i Hi]%list_elem_of_lookup. destruct (Forall2_lookup_l _ _ _ _ _ Hts Hi) as (t & _ & Ht).
      by exists t. }
  rewrite (bnd_done (bounded _ _) _ _ _ _ E2), (onq_bnd _ _ _ tt _ eq_refl).
  destruct (parent s me) eqn:Epar; simpl.
  - eexists. split; [done|]. by split_and!.
  - unfold free_pool. cbn [pool set_queue]. rewrite Hpl.
    eexists. split; [done|]. by split_and!.
Qed.
End destroy.
