(* ===== verification/ThrdPoolLeave.v ===== *)
(** How the threads of a pool leave it and are joined, in every interleaving of
    their critical sections with the thread that terminates the pool. *)
From S2P Require Export ThrdPoolSpec.

(** A worker runs tasks; or has left the pool and joins the thread that left before
    it; or is gone. *)
Inductive wstate : Type := Running | Leaving (prev : Z) | Gone.
(** [__thrdpool_terminate] has not begun, waits, or has returned; in the last two,
    the thread of the pool that called it, if one did. *)
Inductive tstate : Type := NotBegun | Waiting (d : option nat) | Returned (d : option nat).
#[export] Instance tstate_eq_dec : EqDecision tstate.
Proof. solve_decision. Defined.
Definition caller (t : tstate) : option nat :=
  match t with NotBegun => None | Waiting d | Returned d => d end.
Definition returned (t : tstate) : bool := match t with Returned _ => true | _ => false end.

(** A [pthread_t]: not [__zero_tid], and an address of a user's. *)
Definition tid_ok (w : nat) : Prop := (0 < Z.of_nat w < 2 ^ 63)%Z.

(** The pool, its workers by thread id but for one that terminates the pool, the threads joined so far (latest first),
    and where the terminating thread is. *)
Record psys : Type := PSys {
  pst : tpstate;
  workers : gmap nat wstate;
  joined : list Z;
  term : tstate;
}.

(** [pthread_join] of [__zero_tid] is left out; of another thread it returns when
    that thread is gone. *)
Definition can_join (c : psys) (t : Z) : Prop :=
  t = 0%Z ∨ ∃ w, t = Z.of_nat w ∧ workers c !! w = Some Gone.
Definition join (t : Z) (l : list Z) : list Z := if (t =? 0)%Z then l else t :: l.

Section protocol.
Context `{E : ThreadEnv}.

(** A thread is made; leaves, when the task it ran has ended or [thrdpool_exit] was
    called; joins the one before it. The pool is terminated from outside, or by one
    of its threads, which is detached and no longer counted. *)
Inductive pstep (c : psys) : psys → Prop :=
| LIncrease w s :
    workers c !! w = None → tid_ok w → caller (term c) ≠ Some w → returned (term c) = false →
    thrdpool_increase (pst c) = Done (0%Z, s) →
    pstep c (PSys s (<[w := Running]> (workers c)) (joined c) (term c))
| LLeave w prev s :
    workers c !! w = Some Running → exit_locked w (pst c) = Done (prev, s) →
    pstep c (PSys s (<[w := Leaving prev]> (workers c)) (joined c) (term c))
| LJoin w prev :
    workers c !! w = Some (Leaving prev) → can_join c prev →
    pstep c (PSys (pst c) (<[w := Gone]> (workers c)) (join prev (joined c)) (term c))
| LBegin me s :
    term c = NotBegun → workers c !! me = None → terminate_begin me false (pst c) = Done (tt, s) →
    pstep c (PSys s (workers c) (joined c) (Waiting None))
| LBeginIn me s :
    term c = NotBegun → workers c !! me = Some Running →
    terminate_begin me true (pst c) = Done (tt, s) →
    pstep c (PSys s (delete me (workers c)) (joined c) (Waiting (Some me)))
| LReturn d s p :
    term c = Waiting d → pool (pst c) = Some p → can_join c (tid p) →
    terminate_wait (pst c) = Done (tt, s) →
    pstep c (PSys s (workers c) (join (tid p) (joined c)) (Returned d)).

(** A pool as [thrdpool_create n] makes it: it counts [n] threads and has none. *)
Definition pinit (n : Z) (c : psys) : Prop :=
  ∃ size, pool (pst c) = Some (TPool n size 0 false) ∧ put_mutex (queue (pst c)) = None ∧
    (0 ≤ n < 2 ^ 63)%Z ∧ workers c = ∅ ∧ joined c = [] ∧ term c = NotBegun.

(** ** The invariant *)

(** The thread that left last. *)
Definition thread_of (l : list nat) : Z :=
  match l with [] => 0%Z | w :: _ => Z.of_nat w end.

(** Each of [ls] joins the one after it, the last the first of [gs]. *)
Fixpoint chained (m : gmap nat wstate) (ls gs : list nat) : Prop :=
  match ls with
  | [] => True
  | w :: ls => m !! w = Some (Leaving (thread_of (ls ++ gs))) ∧ chained m ls gs
  end.

(** [n] threads are counted that do not exist; [rs] run, [ls] are leaving and [gs]
    are gone, in the order they left, latest first; of those all but the first have
    been joined. *)
Record pinv (n : Z) (c : psys) (rs ls gs : list nat) : Prop := {
  pi_nodup : NoDup (rs ++ ls ++ gs);
  pi_addr : Forall tid_ok (rs ++ ls ++ gs);
  pi_dom w : is_Some (workers c !! w) ↔ w ∈ rs ++ ls ++ gs;
  pi_run w : w ∈ rs → workers c !! w = Some Running;
  pi_chain : chained (workers c) ls gs;
  pi_gone w : w ∈ gs → workers c !! w = Some Gone;
  pi_pool : ∃ p, pool (pst c) = Some p ∧ nthreads p = (n + Z.of_nat (length rs))%Z ∧
    tid p = thread_of (ls ++ gs);
  pi_caller d : caller (term c) = Some d → workers c !! d = None;
  pi_n : (0 ≤ n < 2 ^ 63)%Z;
  pi_joined : Z.of_nat <$> gs = join (thread_of gs) (joined c);
}.

Lemma chained_insert m ls gs w v :
  w ∉ ls → chained m ls gs → chained (<[w := v]> m) ls gs.
Proof.
  induction ls as [|x ls IH]; simpl; [done|]. intros Hw [E1 E2].
  apply not_elem_of_cons in Hw as [Hw1 Hw2]. split; [by rewrite lookup_insert_ne|auto].
Qed.

Lemma chained_last m ls gs w prev :
  chained m ls gs → NoDup ls → m !! w = Some (Leaving prev) → w ∈ ls →
  ∃ l1 l2, ls = l1 ++ w :: l2 ∧ prev = thread_of (l2 ++ gs).
Proof.
  induction ls as [|x ls IH]; simpl; [by intros _ _ _ ?%elem_of_nil|].
  intros [E1 E2] Hnd Hw Hin. apply NoDup_cons in Hnd as [Hx Hnd].
  destruct (decide (w = x)) as [->|Hne].
  - rewrite Hw in E1. injection E1 as ->. by exists [], ls.
  - apply elem_of_cons in Hin as [?|Hin]; [done|].
    destruct (IH E2 Hnd Hw Hin) as (l1 & l2 & -> & ->). by exists (x :: l1), l2.
Qed.

Lemma chained_app m l1 l2 gs : chained m (l1 ++ l2) gs → chained m l1 (l2 ++ gs) ∧ chained m l2 gs.
Proof.
  induction l1 as [|x l1 IH]; simpl; [done|]. intros [E1 E2%IH]. rewrite <- (assoc_L (++)) in E1.
  naive_solver.
Qed.

Lemma chained_leaving m ls gs w : chained m ls gs → w ∈ ls → ∃ p, m !! w = Some (Leaving p).
Proof.
  induction ls as [|x ls IH]; simpl; [by intros _ ?%elem_of_nil|].
  intros [E1 E2] [->|Hw]%elem_of_cons; eauto.
Qed.

Lemma pinit_inv n c : pinit n c → pinv n c [] [] [].
Proof.
  intros (size & Hp & _ & Hn & Hw & Hj & Ht). constructor; try done.
  - constructor.
  - intros w. rewrite Hw, lookup_empty. split; [by intros []|by intros ?%elem_of_nil].
  - by intros w ?%elem_of_nil.
  - by intros w ?%elem_of_nil.
  - eexists. split; [done|]. simpl. split; [lia|done].
  - by rewrite Ht.
Qed.

Lemma tid_length ws : NoDup ws → Forall tid_ok ws → (Z.of_nat (length ws) < 2 ^ 63)%Z.
Proof.
  intros Hnd Hok. assert (length (Z.of_nat <$> ws) ≤ length (seqZ 1 (2 ^ 63 - 1))) as Hle.
  { apply submseteq_length, NoDup_submseteq; [by apply NoDup_fmap; [apply _|]|].
    intros x (w & -> & Hw)%list_elem_of_fmap. rewrite Forall_forall in Hok.
    specialize (Hok w Hw). unfold tid_ok in Hok. apply elem_of_seqZ. lia. }
  rewrite length_fmap, length_seqZ in Hle. lia.
Qed.
Lemma running_length n rs ls gs :
  (0 ≤ n < 2 ^ 63)%Z → NoDup (rs ++ ls ++ gs) → Forall tid_ok (rs ++ ls ++ gs) →
  (n + Z.of_nat (length rs) < 2 ^ 64)%Z.
Proof.
  intros Hn [Hnd _]%NoDup_app [Hok _]%Forall_app. pose proof (tid_length rs Hnd Hok). lia.
Qed.

Lemma increase_inv n c w rs ls gs s :
  pinv n c rs ls gs → workers c !! w = None → tid_ok w → caller (term c) ≠ Some w →
  thrdpool_increase (pst c) = Done (0%Z, s) →
  pinv n (PSys s (<[w := Running]> (workers c)) (joined c) (term c)) (w :: rs) ls gs.
Proof.
  intros [Hnd Hok Hdom Hrun Hch Hg (p & Hp & Hn & Ht) Hcl Hn0 Hj] Hw Ha Hne Hinc.
  assert (w ∉ rs ++ ls ++ gs) as Hnew.
  { intros [v Hv]%Hdom. congruence. }
  assert (∃ p', pool s = Some p' ∧ nthreads p' = u64 (nthreads p + 1) ∧ tid p' = tid p)
    as (p' & Hp' & Hn' & Ht').
  { unfold thrdpool_increase in Hinc. rewrite pthread_bnd in Hinc.
    destruct (pthread_result PAttrInit (pst c) =? 0)%Z eqn:E1; cycle 1.
    { rewrite ret_bnd, E1, modify_bnd in Hinc. done. }
    rewrite bnd_assoc, (set_stack_bnd _ _ p) in Hinc by done.
    rewrite bnd_assoc, pthread_bnd in Hinc.
    destruct (pthread_result PCreate _ =? 0)%Z eqn:E2.
    - rewrite bnd_assoc, (pool_set_bnd _ _ _ p) in Hinc by done.
      rewrite bnd_assoc, pthread_bnd, ret_bnd, E2 in Hinc. injection Hinc as <-. by eexists.
    - rewrite bnd_assoc, ret_bnd, bnd_assoc, pthread_bnd, ret_bnd, E2, modify_bnd in Hinc. done. }
  assert (NoDup ((w :: rs) ++ ls ++ gs)) as Hnd2 by (simpl; by constructor).
  assert (Forall tid_ok ((w :: rs) ++ ls ++ gs)) as Hok2 by (simpl; by constructor).
  pose proof (running_length _ _ _ _ Hn0 Hnd2 Hok2) as Hlen. simpl in Hlen.
  constructor; simpl; [done|done| | | | | | |done|done].
  - intros x. rewrite lookup_insert_is_Some', Hdom. set_solver.
  - intros x [->|Hx]%elem_of_cons; [by rewrite lookup_insert_eq|].
    rewrite lookup_insert_ne; [by apply Hrun|]. intros ->. apply Hnew. set_solver.
  - apply chained_insert; [|done]. set_solver.
  - intros x Hx. rewrite lookup_insert_ne; [by apply Hg|]. intros ->. apply Hnew. set_solver.
  - exists p'. split; [done|]. split; [|by rewrite Ht']. rewrite Hn', Hn, u64_small; lia.
  - intros d Hd. rewrite lookup_insert_ne; [by apply Hcl|congruence].
Qed.

Lemma leave_inv n c w rs1 rs2 ls gs prev s :
  pinv n c (rs1 ++ w :: rs2) ls gs → exit_locked w (pst c) = Done (prev, s) →
  pinv n (PSys s (<[w := Leaving prev]> (workers c)) (joined c) (term c))
    (rs1 ++ rs2) (w :: ls) gs.
Proof.
  intros [Hnd Hok Hdom Hrun Hch Hg (p & Hp & Hn & Ht) Hcl Hn0 Hj] Hex.
  assert (Permutation ((rs1 ++ w :: rs2) ++ ls ++ gs) ((rs1 ++ rs2) ++ (w :: ls) ++ gs)) as HP.
  { rewrite <- !(assoc_L (++)). apply Permutation_app_head. simpl.
    by rewrite Permutation_middle. }
  pose proof (running_length _ _ _ _ Hn0 Hnd Hok) as Hlen. rewrite length_app in Hlen, Hn. simpl in *.
  assert (prev = tid p ∧ ∃ p', pool s = Some p' ∧ nthreads p' = u64 (nthreads p - 1) ∧
            tid p' = Z.of_nat w) as (-> & p' & Hp' & Hn' & Ht').
  { unfold exit_locked in Hex. rewrite (pool_get_bnd _ _ _ p), (pool_set_bnd _ _ _ p) in Hex by done.
    erewrite pool_set_bnd, pool_get_bnd, pool_get_bnd in Hex by done.
    destruct (_ && _); [rewrite pcall_bnd in Hex|rewrite ret_bnd in Hex];
      unfold ret in Hex; simplify_eq/=; (split; [done|]); by eexists. }
  assert (w ∉ (rs1 ++ rs2) ++ ls ++ gs) as Hnew.
  { rewrite <- Permutation_middle in Hnd. by apply NoDup_cons in Hnd as [? _]. }
  assert (is_Some (workers c !! w)) as [v Hv] by (apply Hdom; set_solver).
  constructor; simpl; [by rewrite <- HP|by rewrite <- HP| | | | | | |done|done].
  - intros x. rewrite lookup_insert_is_Some', Hdom. rewrite HP. set_solver.
  - intros x Hx. rewrite lookup_insert_ne; [apply Hrun; set_solver|]. intros ->. set_solver.
  - rewrite lookup_insert_eq, Ht. split; [done|]. apply chained_insert; [|done]. set_solver.
  - intros x Hx. rewrite lookup_insert_ne; [by apply Hg|]. intros ->. set_solver.
  - exists p'. split; [done|]. split; [|done]. rewrite Hn', Hn, length_app, u64_small; lia.
  - intros d Hd%Hcl. rewrite lookup_insert_ne; congruence.
Qed.

Lemma of_nat_ne0 n c rs ls gs w :
  pinv n c rs ls gs → w ∈ rs ++ ls ++ gs → Z.of_nat w ≠ 0%Z.
Proof.
  intros Hi Hw. pose proof (pi_addr _ _ _ _ _ Hi) as Hok. rewrite Forall_forall in Hok.
  specialize (Hok w Hw). unfold tid_ok in Hok. lia.
Qed.

(** Only a thread that is gone can be joined. *)
Lemma can_join_gone n c rs ls gs l :
  pinv n c rs ls gs → (∀ x, x ∈ l → x ∈ ls) → can_join c (thread_of (l ++ gs)) → l = [].
Proof.
  intros Hi Hl Hc. destruct l as [|x l]; [done|]. exfalso. simpl in Hc.
  assert (x ∈ ls) as Hx by (apply Hl; by left). destruct Hc as [Hc|(w & Hc & Hw)].
  - eapply of_nat_ne0; [exact Hi| |exact Hc]. set_solver.
  - apply Nat2Z.inj in Hc as <-.
    destruct (chained_leaving _ _ _ _ (pi_chain _ _ _ _ _ Hi) Hx) as [p Hp]. congruence.
Qed.

Lemma join_inv n c w ls gs rs prev :
  pinv n c rs ls gs → workers c !! w = Some (Leaving prev) → can_join c prev →
  ∃ l1, ls = l1 ++ [w] ∧
    pinv n (PSys (pst c) (<[w := Gone]> (workers c)) (join prev (joined c)) (term c))
      rs l1 (w :: gs).
Proof.
  intros Hi Hw Hc. pose proof Hi as [Hnd Hok Hdom Hrun Hch Hg Hp Hcl Hn0 Hj].
  assert (w ∈ ls) as Hin.
  { assert (w ∈ rs ++ ls ++ gs) as [H|[H|H]%elem_of_app]%elem_of_app by (apply Hdom; by eexists);
      [apply Hrun in H; congruence|done|apply Hg in H; congruence]. }
  assert (NoDup ls) as Hndl by by apply NoDup_app in Hnd as (_ & _ & [? _]%NoDup_app).
  destruct (chained_last _ _ _ _ _ Hch Hndl Hw Hin) as (l1 & l2 & -> & ->).
  assert (l2 = []) as -> by (eapply can_join_gone; [exact Hi|set_solver|exact Hc]).
  exists l1. split; [done|]. simpl in *.
  assert (rs ++ (l1 ++ [w]) ++ gs = rs ++ l1 ++ w :: gs) as Eapp by by rewrite <- (assoc_L (++)).
  rewrite Eapp in Hnd, Hok.
  assert ((w ∉ rs) ∧ (w ∉ l1) ∧ (w ∉ gs)) as (H1 & H2 & H3).
  { rewrite (assoc_L (++)) in Hnd. apply NoDup_app_remove_mid in Hnd. set_solver. }
  constructor; simpl; [done|done| | | | | | |done|].
  - intros x. rewrite lookup_insert_is_Some', Hdom, Eapp. set_solver.
  - intros x Hx. rewrite lookup_insert_ne; [by apply Hrun|]. intros ->. done.
  - apply chained_insert; [done|]. by apply chained_app in Hch as [? _].
  - intros x [->|Hx]%elem_of_cons; [by rewrite lookup_insert_eq|].
    rewrite lookup_insert_ne; [by apply Hg|]. by intros ->.
  - by rewrite <- (assoc_L (++)) in Hp.
  - intros d Hd%Hcl. rewrite lookup_insert_ne; congruence.
  - rewrite <- Hj. unfold join. rewrite (proj2 (Z.eqb_neq (Z.of_nat w) 0)); [done|].
    eapply of_nat_ne0; [exact Hi|]. set_solver.
Qed.

(** Termination begins: from outside, or by the thread [w] of the pool, which is no
    longer counted nor joined. *)
Lemma terminate_begin_run me b s s' p :
  pool s = Some p → terminate_begin me b s = Done (tt, s') →
  ∃ p', pool s' = Some p' ∧ tid p' = tid p ∧
    nthreads p' = if b then u64 (nthreads p - 1) else nthreads p.
Proof.
  intros Hp Er. unfold terminate_begin in Er.
  apply bnd_done_inv in Er as ([] & s1 & E1 & Er).
  unfold onq, zoom in E1. destruct (msgqueue_set_nonblock me _) as [[[] q]| | |]; [|done..].
  injection E1 as <-. rewrite (pool_set_bnd _ _ _ p) in Er by done. destruct b.
  - rewrite pthread_bnd in Er. unfold pool_set in Er. simpl in Er. injection Er as <-. by eexists.
  - injection Er as <-. by eexists.
Qed.

Lemma begin_inv n c me rs ls gs s :
  pinv n c rs ls gs → workers c !! me = None → terminate_begin me false (pst c) = Done (tt, s) →
  pinv n (PSys s (workers c) (joined c) (Waiting None)) rs ls gs.
Proof.
  intros [Hnd Hok Hdom Hrun Hch Hg (p & Hp & Hn & Ht) Hcl Hn0 Hj] Hme Er.
  destruct (terminate_begin_run _ _ _ _ _ Hp Er) as (p' & Hp' & Ht' & Hn').
  constructor; simpl; try done. exists p'. by rewrite Ht', Hn'.
Qed.

Lemma chained_delete m ls gs w : w ∉ ls → chained m ls gs → chained (delete w m) ls gs.
Proof.
  induction ls as [|x ls IH]; simpl; [done|]. intros Hw [E1 E2].
  apply not_elem_of_cons in Hw as [Hw1 Hw2]. split; [by rewrite lookup_delete_ne|auto].
Qed.

Lemma begin_in_inv n c me rs1 rs2 ls gs s :
  pinv n c (rs1 ++ me :: rs2) ls gs → terminate_begin me true (pst c) = Done (tt, s) →
  pinv n (PSys s (delete me (workers c)) (joined c) (Waiting (Some me))) (rs1 ++ rs2) ls gs.
Proof.
  intros [Hnd Hok Hdom Hrun Hch Hg (p & Hp & Hn & Ht) Hcl Hn0 Hj] Er.
  destruct (terminate_begin_run _ _ _ _ _ Hp Er) as (p' & Hp' & Ht' & Hn').
  assert ((rs1 ++ me :: rs2) ++ ls ++ gs ≡ₚ me :: (rs1 ++ rs2) ++ ls ++ gs) as HP
    by (by rewrite <- Permutation_middle).
  pose proof (running_length _ _ _ _ Hn0 Hnd Hok) as Hlen. rewrite length_app in Hlen, Hn. simpl in *.
  rewrite HP in Hnd, Hok. apply NoDup_cons in Hnd as [Hme Hnd]. apply Forall_cons in Hok as [_ Hok].
  constructor; simpl; [done|done| | | | | | |done|done].
  - intros x. rewrite lookup_delete_is_Some, Hdom, HP. set_solver.
  - intros x Hx. rewrite lookup_delete_ne; [apply Hrun; set_solver|]. intros ->. set_solver.
  - apply chained_delete; [|done]. set_solver.
  - intros x Hx. rewrite lookup_delete_ne; [by apply Hg|]. intros ->. set_solver.
  - exists p'. split; [done|]. split; [|by rewrite Ht'].
    rewrite Hn', Hn, length_app, u64_small; lia.
  - intros d [= <-]. apply lookup_delete_eq.
Qed.

(** The wait ends when no thread is counted and the last to leave can be joined. *)
Lemma return_inv n c rs ls gs s p :
  pinv n c rs ls gs → pool (pst c) = Some p → can_join c (tid p) →
  terminate_wait (pst c) = Done (tt, s) →
  n = 0%Z ∧ rs = [] ∧ ls = [] ∧ join (tid p) (joined c) = Z.of_nat <$> gs.
Proof.
  intros Hi Hp Hc Er. pose proof Hi as [Hnd Hok Hdom Hrun Hch Hg (p' & Hp' & Hn & Ht) Hcl Hn0 Hj].
  assert (p' = p) as -> by congruence.
  unfold terminate_wait in Er. rewrite (pool_get_bnd _ _ _ p) in Er by done.
  destruct (0 <? nthreads p)%Z eqn:E0; [done|]. apply Z.ltb_ge in E0.
  assert (rs = []) as -> by (destruct rs; [done|simpl in Hn; lia]).
  assert (ls = []) as -> by (eapply can_join_gone; [exact Hi|done|by rewrite <- Ht]).
  simpl in Hn, Ht. rewrite Ht, Hj. split_and!; [lia|done..].
Qed.

(** Terminated: the pool had no threads that do not exist; every thread is gone and
    has been joined, once, but for a thread of the pool that terminated it. *)
Definition all_joined (n : Z) (c : psys) : Prop :=
  n = 0%Z ∧ (∀ w st, workers c !! w = Some st → st = Gone) ∧ NoDup (joined c) ∧
  (∀ t, t ∈ joined c ↔ ∃ w, t = Z.of_nat w ∧ is_Some (workers c !! w)) ∧
  (∀ d, caller (term c) = Some d → workers c !! d = None).

Definition pgood (n : Z) (c : psys) : Prop :=
  if returned (term c) then all_joined n c else ∃ rs ls gs, pinv n c rs ls gs.

Lemma pgood_open n c rs ls gs : returned (term c) = false → pinv n c rs ls gs → pgood n c.
Proof. intros H Hi. unfold pgood. rewrite H. by exists rs, ls, gs. Qed.

Lemma running_in n c rs ls gs w :
  pinv n c rs ls gs → workers c !! w = Some Running → ∃ rs1 rs2, rs = rs1 ++ w :: rs2.
Proof.
  intros Hi Hw.
  assert (w ∈ rs ++ ls ++ gs) as [H|[H|H]%elem_of_app]%elem_of_app
    by (apply (pi_dom _ _ _ _ _ Hi); by eexists); [by apply list_elem_of_split| |].
  - destruct (chained_leaving _ _ _ _ (pi_chain _ _ _ _ _ Hi) H). congruence.
  - apply (pi_gone _ _ _ _ _ Hi) in H. congruence.
Qed.

Lemma pstep_good n c c' : pgood n c → pstep c c' → pgood n c'.
Proof.
  unfold pgood at 1. destruct (returned (term c)) eqn:Hr.
  - intros (_ & Hall & _) [w s H1 H2 H3 H4|w prev s H1 H2|w prev H1 H2|me s H1 H2 H3|me s H1 H2 H3
      |d s p H1 H2 H3 H4]; try (by rewrite H1 in Hr);
      first [congruence|by apply Hall in H1].
  - intros (rs & ls & gs & Hi) [w s H1 H2 H3 H4|w prev s H1 H2|w prev H1 H2|me s H1 H2 H3|me s H1 H2 H3
      |d s p H1 H2 H3 H4].
    + eapply pgood_open; [done|]. by eapply increase_inv.
    + destruct (running_in _ _ _ _ _ _ Hi H1) as (rs1 & rs2 & ->).
      eapply pgood_open; [done|]. by eapply leave_inv.
    + destruct (join_inv _ _ _ _ _ _ _ Hi H1 H2) as (l1 & _ & Hi'). by eapply pgood_open.
    + eapply pgood_open; [done|]. by eapply begin_inv.
    + destruct (running_in _ _ _ _ _ _ Hi H2) as (rs1 & rs2 & ->).
      eapply pgood_open; [done|]. by eapply begin_in_inv.
    + destruct (return_inv _ _ _ _ _ _ _ Hi H2 H3 H4) as (Hn & -> & -> & Hj).
      destruct Hi as [Hnd Hok Hdom Hrun Hch Hg _ Hcl _ _]. simpl in *.
      split_and!; simpl; rewrite ?Hj; [done| | | |].
      * intros w st Hw. assert (w ∈ gs) as Hin by (apply Hdom; by eexists).
        apply Hg in Hin. congruence.
      * by apply NoDup_fmap; [apply _|].
      * intros t. rewrite list_elem_of_fmap. setoid_rewrite Hdom. done.
      * rewrite H1 in Hcl. exact Hcl.
Qed.

Lemma reachable_good n c0 c : pinit n c0 → rtc pstep c0 c → pgood n c.
Proof.
  intros Hi Hr. assert (pgood n c0) as Hg.
  { eapply (pgood_open _ _ [] [] []); [|by apply pinit_inv].
    by destruct Hi as (? & _ & _ & _ & _ & _ & ->). }
  clear Hi. induction Hr; eauto using pstep_good.
Qed.

(** When [__thrdpool_terminate] returns, every thread of the pool has left it and
    has been joined exactly once. *)
Lemma terminate_joins n c0 c d :
  pinit n c0 → rtc pstep c0 c → term c = Returned d → all_joined n c.
Proof.
  intros Hi Hr Ht. pose proof (reachable_good _ _ _ Hi Hr) as Hc. unfold pgood in Hc.
  by rewrite Ht in Hc.
Qed.

(** *** Termination is possible *)

Lemma exit_total w s p : pool s = Some p → ∃ prev s', exit_locked w s = Done (prev, s').
Proof.
  intros Hp. unfold exit_locked. rewrite (pool_get_bnd _ _ _ p), (pool_set_bnd _ _ _ p) by done.
  erewrite pool_set_bnd, pool_get_bnd, pool_get_bnd by done.
  destruct (_ && _); [rewrite pcall_bnd|rewrite ret_bnd]; by eexists _, _.
Qed.

(** The threads that run leave one after the other, those that leave are joined, and
    the wait ends. *)
Lemma drain_pool k : ∀ c rs ls gs d,
  pinv 0 c rs ls gs → term c = Waiting d → 2 * length rs + length ls = k →
  ∃ c', rtc pstep c c' ∧ term c' = Returned d.
Proof.
  induction (lt_wf k) as [k _ IH]. intros c rs ls gs d Hi Ht Hk.
  pose proof Hi as [Hnd Hok Hdom Hrun Hch Hg (p & Hp & Hn & Htid) _ _ _].
  destruct rs as [|w rs].
  - destruct ls as [|w ls _] using rev_ind.
    + assert (∃ s, terminate_wait (pst c) = Done (tt, s)) as [s Hs].
      { unfold terminate_wait. rewrite (pool_get_bnd _ _ _ p) by done. rewrite Hn. simpl.
        rewrite (pool_get_bnd _ _ _ p) by done. destruct (negb _); by eexists. }
      eexists. split; [eapply rtc_once, (LReturn c d _ p); [done|done| |done]|done].
      rewrite Htid. simpl. destruct gs as [|g gs]; [by left|right].
      exists g. split; [done|]. apply Hg. by left.
    + apply chained_app in Hch as [_ [Hw _]]. simpl in Hw.
      assert (can_join c (thread_of gs)) as Hj.
      { destruct gs as [|g gs]; [by left|right]. exists g. split; [done|]. apply Hg. by left. }
      destruct (join_inv _ _ _ _ _ _ _ Hi Hw Hj) as (l1 & El & Hi').
      apply app_inj_tail in El as [<- _]. rewrite length_app in Hk. simpl in Hk.
      destruct (IH (length ls) ltac:(lia) _ _ _ _ d Hi' Ht ltac:(simpl; lia)) as (c' & Hr & Er).
      exists c'. split; [|done]. eapply rtc_l; [by eapply LJoin|done].
  - destruct (exit_total w _ _ Hp) as (prev & s & Er).
    assert (workers c !! w = Some Running) as Hw by (apply Hrun; by left).
    pose proof (leave_inv _ _ w [] rs _ _ _ _ Hi Er) as Hi'. simpl in Hk, Hi'.
    destruct (IH (2 * length rs + length (w :: ls)) ltac:(simpl; lia) _ _ _ _ d Hi' Ht eq_refl)
      as (c' & Hr & Ec).
    exists c'. split; [|done]. eapply rtc_l; [by eapply LLeave|done].
Qed.

(** The wait can end exactly when the pool counts no thread that does not exist. *)
Lemma terminate_progress n c0 c d :
  pinit n c0 → rtc pstep c0 c → term c = Waiting d →
  (∃ c', rtc pstep c c' ∧ term c' = Returned d) ↔ n = 0%Z.
Proof.
  intros Hi Hr Ht. split.
  - intros (c' & Hr' & Ht'). eapply terminate_joins; [done|by etrans|done].
  - intros ->. pose proof (reachable_good _ _ _ Hi Hr) as Hc. unfold pgood in Hc.
    rewrite Ht in Hc. destruct Hc as (rs & ls & gs & Hinv). by eapply drain_pool.
Qed.
End protocol.
