(* ===== verification/SubTask.v ===== *)
(** subtask.cc: series and parallel tasks. *)
From S2P Require Export Prelude.

(** A [SubTask] by address: its [parent], and for a [ParallelTask] the array
    [subtasks], its length field and the counter. [pointer] is the client's: no code
    of the program reads it. *)
Record subtask : Type := SubTask {
  parent : ptr;
  subtasks : option (list positive);
  subtasks_nr : Z;
  nleft : Z;
}.

Definition set_parent (p : ptr) (t : subtask) : subtask :=
  SubTask p (subtasks t) (subtasks_nr t) (nleft t).
Definition set_nleft (n : Z) (t : subtask) : subtask :=
  SubTask (parent t) (subtasks t) (subtasks_nr t) n.

(** The virtual calls, latest first. *)
Inductive tevent : Type :=
| Dispatched (t : loc)
| Finished (t : loc).

Record ststate : Type := STState {
  store : gmap positive subtask;
  events : list tevent;
}.

(** The classes of the client: the task [done] returns, and whether the work that
    the [dispatch] of a task starts completes before [dispatch] returns (it calls
    [subtask_done] itself) or later. *)
Class Tasks : Type := {
  next_task : loc → ptr;
  at_once : loc → bool;
}.

Definition tget {A} (f : subtask → A) (p : ptr) : M ststate A := λ s,
  match p with
  | None => UB
  | Some l => match store s !! l with Some t => Done (f t, s) | None => UB end
  end.
Definition tset (f : subtask → subtask) (p : ptr) : M ststate unit := λ s,
  match p with
  | None => UB
  | Some l =>
      match store s !! l with
      | Some t => Done (tt, STState (<[l := f t]> (store s)) (events s))
      | None => UB
      end
  end.
Definition tevent_ (e : tevent) : M ststate unit :=
  modify (λ s, STState (store s) (e :: events s)).

(** The constructors: [SubTask()] and [ParallelTask(subtasks, n)], whose [nleft]
    is left as the memory was. *)
Definition new_subtask : subtask := SubTask None None 0 0.
Definition new_parallel (ts : list positive) (n junk : Z) : subtask := SubTask None (Some ts) n junk.

(** [dispatch] and [subtask_done] call each other. *)
Inductive job : Type :=
| JDispatch (t : ptr)
| JDone (t : ptr).

Section tasks.
Context `{Tasks}.

(** [cur->done()] *)
Definition done (cur : ptr) : M ststate ptr :=
  match cur with
  | None => ub
  | Some t => tevent_ (Finished t) ;;; ret (next_task t)
  end.

(** One turn of the loop of [SubTask::subtask_done]; [again] runs the rest. *)
Definition subtask_done_body (again : job → M ststate unit) (cur : ptr) : M ststate unit :=
  let* par := tget parent cur in
  let* cur := done cur in
  if nonnull cur then
    tset (set_parent par) cur ;;;
    again (JDispatch cur)
  else if nonnull par then
    tset (λ p, set_nleft (u64 (nleft p - 1)) p) par ;;;
    let* n := tget nleft par in
    if (n =? 0)%Z then again (JDone par) else ret tt
  else ret tt.

(** The [do]-loop of [ParallelTask::dispatch]. *)
Fixpoint dispatch_loop (again : job → M ststate unit) (this : ptr) (ps : list positive) :
    M ststate unit :=
  match ps with
  | [] => ret tt
  | p :: ps =>
    tset (set_parent this) (Some p) ;;;
    again (JDispatch (Some p)) ;;;
    dispatch_loop again this ps
  end.

(** [ParallelTask::dispatch] *)
Definition parallel_dispatch (again : job → M ststate unit) (this : ptr) (ts : list positive) :
    M ststate unit :=
  let* nr := tget subtasks_nr this in
  tset (set_nleft nr) this ;;;
  let* n := tget nleft this in
  if negb (n =? 0)%Z then
    if decide (Z.to_nat nr ≤ length ts) then dispatch_loop again this (take (Z.to_nat nr) ts)
    else ub
  else again (JDone this).

(** The virtual [dispatch]. *)
Definition dispatch_body (again : job → M ststate unit) (this : ptr) : M ststate unit :=
  match this with
  | None => ub
  | Some t =>
    let* ts := tget subtasks this in
    tevent_ (Dispatched t) ;;;
    match ts with
    | Some ts => parallel_dispatch again this ts
    | None => if at_once t then again (JDone this) else ret tt
    end
  end.

Fixpoint run (fuel : nat) (j : job) : M ststate unit :=
  match fuel with
  | O => nofuel
  | S fuel =>
    match j with
    | JDispatch t => dispatch_body (run fuel) t
    | JDone t => subtask_done_body (run fuel) t
    end
  end.

(** A call of [dispatch] runs the [dispatch] of each task, and a call of
    [subtask_done] its [done], at most once. *)
Definition task_bound (s : ststate) : nat := S (2 * size (store s)).

Definition subtask_done (t : ptr) : M ststate unit :=
  bounded task_bound (λ fuel, run fuel (JDone t)).
Definition dispatch (t : ptr) : M ststate unit :=
  bounded task_bound (λ fuel, run fuel (JDispatch t)).
End tasks.
