(* ===== verification/SubTaskSpec.v ===== *)
(** Series and parallel tasks: every task is dispatched and done once, a parallel
    task is done when all its branches are, and nothing is left over. *)
From stdpp Require Export functions.
From S2P Require Export SubTask.

Fixpoint dispatched (es : list tevent) : list loc :=
  match es with
  | [] => []
  | Dispatched t :: es => t :: dispatched es
  | Finished _ :: es => dispatched es
  end.
Fixpoint finished (es : list tevent) : list loc :=
  match es with
  | [] => []
  | Finished t :: es => t :: finished es
  | Dispatched _ :: es => finished es
  end.

Section spec.
Context `{Tasks}.

(** The subtasks of a parallel task. *)
Definition kids (h : gmap positive subtask) (p : loc) : list loc :=
  match h !! p with Some t => default [] (subtasks t) | None => [] end.
Definition parallel (h : gmap positive subtask) (p : loc) : Prop :=
  ∃ t ts, h !! p = Some t ∧ subtasks t = Some ts.

(** [t] is in the series of a branch of [p]. *)
Inductive branch (h : gmap positive subtask) (p : loc) : loc → Prop :=
| branch_kid t : t ∈ kids h p → branch h p t
| branch_next t u : branch h p t → next_task t = Some u → branch h p u.

(** A well-formed graph of tasks that starts at [root]: [own t] is the parallel task
    [t] is in a branch of. *)
Record graph (h : gmap positive subtask) (own : loc → ptr) (root : loc) : Prop := {
  gr_root : own root = None ∧ is_Some (h !! root);
  gr_root_first t : next_task t ≠ Some root;
  gr_kid p t : t ∈ kids h p → own t = Some p ∧ is_Some (h !! t);
  gr_next t u : next_task t = Some u → own u = own t ∧ (is_Some (h !! t) → is_Some (h !! u));
  gr_one_next t t' u : next_task t = Some u → next_task t' = Some u → t = t';
  gr_next_kid t u p : next_task t = Some u → u ∉ kids h p;
  gr_nodup p : NoDup (kids h p);
  gr_size p t ts : h !! p = Some t → subtasks t = Some ts →
    subtasks_nr t = Z.of_nat (length ts) ∧ (Z.of_nat (length ts) < 2 ^ 64)%Z;
}.

Lemma branch_own h own root p t : graph h own root → branch h p t → own t = Some p.
Proof.
  intros Hg. induction 1 as [t Ht|t u _ IH Hn]; [by apply (gr_kid _ _ _ Hg)|].
  apply (gr_next _ _ _ Hg) in Hn as [-> _]. done.
Qed.

(** The tasks that run: dispatched and not yet done. *)
Definition active (s : ststate) (t : loc) : Prop :=
  t ∈ dispatched (events s) ∧ t ∉ finished (events s).
Definition child (own : loc → ptr) (fs : list loc) (p t : loc) : Prop :=
  own t = Some p ∧ t ∉ fs.
#[export] Instance child_dec own fs p t : Decision (child own fs p t).
Proof. unfold child. apply _. Defined.
(** The tasks that run with parent [p], when [ds] are dispatched and [fs] done. *)
Definition children (own : loc → ptr) (ds fs : list loc) (p : loc) : list loc :=
  filter (child own fs p) ds.

(** [todo q]: the tasks that the code is about to dispatch with parent [q]. *)
Definition seen (ds : list loc) (todo : ptr → list loc) (t : loc) : Prop :=
  t ∈ ds ∨ ∃ q, t ∈ todo q.

(** The invariant of the code between two virtual calls, with the tasks [ds]
    dispatched and [fs] done. [exc] is a parallel task without running branches. *)
Record sinv_at (h : gmap positive subtask) (own : loc → ptr) (root : loc) (ds fs : list loc)
    (todo : ptr → list loc) (exc : ptr) : Prop := {
  si_graph : graph h own root;
  si_dispatched : NoDup ds;
  si_finished : NoDup fs;
  si_sub t : t ∈ fs → t ∈ ds;
  si_alloc t : t ∈ ds → is_Some (h !! t);
  si_todo q : NoDup (todo q);
  si_due q t : t ∈ todo q → (t ∉ ds) ∧ own t = q ∧ is_Some (h !! t);
  si_parent t : t ∈ ds → parent <$> h !! t = Some (own t);
  si_up t p : seen ds todo t → t ∉ fs → own t = Some p → p ∈ ds ∧ (p ∉ fs) ∧ parallel h p;
  si_next t u : next_task t = Some u → seen ds todo u → t ∈ fs;
  si_next_seen t u : t ∈ fs → next_task t = Some u → seen ds todo u;
  si_kid p t : t ∈ kids h p → seen ds todo t → p ∈ ds;
  si_kid_seen p t : p ∈ ds → t ∈ kids h p → seen ds todo t;
  si_count p t : h !! p = Some t → parallel h p → p ∈ ds → p ∉ fs →
    nleft t = Z.of_nat (length (children own ds fs p) + length (todo (Some p)));
  si_left p t : h !! p = Some t → parallel h p → p ∈ ds → p ∉ fs → exc ≠ Some p →
    (0 < nleft t)%Z;
  si_bound p t : h !! p = Some t → parallel h p → p ∈ ds → p ∉ fs →
    (nleft t ≤ Z.of_nat (length (kids h p)))%Z;
  si_done p t : p ∈ fs → branch h p t → t ∈ fs;
}.
Definition sinv (own : loc → ptr) (root : loc) (s : ststate) (todo : ptr → list loc)
    (exc : ptr) : Prop :=
  sinv_at (store s) own root (dispatched (events s)) (finished (events s)) todo exc.

Lemma sinv_ext h own root ds fs todo todo' exc :
  (∀ q, todo' q = todo q) → sinv_at h own root ds fs todo exc →
  sinv_at h own root ds fs todo' exc.
Proof.
  intros E []. assert (∀ t, seen ds todo' t ↔ seen ds todo t) as Hs.
  { intros t. unfold seen. setoid_rewrite E. done. }
  constructor; try done; try (intros *; rewrite ?E; eauto; fail);
    intros *; rewrite ?Hs; eauto.
Qed.

(** Changes of the fields [parent] and [nleft] that the invariant does not see. *)
Record same_graph (h h' : gmap positive subtask) : Prop := {
  sg_dom t : is_Some (h' !! t) ↔ is_Some (h !! t);
  sg_static t : (λ x, (subtasks x, subtasks_nr x)) <$> h' !! t =
                (λ x, (subtasks x, subtasks_nr x)) <$> h !! t;
}.

Lemma same_graph_insert h l t f :
  h !! l = Some t → subtasks (f t) = subtasks t → subtasks_nr (f t) = subtasks_nr t →
  same_graph h (<[l := f t]> h).
Proof.
  intros Hl E1 E2. split; intros x; destruct (decide (x = l)) as [->|Hx].
  - rewrite lookup_insert_eq, Hl. split; by eexists.
  - by rewrite lookup_insert_ne.
  - rewrite lookup_insert_eq, Hl. simpl. by rewrite E1, E2.
  - by rewrite lookup_insert_ne.
Qed.

Section same_graph.
Context (h h' : gmap positive subtask) (Hs : same_graph h h').

Lemma same_kids p : kids h' p = kids h p.
Proof.
  pose proof (sg_static _ _ Hs p) as E. unfold kids.
  destruct (h !! p), (h' !! p); simpl in E; congruence.
Qed.
Lemma same_parallel p : parallel h' p ↔ parallel h p.
Proof.
  pose proof (sg_static _ _ Hs p) as E. unfold parallel.
  destruct (h !! p) as [x|], (h' !! p) as [y|]; simpl in E; try done.
  injection E as E _. split; intros (t & ts & [= <-] & Ht); eexists _, ts; split; try done;
    congruence.
Qed.
Lemma same_branch p t : branch h' p t ↔ branch h p t.
Proof.
  split; induction 1; [|by eapply branch_next| |by eapply branch_next]; apply branch_kid;
    [by rewrite <- same_kids|by rewrite same_kids].
Qed.
Lemma same_graph_ok own root : graph h own root → graph h' own root.
Proof.
  intros []. constructor; try done; intros *; rewrite ?same_kids, ?(sg_dom _ _ Hs); eauto.
  intros E1 E2. pose proof (sg_static _ _ Hs p) as E. rewrite E1 in E. simpl in E.
  destruct (h !! p) as [x|] eqn:Ex; [|done]. simpl in E. injection E as E3 E4.
  rewrite E4. eapply gr_size0; [done|]. congruence.
Qed.
End same_graph.

(** *** Counting the branches that run *)

Lemma children_dispatch own ds fs p t :
  t ∉ fs →
  length (children own (t :: ds) fs p) =
    (if decide (own t = Some p) then 1 else 0) + length (children own ds fs p).
Proof.
  intros Ht. unfold children. rewrite filter_cons. unfold child at 1.
  destruct (decide (own t = Some p ∧ t ∉ fs)), (decide (own t = Some p)); naive_solver.
Qed.

Lemma children_finish_other own ds fs p t :
  own t ≠ Some p → children own ds (t :: fs) p = children own ds fs p.
Proof.
  intros Ht. unfold children. apply list_filter_iff. intros x. unfold child.
  rewrite not_elem_of_cons. naive_solver.
Qed.

Lemma children_finish_out own ds fs p t :
  t ∉ ds → children own ds (t :: fs) p = children own ds fs p.
Proof.
  intros Ht. unfold children. induction ds as [|x ds IH]; [done|].
  apply not_elem_of_cons in Ht as [Hx Ht]. rewrite !filter_cons, IH by done.
  destruct (decide (child own (t :: fs) p x)) as [[? Hc]|Hn], (decide (child own fs p x)) as [[? Hc']|Hn'];
    try done; exfalso.
  - apply Hn'. split; [done|]. by apply not_elem_of_cons in Hc as [_ ?].
  - apply Hn. split; [done|]. by apply not_elem_of_cons.
Qed.

Lemma children_finish own ds fs p t :
  NoDup ds → t ∈ ds → t ∉ fs → own t = Some p →
  length (children own ds fs p) = S (length (children own ds (t :: fs) p)).
Proof.
  intros Hnd Hin Hf Ho. induction ds as [|x ds IH]; [by apply elem_of_nil in Hin|].
  apply NoDup_cons in Hnd as [Hx Hnd]. unfold children. rewrite !filter_cons.
  destruct (decide (x = t)) as [->|Hne].
  - rewrite decide_True by done. rewrite decide_False by (intros [_ []]; by left). simpl. f_equal.
    pose proof (children_finish_out own ds fs p t Hx) as E. unfold children in E. by rewrite E.
  - apply elem_of_cons in Hin as [?|Hin]; [congruence|]. specialize (IH Hnd Hin).
    unfold children in IH.
    destruct (decide (child own fs p x)) as [[? ?]|Hc], (decide (child own (t :: fs) p x)) as [[? ?]|Hc'];
      simpl; try lia; exfalso.
    + apply Hc'. split; [done|]. by apply not_elem_of_cons.
    + apply Hc. split; [done|]. set_solver.
Qed.

Lemma children_nil own ds fs p t :
  children own ds fs p = [] → t ∈ ds → own t = Some p → t ∈ fs.
Proof.
  intros Hc Ht Ho. destruct (decide (t ∈ fs)) as [|Hf]; [done|]. exfalso.
  assert (t ∈ children own ds fs p) as Hin by by apply list_elem_of_filter.
  rewrite Hc in Hin. by apply elem_of_nil in Hin.
Qed.

Lemma not_parallel_kids h t : ¬ parallel h t → kids h t = [].
Proof.
  unfold parallel, kids. destruct (h !! t) as [x|]; [|done]. intros Hn.
  destruct (subtasks x) as [ts|] eqn:Ets; [|done]. destruct Hn. by exists x, ts.
Qed.

(** *** Dispatching a task *)

Section dispatch.
Context (h h' : gmap positive subtask) (own : loc → ptr) (root : loc) (ds fs : list loc).
Context (todo : ptr → list loc) (t : loc) (q : ptr) (ts : list loc) (exc : ptr).
Context (Hinv : sinv_at h own root ds fs todo None) (Htodo : todo q = t :: ts).
Context (Hpar : parent <$> h !! t = Some q).
Context (Hsg : same_graph h h') (Hother : ∀ x, x ≠ t → h' !! x = h !! x).
Context (Hpar' : parent <$> h' !! t = Some q).
Context (Hleft : ∀ x, h' !! t = Some x → parallel h t → nleft x = Z.of_nat (length (kids h t))).
Context (Hexc : parallel h t → kids h t = [] → exc = Some t).

Let todo' : ptr → list loc := <[Some t := kids h t]> (<[q := ts]> todo).

Lemma due_facts : (t ∉ ds) ∧ own t = q ∧ is_Some (h !! t) ∧ (t ∉ fs) ∧ (t ∉ ts).
Proof.
  destruct (si_due _ _ _ _ _ _ _ Hinv q t) as (H1 & H2 & H3); [rewrite Htodo; by left|].
  split_and!; try done.
  - intros H4. by apply H1, (si_sub _ _ _ _ _ _ _ Hinv).
  - pose proof (si_todo _ _ _ _ _ _ _ Hinv q) as H4. rewrite Htodo in H4.
    by apply NoDup_cons in H4 as [? _].
Qed.

(** Nothing has [t] as its parallel task yet. *)
Lemma no_branch_yet x : own x = Some t → seen ds todo x → x ∈ fs.
Proof.
  intros Ho Hs. destruct (decide (x ∈ fs)) as [|Hf]; [done|]. exfalso.
  destruct due_facts as (Hd & _). by apply (si_up _ _ _ _ _ _ _ Hinv x t) in Hs as (? & _).
Qed.

Lemma q_ne_t : q ≠ Some t.
Proof.
  intros Eq. destruct due_facts as (Hd & Ho & _ & Hf & _). apply Hf, no_branch_yet; [congruence|].
  right. exists q. rewrite Htodo. by left.
Qed.

Lemma todo_t : todo (Some t) = [].
Proof.
  destruct (todo (Some t)) as [|x l] eqn:E; [done|]. exfalso.
  destruct (si_due _ _ _ _ _ _ _ Hinv (Some t) x) as (H1 & H2 & _); [rewrite E; by left|].
  apply H1, (si_sub _ _ _ _ _ _ _ Hinv), no_branch_yet; [done|]. right. exists (Some t).
  rewrite E. by left.
Qed.

Lemma todo'_spec r x :
  x ∈ todo' r ↔ (r = Some t ∧ x ∈ kids h t) ∨ (x ∈ todo r ∧ x ≠ t).
Proof.
  unfold todo'. destruct (decide (r = Some t)) as [->|Hr].
  - rewrite fn_lookup_insert, todo_t, elem_of_nil. naive_solver.
  - rewrite fn_lookup_insert_ne by done. destruct (decide (r = q)) as [->|Hq].
    + rewrite fn_lookup_insert, Htodo, elem_of_cons. destruct due_facts as (_ & _ & _ & _ & Hts).
      naive_solver.
    + rewrite fn_lookup_insert_ne by done. split; [|naive_solver]. intros Hx. right. split; [done|].
      intros ->. apply Hq. destruct due_facts as (_ & Ho & _).
      destruct (si_due _ _ _ _ _ _ _ Hinv r t Hx) as (_ & ? & _). congruence.
Qed.

Lemma kid_unseen x : x ∈ kids h t → ¬ seen ds todo x.
Proof. intros Hk Hs. destruct due_facts as (Hd & _). by eapply Hd, si_kid. Qed.

Lemma seen'_spec x : seen (t :: ds) todo' x ↔ seen ds todo x ∨ x ∈ kids h t.
Proof.
  unfold seen. setoid_rewrite todo'_spec. rewrite elem_of_cons. split.
  - intros [[->|Hx]|(r & [[-> Hx]|[Hx _]])]; [left; right|by left; left|by right|left; right; by exists r].
    exists q. rewrite Htodo. by left.
  - intros [[Hx|[r Hx]]|Hx]; [by left; right| |right; exists (Some t); by left].
    destruct (decide (x = t)) as [->|Hne]; [by left; left|]. right. exists r. by right.
Qed.
Lemma kids_parallel x : x ∈ kids h t → parallel h t.
Proof.
  unfold kids, parallel. destruct (h !! t) as [y|]; [|by intros ?%elem_of_nil].
  destruct (subtasks y) as [l|] eqn:El; [by exists y, l|by intros ?%elem_of_nil].
Qed.

Lemma kid_own x : x ∈ kids h t → own x = Some t ∧ x ≠ t.
Proof.
  intros Hx. apply (gr_kid _ _ _ (si_graph _ _ _ _ _ _ _ Hinv)) in Hx as [E _]. split; [done|].
  intros ->. destruct due_facts as (_ & Ho & _). apply q_ne_t. congruence.
Qed.

Lemma todo'_nodup r : NoDup (todo' r).
Proof.
  pose proof (si_todo _ _ _ _ _ _ _ Hinv) as Hn. unfold todo'.
  destruct (decide (r = Some t)) as [->|Hr].
  - rewrite fn_lookup_insert. eapply gr_nodup. by eapply si_graph.
  - rewrite fn_lookup_insert_ne by done. destruct (decide (r = q)) as [->|Hq].
    + rewrite fn_lookup_insert. specialize (Hn q). rewrite Htodo in Hn.
      by apply NoDup_cons in Hn as [_ ?].
    + by rewrite fn_lookup_insert_ne.
Qed.

(** A parallel task waits for its running branches and those it still has to
    dispatch. *)
Lemma count_dispatch p x :
  h' !! p = Some x → parallel h p → p ∈ t :: ds → p ∉ fs →
  nleft x = Z.of_nat (length (children own (t :: ds) fs p) + length (todo' (Some p))).
Proof.
  intros Hx Hp Hd Hf. destruct due_facts as (Htd & Ho & Ha & Htf & Hts). pose proof q_ne_t as Hqt.
  destruct (decide (p = t)) as [->|Hne].
  + unfold todo'. rewrite fn_lookup_insert, (Hleft _ Hx Hp).
    replace (children own (t :: ds) fs t) with (@nil loc); [done|]. symmetry.
    apply elem_of_nil_inv. intros y [[Ey Hyf] Hy]%list_elem_of_filter. apply Hyf.
    apply elem_of_cons in Hy as [->|Hy]; [congruence|]. apply no_branch_yet; [done|by left].
  + apply elem_of_cons in Hd as [|Hd]; [done|]. rewrite Hother in Hx by done.
    rewrite (si_count _ _ _ _ _ _ _ Hinv p x Hx Hp Hd Hf), children_dispatch by done.
    unfold todo'. rewrite fn_lookup_insert_ne by congruence.
    destruct (decide (own t = Some p)) as [E|E].
    * assert (q = Some p) as Eq by congruence. rewrite <- Eq, fn_lookup_insert, Htodo. simpl. lia.
    * rewrite fn_lookup_insert_ne by congruence. simpl. lia.
Qed.

Lemma inv_dispatch : sinv_at h' own root (t :: ds) fs todo' exc.
Proof.
  destruct due_facts as (Htd & Ho & Ha & Htf & Hts). pose proof q_ne_t as Hqt.
  pose proof (si_graph _ _ _ _ _ _ _ Hinv) as Hg.
  constructor.
  - by eapply same_graph_ok.
  - constructor; [done|]. by eapply si_dispatched.
  - by eapply si_finished.
  - intros x Hx. right. by eapply si_sub.
  - intros x [->|Hx]%elem_of_cons; apply (sg_dom _ _ Hsg); [done|by eapply si_alloc].
  - apply todo'_nodup.
  - intros r x [[-> Hx]|[Hx Hne]]%todo'_spec.
    + destruct (kid_own x Hx) as [E Hne]. rewrite (sg_dom _ _ Hsg). split_and!; [|done|by eapply gr_kid].
      apply not_elem_of_cons. split; [done|]. intros Hd. by eapply kid_unseen; [|left].
    + destruct (si_due _ _ _ _ _ _ _ Hinv r x Hx) as (H1 & H2 & H3). rewrite (sg_dom _ _ Hsg).
      split_and!; [|done|done]. by apply not_elem_of_cons.
  - intros x [->|Hx]%elem_of_cons; [by rewrite Hpar', Ho|].
    rewrite Hother by (intros ->; done). by eapply si_parent.
  - intros x p [Hx|Hx]%seen'_spec Hf E; rewrite (same_parallel _ _ Hsg).
    + destruct (si_up _ _ _ _ _ _ _ Hinv x p Hx Hf E) as (H1 & H2 & H3).
      split_and!; [by right|done|done].
    + destruct (kid_own x Hx) as [E' _]. assert (p = t) as -> by congruence.
      split_and!; [by left|done|by eapply kids_parallel].
  - intros x u Hn [Hs|Hk]%seen'_spec; [by eapply si_next|]. by eapply gr_next_kid in Hk.
  - intros x u Hf Hn. apply seen'_spec. left. by eapply si_next_seen.
  - intros p x. rewrite (same_kids _ _ Hsg). intros Hx [Hs|Hk]%seen'_spec.
    + right. by eapply si_kid.
    + apply kid_own in Hk as [E _]. apply (gr_kid _ _ _ Hg) in Hx as [E' _].
      assert (p = t) as -> by congruence. by left.
  - intros p x. rewrite (same_kids _ _ Hsg). intros [->|Hp]%elem_of_cons Hx; apply seen'_spec;
      [by right|left]. by eapply si_kid_seen.
  - intros p x Hx. rewrite (same_parallel _ _ Hsg). by apply count_dispatch.
  - intros p x Hx. rewrite (same_parallel _ _ Hsg). intros Hp Hd Hf He.
    destruct (decide (p = t)) as [->|Hne].
    + rewrite (Hleft _ Hx Hp). destruct (kids h t) eqn:Ek; [|simpl; lia].
      by destruct He; apply Hexc.
    + apply elem_of_cons in Hd as [|Hd]; [done|]. rewrite Hother in Hx by done.
      by eapply (si_left _ _ _ _ _ _ _ Hinv).
  - intros p x Hx. rewrite (same_parallel _ _ Hsg), (same_kids _ _ Hsg). intros Hp Hd Hf.
    destruct (decide (p = t)) as [->|Hne]; [by rewrite (Hleft _ Hx Hp)|].
    apply elem_of_cons in Hd as [|Hd]; [done|]. rewrite Hother in Hx by done. by eapply si_bound.
  - intros p x Hp. rewrite (same_branch _ _ Hsg). by eapply si_done.
Qed.
End dispatch.

(** *** Finishing a task *)

Section finish.
Context (h h' : gmap positive subtask) (own : loc → ptr) (root : loc) (ds fs : list loc).
Context (todo : ptr → list loc) (t : loc) (exc : ptr).
Context (Hinv : sinv_at h own root ds fs todo exc) (Hd : t ∈ ds) (Hf : t ∉ fs).
Context (Hidle : parallel h t → children own ds fs t = [] ∧ todo (Some t) = []).
Context (Hexc : exc = None ∨ exc = Some t).
Context (Hsg : same_graph h h').

Lemma no_branch_left x : own x = Some t → seen ds todo x → x ∈ fs.
Proof.
  intros Ho Hs. destruct (decide (x ∈ fs)) as [|Hxf]; [done|]. exfalso.
  destruct (si_up _ _ _ _ _ _ _ Hinv x t Hs Hxf Ho) as (_ & _ & Hp).
  destruct (Hidle Hp) as [Hc Ht]. destruct Hs as [Hx|[q Hx]].
  - by apply Hxf, (children_nil own ds fs t).
  - destruct (si_due _ _ _ _ _ _ _ Hinv q x Hx) as (_ & E & _).
    assert (q = Some t) as -> by congruence. rewrite Ht in Hx. by apply elem_of_nil in Hx.
Qed.

Lemma branch_all x : branch h t x → x ∈ fs.
Proof.
  intros Hb. assert (own x = Some t) as Ho
    by (eapply branch_own; [by eapply (si_graph _ _ _ _ _ _ _ Hinv)|done]).
  apply no_branch_left; [done|]. induction Hb as [x Hk|x u Hb IH Hn].
  - by eapply si_kid_seen.
  - eapply si_next_seen; [exact Hinv| |exact Hn].
    assert (own x = Some t) as Ho'
      by (eapply branch_own; [by eapply (si_graph _ _ _ _ _ _ _ Hinv)|done]).
    apply no_branch_left; [done|]. by apply IH.
Qed.

(** The parallel task above [t] is another one, and runs. *)
Lemma above x p :
  seen ds todo x → x ∉ t :: fs → own x = Some p → p ∈ ds ∧ (p ∉ t :: fs) ∧ parallel h p.
Proof.
  intros Hs Hx Ho. apply not_elem_of_cons in Hx as [Hx1 Hx2].
  destruct (si_up _ _ _ _ _ _ _ Hinv x p Hs Hx2 Ho) as (H1 & H2 & H3).
  split_and!; [done| |done]. apply not_elem_of_cons. split; [|done]. intros ->.
  by apply Hx2, no_branch_left.
Qed.

Lemma own_ne_t : own t ≠ Some t.
Proof. intros E. by apply Hf, no_branch_left; [|left]. Qed.

(** The next task of the series is dispatched for it. *)
Lemma inv_finish_next u :
  next_task t = Some u → (∀ x, x ≠ u → h' !! x = h !! x) →
  nleft <$> h' !! u = nleft <$> h !! u →
  sinv_at h' own root ds (t :: fs) (<[own t := u :: todo (own t)]> todo) None.
Proof.
  intros Hn Hother Hnl. pose proof (si_graph _ _ _ _ _ _ _ Hinv) as Hg.
  assert (¬ seen ds todo u) as Hu by (intros Hs; by eapply Hf, si_next).
  destruct (gr_next _ _ _ Hg _ _ Hn) as [Hou Hau].
  assert (is_Some (h !! u)) as Hau' by (apply Hau; by eapply si_alloc).
  set (todo' := <[own t := u :: todo (own t)]> todo).
  assert (∀ q x, x ∈ todo' q ↔ (q = own t ∧ x = u) ∨ x ∈ todo q) as Htodo.
  { intros q x. unfold todo'. destruct (decide (q = own t)) as [->|Hq].
    - rewrite fn_lookup_insert, elem_of_cons. naive_solver.
    - rewrite fn_lookup_insert_ne by done. naive_solver. }
  assert (∀ x, seen ds todo' x ↔ seen ds todo x ∨ x = u) as Hseen.
  { intros x. unfold seen. setoid_rewrite Htodo. naive_solver. }
  assert (∀ x, x ∈ ds → x ≠ u) as Hdu by (intros x Hx ->; by apply Hu; left).
  constructor.
  - by eapply same_graph_ok.
  - by eapply si_dispatched.
  - constructor; [done|by eapply si_finished].
  - intros x [->|Hx]%elem_of_cons; [done|by eapply si_sub].
  - intros x Hx. apply (sg_dom _ _ Hsg). by eapply si_alloc.
  - intros q. pose proof (si_todo _ _ _ _ _ _ _ Hinv q) as Hnd. unfold todo'.
    destruct (decide (q = own t)) as [->|Hq]; [|by rewrite fn_lookup_insert_ne].
    rewrite fn_lookup_insert. constructor; [|done]. intros Hi. apply Hu. right. by exists (own t).
  - intros q x [[-> ->]|Hx]%Htodo; rewrite (sg_dom _ _ Hsg).
    + split_and!; [|done|done]. intros Hx. by apply Hu; left.
    + by eapply si_due.
  - intros x Hx. rewrite Hother by auto. by eapply si_parent.
  - intros x p [Hs| ->]%Hseen Hx Ho; rewrite (same_parallel _ _ Hsg); [by eapply above|].
    rewrite Hou in Ho. destruct (si_up _ _ _ _ _ _ _ Hinv t p) as (H1 & H2 & H3); [by left|done..|].
    split_and!; [done| |done]. apply not_elem_of_cons. split; [|done]. intros ->. by apply own_ne_t.
  - intros x y Hxy [Hs| ->]%Hseen.
    + right. by eapply si_next.
    + rewrite (gr_one_next _ _ _ Hg _ _ _ Hxy Hn). by left.
  - intros x y [->|Hx]%elem_of_cons Hxy; apply Hseen; [right; congruence|left].
    by eapply si_next_seen.
  - intros p x. rewrite (same_kids _ _ Hsg). intros Hx [Hs| ->]%Hseen; [by eapply si_kid|].
    by eapply gr_next_kid in Hx.
  - intros p x Hp. rewrite (same_kids _ _ Hsg). intros Hx. apply Hseen. left. by eapply si_kid_seen.
  - intros p x Hx. rewrite (same_parallel _ _ Hsg). intros Hp Hpd Hpf.
    apply not_elem_of_cons in Hpf as [Hpt Hpf]. rewrite Hother in Hx by auto.
    rewrite (si_count _ _ _ _ _ _ _ Hinv p x Hx Hp Hpd Hpf). unfold todo'.
    destruct (decide (own t = Some p)) as [Eo|Eo].
    + rewrite Eo, fn_lookup_insert. simpl.
      rewrite (children_finish own ds fs p t); [lia|by eapply si_dispatched|done..].
    + rewrite fn_lookup_insert_ne by done. by rewrite children_finish_other.
  - intros p x Hx. rewrite (same_parallel _ _ Hsg). intros Hp Hpd Hpf _.
    apply not_elem_of_cons in Hpf as [Hpt Hpf]. rewrite Hother in Hx by auto.
    eapply (si_left _ _ _ _ _ _ _ Hinv); [done..|]. destruct Hexc; congruence.
  - intros p x Hx. rewrite (same_parallel _ _ Hsg), (same_kids _ _ Hsg). intros Hp Hpd Hpf.
    apply not_elem_of_cons in Hpf as [Hpt Hpf]. rewrite Hother in Hx by auto. by eapply si_bound.
  - intros p x Hp. rewrite (same_branch _ _ Hsg). intros Hb. right.
    apply elem_of_cons in Hp as [->|Hp]; [by apply branch_all|by eapply si_done].
Qed.

(** The series ends: the parallel task counts it. *)
Lemma inv_finish_last exc' :
  next_task t = None → (∀ x, own t ≠ Some x → h' !! x = h !! x) →
  (∀ p x, own t = Some p → h !! p = Some x →
     ∃ x', h' !! p = Some x' ∧ parent x' = parent x ∧ nleft x' = (nleft x - 1)%Z ∧
       (nleft x' = 0%Z → exc' = Some p)) →
  sinv_at h' own root ds (t :: fs) todo exc'.
Proof.
  intros Hn Hother Hup. pose proof (si_graph _ _ _ _ _ _ _ Hinv) as Hg.
  constructor.
  - by eapply same_graph_ok.
  - by eapply si_dispatched.
  - constructor; [done|by eapply si_finished].
  - intros x [->|Hx]%elem_of_cons; [done|by eapply si_sub].
  - intros x Hx. apply (sg_dom _ _ Hsg). by eapply si_alloc.
  - by eapply si_todo.
  - intros q x Hx. rewrite (sg_dom _ _ Hsg). by eapply si_due.
  - intros x Hx. destruct (decide (own t = Some x)) as [E|E]; [|rewrite Hother by done; by eapply si_parent].
    destruct (si_alloc _ _ _ _ _ _ _ Hinv x Hx) as [y Hy].
    destruct (Hup x y E Hy) as (y' & Hy' & Hpar & _). rewrite Hy'. simpl. rewrite Hpar.
    pose proof (si_parent _ _ _ _ _ _ _ Hinv x Hx) as H1. rewrite Hy in H1. done.
  - intros x p Hs Hx Ho. rewrite (same_parallel _ _ Hsg). by eapply above.
  - intros x y Hxy Hs. right. by eapply si_next.
  - intros x y [->|Hx]%elem_of_cons Hxy; [congruence|by eapply si_next_seen].
  - intros p x. rewrite (same_kids _ _ Hsg). by eapply si_kid.
  - intros p x Hp. rewrite (same_kids _ _ Hsg). by eapply si_kid_seen.
  - intros p x Hx. rewrite (same_parallel _ _ Hsg). intros Hp Hpd Hpf.
    apply not_elem_of_cons in Hpf as [Hpt Hpf].
    destruct (decide (own t = Some p)) as [Eo|Eo].
    + destruct (si_alloc _ _ _ _ _ _ _ Hinv p Hpd) as [y Hy].
      destruct (Hup p y Eo Hy) as (y' & Hy' & _ & Hl & _). assert (y' = x) as -> by congruence.
      rewrite Hl, (si_count _ _ _ _ _ _ _ Hinv p y Hy Hp Hpd Hpf).
      rewrite (children_finish own ds fs p t); [lia|by eapply si_dispatched|done..].
    + rewrite Hother in Hx by done. rewrite children_finish_other by done. by eapply si_count.
  - intros p x Hx. rewrite (same_parallel _ _ Hsg). intros Hp Hpd Hpf He.
    apply not_elem_of_cons in Hpf as [Hpt Hpf].
    assert (exc ≠ Some p) as He' by (destruct Hexc; congruence).
    destruct (decide (own t = Some p)) as [Eo|Eo].
    + destruct (si_alloc _ _ _ _ _ _ _ Hinv p Hpd) as [y Hy].
      destruct (Hup p y Eo Hy) as (y' & Hy' & _ & Hl & H0). assert (y' = x) as -> by congruence.
      pose proof (si_left _ _ _ _ _ _ _ Hinv p y Hy Hp Hpd Hpf He').
      destruct (decide (nleft x = 0%Z)); [by destruct He; apply H0|lia].
    + rewrite Hother in Hx by done. by eapply (si_left _ _ _ _ _ _ _ Hinv).
  - intros p x Hx. rewrite (same_parallel _ _ Hsg), (same_kids _ _ Hsg). intros Hp Hpd Hpf.
    apply not_elem_of_cons in Hpf as [Hpt Hpf].
    destruct (decide (own t = Some p)) as [Eo|Eo].
    + destruct (si_alloc _ _ _ _ _ _ _ Hinv p Hpd) as [y Hy].
      destruct (Hup p y Eo Hy) as (y' & Hy' & _ & Hl & _). assert (y' = x) as -> by congruence.
      pose proof (si_bound _ _ _ _ _ _ _ Hinv p y Hy Hp Hpd Hpf). lia.
    + rewrite Hother in Hx by done. by eapply si_bound.
  - intros p x Hp. rewrite (same_branch _ _ Hsg). intros Hb. right.
    apply elem_of_cons in Hp as [->|Hp]; [by apply branch_all|by eapply si_done].
Qed.
End finish.

(** ** Running *)

Lemma inv_undispatched h h' own root ds fs todo exc :
  sinv_at h own root ds fs todo exc → same_graph h h' → (∀ x, x ∈ ds → h' !! x = h !! x) →
  sinv_at h' own root ds fs todo exc.
Proof.
  intros [] Hsg He. constructor; try done; try (intros *; rewrite ?(sg_dom _ _ Hsg); by eauto).
  - by eapply same_graph_ok.
  - intros x Hx. rewrite He by done. eauto.
  - intros *. rewrite (same_parallel _ _ Hsg). eauto.
  - intros *. rewrite (same_kids _ _ Hsg). eauto.
  - intros *. rewrite (same_kids _ _ Hsg). eauto.
  - intros p x Hx Hp Hd. rewrite (same_parallel _ _ Hsg) in Hp. rewrite He in Hx by done. eauto.
  - intros p x Hx Hp Hd. rewrite (same_parallel _ _ Hsg) in Hp. rewrite He in Hx by done. eauto.
  - intros p x Hx Hp Hd. rewrite (same_parallel _ _ Hsg) in Hp. rewrite He in Hx by done.
    rewrite (same_kids _ _ Hsg). eauto.
  - intros p x Hp Hb. rewrite (same_branch _ _ Hsg) in Hb. eauto.
Qed.

Record grows (s s' : ststate) : Prop := {
  gw_graph : same_graph (store s) (store s');
  gw_size : size (store s') = size (store s);
  gw_dispatched : length (dispatched (events s)) ≤ length (dispatched (events s'));
  gw_finished : length (finished (events s)) ≤ length (finished (events s'));
}.
#[export] Instance grows_preorder : PreOrder grows.
Proof.
  split.
  - intros s. by constructor.
  - intros s1 s2 s3 [[A1 B1] ? ? ?] [[A2 B2] ? ? ?]. constructor; [|congruence|lia|lia].
    split; intros t; [by rewrite A2|by rewrite B2].
Qed.

Lemma tget_bnd {A B} (f : subtask → A) l (k : A → M ststate B) s t :
  store s !! l = Some t → bnd (tget f (Some l)) k s = k (f t) s.
Proof. intros E. apply bnd_done. simpl. by rewrite E. Qed.
Lemma tset_bnd {B} f l (k : unit → M ststate B) s t :
  store s !! l = Some t →
  bnd (tset f (Some l)) k s = k tt (STState (<[l := f t]> (store s)) (events s)).
Proof. intros E. apply bnd_done. simpl. by rewrite E. Qed.

Lemma grows_insert s l t f es :
  store s !! l = Some t → subtasks (f t) = subtasks t → subtasks_nr (f t) = subtasks_nr t →
  length (dispatched (events s)) ≤ length (dispatched es) →
  length (finished (events s)) ≤ length (finished es) →
  grows s (STState (<[l := f t]> (store s)) es).
Proof.
  intros Hl E1 E2 E3 E4. constructor; [by apply same_graph_insert| |done|done]. simpl.
  rewrite map_size_insert_Some; [done|]. by eexists.
Qed.

Section run.
Context (own : loc → ptr) (root : loc).

(** Where a job starts. *)
Definition job_pre (j : job) (s : ststate) (todo : ptr → list loc) : Prop :=
  match j with
  | JDispatch (Some x) =>
      ∃ q ts, todo q = x :: ts ∧ sinv own root s todo None ∧
        parent <$> store s !! x = Some q
  | JDone (Some x) =>
      ∃ exc, (exc = None ∨ exc = Some x) ∧ active s x ∧
        (parallel (store s) x →
           children own (dispatched (events s)) (finished (events s)) x = [] ∧
           todo (Some x) = []) ∧
        sinv own root s todo exc
  | _ => False
  end.
Definition job_post (j : job) (todo : ptr → list loc) : ptr → list loc :=
  match j with
  | JDispatch (Some x) => <[own x := tail (todo (own x))]> todo
  | _ => todo
  end.
(** The virtual calls not made yet. *)
Definition enough (fuel : nat) (s : ststate) : Prop :=
  2 * size (store s) ≤ fuel + length (dispatched (events s)) + length (finished (events s)).

Definition runs_ok (fuel : nat) : Prop := ∀ j s todo,
  enough fuel s → job_pre j s todo →
  ∃ s', run fuel j s = Done (tt, s') ∧ sinv own root s' (job_post j todo) None ∧ grows s s'.

Lemma dispatch_loop_ok fuel t ks : runs_ok fuel → ∀ s todo,
  enough fuel s → sinv own root s todo None → todo (Some t) = ks →
  ∃ s', dispatch_loop (run fuel) (Some t) ks s = Done (tt, s') ∧
    sinv own root s' (<[Some t := []]> todo) None ∧ grows s s'.
Proof.
  intros IH. induction ks as [|k ks IHk]; intros s todo Hf Hi Ht; cbn [dispatch_loop].
  - exists s. split; [done|]. split; [|done]. eapply sinv_ext; [|exact Hi]. intros q.
    destruct (decide (q = Some t)) as [->|Hq]; [by rewrite fn_lookup_insert|].
    by rewrite fn_lookup_insert_ne.
  - destruct (si_due _ _ _ _ _ _ _ Hi (Some t) k) as (Hk & Ho & [x Hx]); [rewrite Ht; by left|].
    rewrite (tset_bnd _ _ _ _ x) by done.
    set (s1 := STState _ (events s)).
    assert (grows s s1) as G1 by by apply grows_insert.
    assert (sinv own root s1 todo None) as Hi1.
    { eapply inv_undispatched; [exact Hi|apply G1|]. intros y Hy. simpl.
      rewrite lookup_insert_ne; [done|]. by intros ->. }
    destruct (IH (JDispatch (Some k)) s1 todo) as (s2 & E2 & Hi2 & G2).
    { unfold enough in *. by rewrite (gw_size _ _ G1). }
    { exists (Some t), ks. split; [done|]. split; [done|]. simpl. by rewrite lookup_insert_eq. }
    rewrite (bnd_done _ _ _ _ _ E2). simpl in Hi2. rewrite Ho, Ht in Hi2. simpl in Hi2.
    destruct (IHk s2 (<[Some t := ks]> todo)) as (s3 & E3 & Hi3 & G3); [|done|by rewrite fn_lookup_insert|].
    { unfold enough in *. rewrite (gw_size _ _ G2), (gw_size _ _ G1).
      pose proof (gw_dispatched _ _ G2). pose proof (gw_finished _ _ G2). simpl in *. lia. }
    exists s3. split; [done|]. split; [|by etrans; [|etrans]].
    eapply sinv_ext; [|exact Hi3]. intros q.
    destruct (decide (q = Some t)) as [->|Hq]; [by rewrite !fn_lookup_insert|].
    by rewrite !fn_lookup_insert_ne.
Qed.

(** A parallel task that waits for no branch can be finished. *)
Lemma idle_done_pre s x T todo :
  sinv own root s todo (Some x) → x ∈ dispatched (events s) → x ∉ finished (events s) →
  store s !! x = Some T → nleft T = 0%Z →
  job_pre (JDone (Some x)) s todo.
Proof.
  intros Hi Hd Hf HT H0. exists (Some x). split; [by right|]. split; [done|]. split; [|done].
  intros Hp. pose proof (si_count _ _ _ _ _ _ _ Hi x T HT Hp Hd Hf) as Hc.
  split; apply length_zero_iff_nil; lia.
Qed.

(** [ParallelTask::dispatch], from the state in which its dispatch is recorded. *)
Lemma parallel_dispatch_ok fuel x q ts ks s todo :
  runs_ok fuel → enough (S fuel) s → sinv own root s todo None → todo q = x :: ts →
  parent <$> store s !! x = Some q → (∃ T, store s !! x = Some T ∧ subtasks T = Some ks) →
  ∃ s', parallel_dispatch (run fuel) (Some x) ks (STState (store s) (Dispatched x :: events s)) =
      Done (tt, s') ∧
    sinv own root s' (<[Some x := []]> (<[q := ts]> todo)) None ∧ grows s s'.
Proof.
  intros IH Hf Hi Ht Hpar (T & HT & Eks). rewrite HT in Hpar. injection Hpar as Hpar.
  destruct (si_due _ _ _ _ _ _ _ Hi q x) as (Hx & Ho & _); [rewrite Ht; by left|].
  assert (kids (store s) x = ks) as Ek by (unfold kids; by rewrite HT, Eks).
  assert (parallel (store s) x) as Hpl by by exists T, ks.
  destruct (gr_size _ _ _ (si_graph _ _ _ _ _ _ _ Hi) x T ks HT Eks) as [Hnr Hb].
  unfold parallel_dispatch. rewrite (tget_bnd _ _ _ _ T), (tset_bnd _ _ _ _ T) by done.
  rewrite (tget_bnd _ _ _ _ (set_nleft (subtasks_nr T) T)) by (simpl; by rewrite lookup_insert_eq).
  cbn [nleft set_nleft store events]. rewrite Hnr, Nat2Z.id, decide_True, firstn_all by done.
  set (s1 := STState _ _).
  assert (grows s s1) as G1 by (apply grows_insert; simpl; auto with lia).
  assert (∀ exc, (ks = [] → exc = Some x) →
    sinv own root s1 (<[Some x := ks]> (<[q := ts]> todo)) exc) as Hi1.
  { intros exc He. unfold sinv. rewrite <- Ek. eapply (inv_dispatch (store s) _ _ _ _ _ _ x q);
      [exact Hi|done|by rewrite HT, <- Hpar|apply G1| | | |].
    - intros y Hy. simpl. by rewrite lookup_insert_ne.
    - simpl. by rewrite lookup_insert_eq, <- Hpar.
    - intros y Hy _. simpl in Hy. rewrite lookup_insert_eq in Hy. injection Hy as <-. simpl.
      by rewrite Ek.
    - intros _ E. apply He. congruence. }
  assert (enough fuel s1) as Hf1 by (unfold enough in *; rewrite (gw_size _ _ G1); simpl; lia).
  destruct ks as [|k ks].
  - simpl. destruct (IH (JDone (Some x)) s1 (<[Some x := []]> (<[q := ts]> todo)))
      as (s2 & E2 & Hi2 & G2); [done| |exists s2; split_and!; [done|done|by etrans]].
    apply (idle_done_pre s1 x (set_nleft (subtasks_nr T) T)); [by apply Hi1|by left| | |].
    + intros Hx2. by eapply Hx, si_sub.
    + simpl. by rewrite lookup_insert_eq, Hnr.
    + done.
  - destruct (dispatch_loop_ok fuel x (k :: ks) IH s1 (<[Some x := k :: ks]> (<[q := ts]> todo)))
      as (s2 & E2 & Hi2 & G2); [done|by apply Hi1|by rewrite fn_lookup_insert|].
    rewrite (proj2 (Z.eqb_neq (Z.of_nat (length (k :: ks))) 0)) by (simpl; lia).
    exists s2. split; [done|]. split; [|by etrans]. eapply sinv_ext; [|exact Hi2]. intros r.
    destruct (decide (r = Some x)) as [->|Hr]; [by rewrite !fn_lookup_insert|].
    by rewrite !(fn_lookup_insert_ne _ (Some x) r).
Qed.

(** A task without branches: its [dispatch] may call [subtask_done] at once. *)
Lemma plain_dispatch_ok fuel x q ts s todo :
  runs_ok fuel → enough (S fuel) s → sinv own root s todo None → todo q = x :: ts →
  parent <$> store s !! x = Some q → ¬ parallel (store s) x →
  ∃ s', (if at_once x then run fuel (JDone (Some x)) else ret tt)
      (STState (store s) (Dispatched x :: events s)) = Done (tt, s') ∧
    sinv own root s' (<[Some x := []]> (<[q := ts]> todo)) None ∧ grows s s'.
Proof.
  intros IH Hf Hi Ht Hpar Hnp.
  destruct (si_due _ _ _ _ _ _ _ Hi q x) as (Hx & _); [rewrite Ht; by left|].
  set (s1 := STState _ _).
  assert (grows s s1) as G1 by (constructor; simpl; auto with lia; by constructor).
  assert (sinv own root s1 (<[Some x := []]> (<[q := ts]> todo)) None) as Hi1.
  { unfold sinv. rewrite <- (not_parallel_kids (store s) x) by done.
    by eapply (inv_dispatch (store s) _ _ _ _ _ _ x q); [exact Hi|..]. }
  destruct (at_once x); [|by exists s1].
  destruct (IH (JDone (Some x)) s1 (<[Some x := []]> (<[q := ts]> todo)))
    as (s2 & E2 & Hi2 & G2).
  { unfold enough in *. simpl. lia. }
  { exists None. split; [by left|]. split; [|done]. split; [by left|].
    intros Hx2. by eapply Hx, si_sub. }
  exists s2. split; [done|]. split; [done|by etrans].
Qed.

Lemma dispatch_ok fuel x s todo :
  runs_ok fuel → enough (S fuel) s → job_pre (JDispatch (Some x)) s todo →
  ∃ s', dispatch_body (run fuel) (Some x) s = Done (tt, s') ∧
    sinv own root s' (job_post (JDispatch (Some x)) todo) None ∧ grows s s'.
Proof.
  intros IH Hf (q & ts & Ht & Hi & Hpar).
  destruct (si_due _ _ _ _ _ _ _ Hi q x) as (_ & Ho & [T HT]); [rewrite Ht; by left|].
  assert (∀ r, job_post (JDispatch (Some x)) todo r = (<[Some x := []]> (<[q := ts]> todo)) r)
    as Hpost.
  { assert (todo (Some x) = []) as Hnil by by eapply todo_t.
    assert (q ≠ Some x) as Hqx by by eapply q_ne_t.
    intros r. simpl. rewrite Ho, Ht. simpl.
    destruct (decide (r = Some x)) as [->|Hr]; [|by rewrite (fn_lookup_insert_ne _ (Some x) r)].
    by rewrite fn_lookup_insert, fn_lookup_insert_ne. }
  unfold dispatch_body. rewrite (tget_bnd _ _ _ _ T) by done. unfold tevent_. rewrite modify_bnd.
  destruct (subtasks T) as [ks|] eqn:Eks.
  - destruct (parallel_dispatch_ok fuel x q ts ks s todo) as (s2 & E2 & Hi2 & G2); [done..|by exists T|].
    exists s2. split; [done|]. split; [|done]. by eapply sinv_ext; [|exact Hi2].
  - assert (¬ parallel (store s) x) as Hnp by (intros (T' & l & E1 & E2); congruence).
    destruct (plain_dispatch_ok fuel x q ts s todo) as (s2 & E2 & Hi2 & G2); [done..|].
    exists s2. split; [done|]. split; [|done]. by eapply sinv_ext; [|exact Hi2].
Qed.

(** The next task of the series takes the parent over and is dispatched. *)
Lemma done_next_ok fuel x u s todo exc :
  runs_ok fuel → sinv own root s todo exc → exc = None ∨ exc = Some x → active s x →
  (parallel (store s) x →
     children own (dispatched (events s)) (finished (events s)) x = [] ∧ todo (Some x) = []) →
  next_task x = Some u →
  let s0 := STState (store s) (Finished x :: events s) in
  (∀ s', grows s0 s' → enough fuel s') →
  ∃ s', (tset (set_parent (own x)) (Some u) ;;; run fuel (JDispatch (Some u))) s0 = Done (tt, s') ∧
    sinv own root s' todo None ∧ grows s0 s'.
Proof.
  intros IH Hi He [Hd Hxf] Hidle En s0 Hen.
  destruct (gr_next _ _ _ (si_graph _ _ _ _ _ _ _ Hi) _ _ En) as [Hou Hau].
  destruct Hau as [U HU]; [by eapply si_alloc|].
  rewrite (tset_bnd _ _ _ _ U) by done. set (s1 := STState _ _).
  assert (grows s0 s1) as G1 by by apply grows_insert.
  destruct (IH (JDispatch (Some u)) s1 (<[own x := u :: todo (own x)]> todo))
    as (s2 & E2 & Hi2 & G2); [by apply Hen| |].
  { exists (own x), (todo (own x)). split; [by rewrite fn_lookup_insert|].
    split; [|simpl; by rewrite lookup_insert_eq].
    eapply (inv_finish_next (store s)); [exact Hi|done..|apply G1|done| |].
    - intros y Hy. simpl. by rewrite lookup_insert_ne.
    - simpl. by rewrite lookup_insert_eq, HU. }
  exists s2. split; [done|]. split; [|by etrans].
  eapply sinv_ext; [|exact Hi2]. intros r. simpl. rewrite Hou.
  destruct (decide (r = own x)) as [->|Hr]; [by rewrite !fn_lookup_insert|].
  by rewrite !fn_lookup_insert_ne.
Qed.

(** The last task of a series counts down in its parallel task, and finishes it
    with the last branch. *)
Lemma done_last_ok fuel x p s todo exc :
  runs_ok fuel → sinv own root s todo exc → exc = None ∨ exc = Some x → active s x →
  (parallel (store s) x →
     children own (dispatched (events s)) (finished (events s)) x = [] ∧ todo (Some x) = []) →
  next_task x = None → own x = Some p →
  let s0 := STState (store s) (Finished x :: events s) in
  (∀ s', grows s0 s' → enough fuel s') →
  ∃ s', (tset (λ p, set_nleft (u64 (nleft p - 1)) p) (Some p) ;;;
         let* n := tget nleft (Some p) in
         if (n =? 0)%Z then run fuel (JDone (Some p)) else ret tt) s0 = Done (tt, s') ∧
    sinv own root s' todo None ∧ grows s0 s'.
Proof.
  intros IH Hi He [Hd Hxf] Hidle En Eo s0 Hen.
  destruct (si_up _ _ _ _ _ _ _ Hi x p) as (Hpd & Hpf & Hpp); [by left|done..|].
  destruct (si_alloc _ _ _ _ _ _ _ Hi p Hpd) as [P HP].
  assert (p ≠ x) as Hne by (intros ->; eapply own_ne_t; [exact Hi|done..|exact Eo]).
  assert (0 < nleft P < 2 ^ 64)%Z as Hn.
  { split; [eapply (si_left _ _ _ _ _ _ _ Hi); [done..|]; destruct He; congruence|].
    pose proof (si_bound _ _ _ _ _ _ _ Hi p P HP Hpp Hpd Hpf) as Hbound.
    destruct Hpp as (P' & ks & HP' & Eks). unfold kids in Hbound. rewrite HP', Eks in Hbound.
    destruct (gr_size _ _ _ (si_graph _ _ _ _ _ _ _ Hi) p P' ks HP' Eks) as [_ Hk].
    simpl in Hbound. lia. }
  rewrite (tset_bnd _ _ _ _ P) by done.
  rewrite (tget_bnd _ _ _ _ (set_nleft (u64 (nleft P - 1)) P)) by (simpl; by rewrite lookup_insert_eq).
  cbn [nleft set_nleft store events]. rewrite u64_small by lia. set (s1 := STState _ _).
  assert (grows s0 s1) as G1 by by apply grows_insert.
  assert (∀ exc', (nleft P - 1 = 0 → exc' = Some p)%Z → sinv own root s1 todo exc') as Hi1.
  { intros exc' Hz. eapply (inv_finish_last (store s)); [exact Hi|done..|apply G1|done| |].
    - intros y Hy. simpl. rewrite lookup_insert_ne; [done|]. intros ->. by rewrite Eo in Hy.
    - intros p' y E' Hy. rewrite Eo in E'. injection E' as <-. simpl.
      rewrite lookup_insert_eq. assert (y = P) as -> by congruence. by eexists. }
  destruct (Z.eqb_spec (nleft P - 1) 0) as [Ez|Ez]; [|by exists s1; split_and!; [|apply Hi1|]].
  destruct (IH (JDone (Some p)) s1 todo) as (s2 & E2 & Hi2 & G2); [by apply Hen| |].
  { apply (idle_done_pre s1 p (set_nleft (nleft P - 1) P)); [by apply Hi1|done| | |exact Ez].
    - by apply not_elem_of_cons.
    - simpl. by rewrite lookup_insert_eq. }
  exists s2. split_and!; [done|done|by etrans].
Qed.

Lemma done_ok fuel x s todo :
  runs_ok fuel → enough (S fuel) s → job_pre (JDone (Some x)) s todo →
  ∃ s', subtask_done_body (run fuel) (Some x) s = Done (tt, s') ∧
    sinv own root s' todo None ∧ grows s s'.
Proof.
  intros IH Hf (exc & He & Ha & Hidle & Hi). pose proof Ha as [Hd Hxf].
  destruct (si_alloc _ _ _ _ _ _ _ Hi x Hd) as [T HT].
  pose proof (si_parent _ _ _ _ _ _ _ Hi x Hd) as Hpar. rewrite HT in Hpar. injection Hpar as Hpar.
  unfold subtask_done_body. rewrite (tget_bnd _ _ _ _ T) by done.
  unfold done, tevent_. rewrite bnd_assoc, modify_bnd, ret_bnd, Hpar.
  set (s0 := STState (store s) (Finished x :: events s)).
  assert (grows s s0) as G0 by (constructor; simpl; auto with lia; by constructor).
  assert (∀ s', grows s0 s' → enough fuel s') as Hen.
  { intros s' G. unfold enough in *. rewrite (gw_size _ _ G). simpl.
    pose proof (gw_dispatched _ _ G). pose proof (gw_finished _ _ G). simpl in *. lia. }
  destruct (next_task x) as [u|] eqn:En; [|destruct (own x) as [p|] eqn:Eo]; cbn [nonnull].
  - destruct (done_next_ok fuel x u s todo exc) as (s2 & E2 & Hi2 & G2); [done..|].
    exists s2. split_and!; [done|done|by etrans].
  - destruct (done_last_ok fuel x p s todo exc) as (s2 & E2 & Hi2 & G2); [done..|].
    exists s2. split_and!; [done|done|by etrans].
  - exists s0. split; [done|]. split; [|done].
    eapply (inv_finish_last (store s)); [exact Hi|done..| |done|done|].
    + by constructor.
    + intros p y E'. congruence.
Qed.

Lemma run_ok fuel : runs_ok fuel.
Proof.
  induction fuel as [|fuel IH]; intros j s todo Hf Hp.
  - exfalso. unfold enough in Hf. destruct j as [[x|]|[x|]]; try done.
    + destruct Hp as (q & ts & Ht & Hi & Hpar).
      destruct (si_due _ _ _ _ _ _ _ Hi q x) as (Hx & _ & Ha); [rewrite Ht; by left|].
      assert (length (x :: dispatched (events s)) ≤ size (store s)) as H1.
      { apply NoDup_size; [constructor; [done|by eapply si_dispatched]|].
        intros y [->|Hy]%elem_of_cons; [done|by eapply si_alloc]. }
      assert (length (finished (events s)) ≤ size (store s)) as H2.
      { apply NoDup_size; [by eapply si_finished|]. intros y Hy. by eapply si_alloc, si_sub. }
      simpl in *. lia.
    + destruct Hp as (exc & _ & [Hd Hxf] & _ & Hi).
      assert (length (dispatched (events s)) ≤ size (store s)) as H1.
      { apply NoDup_size; [by eapply si_dispatched|]. intros y Hy. by eapply si_alloc. }
      assert (length (x :: finished (events s)) ≤ size (store s)) as H2.
      { apply NoDup_size; [constructor; [done|by eapply si_finished]|].
        intros y [->|Hy]%elem_of_cons; [by eapply si_alloc|by eapply si_alloc, si_sub]. }
      simpl in *. lia.
  - destruct j as [[x|]|[x|]]; try done; cbn [run].
    + by apply dispatch_ok.
    + by apply done_ok.
Qed.
End run.

(** ** The life of a graph of tasks *)

(** No code runs, and nothing is about to be dispatched. *)
Definition quiescent (own : loc → ptr) (root : loc) (s : ststate) : Prop :=
  sinv own root s (λ _, []) None.

(** Some leaf's work completes. *)
Inductive tstep (s s' : ststate) : Prop :=
| TComplete l t :
    active s l → store s !! l = Some t → subtasks t = None →
    subtask_done (Some l) s = Done (tt, s') → tstep s s'.

(** A graph before it is dispatched. *)
Definition tinit (own : loc → ptr) (root : loc) (s : ststate) : Prop :=
  graph (store s) own root ∧ parent <$> store s !! root = Some None ∧ events s = [].

Lemma leaf_not_parallel h l t : h !! l = Some t → subtasks t = None → ¬ parallel h l.
Proof. intros E1 E2 (t' & ts & E3 & E4). congruence. Qed.

Lemma dispatch_root own root s :
  tinit own root s → ∃ s', dispatch (Some root) s = Done (tt, s') ∧ quiescent own root s'.
Proof.
  intros (Hg & Hp & He). unfold dispatch, bounded.
  assert (sinv own root s (<[None := [root]]> (λ _, [])) None) as Hi.
  { unfold sinv. rewrite He. simpl.
    assert (∀ q x, x ∈ (<[None := [root]]> (λ _, []) : ptr → list loc) q ↔ q = None ∧ x = root) as Ht.
    { intros q x. destruct (decide (q = None)) as [->|Hq].
      - rewrite fn_lookup_insert, list_elem_of_singleton. naive_solver.
      - rewrite fn_lookup_insert_ne by done. rewrite elem_of_nil. naive_solver. }
    assert (∀ x, seen [] (<[None := [root]]> (λ _, [])) x ↔ x = root) as Hs.
    { intros x. unfold seen. setoid_rewrite Ht. rewrite elem_of_nil. naive_solver. }
    destruct (gr_root _ _ _ Hg) as [Hr1 Hr2].
    constructor; try (intros *; rewrite ?Hs; by intros ?%elem_of_nil); try done.
    - constructor.
    - constructor.
    - intros q. destruct (decide (q = None)) as [->|Hq].
      + rewrite fn_lookup_insert. apply NoDup_singleton.
      + rewrite fn_lookup_insert_ne by done. constructor.
    - intros q x [-> ->]%Ht. split_and!; [apply not_elem_of_nil|done|done].
    - intros x p ->%Hs _ E. congruence.
    - intros x u Hn ->%Hs. by apply (gr_root_first _ _ _ Hg) in Hn.
    - intros p x Hk ->%Hs. apply (gr_kid _ _ _ Hg) in Hk as [E _]. congruence. }
  destruct (run_ok own root (task_bound s) (JDispatch (Some root)) s (<[None := [root]]> (λ _, [])))
    as (s' & E & Hi' & _).
  { unfold enough, task_bound. lia. }
  { exists None, []. by rewrite fn_lookup_insert. }
  exists s'. split; [done|]. eapply sinv_ext; [|exact Hi']. intros q. simpl.
  destruct (gr_root _ _ _ Hg) as [-> _]. rewrite fn_lookup_insert. simpl.
  destruct (decide (q = None)) as [->|Hq]; [by rewrite fn_lookup_insert|].
  by rewrite !fn_lookup_insert_ne.
Qed.

(** A leaf's [subtask_done] returns. *)
Lemma complete_leaf own root s l t :
  quiescent own root s → active s l → store s !! l = Some t → subtasks t = None →
  ∃ s', subtask_done (Some l) s = Done (tt, s') ∧ quiescent own root s'.
Proof.
  intros Hi Ha Hl Hleaf. unfold subtask_done, bounded.
  destruct (run_ok own root (task_bound s) (JDone (Some l)) s (λ _, [])) as (s' & E & Hi' & _).
  { unfold enough, task_bound. lia. }
  { exists None. split; [by left|]. split; [done|]. split; [|done].
    intros Hp. by destruct (leaf_not_parallel _ _ _ Hl Hleaf Hp). }
  by exists s'.
Qed.

Lemma reach_quiescent own root s s' :
  quiescent own root s → rtc tstep s s' → quiescent own root s'.
Proof.
  intros Hi Hr. induction Hr as [|s s1 s' [l t Ha Hl Hleaf E] _ IH]; [done|].
  apply IH. destruct (complete_leaf own root s l t) as (s2 & E2 & Hi2); [done..|]. congruence.
Qed.

(** Some leaf runs as long as some task does, when parallel tasks do not contain
    themselves. *)
Lemma some_leaf own root s (rank : loc → nat) :
  quiescent own root s → (∀ p t, own t = Some p → rank t < rank p) →
  ∀ x, active s x → ∃ l t, active s l ∧ store s !! l = Some t ∧ subtasks t = None.
Proof.
  intros Hi Hrank x. remember (rank x) as n eqn:En. revert x En.
  induction n as [n IH] using lt_wf_ind. intros x -> [Hd Hf].
  destruct (si_alloc _ _ _ _ _ _ _ Hi x Hd) as [T HT].
  destruct (subtasks T) as [ks|] eqn:Eks; [|by exists x, T].
  assert (parallel (store s) x) as Hp by by exists T, ks.
  pose proof (si_count _ _ _ _ _ _ _ Hi x T HT Hp Hd Hf) as Hc.
  pose proof (si_left _ _ _ _ _ _ _ Hi x T HT Hp Hd Hf ltac:(done)) as Hl.
  destruct (children own (dispatched (events s)) (finished (events s)) x) as [|y ys] eqn:Ey;
    [simpl in Hc; lia|].
  assert (y ∈ children own (dispatched (events s)) (finished (events s)) x) as Hy
    by (rewrite Ey; by left).
  apply list_elem_of_filter in Hy as [[Ho Hyf] Hyd]. by apply (IH (rank y) (Hrank _ _ Ho) y).
Qed.

(** *** All work completes *)

(** Code that only adds events. *)
Definition adds {A} (m : M ststate A) : Prop :=
  ∀ s a s', m s = Done (a, s') → ∃ es, events s' = es ++ events s.

Lemma adds_ret {A} (a : A) : adds (ret a).
Proof. intros s b s' [= _ <-]. by exists []. Qed.
Lemma adds_bnd {A B} (m : M ststate A) (k : A → M ststate B) :
  adds m → (∀ a, adds (k a)) → adds (bnd m k).
Proof.
  intros Hm Hk s b s' (a & s1 & E1 & E2)%bnd_done_inv.
  apply Hm in E1 as [es1 E1]. apply Hk in E2 as [es2 E2]. exists (es2 ++ es1).
  by rewrite E2, E1, app_assoc.
Qed.
Lemma adds_tget {A} (f : subtask → A) p : adds (tget f p).
Proof.
  intros s a s' E. exists []. unfold tget in E. by repeat case_match; simplify_eq.
Qed.
Lemma adds_tset f p : adds (tset f p).
Proof.
  intros s a s' E. exists []. unfold tset in E. by repeat case_match; simplify_eq.
Qed.
Lemma adds_event e : adds (tevent_ e).
Proof. intros s a s' [= _ <-]. by exists [e]. Qed.
Lemma adds_fail {A} (o : outcome (A * ststate)) : (∀ r, o ≠ Done r) → adds (λ _, o).
Proof. intros Ho s a s' E. by destruct (Ho (a, s')). Qed.
Create HintDb adds.
#[local] Hint Resolve adds_ret adds_bnd adds_tget adds_tset adds_event adds_fail : adds.

Lemma adds_run fuel j : adds (run fuel j).
Proof.
  revert j. induction fuel as [|fuel IH]; intros j; cbn [run]; [by apply adds_fail|].
  assert (∀ this ts, adds (dispatch_loop (run fuel) this ts)) as Hloop.
  { intros this ts. induction ts; cbn [dispatch_loop]; auto with adds. }
  destruct j as [t|t]; unfold dispatch_body, subtask_done_body, done, parallel_dispatch;
    repeat first [ progress intros | case_match | by apply adds_fail | solve [auto with adds]
                 | apply adds_bnd ].
Qed.

(** A leaf's completion is one [done] more, and the graph stays. *)
Lemma complete_leaf_grows own root s l t s' :
  quiescent own root s → active s l → store s !! l = Some t → subtasks t = None →
  subtask_done (Some l) s = Done (tt, s') →
  same_graph (store s) (store s') ∧ size (store s') = size (store s) ∧
  length (finished (events s)) < length (finished (events s')) ∧
  ∀ x, x ∈ dispatched (events s) → x ∈ dispatched (events s').
Proof.
  intros Hi Ha Hl Hleaf E. unfold subtask_done, bounded in E.
  destruct (run_ok own root (task_bound s) (JDone (Some l)) s (λ _, [])) as (s1 & E1 & _ & G).
  { unfold enough, task_bound. lia. }
  { exists None. split; [by left|]. split; [done|]. split; [|done].
    intros Hp. by destruct (leaf_not_parallel _ _ _ Hl Hleaf Hp). }
  rewrite E1 in E. injection E as ->. split; [apply G|]. split; [apply (gw_size _ _ G)|].
  assert (∃ es, events s' = es ++ Finished l :: events s) as [es Ees].
  { unfold task_bound in E1. cbn [run] in E1. unfold subtask_done_body in E1.
    rewrite (tget_bnd _ _ _ _ t) in E1 by done. unfold done in E1.
    rewrite bnd_assoc in E1. unfold tevent_ in E1. rewrite modify_bnd, ret_bnd in E1.
    match type of E1 with ?m ?s0 = _ =>
      assert (adds m) as Hm; [|apply (Hm s0) in E1 as [es Ees]; by exists es] end.
    pose proof adds_run.
    repeat first [ progress intros | case_match | solve [auto with adds] | apply adds_bnd ]. }
  rewrite Ees. clear. split.
  - induction es as [|[] es IH]; simpl; lia.
  - intros x Hx. induction es as [|[] es IH]; simpl; [done|by right|done].
Qed.

(** From every state between two calls the leaves that run can complete, one by
    one, until no task runs. *)
Lemma drain own root (rank : loc → nat) s :
  quiescent own root s → (∀ p t, own t = Some p → rank t < rank p) →
  ∃ s', rtc tstep s s' ∧ quiescent own root s' ∧
    (∀ x, x ∈ dispatched (events s) → x ∈ finished (events s')) ∧ (∀ x, ¬ active s' x).
Proof.
  intros Hi Hrank. remember (size (store s) - length (finished (events s))) as n eqn:En.
  revert s Hi En. induction n as [n IH] using lt_wf_ind. intros s Hi En.
  assert (∀ x, Decision (active s x)) as Hdec by (intros; unfold active; apply _).
  destruct (decide (Exists (active s) (dispatched (events s)))) as [Hex|Hnex].
  - apply Exists_exists in Hex as (x & _ & Hx).
    destruct (some_leaf own root s rank Hi Hrank x Hx) as (l & t & Hl & Ht & Hleaf).
    destruct (complete_leaf own root s l t Hi Hl Ht Hleaf) as (s1 & E & Hi1).
    destruct (complete_leaf_grows own root s l t s1 Hi Hl Ht Hleaf E) as (_ & Hsz & Hlen & Hd).
    assert (length (finished (events s1)) ≤ size (store s1)) as Hle.
    { apply NoDup_size; [by eapply si_finished|]. intros y Hy. by eapply si_alloc, si_sub. }
    destruct (IH (size (store s1) - length (finished (events s1))) ltac:(lia) s1 Hi1 eq_refl)
      as (s' & Hr & Hi' & Hall & Hnone).
    exists s'. split_and!; [by eapply rtc_l; [exact (TComplete s s1 l t Hl Ht Hleaf E)|]|done| |done].
    intros y Hy. by apply Hall, Hd.
  - assert (∀ x, ¬ active s x) as Hnone.
    { intros x Hx. apply Hnex, Exists_exists. exists x. split; [apply Hx|done]. }
    exists s. split_and!; [done|done| |done]. intros x Hx.
    destruct (decide (x ∈ finished (events s))) as [|Hf]; [done|].
    by destruct (Hnone x).
Qed.

(** What a graph that has run reaches. *)
Lemma dispatch_reaches own root s0 s1 s :
  tinit own root s0 → dispatch (Some root) s0 = Done (tt, s1) → rtc tstep s1 s →
  quiescent own root s.
Proof.
  intros Hi E Hr. destruct (dispatch_root own root s0 Hi) as (s1' & E' & Hq).
  eapply reach_quiescent; [|exact Hr]. by rewrite E in E'; injection E' as ->.
Qed.

Lemma dispatch_root_seen own root s s1 :
  tinit own root s → dispatch (Some root) s = Done (tt, s1) → root ∈ dispatched (events s1).
Proof.
  intros (Hg & _ & _) E. destruct (gr_root _ _ _ Hg) as [_ [T HT]].
  unfold dispatch, bounded, task_bound in E. cbn [run] in E. unfold dispatch_body in E.
  rewrite (tget_bnd _ _ _ _ T) in E by done. unfold tevent_ in E. rewrite modify_bnd in E.
  match type of E with ?m ?s0 = _ =>
    assert (adds m) as Hm; [|apply (Hm s0) in E as [es ->]] end.
  { pose proof adds_run.
    assert (∀ n this ts, adds (dispatch_loop (run n) this ts)) as Hloop.
    { intros n this ts. induction ts; cbn [dispatch_loop]; auto with adds. }
    unfold parallel_dispatch.
    repeat first [ progress intros | case_match | by apply adds_fail | solve [auto with adds]
                 | apply adds_bnd ]. }
  clear. induction es as [|[] es IH]; simpl; [by left|by right|done].
Qed.

Lemma dispatched_mono own root s s' x :
  quiescent own root s → rtc tstep s s' → x ∈ dispatched (events s) → x ∈ dispatched (events s').
Proof.
  intros Hi Hr. induction Hr as [|s s1 s' [l t Ha Hl Hleaf E] _ IH]; [done|]. intros Hx.
  destruct (complete_leaf own root s l t) as (s2 & E2 & Hi2); [done..|].
  apply IH; [by rewrite E in E2; injection E2 as ->|].
  by eapply (complete_leaf_grows own root s l t s1).
Qed.
End spec.
