(* ===== verification/IoService.v ===== *)
(** ioservice_linux.cc and ioservice_linux.h: asynchronous disk I/O on the kernel's
    aio contexts. Memory is little-endian with 8-byte pointers. *)
From S2P Require Export Dlist.

(** ** Constants *)

Definition IO_CMD_PREAD : Z := 0.
Definition IO_CMD_PWRITE : Z := 1.
Definition IO_CMD_FSYNC : Z := 2.
Definition IO_CMD_FDSYNC : Z := 3.
Definition IO_CMD_POLL : Z := 5.
Definition IO_CMD_NOOP : Z := 6.
Definition IO_CMD_PREADV : Z := 7.
Definition IO_CMD_PWRITEV : Z := 8.

Definition IOS_STATE_SUCCESS : Z := 0.
Definition IOS_STATE_ERROR : Z := 1.

(** ** Objects in bytes *)

(** The [n] bytes of an integer, least significant first, and the integer that
    bytes stand for. *)
Fixpoint le (n : nat) (v : Z) : list Z :=
  match n with
  | O => []
  | S n => (v mod 256)%Z :: le n (v / 256)%Z
  end.
Fixpoint unle (bs : list Z) : Z :=
  match bs with
  | [] => 0%Z
  | b :: bs => (b + 256 * unle bs)%Z
  end.

(** A member of a structure: its offset and size. *)
Record field : Type := Field { f_off : nat; f_size : nat }.
#[export] Instance field_eq_dec : EqDecision field.
Proof. solve_decision. Defined.

Definition get_field (f : field) (b : list Z) : Z := unle (take (f_size f) (drop (f_off f) b)).
Definition put_field (f : field) (v : Z) (b : list Z) : list Z :=
  take (f_off f) b ++ le (f_size f) v ++ drop (f_off f + f_size f) b.

(** [struct iocb]; the members of the union are those of [struct io_iocb_common]. *)
Definition iocb_data : field := Field 0 8.
Definition iocb_key : field := Field 8 4.
Definition iocb_aio_rw_flags : field := Field 12 4.
Definition iocb_aio_lio_opcode : field := Field 16 2.
Definition iocb_aio_reqprio : field := Field 18 2.
Definition iocb_aio_fildes : field := Field 20 4.
Definition iocb_u_c_buf : field := Field 24 8.
Definition iocb_u_c_nbytes : field := Field 32 8.
Definition iocb_u_c_offset : field := Field 40 8.
Definition iocb_u_c_pad3 : field := Field 48 8.
Definition iocb_u_c_flags : field := Field 56 4.
Definition iocb_u_c_resfd : field := Field 60 4.
Definition iocb_fields : list field :=
  [iocb_data; iocb_key; iocb_aio_rw_flags; iocb_aio_lio_opcode; iocb_aio_reqprio;
   iocb_aio_fildes; iocb_u_c_buf; iocb_u_c_nbytes; iocb_u_c_offset; iocb_u_c_pad3;
   iocb_u_c_flags; iocb_u_c_resfd].
Definition sizeof_iocb : nat := 64.

(** [struct io_event]: the members the service reads. *)
Record io_event : Type := IOEvent { ev_data : Z; ev_res : Z }.

(** ** State *)

(** A session: its buffer and [res]. Its list node [m_list] is the cell at the
    session's address. *)
Record io_session : Type := IOSession {
  iocb_buf : list Z;
  sres : Z;
}.
Definition set_buf (b : list Z) (x : io_session) : io_session := IOSession b (sres x).
Definition set_sres (r : Z) (x : io_session) : io_session := IOSession (iocb_buf x) r.

(** Calls on the kernel and on the client, with the results. *)
Inductive iocall : Type :=
| ISetup (maxevents r : Z)
| IDestroy (ctx : Z)
| ISubmit (iocb : list Z) (r : Z)
| IGetEvents (e : option io_event)
| IHandle (session : loc) (state error : Z)
| IUnbound.

(** A service with its sessions: the list nodes, the sessions by address, the fields
    of the [IOService], errno, and the calls made so far, latest first. *)
Record iostate : Type := IOState {
  iolinks : gmap positive cell;
  sessions : gmap positive io_session;
  io_ctx : Z;
  event_fd : Z;
  ref : Z;
  m_session_list : loc;
  ioerrno : Z;
  iocalls : list iocall;
}.
Definition set_iolinks (h : gmap positive cell) (s : iostate) : iostate :=
  IOState h (sessions s) (io_ctx s) (event_fd s) (ref s) (m_session_list s) (ioerrno s) (iocalls s).
Definition set_sessions (m : gmap positive io_session) (s : iostate) : iostate :=
  IOState (iolinks s) m (io_ctx s) (event_fd s) (ref s) (m_session_list s) (ioerrno s) (iocalls s).
Definition set_io_ctx (c : Z) (s : iostate) : iostate :=
  IOState (iolinks s) (sessions s) c (event_fd s) (ref s) (m_session_list s) (ioerrno s) (iocalls s).
Definition set_event_fd (f : Z) (s : iostate) : iostate :=
  IOState (iolinks s) (sessions s) (io_ctx s) f (ref s) (m_session_list s) (ioerrno s) (iocalls s).
Definition set_ref (r : Z) (s : iostate) : iostate :=
  IOState (iolinks s) (sessions s) (io_ctx s) (event_fd s) r (m_session_list s) (ioerrno s) (iocalls s).
Definition set_ioerrno (e : Z) (s : iostate) : iostate :=
  IOState (iolinks s) (sessions s) (io_ctx s) (event_fd s) (ref s) (m_session_list s) e (iocalls s).
Definition add_iocall (c : iocall) (s : iostate) : iostate :=
  IOState (iolinks s) (sessions s) (io_ctx s) (event_fd s) (ref s) (m_session_list s) (ioerrno s)
    (c :: iocalls s).

(** The kernel: the result of each call, with the errno it leaves and the context
    [io_setup] stores. [io_getevents] may return without an event. *)
Class IOKernel : Type := {
  setup_result : Z → iostate → Z * Z * Z;
  submit_result : list Z → iostate → Z * Z;
  getevents_result : iostate → option io_event * Z;
}.

(** The virtual functions of the client's sessions and of its service. *)
Class IOClient : Type := {
  prepare : loc → M iostate Z;
  session_handle : loc → Z → Z → M iostate unit;
  handle_unbound : M iostate unit;
}.

(** ** Instructions *)

Definition iolnk {A} (m : M (gmap positive cell) A) : M iostate A := zoom iolinks set_iolinks m.
Definition ses_get {A} (f : io_session → A) (l : loc) : M iostate A := λ s,
  match sessions s !! l with Some x => Done (f x, s) | None => UB end.
Definition ses_set (f : io_session → io_session) (l : loc) : M iostate unit := λ s,
  match sessions s !! l with
  | Some x => Done (tt, set_sessions (<[l := f x]> (sessions s)) s)
  | None => UB
  end.
(** The [IOSession *] that a pointer-sized integer holds. *)
Definition session_at (v : Z) : M iostate loc :=
  match v with Zpos l => ret l | _ => ub end.

(** Writing a member of the [iocb] in the session's buffer, which has 64 bytes. *)
Definition iocb_put (l : loc) (f : field) (v : Z) : M iostate unit :=
  let* b := ses_get iocb_buf l in
  if decide (f_off f + f_size f ≤ length b) then ses_set (set_buf (put_field f v b)) l
  else ub.
Definition iocb_get (l : loc) (f : field) : M iostate Z :=
  let* b := ses_get iocb_buf l in
  if decide (f_off f + f_size f ≤ length b) then ret (get_field f b) else ub.
(** [memset(iocb, 0, sizeof( *iocb))] *)
Definition iocb_clear (l : loc) : M iostate unit :=
  let* b := ses_get iocb_buf l in
  if decide (sizeof_iocb ≤ length b) then
    ses_set (set_buf (replicate sizeof_iocb 0%Z ++ drop sizeof_iocb b)) l
  else ub.

Section service.
Context `{IOKernel} `{IOClient}.

(** ** System calls *)

Definition io_setup (maxevents : Z) : M iostate Z := λ s,
  let '(r, ctx, e) := setup_result maxevents s in
  Done (r, add_iocall (ISetup maxevents r) (set_io_ctx ctx (set_ioerrno e s))).
Definition io_destroy : M iostate unit :=
  modify (λ s, add_iocall (IDestroy (io_ctx s)) s).
(** One [iocb]: the kernel is handed its bytes. *)
Definition io_submit (l : loc) : M iostate Z :=
  let* b := ses_get iocb_buf l in
  λ s, let '(r, e) := submit_result b s in
       Done (r, add_iocall (ISubmit b r) (set_ioerrno e s)).
Definition io_getevents : M iostate (option io_event) := λ s,
  let '(ev, e) := getevents_result s in
  Done (ev, add_iocall (IGetEvents ev) (set_ioerrno e s)).

Definition io_set_eventfd (l : loc) (eventfd : Z) : M iostate unit :=
  let* fl := iocb_get l iocb_u_c_flags in
  iocb_put l iocb_u_c_flags (Z.lor fl (Z.shiftl 1 0)) ;;;
  iocb_put l iocb_u_c_resfd eventfd.

(** ** IOSession *)

Definition prep_pread (this : loc) (fd buf count offset : Z) : M iostate unit :=
  iocb_clear this ;;;
  iocb_put this iocb_aio_fildes fd ;;;
  iocb_put this iocb_aio_lio_opcode IO_CMD_PREAD ;;;
  iocb_put this iocb_u_c_buf buf ;;;
  iocb_put this iocb_u_c_nbytes count ;;;
  iocb_put this iocb_u_c_offset offset.
Definition prep_pwrite (this : loc) (fd buf count offset : Z) : M iostate unit :=
  iocb_clear this ;;;
  iocb_put this iocb_aio_fildes fd ;;;
  iocb_put this iocb_aio_lio_opcode IO_CMD_PWRITE ;;;
  iocb_put this iocb_u_c_buf buf ;;;
  iocb_put this iocb_u_c_nbytes count ;;;
  iocb_put this iocb_u_c_offset offset.
Definition prep_preadv (this : loc) (fd iov iovcnt offset : Z) : M iostate unit :=
  iocb_clear this ;;;
  iocb_put this iocb_aio_fildes fd ;;;
  iocb_put this iocb_aio_lio_opcode IO_CMD_PREADV ;;;
  iocb_put this iocb_u_c_buf iov ;;;
  iocb_put this iocb_u_c_nbytes iovcnt ;;;
  iocb_put this iocb_u_c_offset offset.
Definition prep_pwritev (this : loc) (fd iov iovcnt offset : Z) : M iostate unit :=
  iocb_clear this ;;;
  iocb_put this iocb_aio_fildes fd ;;;
  iocb_put this iocb_aio_lio_opcode IO_CMD_PWRITEV ;;;
  iocb_put this iocb_u_c_buf iov ;;;
  iocb_put this iocb_u_c_nbytes iovcnt ;;;
  iocb_put this iocb_u_c_offset offset.
Definition prep_fsync (this : loc) (fd : Z) : M iostate unit :=
  iocb_clear this ;;;
  iocb_put this iocb_aio_fildes fd ;;;
  iocb_put this iocb_aio_lio_opcode IO_CMD_FSYNC.
Definition prep_fdsync (this : loc) (fd : Z) : M iostate unit :=
  iocb_clear this ;;;
  iocb_put this iocb_aio_fildes fd ;;;
  iocb_put this iocb_aio_lio_opcode IO_CMD_FDSYNC.

(** ** IOService *)

(** [ret] stays 0: the branch that destroys the context is never taken. *)
Definition init (maxevents : Z) : M iostate Z :=
  let r0 := 0%Z in
  if (maxevents <? 0)%Z then modify (set_ioerrno EINVAL) ;;; ret (-1)%Z else
  modify (set_io_ctx 0) ;;;
  let* r := io_setup maxevents in
  if (0 <=? r)%Z then
    if (r0 =? 0)%Z then
      let* head := gets m_session_list in
      iolnk (list_init (Some head)) ;;;
      modify (set_event_fd (-1)) ;;;
      ret 0%Z
    else
      modify (set_ioerrno r0) ;;;
      io_destroy ;;;
      ret (-1)%Z
  else ret (-1)%Z.

Definition deinit : M iostate unit := io_destroy.

Definition incref : M iostate unit := modify (λ s, set_ref (i32 (ref s + 1)) s).

(** The state and the error of a session whose [res] is [r]; to negate the least
    [long] is undefined behaviour. *)
Definition outcome_of (r : Z) : M iostate (Z * Z) :=
  if (0 <=? r)%Z then ret (IOS_STATE_SUCCESS, 0%Z)
  else if (r =? - 2 ^ 63)%Z then ub
  else ret (IOS_STATE_ERROR, i32 (- r)).

Definition handle (session : loc) (state error : Z) : M iostate unit :=
  modify (add_iocall (IHandle session state error)) ;;;
  session_handle session state error.

(** [while (!list_empty(&this->m_session_list))] *)
Fixpoint drain_loop (fuel : nat) : M iostate unit :=
  match fuel with
  | O => nofuel
  | S fuel =>
    let* head := gets m_session_list in
    let* empty := iolnk (list_empty (Some head)) in
    if empty : bool then ret tt else
    let* ev := io_getevents in
    match ev with
    | Some e =>
        let* session := session_at (ev_data e) in
        iolnk (list_delete (Some session)) ;;;
        ses_set (set_sres (i64 (ev_res e))) session ;;;
        let* r := ses_get sres session in
        let* (state, error) := outcome_of r in
        handle session state error ;;;
        drain_loop fuel
    | None => drain_loop fuel
    end
  end.

Definition decref (fuel : nat) : M iostate unit :=
  modify (λ s, set_ref (i32 (ref s - 1)) s) ;;;
  let* r := gets ref in
  if (r =? 0)%Z then
    drain_loop fuel ;;;
    modify (add_iocall IUnbound) ;;;
    handle_unbound
  else ret tt.

(** The mutex is held throughout: the function is one step. *)
Definition request (session : loc) : M iostate Z :=
  let* evfd := gets event_fd in
  let* r :=
    (if (evfd <? 0)%Z then modify (set_ioerrno ENOENT) ;;; ret (-1)%Z
     else
       let* p := prepare session in
       if (0 <=? p)%Z then
         let* evfd := gets event_fd in
         io_set_eventfd session evfd ;;;
         iocb_put session iocb_data (Z.pos session) ;;;
         let* n := io_submit session in
         if (0 <? n)%Z then
           let* head := gets m_session_list in
           iolnk (list_add_tail (Some head) (Some session)) ;;;
           ret 0%Z
         else ret (-1)%Z
       else ret (-1)%Z) in
  (if (r <? 0)%Z then
     let* e := gets ioerrno in
     ses_set (set_sres (- e)%Z) session
   else ret tt) ;;;
  ret r.

Definition aio_finish : M iostate ptr :=
  let* ev := io_getevents in
  match ev with
  | Some e =>
      incref ;;;
      let* session := session_at (ev_data e) in
      ses_set (set_sres (i64 (ev_res e))) session ;;;
      ret (Some session)
  | None => ret None
  end.
End service.
