(* ===== verification/IoServiceSpec.v ===== *)
(** What the I/O service promises: the kernel reads from the buffer what the client
    prepared, and the sessions in flight are handled. *)
From S2P Require Export IoService.

(** ** Bytes *)

Lemma length_le n v : length (le n v) = n.
Proof. revert v. induction n; intros; simpl; auto. Qed.

Lemma unle_le n v : unle (le n v) = (v mod 2 ^ (8 * Z.of_nat n))%Z.
Proof.
  revert v. induction n as [|n IH]; intros v; simpl; [by rewrite Z.mod_1_r|]. rewrite IH.
  replace (8 * Z.of_nat (S n))%Z with (8 + 8 * Z.of_nat n)%Z by lia.
  rewrite Z.pow_add_r by lia. change (2 ^ 8)%Z with 256%Z.
  rewrite Z.rem_mul_r by lia. lia.
Qed.

Definition fits (f : field) (b : list Z) : Prop := f_off f + f_size f ≤ length b.
Definition apart (f g : field) : Prop :=
  f_off f + f_size f ≤ f_off g ∨ f_off g + f_size g ≤ f_off f.
#[export] Instance apart_dec f g : Decision (apart f g).
Proof. unfold apart. apply _. Defined.

Lemma length_put_field f v b : fits f b → length (put_field f v b) = length b.
Proof.
  unfold fits, put_field. intros. rewrite !length_app, length_take, length_le, length_drop. lia.
Qed.
Lemma get_put_same f v b :
  fits f b → get_field f (put_field f v b) = (v mod 2 ^ (8 * Z.of_nat (f_size f)))%Z.
Proof.
  unfold fits, get_field, put_field. intros.
  rewrite drop_app_length' by (rewrite length_take; lia).
  rewrite take_app_length' by (by rewrite length_le). apply unle_le.
Qed.
Lemma get_put_other f g v b :
  fits f b → fits g b → apart f g → get_field g (put_field f v b) = get_field g b.
Proof.
  unfold fits, apart, get_field, put_field. intros Hf Hg [Ha|Ha]; f_equal.
  - rewrite drop_app_ge by (rewrite length_take; lia). rewrite length_take.
    rewrite drop_app_ge by (rewrite length_le; lia). rewrite length_le, drop_drop. do 2 f_equal. lia.
  - rewrite drop_app_le by (rewrite length_take; lia).
    rewrite take_app_le by (rewrite length_drop, length_take; lia).
    rewrite !take_drop_commute, take_take. do 2 f_equal. lia.
Qed.

(** The members are in the 64 bytes and do not overlap. *)
Lemma iocb_layout :
  Forall (λ f, f_off f + f_size f ≤ sizeof_iocb) iocb_fields ∧
  (∀ f g, f ∈ iocb_fields → g ∈ iocb_fields → f ≠ g → apart f g) ∧
  sum_list (f_size <$> iocb_fields) = sizeof_iocb.
Proof.
  split; [apply (bool_decide_unpack _); by vm_compute|]. split; [|done].
  assert (Forall (λ f, Forall (λ g, f = g ∨ apart f g) iocb_fields) iocb_fields) as H.
  { apply (bool_decide_unpack _). by vm_compute. }
  rewrite Forall_forall in H. intros f g Hf Hg Hne. specialize (H f Hf).
  rewrite Forall_forall in H. by destruct (H g Hg).
Qed.
Lemma get_zero f : f ∈ iocb_fields → get_field f (replicate sizeof_iocb 0%Z) = 0%Z.
Proof.
  assert (Forall (λ f, get_field f (replicate sizeof_iocb 0%Z) = 0%Z) iocb_fields) as H
    by (apply (bool_decide_unpack _); by vm_compute).
  rewrite Forall_forall in H. auto.
Qed.

(** ** What the kernel reads *)

Record iocb : Type := Iocb {
  k_data : Z; k_opcode : Z; k_fildes : Z; k_buf : Z; k_nbytes : Z; k_offset : Z;
  k_flags : Z; k_resfd : Z;
}.
Definition read_iocb (b : list Z) : iocb :=
  Iocb (get_field iocb_data b) (get_field iocb_aio_lio_opcode b)
    (i32 (get_field iocb_aio_fildes b)) (get_field iocb_u_c_buf b)
    (get_field iocb_u_c_nbytes b) (i64 (get_field iocb_u_c_offset b))
    (get_field iocb_u_c_flags b) (get_field iocb_u_c_resfd b).

(** The operations a client can prepare. *)
Inductive io_op : Type :=
| Pread (fd buf count offset : Z)
| Pwrite (fd buf count offset : Z)
| Preadv (fd iov iovcnt offset : Z)
| Pwritev (fd iov iovcnt offset : Z)
| Fsync (fd : Z)
| Fdsync (fd : Z).
Definition prep (o : io_op) (this : loc) : M iostate unit :=
  match o with
  | Pread f b n off => prep_pread this f b n off
  | Pwrite f b n off => prep_pwrite this f b n off
  | Preadv f b n off => prep_preadv this f b n off
  | Pwritev f b n off => prep_pwritev this f b n off
  | Fsync f => prep_fsync this f
  | Fdsync f => prep_fdsync this f
  end.
(** The arguments are in the range of their types. *)
Definition op_ok (o : io_op) : Prop :=
  match o with
  | Pread f b n off | Pwrite f b n off =>
      (- 2 ^ 31 ≤ f < 2 ^ 31 ∧ 0 ≤ b < 2 ^ 64 ∧ 0 ≤ n < 2 ^ 64 ∧ - 2 ^ 63 ≤ off < 2 ^ 63)%Z
  | Preadv f b n off | Pwritev f b n off =>
      (- 2 ^ 31 ≤ f < 2 ^ 31 ∧ 0 ≤ b < 2 ^ 64 ∧ 0 ≤ n < 2 ^ 31 ∧ - 2 ^ 63 ≤ off < 2 ^ 63)%Z
  | Fsync f | Fdsync f => (- 2 ^ 31 ≤ f < 2 ^ 31)%Z
  end.
(** The [iocb] the kernel must see, with the session and the eventfd to signal. *)
Definition wanted (o : io_op) (data flags resfd : Z) : iocb :=
  match o with
  | Pread f b n off => Iocb data IO_CMD_PREAD f b n off flags resfd
  | Pwrite f b n off => Iocb data IO_CMD_PWRITE f b n off flags resfd
  | Preadv f b n off => Iocb data IO_CMD_PREADV f b n off flags resfd
  | Pwritev f b n off => Iocb data IO_CMD_PWRITEV f b n off flags resfd
  | Fsync f => Iocb data IO_CMD_FSYNC f 0 0 0 flags resfd
  | Fdsync f => Iocb data IO_CMD_FDSYNC f 0 0 0 flags resfd
  end.

(** Writes of members, first to last. *)
Fixpoint writes (ws : list (field * Z)) (b : list Z) : list Z :=
  match ws with
  | [] => b
  | (f, v) :: ws => writes ws (put_field f v b)
  end.
Definition op_writes (o : io_op) : list (field * Z) :=
  match o with
  | Pread f b n off => [(iocb_aio_fildes, f); (iocb_aio_lio_opcode, IO_CMD_PREAD);
                        (iocb_u_c_buf, b); (iocb_u_c_nbytes, n); (iocb_u_c_offset, off)]
  | Pwrite f b n off => [(iocb_aio_fildes, f); (iocb_aio_lio_opcode, IO_CMD_PWRITE);
                        (iocb_u_c_buf, b); (iocb_u_c_nbytes, n); (iocb_u_c_offset, off)]
  | Preadv f b n off => [(iocb_aio_fildes, f); (iocb_aio_lio_opcode, IO_CMD_PREADV);
                        (iocb_u_c_buf, b); (iocb_u_c_nbytes, n); (iocb_u_c_offset, off)]
  | Pwritev f b n off => [(iocb_aio_fildes, f); (iocb_aio_lio_opcode, IO_CMD_PWRITEV);
                        (iocb_u_c_buf, b); (iocb_u_c_nbytes, n); (iocb_u_c_offset, off)]
  | Fsync f => [(iocb_aio_fildes, f); (iocb_aio_lio_opcode, IO_CMD_FSYNC)]
  | Fdsync f => [(iocb_aio_fildes, f); (iocb_aio_lio_opcode, IO_CMD_FDSYNC)]
  end.

Lemma writes_app ws ws' b : writes (ws ++ ws') b = writes ws' (writes ws b).
Proof. revert b. induction ws as [|[f v] ws IH]; intros; simpl; auto. Qed.

Definition in_iocb (ws : list (field * Z)) : Prop := Forall (λ w, w.1 ∈ iocb_fields) ws.
Lemma iocb_fits f b : f ∈ iocb_fields → length b = sizeof_iocb → fits f b.
Proof.
  intros Hf Hb. destruct iocb_layout as [H _]. rewrite Forall_forall in H. unfold fits.
  rewrite Hb. by apply H.
Qed.
Lemma length_writes ws b :
  in_iocb ws → length b = sizeof_iocb → length (writes ws b) = sizeof_iocb.
Proof.
  revert b. induction ws as [|[f v] ws IH]; intros b Hw Hb; simpl; [done|].
  apply Forall_cons in Hw as [Hf Hw]. apply IH; [done|].
  rewrite length_put_field; [done|by apply iocb_fits].
Qed.

(** A member reads back as the last value written to it. *)
Fixpoint last_write (f : field) (v : Z) (ws : list (field * Z)) : Z :=
  match ws with
  | [] => v
  | (g, u) :: ws =>
      last_write f (if decide (f = g) then (u mod 2 ^ (8 * Z.of_nat (f_size f)))%Z else v) ws
  end.
Lemma get_writes f ws b :
  f ∈ iocb_fields → in_iocb ws → length b = sizeof_iocb →
  get_field f (writes ws b) = last_write f (get_field f b) ws.
Proof.
  intros Hf. revert b. induction ws as [|[g u] ws IH]; intros b Hw Hb; simpl; [done|].
  apply Forall_cons in Hw as [Hg Hw]. simpl in Hg.
  rewrite IH; [|done|rewrite length_put_field; [done|by apply iocb_fits]]. f_equal.
  case_decide as Heq; [subst; apply get_put_same; by apply iocb_fits|].
  apply get_put_other; [by apply iocb_fits..|]. apply iocb_layout; [done..|congruence].
Qed.

(** ** Running the instructions *)

Lemma iolnk_bnd {A B} (m : M (gmap positive cell) A) (k : A → M iostate B) s a h :
  m (iolinks s) = Done (a, h) → bnd (iolnk m) k s = k a (set_iolinks h s).
Proof. intros E. unfold bnd, iolnk, zoom. by rewrite E. Qed.
Lemma ses_get_bnd {A B} (f : io_session → A) l (k : A → M iostate B) s x :
  sessions s !! l = Some x → bnd (ses_get f l) k s = k (f x) s.
Proof. intros E. apply bnd_done. unfold ses_get. by rewrite E. Qed.
Lemma ses_set_bnd {B} f l (k : unit → M iostate B) s x :
  sessions s !! l = Some x →
  bnd (ses_set f l) k s = k tt (set_sessions (<[l := f x]> (sessions s)) s).
Proof. intros E. apply bnd_done. unfold ses_set. by rewrite E. Qed.

(** [s] with [b] in the buffer of [l]. *)
Definition with_buf (l : loc) (b : list Z) (x : io_session) (s : iostate) : iostate :=
  set_sessions (<[l := set_buf b x]> (sessions s)) s.
Lemma with_buf_twice l b b' x s :
  set_sessions (<[l := set_buf b' (set_buf b x)]> (sessions (with_buf l b x s))) (with_buf l b x s) =
  with_buf l b' x s.
Proof. unfold with_buf, set_sessions. simpl. by rewrite insert_insert_eq. Qed.

Lemma iocb_put_bnd {B} l f v (k : unit → M iostate B) s b x :
  f ∈ iocb_fields → length b = sizeof_iocb →
  bnd (iocb_put l f v) k (with_buf l b x s) = k tt (with_buf l (put_field f v b) x s).
Proof.
  intros Hf Hb. unfold iocb_put. rewrite bnd_assoc.
  rewrite (ses_get_bnd _ _ _ _ (set_buf b x)) by (simpl; by rewrite lookup_insert_eq).
  cbn [iocb_buf set_buf]. rewrite decide_True by by apply iocb_fits.
  rewrite (ses_set_bnd _ _ _ _ (set_buf b x)) by (simpl; by rewrite lookup_insert_eq).
  cbn [iocb_buf set_buf]. by rewrite with_buf_twice.
Qed.
Lemma iocb_put_run l f v s b x :
  f ∈ iocb_fields → length b = sizeof_iocb →
  iocb_put l f v (with_buf l b x s) = Done (tt, with_buf l (put_field f v b) x s).
Proof.
  intros Hf Hb. pose proof (iocb_put_bnd l f v ret s b x Hf Hb) as E.
  unfold bnd in E. destruct (iocb_put l f v _) as [[[] s']| | |]; [exact E|done..].
Qed.
Lemma iocb_get_bnd {B} l f (k : Z → M iostate B) s b x :
  f ∈ iocb_fields → length b = sizeof_iocb →
  bnd (iocb_get l f) k (with_buf l b x s) = k (get_field f b) (with_buf l b x s).
Proof.
  intros Hf Hb. unfold iocb_get. rewrite bnd_assoc.
  rewrite (ses_get_bnd _ _ _ _ (set_buf b x)) by (simpl; by rewrite lookup_insert_eq).
  cbn [iocb_buf set_buf]. by rewrite decide_True by by apply iocb_fits.
Qed.
Lemma iocb_clear_bnd {B} l (k : unit → M iostate B) s x :
  sessions s !! l = Some x → length (iocb_buf x) = sizeof_iocb →
  bnd (iocb_clear l) k s = k tt (with_buf l (replicate sizeof_iocb 0%Z) x s).
Proof.
  intros Hx Hb. unfold iocb_clear. rewrite bnd_assoc, (ses_get_bnd _ _ _ _ x) by done.
  rewrite decide_True by lia. rewrite (ses_set_bnd _ _ _ _ x) by done.
  rewrite drop_ge by lia. by rewrite app_nil_r.
Qed.

Ltac in_fields := apply (bool_decide_unpack _); by vm_compute.
Ltac io_step :=
  first
    [ rewrite iocb_put_bnd; [|in_fields|by repeat (rewrite length_put_field; [|apply iocb_fits; [in_fields|]])]
    | rewrite iocb_put_run; [|in_fields|by repeat (rewrite length_put_field; [|apply iocb_fits; [in_fields|]])] ].

Lemma op_writes_in o : in_iocb (op_writes o).
Proof. destruct o; repeat (constructor; [in_fields|]); constructor. Qed.

(** What a session prepares. *)
Definition prepared (o : io_op) : list Z := writes (op_writes o) (replicate sizeof_iocb 0%Z).
Lemma length_prepared o : length (prepared o) = sizeof_iocb.
Proof. apply length_writes; [apply op_writes_in|done]. Qed.

Lemma prep_run o l s x :
  sessions s !! l = Some x → length (iocb_buf x) = sizeof_iocb →
  prep o l s = Done (tt, with_buf l (prepared o) x s).
Proof.
  intros Hx Hb. destruct o; simpl prep; unfold prep_pread, prep_pwrite, prep_preadv, prep_pwritev,
    prep_fsync, prep_fdsync; rewrite (iocb_clear_bnd _ _ _ x) by done;
    change (prepared ?o) with (writes (op_writes o) (replicate sizeof_iocb 0%Z));
    set (z := replicate sizeof_iocb 0%Z); assert (length z = sizeof_iocb) as Hz by done;
    clearbody z; repeat io_step; done.
Qed.

(** Every integer of the ranges of [op_ok] survives its member. *)
Lemma i32_u32 z : (- 2 ^ 31 ≤ z < 2 ^ 31)%Z → i32 (z mod 2 ^ 32) = z.
Proof.
  intros. unfold i32, sw. rewrite Z.add_mod_idemp_l by lia. rewrite Z.mod_small; lia.
Qed.
Lemma i64_u64 z : (- 2 ^ 63 ≤ z < 2 ^ 63)%Z → i64 (z mod 2 ^ 64) = z.
Proof.
  intros. unfold i64, sw. rewrite Z.add_mod_idemp_l by lia. rewrite Z.mod_small; lia.
Qed.

(** The buffer reads back as what was prepared, with what [request] adds to it. *)
Lemma prepared_read o data evfd :
  op_ok o → (0 ≤ data < 2 ^ 64)%Z → (0 ≤ evfd < 2 ^ 32)%Z →
  read_iocb (prepared o) = wanted o 0 0 0 ∧
  read_iocb (writes [(iocb_u_c_flags, Z.lor 0 1); (iocb_u_c_resfd, evfd); (iocb_data, data)]
               (prepared o)) = wanted o data 1 evfd.
Proof.
  intros Ho Hd He. unfold read_iocb, prepared. rewrite <- writes_app.
  rewrite !get_writes;
    try (apply Forall_app; split; [apply op_writes_in|repeat (constructor; [in_fields|]); constructor]);
    try apply op_writes_in; try done; try in_fields.
  rewrite !get_zero by in_fields.
  destruct o; cbn [op_writes app last_write wanted];
    repeat (first [rewrite decide_True by reflexivity | rewrite decide_False by discriminate]);
    unfold op_ok in Ho;
    change (8 * Z.of_nat (f_size iocb_u_c_flags))%Z with 32%Z;
    change (8 * Z.of_nat (f_size iocb_u_c_resfd))%Z with 32%Z;
    change (8 * Z.of_nat (f_size iocb_aio_fildes))%Z with 32%Z;
    change (8 * Z.of_nat (f_size iocb_aio_lio_opcode))%Z with 16%Z;
    change (8 * Z.of_nat (f_size iocb_data))%Z with 64%Z;
    change (8 * Z.of_nat (f_size iocb_u_c_buf))%Z with 64%Z;
    change (8 * Z.of_nat (f_size iocb_u_c_nbytes))%Z with 64%Z;
    change (8 * Z.of_nat (f_size iocb_u_c_offset))%Z with 64%Z;
    rewrite i32_u32 by lia; try rewrite i64_u64 by lia;
    split; f_equal; first [done | by rewrite Z.mod_small by lia].
Qed.

(** ** Requests *)

(** What [request] hands to the kernel after the session prepared [o]. *)
Definition submitted (o : io_op) (l : loc) (evfd : Z) : list Z :=
  writes [(iocb_u_c_flags, Z.lor 0 1); (iocb_u_c_resfd, evfd); (iocb_data, Z.pos l)] (prepared o).

Section request.
Context `{K : IOKernel} `{IOClient}.
Context (l : loc) (x : io_session) (s : iostate).
Context (Hx : sessions s !! l = Some x).

(** What [request] does with the result of the part under the lock. *)
Lemma request_end (m : M iostate Z) r s1 x1 :
  m s = Done (r, s1) → sessions s1 !! l = Some x1 →
  bnd m (λ r, (if (r <? 0)%Z then let* e := gets ioerrno in ses_set (set_sres (- e)%Z) l
               else ret tt) ;;; ret r) s =
  Done (r, if (r <? 0)%Z
           then set_sessions (<[l := set_sres (- ioerrno s1)%Z x1]> (sessions s1)) s1 else s1).
Proof.
  intros Hm Hx1. rewrite (bnd_done _ _ _ _ _ Hm). destruct (r <? 0)%Z; [|done].
  by rewrite bnd_assoc, gets_bnd, (ses_set_bnd _ _ _ _ x1).
Qed.

(** A service that is not bound. *)
Lemma request_closed :
  (event_fd s < 0)%Z →
  request l s = Done ((-1)%Z,
    set_sessions (<[l := set_sres (- ENOENT)%Z x]> (sessions s)) (set_ioerrno ENOENT s)).
Proof.
  intros He. unfold request. rewrite gets_bnd, (proj2 (Z.ltb_lt _ 0)) by done.
  by rewrite (request_end _ (-1)%Z (set_ioerrno ENOENT s) x).
Qed.

(** The session cannot prepare: nothing is submitted, [res] is what errno says. *)
Lemma request_unprepared p s1 x1 :
  (0 ≤ event_fd s)%Z → prepare l s = Done (p, s1) → (p < 0)%Z → sessions s1 !! l = Some x1 →
  request l s = Done ((-1)%Z,
    set_sessions (<[l := set_sres (- ioerrno s1)%Z x1]> (sessions s1)) s1).
Proof.
  intros He Hp Hneg Hx1. unfold request. rewrite gets_bnd, (proj2 (Z.ltb_ge _ 0)) by done.
  rewrite (request_end _ (-1)%Z s1 x1); [done| |done].
  by rewrite (bnd_done _ _ _ _ _ Hp), (proj2 (Z.leb_gt 0 p)).
Qed.

Context (o : io_op) (p : Z).
Context (Hb : length (iocb_buf x) = sizeof_iocb) (He : (0 ≤ event_fd s < 2 ^ 31)%Z).
Context (Ho : op_ok o) (Hl : (Z.pos l < 2 ^ 64)%Z).
Context (Hp : prepare l s = Done (p, with_buf l (prepared o) x s)) (Hp0 : (0 ≤ p)%Z).

Lemma submitted_read : read_iocb (submitted o l (event_fd s)) = wanted o (Z.pos l) 1 (event_fd s).
Proof. apply prepared_read; [done|lia|lia]. Qed.

Lemma prepared_flags : get_field iocb_u_c_flags (prepared o) = 0%Z.
Proof.
  destruct (prepared_read o 0 0 Ho ltac:(lia) ltac:(lia)) as [E _].
  assert (k_flags (read_iocb (prepared o)) = k_flags (wanted o 0 0 0)) as E' by by rewrite E.
  simpl in E'. rewrite E'. by destruct o.
Qed.

(** From the prepared buffer to the kernel's answer. *)
Lemma submit_run {B} (k : Z → M iostate B) r e :
  submit_result (submitted o l (event_fd s))
    (with_buf l (submitted o l (event_fd s)) x s) = (r, e) →
  (io_set_eventfd l (event_fd s) ;;;
   iocb_put l iocb_data (Z.pos l) ;;;
   let* n := io_submit l in k n) (with_buf l (prepared o) x s) =
  k r (add_iocall (ISubmit (submitted o l (event_fd s)) r)
         (set_ioerrno e (with_buf l (submitted o l (event_fd s)) x s))).
Proof.
  intros Hr. pose proof (length_prepared o) as Hlen. unfold io_set_eventfd. rewrite !bnd_assoc.
  rewrite iocb_get_bnd by (done || in_fields). rewrite prepared_flags.
  change (Z.lor 0 (Z.shiftl 1 0)) with (Z.lor 0 1). rewrite !bnd_assoc. do 3 io_step.
  change (put_field iocb_data _ _) with (submitted o l (event_fd s)).
  unfold io_submit. rewrite bnd_assoc.
  rewrite (ses_get_bnd _ _ _ _ (set_buf (submitted o l (event_fd s)) x))
    by (simpl; by rewrite lookup_insert_eq).
  unfold bnd. cbn [iocb_buf set_buf]. by rewrite Hr.
Qed.

(** The kernel takes it: the session is on the list. *)
Lemma request_accepted r e h :
  submit_result (submitted o l (event_fd s))
    (with_buf l (submitted o l (event_fd s)) x s) = (r, e) →
  (0 < r)%Z → list_add_tail (Some (m_session_list s)) (Some l) (iolinks s) = Done (tt, h) →
  request l s = Done (0%Z, set_iolinks h
    (add_iocall (ISubmit (submitted o l (event_fd s)) r)
       (set_ioerrno e (with_buf l (submitted o l (event_fd s)) x s)))).
Proof.
  intros Hr Hpos Hadd. unfold request. rewrite gets_bnd, (proj2 (Z.ltb_ge _ 0)) by lia.
  set (s2 := set_iolinks h _).
  rewrite (request_end _ 0%Z s2 (set_buf (submitted o l (event_fd s)) x));
    [done| |simpl; by rewrite lookup_insert_eq].
  rewrite (bnd_done _ _ _ _ _ Hp), (proj2 (Z.leb_le 0 p)), gets_bnd by done.
  change (event_fd (with_buf _ _ _ s)) with (event_fd s).
  rewrite (submit_run _ r e) by done. rewrite (proj2 (Z.ltb_lt 0 r)) by done.
  rewrite gets_bnd. by rewrite (iolnk_bnd _ _ _ tt h).
Qed.

(** The kernel refuses it. *)
Lemma request_refused r e :
  submit_result (submitted o l (event_fd s))
    (with_buf l (submitted o l (event_fd s)) x s) = (r, e) →
  (r ≤ 0)%Z →
  ∃ s', request l s = Done ((-1)%Z, s') ∧ iolinks s' = iolinks s ∧ ioerrno s' = e ∧
    sres <$> sessions s' !! l = Some (- e)%Z.
Proof.
  intros Hr Hneg. unfold request. rewrite gets_bnd, (proj2 (Z.ltb_ge _ 0)) by lia.
  set (b := submitted o l (event_fd s)) in *.
  set (s2 := add_iocall (ISubmit b r) (set_ioerrno e (with_buf l b x s))).
  rewrite (request_end _ (-1)%Z s2 (set_buf b x)); [| |simpl; by rewrite lookup_insert_eq]; cycle 1.
  { rewrite (bnd_done _ _ _ _ _ Hp), (proj2 (Z.leb_le 0 p)), gets_bnd by done.
    change (event_fd (with_buf _ _ _ s)) with (event_fd s).
    rewrite (submit_run _ r e) by done. by rewrite (proj2 (Z.ltb_ge 0 r)). }
  eexists. split; [done|]. split_and!; [done|done|]. simpl. by rewrite lookup_insert_eq.
Qed.
End request.

(** ** The sessions in flight *)

Fixpoint remove_one (x : Z) (l : list Z) : list Z :=
  match l with
  | [] => []
  | y :: l => if decide (x = y) then l else y :: remove_one x l
  end.
Lemma remove_one_Permutation x l : x ∈ l → l ≡ₚ x :: remove_one x l.
Proof.
  induction l as [|y l IH]; simpl; [by intros ?%elem_of_nil|].
  intros [->|Hl]%elem_of_cons; [by rewrite decide_True|]. case_decide; [by subst|].
  etrans; [apply perm_skip, (IH Hl)|apply perm_swap].
Qed.

(** The [data] of the requests the kernel has taken and not yet given back, from the
    calls made. *)
Fixpoint inflight (cs : list iocall) : list Z :=
  match cs with
  | [] => []
  | ISubmit b r :: cs =>
      if (0 <? r)%Z then inflight cs ++ [get_field iocb_data b] else inflight cs
  | IGetEvents (Some e) :: cs => remove_one (ev_data e) (inflight cs)
  | _ :: cs => inflight cs
  end.

(** [io_getevents] gives back requests in flight, waits while there are some, and
    answers a transfer with a count or a negated errno. *)
Class KernelLaws (K : IOKernel) : Prop := {
  getevents_inflight s e err :
    getevents_result s = (Some e, err) → ev_data e ∈ inflight (iocalls s);
  getevents_res s e err : getevents_result s = (Some e, err) → (- 4096 < i64 (ev_res e))%Z;
  getevents_waits s : inflight (iocalls s) ≠ [] → is_Some (getevents_result s).1;
}.
(** The client's handlers return, and concern their own session only (they may free
    it). *)
Class IOClientLaws (C : IOClient) : Prop := {
  session_handle_returns l st e s : ∃ s', session_handle l st e s = Done (tt, s') ∧
    m_session_list s' = m_session_list s ∧ ref s' = ref s ∧ iocalls s' = iocalls s ∧
    ∀ y, y ≠ l → iolinks s' !! y = iolinks s !! y ∧ sessions s' !! y = sessions s !! y;
  handle_unbound_returns s : ∃ s', handle_unbound s = Done (tt, s') ∧ iocalls s' = iocalls s;
}.

(** What a session is told of the result [r]. *)
Definition res_state (r : Z) : Z := if (0 <=? r)%Z then IOS_STATE_SUCCESS else IOS_STATE_ERROR.
Definition res_error (r : Z) : Z := if (0 <=? r)%Z then 0%Z else i32 (- r).
(** The calls made for the events [es], first to last, after [cs]. *)
Fixpoint served (es : list io_event) (cs : list iocall) : list iocall :=
  match es with
  | [] => cs
  | e :: es =>
      let r := i64 (ev_res e) in
      served es (IHandle (Z.to_pos (ev_data e)) (res_state r) (res_error r)
                   :: IGetEvents (Some e) :: cs)
  end.

Lemma inflight_got (e : io_event) cs :
  ev_data e ∈ inflight cs →
  inflight cs ≡ₚ ev_data e :: inflight (IGetEvents (Some e) :: cs).
Proof. apply remove_one_Permutation. Qed.

Section drain.
Context `{K : IOKernel} `{!KernelLaws K} `{C : IOClient} `{!IOClientLaws C}.

(** One event: its session leaves the list as [list_delete] does it, and is told. *)
Lemma drain_step fuel s e err l x (h h' : gmap positive cell) :
  getevents_result s = (Some e, err) → ev_data e = Z.pos l → sessions s !! l = Some x →
  list_empty (Some (m_session_list s)) (iolinks s) = Done (false, iolinks s) →
  list_delete (Some l) (iolinks s) = Done (tt, h) →
  (∀ y, y ≠ l → h !! y = h' !! y) →
  ∃ s', drain_loop (S fuel) s = drain_loop fuel s' ∧
    m_session_list s' = m_session_list s ∧ ref s' = ref s ∧
    iocalls s' = served [e] (iocalls s) ∧
    (∀ y, y ≠ l → iolinks s' !! y = h' !! y ∧ sessions s' !! y = sessions s !! y).
Proof.
  intros Hev Hd Hx Hne Hdel Hh. pose proof (getevents_res _ _ _ Hev) as Hr.
  cbn [drain_loop]. rewrite gets_bnd, (iolnk_bnd _ _ _ _ _ Hne). cbn iota.
  assert (∀ (B : Type) (k : option io_event → M iostate B),
    bnd io_getevents k (set_iolinks (iolinks s) s) =
    k (Some e) (add_iocall (IGetEvents (Some e)) (set_ioerrno err s))) as Eg.
  { intros B k. replace (set_iolinks (iolinks s) s) with s by by destruct s.
    unfold bnd, io_getevents. by rewrite Hev. }
  rewrite Eg. cbn iota. rewrite Hd. simpl session_at. rewrite ret_bnd.
  set (s1 := add_iocall _ _). rewrite (iolnk_bnd _ _ _ tt h) by done.
  rewrite (ses_set_bnd _ _ _ _ x) by done.
  rewrite (ses_get_bnd _ _ _ _ (set_sres (i64 (ev_res e)) x)) by (simpl; by rewrite lookup_insert_eq).
  cbn [sres set_sres]. set (r := i64 (ev_res e)) in *.
  assert (∀ (B : Type) (k : Z * Z → M iostate B) s, bnd (outcome_of r) k s =
    k (res_state r, res_error r) s) as Eo.
  { intros B k s2. unfold outcome_of, res_state, res_error. destruct (0 <=? r)%Z; [done|].
    by rewrite (proj2 (Z.eqb_neq r (- 2 ^ 63))) by lia. }
  rewrite Eo. unfold handle. rewrite bnd_assoc, modify_bnd. set (s2 := add_iocall (IHandle _ _ _) _).
  destruct (session_handle_returns l (res_state r) (res_error r) s2)
    as (s' & Es & E1 & E2 & E3 & E4).
  rewrite (bnd_done _ _ _ _ _ Es). exists s'. split; [done|]. split_and!; [done|done| |].
  - rewrite E3. unfold s2, s1. simpl. by rewrite Hd.
  - intros y Hy. destruct (E4 y Hy) as [-> ->]. unfold s2. simpl. rewrite Hh by done.
    by rewrite lookup_insert_ne.
Qed.

(** A well-formed list whose sessions are those in flight: each is handled once, in
    the order the kernel completes them, and the list is empty after. *)
Lemma drain_run xs : ∀ s fuel,
  dlist (iolinks s) (m_session_list s) xs → inflight (iocalls s) ≡ₚ Z.pos <$> xs →
  (∀ y, y ∈ xs → is_Some (sessions s !! y)) → length xs < fuel →
  ∃ es s', drain_loop fuel s = Done (tt, s') ∧
    ev_data <$> es ≡ₚ Z.pos <$> xs ∧ iocalls s' = served es (iocalls s).
Proof.
  remember (length xs) as n eqn:En. revert xs En.
  induction n as [|n IH]; intros xs En s fuel Hd Hi Hs Hf.
  - destruct xs; [|done]. destruct fuel as [|fuel]; [lia|]. exists [], s. split; [|done].
    cbn [drain_loop]. rewrite gets_bnd.
    rewrite (iolnk_bnd _ _ _ true (iolinks s)); [by destruct s|].
    by rewrite (list_empty_dlist _ _ []) by (destruct Hd as (? & ? & _); done).
  - destruct fuel as [|fuel]; [lia|].
    assert (inflight (iocalls s) ≠ []) as Hne.
    { intros E. rewrite E in Hi. apply Permutation_nil in Hi. by destruct xs. }
    destruct (getevents_waits s Hne) as [e He].
    destruct (getevents_result s) as [ev err] eqn:Ev. simpl in He. subst ev.
    pose proof (getevents_inflight _ _ _ Ev) as Hin. pose proof Hin as Hin2.
    rewrite Hi in Hin2. apply list_elem_of_fmap in Hin2 as (l & El & Hl).
    destruct (Hs l Hl) as [x Hx]. apply list_elem_of_split in Hl as (l1 & l2 & ->).
    destruct (list_delete_dlist _ _ _ _ _ Hd) as (h & Edel & Hd' & _).
    assert (l ∉ m_session_list s :: l1 ++ l2) as Hnl.
    { destruct Hd as (Hnd & _). sep Hnd. }
    destruct (drain_step fuel s e err l x h h Ev El Hx) as (s' & E & E1 & E2 & E3 & E4);
      [|done|done|].
    { destruct Hd as (H1 & H2 & _).
      rewrite (list_empty_dlist _ _ (l1 ++ l :: l2)) by done.
      by rewrite bool_decide_false by (by destruct l1). }
    destruct (IH (l1 ++ l2)) with (s := s') (fuel := fuel) as (es & s2 & Ed & Ep & Ec).
    + rewrite length_app in En |- *. simpl in En. lia.
    + rewrite E1. eapply dlist_frame; [|exact Hd']. intros y Hy. apply E4. by intros ->.
    + rewrite E3. change (inflight (IGetEvents (Some e) :: iocalls s) ≡ₚ Z.pos <$> l1 ++ l2).
      apply (Permutation_cons_inv (a := ev_data e)).
      rewrite <- inflight_got by done. rewrite Hi, El, !fmap_app. simpl.
      by rewrite Permutation_middle.
    + intros y Hy. destruct (E4 y) as [_ ->]; [intros ->; set_solver|]. apply Hs. set_solver.
    + lia.
    + exists (e :: es), s2. rewrite E, Ed. split; [done|]. split.
      * simpl. rewrite Ep, El, !fmap_app. simpl. by rewrite Permutation_middle.
      * rewrite Ec, E3. done.
Qed.

(** The last reference is given up. *)
Lemma decref_run s xs fuel :
  ref s = 1%Z → dlist (iolinks s) (m_session_list s) xs →
  inflight (iocalls s) ≡ₚ Z.pos <$> xs → (∀ y, y ∈ xs → is_Some (sessions s !! y)) →
  length xs < fuel →
  ∃ es s', decref fuel s = Done (tt, s') ∧ ev_data <$> es ≡ₚ Z.pos <$> xs ∧
    iocalls s' = IUnbound :: served es (iocalls s).
Proof.
  intros Hr Hd Hi Hs Hf. unfold decref. rewrite modify_bnd, gets_bnd. simpl. rewrite Hr.
  change (i32 (1 - 1) =? 0)%Z with true. cbn iota. change (i32 (1 - 1)) with 0%Z.
  destruct (drain_run xs (set_ref 0 s) fuel) as (es & s' & E & Ep & Ec); [done..|].
  rewrite (bnd_done _ _ _ _ _ E), modify_bnd.
  destruct (handle_unbound_returns (add_iocall IUnbound s')) as (s2 & E2 & Ec2).
  exists es, s2. rewrite E2, Ec2. split; [done|]. split; [done|]. simpl. by rewrite Ec.
Qed.

(** Not the last. *)
Lemma decref_more s fuel :
  (1 < ref s < 2 ^ 31)%Z → decref fuel s = Done (tt, set_ref (ref s - 1) s).
Proof.
  intros Hr. unfold decref. rewrite modify_bnd, gets_bnd. simpl. rewrite i32_small by lia.
  by rewrite (proj2 (Z.eqb_neq (ref s - 1) 0)) by lia.
Qed.

(** Two sessions [a] and [b] submitted one after the other; the kernel completes [b]
    first. *)
Lemma decref_loses s0 s a b x e err fuel h :
  let head := m_session_list s in
  dlist (iolinks s0) head [a] → NoDup [head; a; b] → is_Some (iolinks s0 !! b) →
  list_add_tail (Some head) (Some b) (iolinks s0) = Done (tt, h) → iolinks s = h →
  ref s = 1%Z → sessions s !! b = Some x → Z.pos a ∈ inflight (iocalls s) →
  getevents_result (set_ref 0 s) = (Some e, err) → ev_data e = Z.pos b →
  ∃ s', decref (S (S fuel)) s = Done (tt, s') ∧
    iocalls s' = IUnbound :: served [e] (iocalls s) ∧ Z.pos a ∈ inflight (iocalls s').
Proof.
  intros head Hd Hnd Hb Hadd Eh Hr Hx Ha Hev He.
  pose proof Hd as (_ & Hf & Hbk). simpl in Hbk. destruct Hbk as [Hpa Hph].
  destruct (list_add_tail_stale (iolinks s0) head [a] [] b) as (h' & E & Hf' & Hp' & [Hpb _] & _);
    [done|done|by rewrite app_nil_r|done|done|].
  rewrite Hadd in E. injection E as <-. simpl in Hpb, Hf'. destruct Hf' as (Hn1 & Hn2 & Hn3).
  assert (list_delete (Some b) h = Done (tt,
    alter (set_prev (Some head)) head (alter (set_next (Some head)) head h))) as Edel.
  { unfold list_delete. assert (is_Some (h !! head)) by eauto with kernel.
    assert (b ≠ head) by (apply NoDup_cons in Hnd as [? _]; set_solver).
    repeat lstep. done. }
  unfold decref. rewrite modify_bnd, gets_bnd. cbn [ref set_ref]. rewrite Hr.
  change (i32 (1 - 1) =? 0)%Z with true. cbn iota. change (i32 (1 - 1)) with 0%Z.
  assert (b ≠ head ∧ a ≠ head) as [Hbh Hah].
  { split; intros ->; apply NoDup_cons in Hnd as [? _]; set_solver. }
  assert (list_empty (Some head) h = Done (false, h)) as Hne.
  { rewrite (list_empty_run _ _ (Some a)) by done. rewrite bool_decide_false; [done|congruence]. }
  subst h.
  destruct (drain_step (S fuel) (set_ref 0 s) e err b x _
    (alter (set_prev (Some head)) head (alter (set_next (Some head)) head (iolinks s)))
    Hev He Hx Hne Edel) as (s' & E & E1 & E2 & E3 & E4); [done|].
  assert (drain_loop (S fuel) s' = Done (tt, s')) as Eend.
  { cbn [drain_loop]. rewrite gets_bnd.
    assert (nxt (iolinks s') (m_session_list s') = Some (Some head)) as Hn.
    { rewrite E1. change (m_session_list (set_ref 0 s)) with head. unfold nxt.
      destruct (E4 head) as [-> _]; [done|].
      change (nxt (alter (set_prev (Some head)) head
        (alter (set_next (Some head)) head (iolinks s))) head = Some (Some head)).
      autorewrite with fields. rewrite decide_True by done. by rewrite Hn1. }
    rewrite (iolnk_bnd _ _ _ true (iolinks s')); [by destruct s'|].
    rewrite (list_empty_run _ _ _ Hn). rewrite bool_decide_true; [done|]. by rewrite E1. }
  rewrite (bnd_done (drain_loop _) _ _ tt s') by (by rewrite E, Eend). rewrite modify_bnd.
  destruct (handle_unbound_returns (add_iocall IUnbound s')) as (s2 & Eu & Ec2).
  exists s2. split; [done|]. rewrite Ec2. simpl. rewrite E3. split; [done|]. simpl.
  change (Z.pos a ∈ inflight (IGetEvents (Some e) :: iocalls s)).
  pose proof (getevents_inflight _ _ _ Hev) as Hin.
  assert (Z.pos a ∈ ev_data e :: inflight (IGetEvents (Some e) :: iocalls s)) as Hc
    by by rewrite <- inflight_got.
  apply elem_of_cons in Hc as [Hc|Hc]; [|done]. exfalso. rewrite He in Hc. injection Hc as ->.
  apply NoDup_cons in Hnd as [_ Hnd]. apply NoDup_cons in Hnd as [? _]. set_solver.
Qed.
End drain.
