(* ===== verification/Examples.v ===== *)
(** Concrete inputs: an environment whose system calls succeed, and a poller with
    a node in its tree and one on its list. The properties are applied to them. *)
From S2P Require Export PollerLife PollerWrite.

(** An address above all that are in use. *)
Definition top_addr {A} (m : gmap positive A) : positive :=
  foldr (λ x y, Pos.max (fst x) y) 1%positive (map_to_list m).
Definition ex_addr (s : pstate) : positive :=
  Pos.succ (Pos.max (top_addr (mem s)) (top_addr (pnodes s))).

Lemma top_addr_max {A} (m : gmap positive A) l : is_Some (m !! l) → (l ≤ top_addr m)%positive.
Proof.
  intros [x Hx%elem_of_map_to_list]. unfold top_addr.
  induction (map_to_list m) as [|[k y] ml IH]; [set_solver|]. simpl.
  apply elem_of_cons in Hx as [[= <- <-]|Hx]; [lia|]. specialize (IH Hx). lia.
Qed.
Lemma ex_addr_fresh s : mem s !! ex_addr s = None ∧ pnodes s !! ex_addr s = None.
Proof.
  unfold ex_addr. split; apply eq_None_not_Some; intros H%top_addr_max; lia.
Qed.

(** writev takes two bytes of what it is given, every other call returns 0. *)
Definition ex_sys (c : call) (s : pstate) : Z * Z :=
  match c with
  | CWritev _ vec => (Z.of_nat (length (take 2 (vec_bytes vec))), 0%Z)
  | _ => (0, 0)%Z
  end.
#[export] Instance ex_env : Env := {|
  sys_result := ex_sys;
  clock _ := TS 10 0;
  malloc_addr s := Some (ex_addr s);
  stack_addr := ex_addr;
  pipe_fds _ := (8, 9)%Z;
  poller_alloc _ := true;
  sock_error _ := 0%Z;
  event_value _ := 1%Z;
  pipe_data _ := [];
  epoll_events _ := [];
|}.
#[export] Instance ex_laws : EnvLaws ex_env.
Proof.
  split.
  - intros s l [= <-]. destruct (ex_addr_fresh s). split_and!; [done..|]. unfold ex_addr. lia.
  - intros s. apply ex_addr_fresh.
Qed.
#[export] Instance ex_writev : WritevLaws ex_env.
Proof.
  split; intros f vec s; simpl.
  - rewrite length_take. lia.
  - intros Hv. destruct (vec_bytes vec) as [|b l]; [done|]. destruct l; simpl; lia.
Qed.
#[export] Instance ex_client : Client := {|
  create_message _ _ := ret None;
  append _ _ n := ret (0%Z, n);
  partial_written _ _ _ := ret 0%Z;
  accept_conn _ _ _ := ret None;
  recv_dgram _ _ _ := ret None;
  io_event _ _ := ret None;
|}.

(** A node for descriptor [f] that waits for [t]. *)
Definition ex_node (f : Z) (inrb : bool) (t : timespec) : pnode :=
  PNode 0 0 (PData PD_OP_CONNECT 0 f None None (UPtr None)) inrb false 0 t None.

(** The objects: 10 the [rb_root], 11 and 12 the two list heads; node 20 in the
    tree, node 21 on [timeo_list], node 22 nowhere yet. *)
Definition ex_mem : gmap positive cell := list_to_map [
  (10, Cell (Some 20) None None 0);
  (11, Cell (Some 21) (Some 21) None 0);
  (12, Cell (Some 12) (Some 12) None 0);
  (20, Cell None None None RB_BLACK);
  (21, Cell (Some 11) (Some 11) None 0);
  (22, Cell None None None 0)]%positive.
Definition ex_pnodes : gmap positive pnode := list_to_map [
  (20, ex_node 0 true (TS 5 0));
  (21, ex_node 1 false (TS 30 0));
  (22, ex_node 2 false (TS 8 0));
  (30, ex_node 0 false (TS 6 0))]%positive.
Definition ex_po : poller :=
  Poller 4 3 4 5 6 0 10 (Some 20%positive) (Some 20%positive) (Some 11%positive)
    (Some 12%positive) [Some 20%positive; Some 21%positive; None; None].
Definition ex_state : pstate :=
  PState ex_mem ex_pnodes ∅ ex_po 0 [].

Definition ex_tree : tree := Node Black Leaf 20 Leaf.

Ltac nodup := apply (bool_decide_unpack _); by vm_compute.

Lemma ex_rb_at : rb_at ex_mem 10 ex_tree.
Proof.
  split; [by vm_compute|]. split; [by eexists|]. split; [nodup|]. split; [done|by exists 1].
Qed.
Lemma ex_timed x n : ex_pnodes !! x = Some n → bool_decide (ts_ok (timeout n)) = true → timed ex_state x.
Proof. intros Hn Hok%bool_decide_eq_true. by exists n. Qed.
Lemma ex_tq : tq ex_state [20%positive].
Proof.
  split; [exists ex_tree; split; [apply ex_rb_at|done]|].
  split; [done|split; [done|split; [|repeat constructor]]].
  intros x ->%list_elem_of_singleton. by eapply ex_timed.
Qed.
Lemma ex_queues : queues ex_state 11 [21%positive] [20%positive].
Proof.
  constructor; [done| |apply ex_tq|nodup|].
  - split; [nodup|by vm_compute].
  - intros x ->%list_elem_of_singleton. by eapply ex_timed.
Qed.
Lemma ex_ordered : ordered ex_state 11 [21%positive] [20%positive].
Proof.
  constructor; [apply ex_queues| |repeat constructor]. split; [nodup|by vm_compute].
Qed.
Lemma ex_table : table_ok ex_state.
Proof.
  assert (∀ f l, entry None ex_state f l → f = 0 ∧ l = 20%positive ∨ f = 1 ∧ l = 21%positive) as He.
  { intros f l [Hl _]. destruct f as [|[|[|[|f]]]]; simplify_eq/=; auto. }
  constructor; [done| |].
  - intros f l [[-> ->]|[-> ->]]%He; eexists; by split_and!.
  - intros f l o r [[-> ->]|[-> ->]]%He Ho; injection Ho as <-; done.
Qed.
