(* ===== verification/Comm.v ===== *)
(** communicator.h, and communicator.cc up to [send_message]: connections, targets,
    services, the timeouts of a session, and sending a message.

    From the end of [send_message_async] on the file names the members of
    [CommConnEntry] without their underscore; they are read as those members. *)
From S2P Require Export PollerWrite.

(** ** Constants *)

Definition CONN_STATE_CONNECTING : Z := 0.
Definition CONN_STATE_CONNECTED : Z := 1.
Definition CONN_STATE_RECEIVING : Z := 2.
Definition CONN_STATE_SUCCESS : Z := 3.
Definition CONN_STATE_IDLE : Z := 4.
Definition CONN_STATE_KEEPALIVE : Z := 5.
Definition CONN_STATE_CLOSING : Z := 6.
Definition CONN_STATE_ERROR : Z := 7.
Definition ENCODE_IOV_MAX : Z := 2048.

(** errno(3), fcntl(2) and socket.h on Linux. *)
Definition EPERM : Z := 1.
Definition EOVERFLOW : Z := 75.
Definition O_NONBLOCK : Z := 2048.
Definition sizeof_sockaddr_storage : nat := 128.

(** ** Data *)

(** [struct CommConnEntry]; its [list_] is the cell at its address. *)
Record conn_entry : Type := ConnEntry {
  conn_ : ptr;
  seq_ : Z;
  sockfd_ : Z;
  state_ : Z;
  error_ : Z;
  ref_ : Z;
  write_iov_ : ptr;
  session_ : ptr;
  target_ : ptr;
  service_ : ptr;
  mpoller_ : ptr;
}.

(** [CommTarget] with, last, the members of [CommServiceTarget]. [m_idle_list] is
    the address of the member of that name. *)
Record comm_target : Type := CTarget {
  m_addr : ptr;
  m_addrlen : Z;
  m_connect_timeout : Z;
  m_response_timeout : Z;
  m_idle_list : loc;
  t_sockfd : Z;
  t_ref : Z;
  t_service : ptr;
}.

(** [CommSession] *)
Record comm_session : Type := CSession {
  s_target : ptr;
  s_conn : ptr;
  s_out : ptr;
  s_in : ptr;
  s_seq : Z;
  begin_time : timespec;
  s_timeout : Z;
  passive : Z;
}.

(** [CommService] *)
Record comm_service : Type := CService {
  bind_addr : ptr;
  addrlen : Z;
  listen_timeout : Z;
  response_timeout : Z;
  reliable : Z;
  listen_fd : Z;
  sref : Z;
  alive_list : loc;
}.

(** [CommMessageIn]: the members [append] of its base and [entry]. *)
Record comm_in : Type := CIn { in_append : ptr; in_entry : ptr }.

(** [SleepSession] *)
Record sleep_session : Type := CSleep { sl_timer : ptr; sl_index : Z }.

(** Calls on the system, the mpoller (by its address) and the client. *)
Inductive ccall : Type :=
| KGetFl (fd : Z)
| KSetFl (fd flags : Z)
| KGetsockname (fd : Z)
| KBind (fd : Z) (addr : ptr) (addrlen : Z)
| KClose (fd : Z)
| KDeleteConn (conn : ptr)
| KSendto (fd size : Z) (addr : ptr)
| KWrite (fd size : Z)
| KWritev (fd : Z) (vec : list iovec)
| KDel (fd : Z) (mpoller : ptr)
| KSetTimeout (fd timeout : Z) (mpoller : ptr)
| KAdd (d : poller_data) (timeout : Z) (mpoller : ptr)
| KMod (d : poller_data) (timeout : Z) (mpoller : ptr)
| KUnbound (service : loc)
| KHandle (session : loc) (state error : Z)
| KRelease (target : loc)
| KHandleStop (service : loc) (error : Z)
| KConnect (fd : Z) (addr : ptr) (addrlen : Z)
| KListen (fd : Z)
| KDup (fd : Z)
| KMutexInit (entry : ptr)
| KSendmsg (fd : Z) (addr : ptr) (addrlen : Z) (vec : list iovec)
| KAddTimer (value : timespec) (session : ptr) (mpoller : ptr)
| KDelTimer (timer : ptr) (index : Z) (mpoller : ptr)
| KSleepHandle (session : loc) (state error : Z).

(** The objects by address: the list nodes, entries, targets, sessions, services,
    the copies of socket addresses, the arrays of iovecs, the messages received, the
    sleeping sessions; the [Communicator]'s mpoller and [stop_flag], errno, and the calls made so far with their results,
    latest first. *)
Record commstate : Type := CommState {
  clinks : gmap positive cell;
  centries : gmap positive conn_entry;
  ctargets : gmap positive comm_target;
  csessions : gmap positive comm_session;
  cservices : gmap positive comm_service;
  caddrs : gmap positive (list Z);
  ciovs : gmap positive (list iovec);
  cmsgs : gmap positive comm_in;
  csleeps : gmap positive sleep_session;
  comm_mpoller : ptr;
  stop_flag : Z;
  cerrno : Z;
  ccalls : list (ccall * Z);
}.
Definition set_clinks (v : gmap positive cell) (s : commstate) : commstate :=
  CommState v (centries s) (ctargets s) (csessions s) (cservices s) (caddrs s) (ciovs s) (cmsgs s)
    (csleeps s) (comm_mpoller s) (stop_flag s) (cerrno s) (ccalls s).
Definition set_centries (v : gmap positive conn_entry) (s : commstate) : commstate :=
  CommState (clinks s) v (ctargets s) (csessions s) (cservices s) (caddrs s) (ciovs s) (cmsgs s)
    (csleeps s) (comm_mpoller s) (stop_flag s) (cerrno s) (ccalls s).
Definition set_ctargets (v : gmap positive comm_target) (s : commstate) : commstate :=
  CommState (clinks s) (centries s) v (csessions s) (cservices s) (caddrs s) (ciovs s) (cmsgs s)
    (csleeps s) (comm_mpoller s) (stop_flag s) (cerrno s) (ccalls s).
Definition set_csessions (v : gmap positive comm_session) (s : commstate) : commstate :=
  CommState (clinks s) (centries s) (ctargets s) v (cservices s) (caddrs s) (ciovs s) (cmsgs s)
    (csleeps s) (comm_mpoller s) (stop_flag s) (cerrno s) (ccalls s).
Definition set_cservices (v : gmap positive comm_service) (s : commstate) : commstate :=
  CommState (clinks s) (centries s) (ctargets s) (csessions s) v (caddrs s) (ciovs s) (cmsgs s)
    (csleeps s) (comm_mpoller s) (stop_flag s) (cerrno s) (ccalls s).
Definition set_caddrs (v : gmap positive (list Z)) (s : commstate) : commstate :=
  CommState (clinks s) (centries s) (ctargets s) (csessions s) (cservices s) v (ciovs s) (cmsgs s)
    (csleeps s) (comm_mpoller s) (stop_flag s) (cerrno s) (ccalls s).
Definition set_ciovs (v : gmap positive (list iovec)) (s : commstate) : commstate :=
  CommState (clinks s) (centries s) (ctargets s) (csessions s) (cservices s) (caddrs s) v (cmsgs s)
    (csleeps s) (comm_mpoller s) (stop_flag s) (cerrno s) (ccalls s).
Definition set_cmsgs (v : gmap positive comm_in) (s : commstate) : commstate :=
  CommState (clinks s) (centries s) (ctargets s) (csessions s) (cservices s) (caddrs s) (ciovs s) v
    (csleeps s) (comm_mpoller s) (stop_flag s) (cerrno s) (ccalls s).
Definition set_csleeps (v : gmap positive sleep_session) (s : commstate) : commstate :=
  CommState (clinks s) (centries s) (ctargets s) (csessions s) (cservices s) (caddrs s) (ciovs s)
    (cmsgs s) v (comm_mpoller s) (stop_flag s) (cerrno s) (ccalls s).
Definition set_stop_flag (v : Z) (s : commstate) : commstate :=
  CommState (clinks s) (centries s) (ctargets s) (csessions s) (cservices s) (caddrs s) (ciovs s)
    (cmsgs s) (csleeps s) (comm_mpoller s) v (cerrno s) (ccalls s).
Definition set_cerrno (v : Z) (s : commstate) : commstate :=
  CommState (clinks s) (centries s) (ctargets s) (csessions s) (cservices s) (caddrs s) (ciovs s) (cmsgs s)
    (csleeps s) (comm_mpoller s) (stop_flag s) v (ccalls s).
Definition add_ccall (c : ccall) (r : Z) (s : commstate) : commstate :=
  CommState (clinks s) (centries s) (ctargets s) (csessions s) (cservices s) (caddrs s) (ciovs s) (cmsgs s)
    (csleeps s) (comm_mpoller s) (stop_flag s) (cerrno s) ((c, r) :: ccalls s).

Definition set_state_ (v : Z) (e : conn_entry) : conn_entry :=
  ConnEntry (conn_ e) (seq_ e) (sockfd_ e) v (error_ e) (ref_ e) (write_iov_ e) (session_ e)
    (target_ e) (service_ e) (mpoller_ e).
Definition set_ref_ (v : Z) (e : conn_entry) : conn_entry :=
  ConnEntry (conn_ e) (seq_ e) (sockfd_ e) (state_ e) (error_ e) v (write_iov_ e) (session_ e)
    (target_ e) (service_ e) (mpoller_ e).
Definition set_write_iov_ (v : ptr) (e : conn_entry) : conn_entry :=
  ConnEntry (conn_ e) (seq_ e) (sockfd_ e) (state_ e) (error_ e) (ref_ e) v (session_ e)
    (target_ e) (service_ e) (mpoller_ e).
Definition set_times (t : Z) (b : timespec) (x : comm_session) : comm_session :=
  CSession (s_target x) (s_conn x) (s_out x) (s_in x) (s_seq x) b t (passive x).
Definition set_s_timeout (t : Z) (x : comm_session) : comm_session :=
  set_times t (begin_time x) x.
Definition set_t_ref (r : Z) (t : comm_target) : comm_target :=
  CTarget (m_addr t) (m_addrlen t) (m_connect_timeout t) (m_response_timeout t) (m_idle_list t)
    (t_sockfd t) r (t_service t).
Definition set_sref (r : Z) (v : comm_service) : comm_service :=
  CService (bind_addr v) (addrlen v) (listen_timeout v) (response_timeout v) (reliable v)
    (listen_fd v) r (alive_list v).
Definition set_listen_fd (f : Z) (v : comm_service) : comm_service :=
  CService (bind_addr v) (addrlen v) (listen_timeout v) (response_timeout v) (reliable v)
    f (sref v) (alive_list v).

(** What the system and the mpoller answer, with the errno they leave; the clock,
    the allocator, and the name of a socket with its length. *)
Class CommEnv : Type := {
  ccall_result : ccall → commstate → Z * Z;
  cclock : commstate → timespec;
  cmalloc : commstate → option positive;
  sockname : Z → commstate → list Z * Z;
}.

(** The virtual functions of sessions, messages and services. [encode] is handed the
    size of the array and fills it. *)
Class CommClient : Type := {
  send_timeout : loc → M commstate Z;
  receive_timeout : loc → M commstate Z;
  keep_alive_timeout : loc → M commstate Z;
  first_timeout_of : loc → M commstate Z;
  encode : ptr → Z → M commstate (Z * list iovec);
  service_unbound : loc → M commstate unit;
}.

(** ** Instructions *)

(** Read or change a member of [*p], an object of one of the maps. *)
Definition obj_get {X A} (m : commstate → gmap positive X) (f : X → A) (p : ptr) :
    M commstate A := λ s,
  match p with
  | None => UB
  | Some l => match m s !! l with Some x => Done (f x, s) | None => UB end
  end.
Definition obj_set {X} (m : commstate → gmap positive X)
    (upd : gmap positive X → commstate → commstate) (f : X → X) (p : ptr) :
    M commstate unit := λ s,
  match p with
  | None => UB
  | Some l =>
      match m s !! l with
      | Some x => Done (tt, upd (<[l := f x]> (m s)) s)
      | None => UB
      end
  end.
(** [free(p)]: of NULL it does nothing, of what is not allocated it is undefined
    behaviour. *)
Definition obj_free {X} (m : commstate → gmap positive X)
    (upd : gmap positive X → commstate → commstate) (p : ptr) : M commstate unit := λ s,
  match p with
  | None => Done (tt, s)
  | Some l =>
      match m s !! l with
      | Some _ => Done (tt, upd (delete l (m s)) s)
      | None => UB
      end
  end.
Abbreviation ent_get := (obj_get centries) (only parsing).
Abbreviation ent_set := (obj_set centries set_centries) (only parsing).
Abbreviation tgt_get := (obj_get ctargets) (only parsing).
Abbreviation tgt_set := (obj_set ctargets set_ctargets) (only parsing).
Abbreviation ses_get := (obj_get csessions) (only parsing).
Abbreviation ses_set := (obj_set csessions set_csessions) (only parsing).
Abbreviation svc_get := (obj_get cservices) (only parsing).
Abbreviation svc_set := (obj_set cservices set_cservices) (only parsing).

Definition clnk {A} (m : M (gmap positive cell) A) : M commstate A := zoom clinks set_clinks m.

Definition as_loc (p : ptr) : M commstate loc :=
  match p with Some l => ret l | None => ub end.

Section communicator.
Context `{CommEnv} `{CommClient}.

Definition ccall_ (c : ccall) : M commstate Z := λ s,
  let '(r, e) := ccall_result c s in Done (r, add_ccall c r (set_cerrno e s)).
Definition get_cerrno : M commstate Z := gets cerrno.
Definition put_cerrno (e : Z) : M commstate unit := modify (set_cerrno e).

(** ** Sockets *)

Definition __set_fd_nonblock (fd : Z) : M commstate Z :=
  let* flags := ccall_ (KGetFl fd) in
  if (0 <=? flags)%Z then ccall_ (KSetFl fd (Z.lor flags O_NONBLOCK)) else ret flags.

(** [while (len != 0)]: [len] after it; [None] when it reads outside [ss]. *)
Fixpoint last_byte (ss : list Z) (len : nat) : option nat :=
  match len with
  | O => Some 0
  | S len =>
      match ss !! len with
      | None => None
      | Some b => if negb (b =? 0)%Z then Some len else last_byte ss len
      end
  end.

(** [ss.ss_family] is the first two bytes of [ss]. *)
Definition __bind_sockaddr (sockfd : Z) (addr : ptr) (addrlen : Z) : M commstate Z :=
  let* (ss, len) := gets (sockname sockfd) in
  let* r := ccall_ (KGetsockname sockfd) in
  if (r <? 0)%Z then ret (-1)%Z else
  let ss := [0; 0]%Z ++ drop 2 ss in
  match last_byte ss (Z.to_nat len) with
  | None => ub
  | Some len =>
      if decide (len = 0) then
        let* r := ccall_ (KBind sockfd addr addrlen) in
        if (r <? 0)%Z then ret (-1)%Z else ret 0%Z
      else ret 0%Z
  end.

Definition close_fd (fd : Z) : M commstate unit :=
  let* _ := ccall_ (KClose fd) in ret tt.
Definition mpoller_del_fd (fd : Z) (mp : ptr) : M commstate Z := ccall_ (KDel fd mp).
Definition mpoller_set_fd_timeout (fd timeout : Z) (mp : ptr) : M commstate Z :=
  ccall_ (KSetTimeout fd timeout mp).

Definition __release_conn (entry : ptr) : M commstate unit :=
  let* c := ent_get conn_ entry in
  let* _ := ccall_ (KDeleteConn c) in
  let* fd := ent_get sockfd_ entry in
  close_fd fd ;;;
  obj_free centries set_centries entry ;;;
  obj_free clinks set_clinks entry.

(** ** CommTarget *)

(** [malloc(addrlen)] and the copy of the address. *)
Definition copy_addr (addr : list Z) : M commstate ptr := λ s,
  match cmalloc s with
  | Some l => Done (Some l, set_caddrs (<[l := addr]> (caddrs s)) s)
  | None => Done (None, s)
  end.

Definition target_init (this : ptr) (addr : list Z) (len ct rt : Z) : M commstate Z :=
  let* a := copy_addr addr in
  tgt_set (λ t, CTarget a (m_addrlen t) (m_connect_timeout t) (m_response_timeout t)
                  (m_idle_list t) (t_sockfd t) (t_ref t) (t_service t)) this ;;;
  if nonnull a then
    tgt_set (λ t, CTarget (m_addr t) len ct rt (m_idle_list t) (t_sockfd t) (t_ref t)
                    (t_service t)) this ;;;
    let* head := tgt_get m_idle_list this in
    clnk (list_init (Some head)) ;;;
    ret 0%Z
  else ret (-1)%Z.

Definition target_deinit (this : ptr) : M commstate unit :=
  let* a := tgt_get m_addr this in
  obj_free caddrs set_caddrs a.

(** What [get_addr] stores in [*addr] and [*addrlen]. *)
Definition target_get_addr (this : ptr) : M commstate (ptr * Z) :=
  let* a := tgt_get m_addr this in
  let* n := tgt_get m_addrlen this in
  ret (a, n).
Definition has_idle_conn (this : ptr) : M commstate bool :=
  let* head := tgt_get m_idle_list this in
  let* e := clnk (list_empty (Some head)) in
  ret (negb e).

(** ** CommMessageIn *)

(** [entry] is the member of the message. *)
Definition feedback (entry : ptr) (size : Z) : M commstate Z :=
  let* svc := ent_get service_ entry in
  let* fd := ent_get sockfd_ entry in
  if nonnull svc then
    let* t := ent_get target_ entry in
    let* addr := tgt_get m_addr t in
    let* r := ccall_ (KSendto fd size addr) in
    ret (i32 r)
  else
    let* r := ccall_ (KWrite fd size) in
    ret (i32 r).

Definition renew (entry : ptr) : M commstate unit :=
  let* session := ent_get session_ entry in
  ses_set (set_times (-1) (TS (-1) (-1))) session.

(** ** CommService *)

Definition service_get_addr (this : ptr) : M commstate (ptr * Z) :=
  let* a := svc_get bind_addr this in
  let* n := svc_get addrlen this in
  ret (a, n).
Definition service_init (this : ptr) (addr : list Z) (len lt rt : Z) : M commstate Z :=
  let* a := copy_addr addr in
  svc_set (λ v, CService a (addrlen v) (listen_timeout v) (response_timeout v) (reliable v)
                  (listen_fd v) (sref v) (alive_list v)) this ;;;
  if nonnull a then
    svc_set (λ v, CService (bind_addr v) len lt rt (reliable v) (listen_fd v) (sref v)
                    (alive_list v)) this ;;;
    let* head := svc_get alive_list this in
    clnk (list_init (Some head)) ;;;
    ret 0%Z
  else
    obj_free caddrs set_caddrs a ;;;
    ret (-1)%Z.

Definition service_deinit (this : ptr) : M commstate unit :=
  let* a := svc_get bind_addr this in
  obj_free caddrs set_caddrs a.

(** [while (cnt != max && !list_empty(&this->alive_list))]: [cnt] after it. *)
Fixpoint drain_alive (fuel : nat) (head : loc) (cnt max : Z) : M commstate Z :=
  match fuel with
  | O => nofuel
  | S fuel =>
    if (cnt =? max)%Z then ret cnt else
    let* empty := clnk (list_empty (Some head)) in
    if empty : bool then ret cnt else
    let* pos := clnk (ld next (Some head)) in
    clnk (Dlist.list_delete pos) ;;;
    let* fd := ent_get sockfd_ pos in
    let* mp := ent_get mpoller_ pos in
    let* _ := mpoller_del_fd fd mp in
    ent_set (set_state_ CONN_STATE_CLOSING) pos ;;;
    drain_alive fuel head (cnt + 1) max
  end.

(** Every connection on the list is allocated, which bounds the loop. *)
Definition drain (this : ptr) (max : Z) : M commstate Z :=
  let* errno_bak := get_cerrno in
  let* head := svc_get alive_list this in
  let* cnt := bounded (λ s, S (size (clinks s))) (λ fuel, drain_alive fuel head 0 max) in
  put_cerrno errno_bak ;;;
  ret cnt.

Definition service_incref (this : ptr) : M commstate unit :=
  svc_set (λ v, set_sref (i32 (sref v + 1)) v) this.
Definition service_decref (this : ptr) : M commstate unit :=
  svc_set (λ v, set_sref (i32 (sref v - 1)) v) this ;;;
  let* r := svc_get sref this in
  if (r =? 0)%Z then
    let* l := as_loc this in
    modify (add_ccall (KUnbound l) 0) ;;;
    service_unbound l
  else ret tt.

(** ** CommServiceTarget *)

Definition target_incref (this : ptr) : M commstate unit :=
  tgt_set (λ t, set_t_ref (i32 (t_ref t + 1)) t) this.
Definition target_decref (this : ptr) : M commstate unit :=
  tgt_set (λ t, set_t_ref (i32 (t_ref t - 1)) t) this ;;;
  let* r := tgt_get t_ref this in
  if (r =? 0)%Z then
    let* svc := tgt_get t_service this in
    service_decref svc ;;;
    target_deinit this ;;;
    obj_free ctargets set_ctargets this
  else ret tt.

(** The lock is a member of the target: to release it at the end the target must
    still be there. *)
Definition target_shutdown (this : ptr) : M commstate Z :=
  let* head := tgt_get m_idle_list this in
  let* empty := clnk (list_empty (Some head)) in
  let* r :=
    (if negb empty then
       let* entry := clnk (ld next (Some head)) in
       clnk (Dlist.list_delete entry) ;;;
       let* svc := tgt_get t_service this in
       let* rel := svc_get reliable svc in
       (if negb (rel =? 0)%Z then
          let* errno_bak := get_cerrno in
          let* fd := ent_get sockfd_ entry in
          let* mp := ent_get mpoller_ entry in
          let* _ := mpoller_del_fd fd mp in
          ent_set (set_state_ CONN_STATE_CLOSING) entry ;;;
          put_cerrno errno_bak
        else
          __release_conn entry ;;;
          target_decref this) ;;;
       ret 1%Z
     else ret 0%Z) in
  let* _ := tgt_get m_idle_list this in
  ret r.

(** [CommSession::~CommSession] *)
Definition session_destroy (this : ptr) : M commstate unit :=
  let* p := ses_get passive this in
  if (p =? 0)%Z then ret tt else
  let* t := ses_get s_target this in
  (if (p =? 2)%Z then let* _ := target_shutdown t in ret tt else ret tt) ;;;
  target_decref t.

(** ** Timeouts *)

(** [clock_gettime(CLOCK_MONOTONIC, ...)] *)
Definition cclock_gettime : M commstate timespec := gets cclock.

Definition first_timeout (session : ptr) : M commstate Z :=
  let* t := ses_get s_target session in
  let* timeout := tgt_get m_response_timeout t in
  let* st := ses_get s_timeout session in
  if (timeout <? 0)%Z || (u32 st <=? u32 timeout)%Z then
    let* timeout := ses_get s_timeout session in
    ses_set (set_s_timeout 0) session ;;;
    ret timeout
  else
    let* now := cclock_gettime in
    ses_set (λ x, set_times (s_timeout x) now x) session ;;;
    ret timeout.

(** An [int] result outside the range of [int] is undefined behaviour. *)
Definition int_of (z : Z) : M commstate Z :=
  if (- 2 ^ 31 <=? z)%Z && (z <? 2 ^ 31)%Z then ret z else ub.

(** The milliseconds from [b] to [now], computed as a [long] and stored in an
    [int]. *)
Definition time_used (now b : timespec) : Z :=
  i32 (1000 * (tv_sec now - tv_sec b) + Z.quot (tv_nsec now - tv_nsec b) 1000000).

Definition next_timeout (session : ptr) : M commstate Z :=
  let* t := ses_get s_target session in
  let* timeout := tgt_get m_response_timeout t in
  let* st := ses_get s_timeout session in
  if (0 <? st)%Z then
    let* now := cclock_gettime in
    let* b := ses_get begin_time session in
    let* st := ses_get s_timeout session in
    let* time_left := int_of (st - time_used now b) in
    if (time_left <=? timeout)%Z then
      ses_set (set_s_timeout 0) session ;;;
      ret (if (time_left <? 0)%Z then 0%Z else time_left)
    else ret timeout
  else ret timeout.

Definition first_timeout_send (session : ptr) : M commstate Z :=
  let* l := as_loc session in
  let* t := send_timeout l in
  ses_set (set_s_timeout t) session ;;;
  first_timeout session.
Definition first_timeout_recv (session : ptr) : M commstate Z :=
  let* l := as_loc session in
  let* t := receive_timeout l in
  ses_set (set_s_timeout t) session ;;;
  first_timeout session.

(** ** Sending *)

Definition shutdown_service (service : ptr) : M commstate unit :=
  let* fd := svc_get listen_fd service in
  close_fd fd ;;;
  svc_set (set_listen_fd (-1)) service ;;;
  let* _ := drain service (-1) in
  service_decref service.

(** The [for] loop: what is left of the vectors once [n] bytes of them are sent. *)
Fixpoint skip_sent (n : Z) (vs : list iovec) : list iovec :=
  match vs with
  | [] => []
  | v :: rest =>
      if (iov_len v <=? u64 n)%Z then skip_sent (i64 (u64 n - iov_len v)) rest
      else Iov (iov_base v + n) (u64 (iov_len v - n)) :: rest
  end.

(** [while (cnt > 0)] of [send_message_sync]: 0 when everything is sent, or what the
    function returns, with the vectors left. *)
Fixpoint sync_loop (fuel : nat) (fd : Z) (vs : list iovec) : M commstate (Z * list iovec) :=
  match fuel with
  | O => nofuel
  | S fuel =>
    let cnt := Z.of_nat (length vs) in
    if negb (0 <? cnt)%Z then ret (0%Z, vs) else
    let* n := ccall_ (KWritev fd (take (Z.to_nat (if (cnt <=? IOV_MAX)%Z then cnt else IOV_MAX)) vs)) in
    if (n <? 0)%Z then
      let* e := get_cerrno in
      ret ((if (e =? EAGAIN)%Z then cnt else -1)%Z, vs)
    else sync_loop fuel fd (skip_sent n vs)
  end.

(** What follows when all is sent: a server's connection waits for the next request,
    a client's for the reply. *)
Definition sent_all (entry session : ptr) : M commstate unit :=
  let* service := ent_get service_ entry in
  if nonnull service then
    ent_set (λ e, set_ref_ (i32 (ref_ e + 1)) e) entry ;;;
    let* l := as_loc session in
    let* timeout := keep_alive_timeout l in
    let* fd := ent_get sockfd_ entry in
    let* mp := gets comm_mpoller in
    if (timeout =? 0)%Z then
      let* _ := mpoller_del_fd fd mp in
      ent_set (set_state_ CONN_STATE_CLOSING) entry
    else
      let* _ := mpoller_set_fd_timeout fd timeout mp in
      let* lfd := svc_get listen_fd service in
      if (0 <=? lfd)%Z then
        ent_set (set_state_ CONN_STATE_KEEPALIVE) entry ;;;
        let* head := svc_get alive_list service in
        clnk (list_add_tail (Some head) entry)
      else ret tt
  else
    let* st := ent_get state_ entry in
    (if (st =? CONN_STATE_IDLE)%Z then
       let* l := as_loc session in
       let* timeout := first_timeout_of l in
       let* timeout :=
         (if (timeout =? 0)%Z then first_timeout_recv session
          else ses_set (set_times (-1) (TS (-1) 0)) session ;;; ret timeout) in
       let* fd := ent_get sockfd_ entry in
       let* mp := gets comm_mpoller in
       let* _ := mpoller_set_fd_timeout fd timeout mp in
       ret tt
     else ret tt) ;;;
    ent_set (set_state_ CONN_STATE_RECEIVING) entry.

(** The result and the vectors left. *)
Definition send_message_sync (fuel : nat) (vectors : list iovec) (entry : ptr) :
    M commstate (Z * list iovec) :=
  let* session := ent_get session_ entry in
  let* fd := ent_get sockfd_ entry in
  let* (r, vs) := sync_loop fuel fd vectors in
  match vs with
  | [] => sent_all entry session ;;; ret (0%Z, [])
  | _ => ret (r, vs)
  end.

(** The address of [Communicator::partial_written]. *)
Definition PARTIAL_WRITTEN : ptr := Some 1%positive.

(** [malloc] of the array and the copy of the vectors. *)
Definition copy_iovs (vs : list iovec) : M commstate ptr := λ s,
  match cmalloc s with
  | Some l => Done (Some l, set_ciovs (<[l := vs]> (ciovs s)) s)
  | None => Done (None, s)
  end.

Definition send_message_async (vectors : list iovec) (cnt : Z) (entry : ptr) : M commstate Z :=
  let* arr := copy_iovs vectors in
  ent_set (set_write_iov_ arr) entry ;;;
  match arr with
  | None => ret (-1)%Z
  | Some a =>
    let* fd := ent_get sockfd_ entry in
    let data := PData PD_OP_WRITE (uw 16 cnt) fd PARTIAL_WRITTEN entry (UIov a 0) in
    let* session := ent_get session_ entry in
    let* timeout := first_timeout_send session in
    let* st := ent_get state_ entry in
    let* mp := gets comm_mpoller in
    let* r :=
      (if (st =? CONN_STATE_IDLE)%Z then
         let* r := ccall_ (KMod data timeout mp) in
         let* e := get_cerrno in
         (if (r <? 0)%Z && (e =? ENOENT)%Z then ent_set (set_state_ CONN_STATE_RECEIVING) entry
          else ret tt) ;;;
         ret r
       else
         let* r := ccall_ (KAdd data timeout mp) in
         let* stop := gets stop_flag in
         (if (0 <=? r)%Z && negb (stop =? 0)%Z then
            let* _ := mpoller_del_fd fd mp in ret tt
          else ret tt) ;;;
         ret r) in
    if (r <? 0)%Z then
      let* w := ent_get write_iov_ entry in
      obj_free ciovs set_ciovs w ;;;
      let* st := ent_get state_ entry in
      if negb (st =? CONN_STATE_RECEIVING)%Z then ret (-1)%Z else ret 1%Z
    else ret 1%Z
  end.

(** [vectors] holds what [encode] put there. *)
Definition send_message (fuel : nat) (entry : ptr) : M commstate Z :=
  let* session := ent_get session_ entry in
  let* out := ses_get s_out session in
  let* (cnt, vectors) := encode out ENCODE_IOV_MAX in
  if (ENCODE_IOV_MAX <? u32 cnt)%Z then
    (if (ENCODE_IOV_MAX <? cnt)%Z then put_cerrno EOVERFLOW else ret tt) ;;;
    ret (-1)%Z
  else
    let vectors := take (Z.to_nat cnt) vectors in
    let* (cnt, rest) := send_message_sync fuel vectors entry in
    if (cnt <=? 0)%Z then ret cnt
    else send_message_async rest cnt entry.
End communicator.
