(* ===== verification/CommSpec.v ===== *)
(** Sending: what the kernel took, followed by what is handed to the poller, is what
    the message encoded. Sockets, timeouts and draining a service. *)
From S2P Require Export Comm.

(** ** Running the instructions *)

Lemma clnk_bnd {A B} (m : M (gmap positive cell) A) (k : A → M commstate B) s a h :
  m (clinks s) = Done (a, h) → bnd (clnk m) k s = k a (set_clinks h s).
Proof. intros E. unfold bnd, clnk, zoom. by rewrite E. Qed.
Lemma obj_get_bnd {X A B} (m : commstate → gmap positive X) (f : X → A) l
    (k : A → M commstate B) s x :
  m s !! l = Some x → bnd (obj_get m f (Some l)) k s = k (f x) s.
Proof. intros E. apply bnd_done. simpl. by rewrite E. Qed.
Lemma obj_set_bnd {X B} (m : commstate → gmap positive X) upd f l
    (k : unit → M commstate B) s x :
  m s !! l = Some x →
  bnd (obj_set m upd f (Some l)) k s = k tt (upd (<[l := f x]> (m s)) s).
Proof. intros E. apply bnd_done. simpl. by rewrite E. Qed.
Lemma obj_set_run {X} (m : commstate → gmap positive X) upd f l s x :
  m s !! l = Some x →
  obj_set m upd f (Some l) s = Done (tt, upd (<[l := f x]> (m s)) s).
Proof. intros E. simpl. by rewrite E. Qed.
Lemma obj_free_bnd {X B} (m : commstate → gmap positive X) upd l
    (k : unit → M commstate B) s x :
  m s !! l = Some x → bnd (obj_free m upd (Some l)) k s = k tt (upd (delete l (m s)) s).
Proof. intros E. apply bnd_done. simpl. by rewrite E. Qed.
Lemma ccall_bnd `{CommEnv} {B} c (k : Z → M commstate B) s r e :
  ccall_result c s = (r, e) → bnd (ccall_ c) k s = k r (add_ccall c r (set_cerrno e s)).
Proof. intros E. apply bnd_done. unfold ccall_. by rewrite E. Qed.

Ltac cstep :=
  first
    [ erewrite obj_get_bnd by (simpl; first [eassumption | by rewrite lookup_insert_eq])
    | erewrite obj_set_bnd by (simpl; first [eassumption | by rewrite lookup_insert_eq])
    | rewrite gets_bnd | rewrite modify_bnd | rewrite ret_bnd | rewrite bnd_assoc ].
Ltac csteps := repeat cstep.

(** ** Sending *)

(** writev(2): at most the bytes it was given, and at least one of them if any. *)
Class CommWritevLaws (E : CommEnv) : Prop := {
  cwritev_bound f vec s :
    (fst (ccall_result (KWritev f vec) s) ≤ Z.of_nat (length (vec_bytes vec)))%Z;
  cwritev_progress f vec s :
    vec_bytes vec ≠ [] → fst (ccall_result (KWritev f vec) s) ≠ 0%Z;
}.

(** The bytes the kernel took, over the calls of a run (latest first). *)
Definition ccall_sent (c : ccall * Z) : list Z :=
  match c with
  | (KWritev _ vec, r) => take (Z.to_nat r) (vec_bytes vec)
  | _ => []
  end.
Fixpoint csent (cs : list (ccall * Z)) : list Z :=
  match cs with [] => [] | c :: cs => csent cs ++ ccall_sent c end.
Lemma csent_app cs ds : csent (cs ++ ds) = csent ds ++ csent cs.
Proof. induction cs as [|c cs IH]; simpl; [by rewrite app_nil_r|]. by rewrite IH, app_assoc. Qed.

Lemma vec_bytes_cons v vs : vec_bytes (v :: vs) = iov_bytes v ++ vec_bytes vs.
Proof. done. Qed.
Lemma length_iov_bytes v : length (iov_bytes v) = Z.to_nat (iov_len v).
Proof. apply length_seqZ. Qed.

(** The [for] loop drops exactly the bytes sent, and the vectors that became empty. *)
Lemma skip_sent_run vs : ∀ n,
  lens_ok vs → (0 ≤ n < 2 ^ 63)%Z →
  vec_bytes (skip_sent n vs) = drop (Z.to_nat n) (vec_bytes vs) ∧ lens_ok (skip_sent n vs) ∧
  length (skip_sent n vs) ≤ length vs ∧
  (∀ v rest, vs = v :: rest → (iov_len v ≤ n)%Z → length (skip_sent n vs) ≤ length rest).
Proof.
  induction vs as [|v vs IH]; intros n Hok Hn.
  { split_and!; [by destruct (Z.to_nat n)|done|done|done]. }
  apply Forall_cons in Hok as [Hv Hok]. cbn [skip_sent]. rewrite u64_small by lia.
  destruct (iov_len v <=? n)%Z eqn:E.
  - apply Z.leb_le in E. rewrite i64_small by lia.
    destruct (IH (n - iov_len v)%Z) as (H1 & H2 & H3 & _); [done|lia|].
    split_and!; [|done|simpl; lia|].
    + rewrite H1, vec_bytes_cons, drop_app_ge by (rewrite length_iov_bytes; lia).
      rewrite length_iov_bytes. f_equal. lia.
    + intros w rest [= <- <-] _. done.
  - apply Z.leb_gt in E. rewrite u64_small by lia. split_and!.
    + rewrite !vec_bytes_cons, drop_app_le by (rewrite length_iov_bytes; lia). f_equal.
      unfold iov_bytes. simpl. by rewrite seqZ_drop by lia.
    + constructor; [simpl; lia|done].
    + done.
    + intros w rest [= <- <-]. lia.
Qed.

Lemma vec_bytes_take_le m vs : length (vec_bytes (take m vs)) ≤ length (vec_bytes vs).
Proof. rewrite <- (take_drop m vs) at 2. rewrite vec_bytes_app, length_app. lia. Qed.

Definition with_calls (e : Z) (cs : list (ccall * Z)) (s : commstate) : commstate :=
  CommState (clinks s) (centries s) (ctargets s) (csessions s) (cservices s) (caddrs s) (ciovs s)
    (cmsgs s) (csleeps s) (comm_mpoller s) (stop_flag s) e (cs ++ ccalls s).

(** How the loop ends: everything is sent, the socket is full, or writev failed. *)
Inductive sync_end (e : Z) : Z → list iovec → Prop :=
| SyncAll : sync_end e 0 []
| SyncFull v vs : e = EAGAIN → sync_end e (Z.of_nat (length (v :: vs))) (v :: vs)
| SyncError v vs : e ≠ EAGAIN → sync_end e (-1) (v :: vs).

Section send.
Context `{E : CommEnv} `{!CommWritevLaws E} `{CommClient}.

Lemma sync_loop_run fd fuel : ∀ vs s,
  lens_ok vs → (Z.of_nat (length (vec_bytes vs)) < 2 ^ 63)%Z →
  length (vec_bytes vs) + length vs < fuel →
  ∃ r rest e cs, sync_loop fuel fd vs s = Done ((r, rest), with_calls e cs s) ∧
    sync_end e r rest ∧ vec_bytes vs = csent cs ++ vec_bytes rest ∧ lens_ok rest ∧
    length rest ≤ length vs ∧
    ∀ c, c ∈ cs → ∃ vec n, c = (KWritev fd vec, n).
Proof.
  induction fuel as [|fuel IH]; intros vs s Hok Hb Hf; [lia|]. cbn [sync_loop].
  destruct vs as [|v vs].
  { exists 0%Z, [], (cerrno s), []. split; [by destruct s|].
    split_and!; try done; [constructor|set_solver]. }
  rewrite (proj2 (Z.ltb_lt 0 (Z.of_nat (length (v :: vs))))) by (simpl; lia). cbn [negb].
  set (m := Z.to_nat _). assert (1 ≤ m) as Hm.
  { unfold m, IOV_MAX. destruct (_ <=? _)%Z eqn:Ez; [simpl; lia|lia]. }
  set (vec := take m (v :: vs)).
  pose proof (cwritev_bound fd vec s) as Hbd. pose proof (cwritev_progress fd vec s) as Hpr.
  pose proof (vec_bytes_take_le m (v :: vs)) as Hle. fold vec in Hle.
  destruct (ccall_result (KWritev fd vec) s) as [n e] eqn:Ec. simpl in Hbd, Hpr.
  rewrite (ccall_bnd _ _ _ _ _ Ec). destruct (n <? 0)%Z eqn:En.
  - apply Z.ltb_lt in En. unfold get_cerrno. rewrite gets_bnd.
    eexists _, (v :: vs), e, [(KWritev fd vec, n)]. split; [reflexivity|]. split_and!.
    + simpl. destruct (e =? EAGAIN)%Z eqn:Ee; constructor; lia.
    + simpl. by replace (Z.to_nat n) with 0 by lia.
    + done.
    + done.
    + intros c ->%list_elem_of_singleton. by eexists _, _.
  - apply Z.ltb_ge in En.
    destruct (skip_sent_run (v :: vs) n) as (H1 & H2 & H3 & H4); [done|lia|].
    assert (length (vec_bytes (skip_sent n (v :: vs))) + length (skip_sent n (v :: vs))
            < length (vec_bytes (v :: vs)) + length (v :: vs)) as Hdec.
    { rewrite H1, length_drop. destruct (decide (n = 0)%Z) as [->|]; [|lia].
      assert (iov_len v ≤ 0)%Z as Hv.
      { destruct (decide (vec_bytes vec = [])) as [Ev|Ev]; [|by apply Hpr in Ev].
        unfold vec in Ev. destruct m as [|m']; [lia|]. simpl in Ev.
        apply app_eq_nil in Ev as [Ev _]. apply (f_equal length) in Ev.
        rewrite length_iov_bytes in Ev. simpl in Ev. lia. }
      specialize (H4 _ _ eq_refl Hv). change (length (v :: vs)) with (S (length vs)). lia. }
    destruct (IH (skip_sent n (v :: vs)) (add_ccall (KWritev fd vec) n (set_cerrno e s)))
      as (r & rest & e' & cs & Er & Hend & Hbytes & Hlens & Hlen & Hcs);
      [done|rewrite H1, length_drop; lia|lia|].
    exists r, rest, e', (cs ++ [(KWritev fd vec, n)]). split_and!; [|done| |done|lia|].
    + rewrite Er. unfold with_calls. simpl. by rewrite <- app_assoc.
    + rewrite csent_app. cbn [csent]. cbn [app ccall_sent].
      rewrite <- app_assoc, <- Hbytes, H1.
      rewrite <- (take_drop (Z.to_nat n) (vec_bytes (v :: vs))) at 1. f_equal.
      unfold vec. rewrite <- (take_drop m (v :: vs)) at 1.
      rewrite vec_bytes_app, take_app_le; [done|]. fold vec. lia.
    + intros c [Hc| ->%list_elem_of_singleton]%elem_of_app; [by apply Hcs|by eexists _, _].
Qed.

(** [send_message], when [encode] gives [vs]: the bytes the kernel took and those
    left are the bytes of [vs]; what is left goes to the poller exactly when the
    socket is full, and then is not empty. *)
Lemma send_message_run fuel s entry en session se out k l :
  let vs := take (Z.to_nat k) l in
  centries s !! entry = Some en → session_ en = Some session →
  csessions s !! session = Some se → s_out se = out →
  encode out ENCODE_IOV_MAX s = Done ((k, l), s) →
  (0 ≤ k ≤ ENCODE_IOV_MAX)%Z → lens_ok vs →
  (Z.of_nat (length (vec_bytes vs)) < 2 ^ 63)%Z → length (vec_bytes vs) + length vs < fuel →
  ∃ rest e cs, vec_bytes vs = csent cs ++ vec_bytes rest ∧ length rest ≤ length vs ∧
    let s' := with_calls e cs s in
    match rest with
    | [] => send_message fuel (Some entry) s =
              (sent_all (Some entry) (Some session) ;;; ret 0%Z) s'
    | _ =>
        if decide (e = EAGAIN)
        then send_message fuel (Some entry) s =
               send_message_async rest (Z.of_nat (length rest)) (Some entry) s'
        else send_message fuel (Some entry) s = Done ((-1)%Z, s')
    end.
Proof.
  intros vs Hen Hse Hs Hout Henc Hmax Hok Hb Hf. unfold ENCODE_IOV_MAX in Hmax.
  destruct (sync_loop_run (sockfd_ en) fuel vs s) as (r & rest & e & cs & Er & Hend & Hbytes & _ & Hlen & _);
    [done..|].
  exists rest, e, cs. split; [done|]. split; [done|]. cbv zeta. unfold send_message.
  rewrite (obj_get_bnd _ _ _ _ _ en) by done. rewrite Hse.
  rewrite (obj_get_bnd _ _ _ _ _ se) by done. rewrite Hout, (bnd_done _ _ _ _ _ Henc).
  rewrite u32_small by lia. replace (ENCODE_IOV_MAX <? _)%Z with false
    by (symmetry; apply Z.ltb_ge; unfold ENCODE_IOV_MAX; lia).
  unfold send_message_sync. fold vs. rewrite !bnd_assoc.
  rewrite (obj_get_bnd _ _ _ _ _ en) by done. rewrite Hse, bnd_assoc.
  rewrite (obj_get_bnd _ _ _ _ _ en) by done. rewrite bnd_assoc, (bnd_done _ _ _ _ _ Er).
  destruct Hend as [|v vs' He|v vs' He].
  - rewrite bnd_assoc. reflexivity.
  - rewrite decide_True, ret_bnd by done. by rewrite (proj2 (Z.leb_gt _ 0)) by (simpl; lia).
  - by rewrite decide_False, ret_bnd by done.
Qed.
End send.

(** ** Timeouts *)

(** A timeout in milliseconds as a deadline: negative is none. *)
Definition infinite (t : Z) : Prop := (t < 0)%Z.
(** [t] is the earlier of [a] and [b]. *)
Definition earlier (t a b : Z) : Prop :=
  (infinite a ∧ infinite b ∧ infinite t) ∨ (infinite a ∧ ¬ infinite b ∧ t = b) ∨
  (infinite b ∧ ¬ infinite a ∧ t = a) ∨ (¬ infinite a ∧ ¬ infinite b ∧ t = Z.min a b).

Definition int_range (z : Z) : Prop := (- 2 ^ 31 ≤ z < 2 ^ 31)%Z.
Definition ns_of (t : timespec) : Z := tv_sec t * 1000000000 + tv_nsec t.
Definition normal (t : timespec) : Prop := (0 ≤ tv_nsec t < 1000000000)%Z.

(** The time since [b], to the millisecond. *)
Lemma time_used_exact now b :
  normal now → normal b → (- 2 ^ 31 < (ns_of now - ns_of b) / 1000000 < 2 ^ 31 - 1)%Z →
  ((time_used now b - 1) * 1000000 < ns_of now - ns_of b < (time_used now b + 1) * 1000000)%Z.
Proof.
  unfold normal, time_used, ns_of. intros Hn Hb Hr.
  set (ds := (tv_sec now - tv_sec b)%Z). set (dn := (tv_nsec now - tv_nsec b)%Z).
  assert (tv_sec now * 1000000000 + tv_nsec now - (tv_sec b * 1000000000 + tv_nsec b) =
          1000000 * (1000 * ds) + dn)%Z as E by (unfold ds, dn; lia).
  rewrite E in *. assert (-1000000000 < dn < 1000000000)%Z as Hdn by (unfold dn; lia).
  clearbody ds dn. rewrite Z.mul_comm, Z.div_add_l in Hr by lia.
  pose proof (Z.quot_rem' dn 1000000) as Hq.
  pose proof (Z.rem_bound_abs dn 1000000 ltac:(lia)) as Hm.
  pose proof (Z.div_mod dn 1000000 ltac:(lia)) as Hd.
  pose proof (Z.mod_pos_bound dn 1000000 ltac:(lia)) as Hd2.
  rewrite i32_small by lia. lia.
Qed.

Section timeouts.
Context `{E : CommEnv} `{C : CommClient}.
Context (s : commstate) (session tg : loc) (se : comm_session) (t : comm_target).
Context (Hse : csessions s !! session = Some se) (Ht : s_target se = Some tg).
Context (Htg : ctargets s !! tg = Some t).

Definition with_session (x : comm_session) : commstate :=
  set_csessions (<[session := x]> (csessions s)) s.

(** The first timeout is the earlier of the session's and the target's; the
    session's is marked as used when it is that one, else the clock starts. *)
Lemma first_timeout_run :
  int_range (m_response_timeout t) → int_range (s_timeout se) →
  (infinite (s_timeout se) → s_timeout se = -1)%Z →
  ∃ r, earlier r (s_timeout se) (m_response_timeout t) ∧
    first_timeout (Some session) s = Done (r, with_session
      (if decide (infinite (m_response_timeout t) ∨
                  (¬ infinite (s_timeout se) ∧ s_timeout se ≤ m_response_timeout t)%Z)
       then set_s_timeout 0 se else set_times (s_timeout se) (cclock s) se)).
Proof.
  unfold int_range, infinite. intros Hr Hs Hneg. unfold first_timeout. csteps. rewrite Ht. csteps.
  set (rt := m_response_timeout t) in *. set (st := s_timeout se) in *.
  assert (((rt <? 0) || (u32 st <=? u32 rt))%Z =
          bool_decide (rt < 0 ∨ (¬ st < 0 ∧ st ≤ rt))%Z) as ->.
  { destruct (Z.ltb_spec rt 0); simpl; [by rewrite bool_decide_true by auto|].
    rewrite (u32_small rt) by lia. destruct (decide (st < 0)%Z) as [Hn|Hn].
    - rewrite u32_neg by lia. rewrite bool_decide_false by lia. apply Z.leb_gt. lia.
    - rewrite u32_small by lia. destruct (Z.leb_spec st rt).
      + by rewrite bool_decide_true by lia.
      + by rewrite bool_decide_false by lia. }
  unfold earlier, infinite. case_bool_decide as Hd.
  - exists st. split; [lia|]. csteps. by rewrite decide_True.
  - exists rt. split; [lia|]. unfold cclock_gettime. csteps. by rewrite decide_False.
Qed.

(** A later timeout never lets the session run past its own, measured from
    [begin_time], nor past the target's; when the session's is the one that counts
    it is marked as used. *)
Lemma next_timeout_run :
  int_range (m_response_timeout t) → int_range (s_timeout se) →
  let used := time_used (cclock s) (begin_time se) in
  (0 < s_timeout se → 0 ≤ used)%Z →
  ∃ r s', next_timeout (Some session) s = Done (r, s') ∧
    ((s_timeout se ≤ 0 ∧ r = m_response_timeout t ∧ s' = s) ∨
     (0 < s_timeout se ∧ s_timeout se - used ≤ m_response_timeout t ∧
      r = Z.max 0 (s_timeout se - used) ∧ s' = with_session (set_s_timeout 0 se)) ∨
     (0 < s_timeout se ∧ m_response_timeout t < s_timeout se - used ∧
      r = m_response_timeout t ∧ s' = s))%Z.
Proof.
  intros Hr Hs used Hu. unfold int_range in Hr, Hs. unfold next_timeout. csteps. rewrite Ht. csteps.
  destruct (Z.ltb_spec 0 (s_timeout se)) as [Hp|Hp].
  - specialize (Hu Hp). unfold cclock_gettime. csteps. fold used. unfold int_of.
    assert (used < 2 ^ 31)%Z as Hu2.
    { unfold used, time_used, i32, sw. pose proof (Z.mod_pos_bound
        (1000 * (tv_sec (cclock s) - tv_sec (begin_time se)) +
         (tv_nsec (cclock s) - tv_nsec (begin_time se)) ÷ 1000000 + 2 ^ (32 - 1)) (2 ^ 32) ltac:(lia)).
      lia. }
    replace ((- 2 ^ 31 <=? s_timeout se - used) && (s_timeout se - used <? 2 ^ 31))%Z with true by lia.
    csteps. destruct (Z.leb_spec (s_timeout se - used) (m_response_timeout t)) as [Hl|Hl].
    + csteps. eexists _, _. split; [reflexivity|]. right; left. split_and!; [done|done| |done].
      destruct (Z.ltb_spec (s_timeout se - used) 0); lia.
    + eexists _, _. split; [reflexivity|]. right; right. by split_and!.
  - eexists _, _. split; [reflexivity|]. left. by split_and!.
Qed.
End timeouts.

(** ** Handing the rest to the poller *)

(** The client's timeout functions return, and change nothing. *)
Class CommClientLaws (C : CommClient) : Prop := {
  send_timeout_pure l s : ∃ t, send_timeout l s = Done (t, s) ∧ int_range t ∧
    (infinite t → t = -1)%Z;
}.

Section async.
Context `{E : CommEnv} `{C : CommClient} `{!CommClientLaws C}.

Lemma first_timeout_send_run s session se tg t :
  csessions s !! session = Some se → s_target se = Some tg → ctargets s !! tg = Some t →
  int_range (m_response_timeout t) →
  ∃ r x, first_timeout_send (Some session) s =
    Done (r, set_csessions (<[session := x]> (csessions s)) s).
Proof.
  intros Hse Ht Htg Hr. unfold first_timeout_send. simpl as_loc. csteps.
  destruct (send_timeout_pure session s) as (st & Es & Hst & Hneg).
  rewrite (bnd_done _ _ _ _ _ Es). csteps.
  set (s1 := set_csessions _ s). set (se1 := set_s_timeout st se) in *.
  destruct (first_timeout_run s1 session tg se1 t) as (r & _ & Er);
    [simpl; by rewrite lookup_insert_eq|done|done|done|done|done|].
  eexists r, _. rewrite Er. unfold with_session, s1. simpl. by rewrite insert_insert_eq.
Qed.

(** What [send_message_async] may do with the buffers [vs] that are left, starting from
    [s]: [n] is what it returns, [s'] the state then. Without memory for the array no
    call is made. Else the array is given to the poller: a client's idle connection,
    which the poller reads from, is changed to write, any other added, and removed again
    when the communicator stops. When that succeeds the array is the poller's; when it
    fails it is freed, and the reply is about to be read ([CONN_STATE_RECEIVING]), or
    -1 is returned. *)
Definition handed (s : commstate) (entry : loc) (en : conn_entry) (vs : list iovec)
    (n : Z) (s' : commstate) : Prop :=
  match cmalloc s with
  | None => n = (-1)%Z ∧ ccalls s' = ccalls s ∧ ciovs s' = ciovs s
  | Some a => ∃ timeout r more,
      let idle := bool_decide (state_ en = CONN_STATE_IDLE) in
      let d := PData PD_OP_WRITE (Z.of_nat (length vs)) (sockfd_ en) PARTIAL_WRITTEN
                 (Some entry) (UIov a 0) in
      ccalls s' = more ++ ((if idle then KMod else KAdd) d timeout (comm_mpoller s), r) :: ccalls s ∧
      (if decide (idle = false ∧ 0 ≤ r ∧ stop_flag s ≠ 0)%Z
       then ∃ r', more = [(KDel (sockfd_ en) (comm_mpoller s), r')] else more = []) ∧
      if decide (0 ≤ r)%Z then
        n = 1%Z ∧ ciovs s' !! a = Some vs ∧
        (λ x, (write_iov_ x, state_ x)) <$> centries s' !! entry = Some (Some a, state_ en)
      else
        let gone := bool_decide (idle = true ∧ cerrno s' = ENOENT) in
        ciovs s' !! a = None ∧
        state_ <$> centries s' !! entry = Some (if gone then CONN_STATE_RECEIVING else state_ en) ∧
        n = if decide (gone = true ∨ state_ en = CONN_STATE_RECEIVING) then 1%Z else (-1)%Z
  end.

(** What follows the poller's answer [r]. *)
Lemma handed_end s entry en a vs timeout r more en3 s3 :
  let idle := bool_decide (state_ en = CONN_STATE_IDLE) in
  let d := PData PD_OP_WRITE (Z.of_nat (length vs)) (sockfd_ en) PARTIAL_WRITTEN
             (Some entry) (UIov a 0) in
  cmalloc s = Some a →
  ccalls s3 = more ++ ((if idle then KMod else KAdd) d timeout (comm_mpoller s), r) :: ccalls s →
  (if decide (idle = false ∧ 0 ≤ r ∧ stop_flag s ≠ 0)%Z
   then ∃ r', more = [(KDel (sockfd_ en) (comm_mpoller s), r')] else more = []) →
  centries s3 !! entry = Some en3 → write_iov_ en3 = Some a → ciovs s3 !! a = Some vs →
  state_ en3 = (if decide (idle = true ∧ r < 0 ∧ cerrno s3 = ENOENT)%Z
                then CONN_STATE_RECEIVING else state_ en) →
  ∃ n s', (if (r <? 0)%Z then
       let* w := ent_get write_iov_ (Some entry) in
       obj_free ciovs set_ciovs w ;;;
       let* st := ent_get state_ (Some entry) in
       if negb (st =? CONN_STATE_RECEIVING)%Z then ret (-1)%Z else ret 1%Z
     else ret 1%Z) s3 = Done (n, s') ∧ handed s entry en vs n s'.
Proof.
  intros idle d Ha Hc Hm Hen Hw Hv Hst. unfold handed. rewrite Ha. fold idle d.
  destruct (Z.ltb_spec r 0).
  - csteps. rewrite Hw. erewrite obj_free_bnd by done. csteps. simpl.
    exists (if decide (state_ en3 = CONN_STATE_RECEIVING) then 1 else -1)%Z.
    eexists. split; [by destruct (Z.eqb_spec (state_ en3) CONN_STATE_RECEIVING);
      [rewrite decide_True by done|rewrite decide_False by done]|].
    exists timeout, r, more. split; [done|]. split; [done|].
    rewrite decide_False by lia. simpl. rewrite lookup_delete_eq, Hen. simpl. rewrite Hst.
    destruct (decide (idle = true ∧ cerrno s3 = ENOENT)) as [Hg|Hg].
    + rewrite bool_decide_true, !decide_True by naive_solver. done.
    + rewrite bool_decide_false, (decide_False (P := (_ ∧ _ ∧ _))) by naive_solver.
      split_and!; [done..|]. apply decide_ext. naive_solver.
  - eexists _, _. split; [reflexivity|]. exists timeout, r, more. split; [done|]. split; [done|].
    rewrite decide_True, Hen by done. simpl. rewrite Hw, Hst, decide_False by lia. done.
Qed.

Lemma send_async_run s entry en session se tg t vs :
  centries s !! entry = Some en → session_ en = Some session →
  csessions s !! session = Some se → s_target se = Some tg → ctargets s !! tg = Some t →
  int_range (m_response_timeout t) → (Z.of_nat (length vs) ≤ ENCODE_IOV_MAX)%Z →
  ∃ n s', send_message_async vs (Z.of_nat (length vs)) (Some entry) s = Done (n, s') ∧
    handed s entry en vs n s'.
Proof.
  intros Hen Hses Hse Ht Htg Hr Hlen. unfold send_message_async.
  unfold copy_iovs, bnd at 1. destruct (cmalloc s) as [a|] eqn:Ha.
  2: { csteps. eexists _, _. split; [reflexivity|]. unfold handed. rewrite Ha. by split_and!. }
  csteps. set (s1 := set_centries _ _). set (en1 := set_write_iov_ (Some a) en) in *.
  assert (centries s1 !! entry = Some en1) as Hen1 by (simpl; by rewrite lookup_insert_eq).
  change (session_ en1) with (session_ en). rewrite Hses.
  destruct (first_timeout_send_run s1 session se tg t) as (timeout & x & Et); [done..|].
  rewrite (bnd_done _ _ _ _ _ Et). set (s2 := set_csessions _ s1).
  assert (ciovs s2 !! a = Some vs) as Hiov by (simpl; by rewrite lookup_insert_eq).
  rewrite (obj_get_bnd centries state_ _ _ _ en1), gets_bnd by done.
  change (state_ en1) with (state_ en). change (sockfd_ en1) with (sockfd_ en).
  change (comm_mpoller s2) with (comm_mpoller s).
  unfold uw. rewrite Z.mod_small by (unfold ENCODE_IOV_MAX in Hlen; lia).
  set (d := PData _ _ _ _ _ _).
  destruct (Z.eqb_spec (state_ en) CONN_STATE_IDLE) as [Hi|Hi].
  - destruct (ccall_result (KMod d timeout (comm_mpoller s)) s2) as [r e] eqn:Er.
    rewrite !bnd_assoc, (ccall_bnd _ _ _ _ _ Er), bnd_assoc. unfold get_cerrno. rewrite gets_bnd.
    set (s3 := add_ccall _ _ _). change (cerrno s3) with e.
    assert (bool_decide (state_ en = CONN_STATE_IDLE) = true) as Hidle by by apply bool_decide_eq_true.
    destruct (decide (r < 0 ∧ e = ENOENT)%Z) as [[Hn He]|Hne].
    + replace ((r <? 0)%Z && (e =? ENOENT)%Z) with true
        by (by rewrite He, (proj2 (Z.ltb_lt r 0))).
      rewrite bnd_assoc, (obj_set_bnd centries _ _ _ _ _ en1), ret_bnd by done.
      eapply (handed_end s entry en a vs timeout r []); rewrite ?Hidle; try done.
      * simpl. by rewrite lookup_insert_eq.
      * done.
      * by rewrite decide_True.
    + replace ((r <? 0)%Z && (e =? ENOENT)%Z) with false
        by (symmetry; apply andb_false_iff; rewrite Z.ltb_ge, Z.eqb_neq; lia).
      csteps. eapply (handed_end s entry en a vs timeout r [] en1); rewrite ?Hidle; try done.
      by rewrite decide_False by (intros (_ & ?); done).
  - destruct (ccall_result (KAdd d timeout (comm_mpoller s)) s2) as [r e] eqn:Er.
    rewrite !bnd_assoc, (ccall_bnd _ _ _ _ _ Er), bnd_assoc, gets_bnd.
    set (s3 := add_ccall _ _ _). change (stop_flag s3) with (stop_flag s).
    assert (bool_decide (state_ en = CONN_STATE_IDLE) = false) as Hidle by by apply bool_decide_eq_false.
    destruct (decide (0 ≤ r ∧ stop_flag s ≠ 0)%Z) as [[Hp Hs]|Hns].
    + replace ((0 <=? r)%Z && negb (stop_flag s =? 0)%Z) with true
        by (symmetry; rewrite andb_true_iff, negb_true_iff, Z.eqb_neq, Z.leb_le; done).
      unfold mpoller_del_fd.
      destruct (ccall_result (KDel (sockfd_ en) (comm_mpoller s)) s3) as [r' e'] eqn:Ed.
      rewrite !bnd_assoc, (ccall_bnd _ _ _ _ _ Ed). csteps.
      eapply (handed_end s entry en a vs timeout r [(KDel (sockfd_ en) (comm_mpoller s), r')] en1);
        rewrite ?Hidle; try done.
      rewrite decide_True by done. by exists r'.
    + replace ((0 <=? r)%Z && negb (stop_flag s =? 0)%Z) with false
        by (symmetry; apply andb_false_iff; rewrite negb_false_iff, Z.eqb_eq, Z.leb_gt; lia).
      csteps. eapply (handed_end s entry en a vs timeout r [] en1); rewrite ?Hidle; try done.
      by rewrite decide_False by (intros (_ & ? & ?); lia).
Qed.
End async.

(** ** Binding a socket *)

(** A name that is not set: every byte after the family is 0. *)
Definition unnamed (ss : list Z) (len : nat) : Prop :=
  Forall (λ b, b = 0%Z) (drop 2 (take len ss)).
#[export] Instance unnamed_dec ss len : Decision (unnamed ss len).
Proof. unfold unnamed. apply _. Defined.

Lemma last_byte_zeros ss len :
  len ≤ length ss →
  last_byte ss len = Some 0 ↔ Forall (λ b, b = 0%Z) (drop 1 (take len ss)).
Proof.
  induction len as [|len IH]; intros Hl; [by rewrite take_0|]. cbn [last_byte].
  destruct (lookup_lt_is_Some_2 ss len) as [b Hb]; [lia|]. rewrite Hb, (take_S_r _ _ _ Hb).
  destruct (decide (len = 0)) as [->|Hn].
  { rewrite take_0. simpl. split; [constructor|]. by destruct (negb _). }
  rewrite drop_app_le, Forall_app, Forall_singleton by (rewrite length_take; lia).
  rewrite <- IH by lia. destruct (Z.eqb_spec b 0) as [->|Hne]; simpl; [naive_solver|].
  split; [intros [= ->]; lia|naive_solver].
Qed.
Lemma last_byte_defined ss len : len ≤ length ss → is_Some (last_byte ss len).
Proof.
  induction len as [|len IH]; intros Hl; [by eexists|]. cbn [last_byte].
  destruct (lookup_lt_is_Some_2 ss len) as [b Hb]; [lia|]. rewrite Hb.
  destruct (negb _); [by eexists|]. apply IH. lia.
Qed.

Lemma bind_sockaddr_run `{CommEnv} fd addr addrlen s ss len r e :
  sockname fd s = (ss, Z.of_nat len) → ccall_result (KGetsockname fd) s = (r, e) → (0 ≤ r)%Z →
  2 ≤ length ss → len ≤ length ss →
  let s1 := add_ccall (KGetsockname fd) r (set_cerrno e s) in
  __bind_sockaddr fd addr addrlen s =
    if decide (unnamed ss len) then
      let '(r, e) := ccall_result (KBind fd addr addrlen) s1 in
      Done ((if (r <? 0)%Z then -1 else 0)%Z,
            add_ccall (KBind fd addr addrlen) r (set_cerrno e s1))
    else Done (0%Z, s1).
Proof.
  intros Hn Hc Hr H2 Hl s1. unfold __bind_sockaddr. rewrite gets_bnd, Hn. cbn iota beta.
  rewrite (ccall_bnd _ _ _ _ _ Hc), (proj2 (Z.ltb_ge r 0)), Nat2Z.id by done. fold s1.
  set (ss' := [0; 0]%Z ++ drop 2 ss).
  assert (length ss' = length ss) as Hlen by (unfold ss'; rewrite length_app, length_drop; simpl; lia).
  destruct (last_byte_defined ss' len) as [k Hk]; [lia|]. rewrite Hk.
  assert (unnamed ss len ↔ k = 0) as Hu.
  { transitivity (last_byte ss' len = Some 0); [|rewrite Hk; split; congruence].
    rewrite last_byte_zeros by lia. unfold unnamed, ss'.
    destruct ss as [|b1 [|b2 ss]]; simpl in H2; [lia|lia|]. simpl.
    destruct len as [|[|len]]; simpl; [done|done|]. rewrite !drop_0, Forall_cons. naive_solver. }
  destruct (decide (k = 0)) as [Ek|Ek]; case_decide as Hd; try (by exfalso; apply Ek, Hu);
    try (by exfalso; apply Hd, Hu); [|done].
  destruct (ccall_result (KBind fd addr addrlen) s1) as [r2 e2] eqn:E2.
  rewrite (ccall_bnd _ _ _ _ _ E2). by destruct (r2 <? 0)%Z.
Qed.

(** ** Draining a service *)

(** The connections that [drain] closes: at most [max] of them if [max] is not
    negative. *)
Definition drain_count (max : Z) (n : nat) : nat :=
  if (max <? 0)%Z then n else Nat.min (Z.to_nat max) n.
Definition closing (xs : list loc) (m : gmap positive conn_entry) : gmap positive conn_entry :=
  foldr (λ x m, alter (set_state_ CONN_STATE_CLOSING) x m) m xs.

Lemma closing_lookup xs m y :
  NoDup xs →
  closing xs m !! y = (if decide (y ∈ xs) then set_state_ CONN_STATE_CLOSING <$> m !! y else m !! y).
Proof.
  intros Hnd. induction xs as [|x xs IH]; unfold closing; cbn [foldr]; [|fold (closing xs m)].
  { case_decide as Hy; [by apply elem_of_nil in Hy|done]. }
  apply NoDup_cons in Hnd as [Hx Hnd]. rewrite lookup_alter.
  destruct (decide (x = y)) as [->|Hxy].
  - rewrite IH by done. destruct (decide (y ∈ xs)); [done|].
    destruct (decide (y ∈ y :: xs)) as [|Hn]; [done|]. destruct Hn. by left.
  - rewrite IH by done. assert (y ∈ x :: xs ↔ y ∈ xs) as Hi
      by (rewrite elem_of_cons; split; [by intros [->|]|by right]).
    destruct (decide (y ∈ xs)), (decide (y ∈ x :: xs)); tauto.
Qed.

Lemma closing_cons x xs m y :
  x ∉ xs → NoDup xs →
  closing (x :: xs) m !! y = closing xs (alter (set_state_ CONN_STATE_CLOSING) x m) !! y.
Proof.
  intros Hx Hnd. rewrite !closing_lookup, lookup_alter by (done || by constructor).
  destruct (decide (x = y)) as [->|Hne].
  - rewrite decide_True by (by left). by rewrite decide_False.
  - assert (y ∈ x :: xs ↔ y ∈ xs) as Hi by (rewrite elem_of_cons; naive_solver).
    destruct (decide (y ∈ xs)), (decide (y ∈ x :: xs)); tauto.
Qed.

Lemma drain_count_S max cnt n :
  (max < 0 ∨ cnt < max)%Z →
  drain_count (max - (if (max <? 0)%Z then 0 else cnt)) (S n) =
  S (drain_count (max - (if (max <? 0)%Z then 0 else cnt + 1)) n).
Proof.
  intros Hm. unfold drain_count. destruct (Z.ltb_spec max 0).
  - rewrite Z.sub_0_r. by rewrite (proj2 (Z.ltb_lt max 0)).
  - rewrite !(proj2 (Z.ltb_ge _ 0)) by lia. lia.
Qed.

(** The first [k] connections of the list are closed, in order. *)
Definition del_call (s : commstate) (c : ccall * Z) (x : loc) : Prop :=
  ∃ en r, centries s !! x = Some en ∧ c = (KDel (sockfd_ en) (mpoller_ en), r).
Definition drained (head : loc) (xs : list loc) (k : nat) (s s' : commstate) : Prop :=
  dlist (clinks s') head (drop k xs) ∧ cservices s' = cservices s ∧
  (∀ y, centries s' !! y = closing (take k xs) (centries s) !! y) ∧
  ∃ cs, ccalls s' = cs ++ ccalls s ∧ Forall2 (del_call s) (reverse cs) (take k xs).

Lemma drained_0 head xs s : dlist (clinks s) head xs → drained head xs 0 s s.
Proof. intros Hd. unfold drained. rewrite drop_0, take_0. split_and!; [done..|]. by exists []. Qed.

Lemma drained_S head x xs k s s2 s' en r :
  NoDup (x :: xs) → centries s !! x = Some en →
  centries s2 = <[x := set_state_ CONN_STATE_CLOSING en]> (centries s) →
  cservices s2 = cservices s →
  ccalls s2 = (KDel (sockfd_ en) (mpoller_ en), r) :: ccalls s →
  drained head xs k s2 s' → drained head (x :: xs) (S k) s s'.
Proof.
  intros [Hxx Hnd]%NoDup_cons Hx He Hs Hc (E2 & E3 & E4 & cs & E5 & E6).
  assert (x ∉ take k xs) as Hxt by (intros Hi; by apply Hxx, (subseteq_take k xs)).
  assert (NoDup (take k xs)) as Hnt
    by (rewrite <- (take_drop k xs) in Hnd; by apply NoDup_app in Hnd as [? _]).
  unfold drained. cbn [take drop]. split_and!; [done|by rewrite E3| |].
  - intros y. rewrite E4, He, closing_cons by done.
    by rewrite (alter_alt_Some _ _ _ _ Hx).
  - exists (cs ++ [(KDel (sockfd_ en) (mpoller_ en), r)]).
    split; [by rewrite E5, Hc, <- app_assoc|]. rewrite reverse_app. constructor; [by exists en, r|].
    eapply Forall2_impl_in; [exact E6|]. intros c z Hz (en' & r' & Hz' & ->).
    rewrite He in Hz'. destruct (decide (z = x)) as [->|Hzx].
    + rewrite lookup_insert_eq in Hz'. injection Hz' as <-. by exists en, r'.
    + rewrite lookup_insert_ne in Hz' by done. by exists en', r'.
Qed.

Section drain.
Context `{E : CommEnv}.

Lemma drain_alive_run fuel head max xs : ∀ s cnt,
  dlist (clinks s) head xs → (∀ x, x ∈ xs → is_Some (centries s !! x)) →
  (max < 0 ∨ cnt ≤ max)%Z → (0 ≤ cnt)%Z → length xs < fuel →
  let k := drain_count (max - (if (max <? 0)%Z then 0 else cnt)) (length xs) in
  ∃ s', drain_alive fuel head cnt max s = Done ((cnt + Z.of_nat k)%Z, s') ∧ drained head xs k s s'.
Proof.
  revert xs. induction fuel as [|fuel IH]; intros xs s cnt Hd Hen Hmax H0 Hf k; [lia|].
  cbn [drain_alive].
  assert (k = 0 → ∃ s', Done (cnt, s) = Done ((cnt + Z.of_nat k)%Z, s') ∧ drained head xs k s s')
    as Hstop by (intros ->; exists s; rewrite Z.add_0_r; split; [done|by apply drained_0]).
  destruct (Z.eqb_spec cnt max) as [->|Hne].
  { apply Hstop. unfold k, drain_count. destruct (Z.ltb_spec max 0); [lia|]. by rewrite Z.sub_diag. }
  rewrite (clnk_bnd _ _ _ (bool_decide (xs = [])) (clinks s))
    by (apply list_empty_dlist; by destruct Hd as (? & ? & _)).
  replace (set_clinks (clinks s) s) with s by by destruct s.
  destruct xs as [|x xs].
  { rewrite bool_decide_true by done. apply Hstop. unfold k, drain_count.
    cbn [length]. rewrite Nat.min_0_r. by repeat case_match. }
  rewrite bool_decide_false by done.
  assert (nxt (clinks s) head = Some (Some x)) as Hn by (by destruct Hd as (_ & [? _] & _)).
  rewrite (clnk_bnd _ _ _ (Some x) (clinks s)).
  2: by apply ld_next_run.
  replace (set_clinks (clinks s) s) with s by by destruct s.
  destruct (list_delete_dlist (clinks s) head [] x xs Hd) as (h & Edel & Hd' & _).
  rewrite (clnk_bnd _ _ _ tt h) by done.
  destruct (Hen x) as [en Hx]; [by left|].
  rewrite !(obj_get_bnd centries _ _ _ _ en) by done.
  destruct (ccall_result (KDel (sockfd_ en) (mpoller_ en)) (set_clinks h s)) as [r e] eqn:Er.
  unfold mpoller_del_fd. rewrite (ccall_bnd _ _ _ _ _ Er).
  rewrite (obj_set_bnd centries _ _ _ _ _ en) by done. set (s2 := set_centries _ _).
  destruct Hd as ([_ Hnd]%NoDup_cons & _).
  destruct (IH xs s2 (cnt + 1)%Z) as (s' & E1 & E2); [done| |lia|lia|simpl in Hf; lia|].
  { intros y Hy. simpl. apply NoDup_cons in Hnd as [Hxx _].
    rewrite lookup_insert_ne by (by intros ->). apply Hen. by right. }
  exists s'. unfold k. cbn [length]. rewrite drain_count_S, E1 by lia.
  split; [do 2 f_equal; lia|]. eapply (drained_S _ _ _ _ _ s2); [done|exact Hx|done|done|done|done].
Qed.

(** [drain] closes the first connections of the list, as many as it is told, in
    order, and leaves errno as it was. *)
Lemma service_drain_run this v max xs s :
  cservices s !! this = Some v → dlist (clinks s) (alive_list v) xs →
  (∀ x, x ∈ xs → is_Some (centries s !! x)) →
  let k := drain_count max (length xs) in
  ∃ s', drain (Some this) max s = Done (Z.of_nat k, s') ∧
    dlist (clinks s') (alive_list v) (drop k xs) ∧ cerrno s' = cerrno s ∧
    (∀ y, centries s' !! y =
       if decide (y ∈ take k xs) then set_state_ CONN_STATE_CLOSING <$> centries s !! y
       else centries s !! y) ∧
    ∃ cs, ccalls s' = cs ++ ccalls s ∧
      Forall2 (λ c x, ∃ en r, centries s !! x = Some en ∧ c = (KDel (sockfd_ en) (mpoller_ en), r))
        (reverse cs) (take k xs).
Proof.
  intros Hv Hd Hen k. unfold drain, get_cerrno. rewrite gets_bnd.
  rewrite (obj_get_bnd cservices _ _ _ _ v) by done.
  assert (length xs < S (size (clinks s))) as Hlen.
  { apply Nat.lt_succ_r, NoDup_size.
    - destruct Hd as (Hnd & _). by apply NoDup_cons in Hnd as [_ ?].
    - intros x Hx. destruct Hd as (_ & Hf & _). eapply fseg_alloc; [exact Hf|by right]. }
  destruct (drain_alive_run (S (size (clinks s))) (alive_list v) max xs s 0)
    as (s' & E1 & E2 & E3 & E4 & E5); [done|done|lia|lia|done|].
  assert (drain_count (max - (if (max <? 0)%Z then 0 else 0)%Z) (length xs) = k) as Ek
    by (unfold k; f_equal; destruct (max <? 0)%Z; lia).
  rewrite Ek in *. rewrite (bnd_done (bounded _ _) _ _ _ _ E1). unfold put_cerrno.
  rewrite modify_bnd. eexists. split; [reflexivity|]. split_and!; [done|done| |done].
  intros y. simpl. rewrite E4. apply closing_lookup.
  destruct Hd as (Hnd & _). apply NoDup_cons in Hnd as [_ Hnd].
  rewrite <- (take_drop k xs) in Hnd. by apply NoDup_app in Hnd as [? _].
Qed.
End drain.

(** ** Sending a message, put together *)

Section whole.
Context `{E : CommEnv} `{!CommWritevLaws E} `{C : CommClient} `{!CommClientLaws C}.

Lemma send_message_splits_run fuel s entry en session se tg t k l :
  let vs := take (Z.to_nat k) l in
  centries s !! entry = Some en → session_ en = Some session →
  csessions s !! session = Some se → s_target se = Some tg → ctargets s !! tg = Some t →
  int_range (m_response_timeout t) →
  encode (s_out se) ENCODE_IOV_MAX s = Done ((k, l), s) → int_range k → lens_ok vs →
  (Z.of_nat (length (vec_bytes vs)) < 2 ^ 63)%Z → length (vec_bytes vs) + length vs < fuel →
  if decide (0 ≤ k ≤ ENCODE_IOV_MAX)%Z then
    ∃ rest e cs, vec_bytes vs = csent cs ++ vec_bytes rest ∧
      let s1 := with_calls e cs s in
      match rest with
      | [] => send_message fuel (Some entry) s =
                (sent_all (Some entry) (Some session) ;;; ret 0%Z) s1
      | _ =>
          if decide (e = EAGAIN)
          then ∃ n s', send_message fuel (Some entry) s = Done (n, s') ∧
                 handed s1 entry en rest n s'
          else send_message fuel (Some entry) s = Done ((-1)%Z, s1)
      end
  else send_message fuel (Some entry) s =
         Done ((-1)%Z, if decide (ENCODE_IOV_MAX < k)%Z then set_cerrno EOVERFLOW s else s).
Proof.
  intros vs Hen Hses Hse Ht Htg Hr Henc Hk Hok Hb Hf. case_decide as Hrange.
  - destruct (send_message_run fuel s entry en session se (s_out se) k l)
      as (rest & e & cs & Hbytes & Hlen & Hrun); [done..|].
    exists rest, e, cs. split; [done|]. destruct rest as [|v rest]; [done|].
    cbv zeta in Hrun. destruct (decide (e = EAGAIN)); [|done].
    destruct (send_async_run (with_calls e cs s) entry en session se tg t (v :: rest))
      as (n & s' & E1 & E2); [done..| |].
    + fold vs in Hlen. unfold vs in Hlen. rewrite length_take in Hlen. lia.
    + exists n, s'. by rewrite Hrun, E1.
  - unfold send_message. rewrite (obj_get_bnd _ _ _ _ _ en) by done. rewrite Hses.
    rewrite (obj_get_bnd _ _ _ _ _ se), (bnd_done _ _ _ _ _ Henc) by done.
    replace (ENCODE_IOV_MAX <? u32 k)%Z with true.
    2: { symmetry. apply Z.ltb_lt. unfold u32, uw, int_range, ENCODE_IOV_MAX in *.
         destruct (decide (k < 0)%Z) as [Hn|Hp]; [|rewrite Z.mod_small; lia].
         rewrite <- (Z.mod_add k 1), Z.mod_small by lia. lia. }
    unfold put_cerrno.
    destruct (Z.ltb_spec ENCODE_IOV_MAX k).
    + rewrite modify_bnd, decide_True by done. reflexivity.
    + rewrite ret_bnd, decide_False by lia. reflexivity.
Qed.

(** After a reply on a connection whose service was shut down in the meantime: the
    connection stays with the poller, neither closing nor waiting on the list. *)
Lemma sent_all_closed s entry en session sv v t :
  centries s !! entry = Some en → service_ en = Some sv → cservices s !! sv = Some v →
  (listen_fd v < 0)%Z → (∀ s, keep_alive_timeout session s = Done (t, s)) → t ≠ 0%Z →
  ∃ s' r, sent_all (Some entry) (Some session) s = Done (tt, s') ∧
    centries s' !! entry = Some (set_ref_ (i32 (ref_ en + 1)) en) ∧ clinks s' = clinks s ∧
    ccalls s' = (KSetTimeout (sockfd_ en) t (comm_mpoller s), r) :: ccalls s.
Proof.
  intros Hen Hsv Hv Hneg Hk Ht. unfold sent_all. csteps. rewrite Hsv. cbn [nonnull]. csteps.
  simpl as_loc. csteps. set (s1 := set_centries _ s). rewrite (bnd_done _ _ _ _ _ (Hk s1)).
  assert (centries s1 !! entry = Some (set_ref_ (i32 (ref_ en + 1)) en)) as Hen1
    by (simpl; by rewrite lookup_insert_eq).
  rewrite (obj_get_bnd centries sockfd_ _ _ _ _ Hen1), gets_bnd.
  rewrite (proj2 (Z.eqb_neq t 0)) by done. unfold mpoller_set_fd_timeout.
  change (sockfd_ (set_ref_ _ en)) with (sockfd_ en).
  change (comm_mpoller s1) with (comm_mpoller s).
  destruct (ccall_result (KSetTimeout (sockfd_ en) t (comm_mpoller s)) s1) as [r e] eqn:Er.
  rewrite (ccall_bnd _ _ _ _ _ Er). rewrite (obj_get_bnd cservices _ _ _ _ v) by done.
  rewrite (proj2 (Z.leb_gt 0 (listen_fd v))) by done.
  eexists _, r. split; [reflexivity|]. by split_and!.
Qed.
End whole.
