(* ===== verification/CommFrame.v ===== *)
(** Frames: code that leaves alone what one looks at of a state. Each proof about the
    communicator looks at a part of it, and steps over the code that leaves it. *)
From S2P Require Export CommSpec.

Section frame.
Context {O : Type} (obs : commstate → O).

(** Code that changes nothing of [obs]. *)
Definition leaves {A} (m : M commstate A) : Prop :=
  ∀ s a s', m s = Done (a, s') → obs s' = obs s.

Lemma leaves_ret {A} (a : A) : leaves (ret a).
Proof. by intros s b s' [= <- <-]. Qed.
Lemma leaves_bnd {A B} (m : M commstate A) (k : A → M commstate B) :
  leaves m → (∀ a, leaves (k a)) → leaves (bnd m k).
Proof.
  intros Hm Hk s b s' (a & s1 & E1 & E2)%bnd_done_inv. etrans; [by eapply Hk|by eapply Hm].
Qed.
Lemma leaves_gets {A} (f : commstate → A) : leaves (gets f).
Proof. by intros s b s' [= <- <-]. Qed.
Lemma leaves_modify f : (∀ s, obs (f s) = obs s) → leaves (modify f).
Proof. intros H s a s' [= <- <-]. apply H. Qed.
Lemma leaves_ub {A} : leaves (ub : M commstate A).
Proof. done. Qed.
Lemma leaves_nofuel {A} : leaves (nofuel : M commstate A).
Proof. done. Qed.
Lemma leaves_bounded {A} f (m : nat → M commstate A) : (∀ n, leaves (m n)) → leaves (bounded f m).
Proof. intros H s. apply H. Qed.
Lemma leaves_as_loc p : leaves (as_loc p).
Proof. destruct p; [apply leaves_ret|done]. Qed.
Lemma leaves_get {X A} (m : commstate → gmap positive X) (f : X → A) p : leaves (obj_get m f p).
Proof. intros s a s' E. destruct p; simpl in E; [|done]. case_match; by simplify_eq. Qed.

(** What is not looked at may be written. *)
Lemma leaves_clnk {A} (m : M (gmap positive cell) A) :
  (∀ s h, obs (set_clinks h s) = obs s) → leaves (clnk m).
Proof.
  intros H s a s' E. unfold clnk, zoom in E. destruct (m (clinks s)) as [[b h]| | |]; simplify_eq.
  apply H.
Qed.
Lemma leaves_set {X} (m : commstate → gmap positive X) upd f p :
  (∀ s v, obs (upd v s) = obs s) → leaves (obj_set m upd f p).
Proof. intros H s a s' E. destruct p; simpl in E; [|done]. case_match; simplify_eq. apply H. Qed.
Lemma leaves_free {X} (m : commstate → gmap positive X) upd p :
  (∀ s v, obs (upd v s) = obs s) → leaves (obj_free m upd p).
Proof.
  intros H s a s' E. destruct p; simpl in E; [case_match|]; simplify_eq; [apply H|done].
Qed.
Lemma leaves_ccall `{CommEnv} c :
  (∀ s r e, obs (add_ccall c r (set_cerrno e s)) = obs s) → leaves (ccall_ c).
Proof.
  intros H' s a s' E. unfold ccall_ in E. destruct (ccall_result c s). simplify_eq. apply H'.
Qed.
End frame.

(** Quiet by its instructions; [tac] knows the calls. *)
Ltac hush tac :=
  repeat first
    [ progress intros | progress cbv zeta | solve [tac]
    | apply leaves_bnd | apply leaves_ret | apply leaves_gets | apply leaves_as_loc | apply leaves_get
    | apply leaves_ub | apply leaves_nofuel | apply leaves_bounded
    | apply leaves_clnk; done | apply leaves_set; done | apply leaves_free; done
    | apply leaves_modify; done | apply leaves_ccall; done
    | case_match ].

(** Code that returns [v], when it returns. *)
Definition gives {A} (m : M commstate A) (v : A) : Prop := ∀ s a s', m s = Done (a, s') → a = v.
Lemma gives_ret {A} (v : A) : gives (ret v) v.
Proof. by intros s a s' [= <- <-]. Qed.
Lemma gives_bnd {A B} (m : M commstate A) (k : A → M commstate B) v :
  (∀ a, gives (k a) v) → gives (bnd m k) v.
Proof. intros H s b s' (a & s1 & _ & E)%bnd_done_inv. by eapply H. Qed.
Ltac gives_it := repeat first [apply gives_ret | apply gives_bnd; intros | case_match].

(** ** Inverting runs *)

Lemma obj_get_inv {A B} (m : commstate → gmap positive A) (f : A → B) p s x s' :
  obj_get m f p s = Done (x, s') → s' = s ∧ ∃ l y, p = Some l ∧ m s !! l = Some y ∧ x = f y.
Proof. intros E. destruct p as [l|]; simpl in E; [|done]. case_match; simplify_eq. naive_solver. Qed.

Lemma gets_inv {A} (f : commstate → A) s a s' : gets f s = Done (a, s') → a = f s ∧ s' = s.
Proof. by intros [= <- <-]. Qed.

(** Step over the first call of [E]. *)
Ltac take E x s1 E1 := apply bnd_done_inv in E as (x & s1 & E1 & E).
(** Take a branch of the code. *)
Ltac branch H :=
  lazymatch type of H with (if ?c then _ else _) _ = _ => destruct c eqn:? end.
(** The state after a call that leaves [obs], in terms of the state before. *)
Ltac same_obs obs V s0 :=
  repeat match goal with
         | H : context [obs s0] |- _ =>
             lazymatch H with V => fail | _ => rewrite <- V in H end
         end; try rewrite <- V.
Ltac past_with obs tac E1 :=
  let V := fresh "V" in
  match type of E1 with
  | ?m ?s0 = Done (?x, ?s1) =>
      assert (obs s1 = obs s0) as V by (refine ((_ : leaves obs m) s0 x s1 E1); solve [tac]);
      same_obs obs V s0; clear V
  end.
