(* ===== verification/CommHandle.v ===== *)
(** communicator.cc, [handle_incoming_request] to [handle_sleep_result]: what a
    handler thread does with each result of the mpoller.

    This part of the file names what no file defines: [list_add], [list_del] and
    the states of a [SleepSession]. They are parameters ([CommExterns]). Where it
    locks a mutex, the object that holds the mutex must be there. *)
From S2P Require Export Comm.

(** ** Constants *)

Definition CS_STATE_SUCCESS : Z := 0.
Definition CS_STATE_ERROR : Z := 1.
Definition CS_STATE_STOPPED : Z := 2.
Definition CS_STATE_TOREPLY : Z := 3.

(** errno(3) on Linux. *)
Definition EBADMSG : Z := 74.
Definition EOPNOTSUPP : Z := 95.
Definition ECONNRESET : Z := 104.
Definition EINPROGRESS : Z := 115.
Definition ECANCELED : Z := 125.

(** The addresses of the callbacks of [Communicator]. *)
Definition CREATE_REQUEST : ptr := Some 2%positive.
Definition CREATE_REPLY : ptr := Some 3%positive.
Definition ACCEPT : ptr := Some 4%positive.
Definition RECVFROM : ptr := Some 5%positive.
Definition APPEND_MESSAGE : ptr := Some 6%positive.

(** ** Data *)

(** [struct poller_result] *)
Record poller_result : Type := PResult {
  pr_state : Z;
  pr_error : Z;
  pr_data : poller_data;
}.

(** [res->data] made into the argument of the next [mpoller_add]. *)
Definition read_data (create : ptr) (d : poller_data) : poller_data :=
  PData PD_OP_READ (iovcnt d) (fd d) create (context d) (UPtr None).

Definition set_session_ (v : ptr) (e : conn_entry) : conn_entry :=
  ConnEntry (conn_ e) (seq_ e) (sockfd_ e) (state_ e) (error_ e) (ref_ e) (write_iov_ e) v
    (target_ e) (service_ e) (mpoller_ e).
Definition set_seq_ (v : Z) (e : conn_entry) : conn_entry :=
  ConnEntry (conn_ e) v (sockfd_ e) (state_ e) (error_ e) (ref_ e) (write_iov_ e) (session_ e)
    (target_ e) (service_ e) (mpoller_ e).
Definition set_error_ (v : Z) (e : conn_entry) : conn_entry :=
  ConnEntry (conn_ e) (seq_ e) (sockfd_ e) (state_ e) v (ref_ e) (write_iov_ e) (session_ e)
    (target_ e) (service_ e) (mpoller_ e).
Definition set_mpoller_ (v : ptr) (e : conn_entry) : conn_entry :=
  ConnEntry (conn_ e) (seq_ e) (sockfd_ e) (state_ e) (error_ e) (ref_ e) (write_iov_ e)
    (session_ e) (target_ e) (service_ e) v.
Definition set_passive (p : Z) (x : comm_session) : comm_session :=
  CSession (s_target x) (s_conn x) (s_out x) (s_in x) (s_seq x) (begin_time x) (s_timeout x) p.
Definition set_s_target (v : ptr) (x : comm_session) : comm_session :=
  CSession v (s_conn x) (s_out x) (s_in x) (s_seq x) (begin_time x) (s_timeout x) (passive x).
Definition set_s_conn (v : ptr) (q : Z) (x : comm_session) : comm_session :=
  CSession (s_target x) v (s_out x) (s_in x) q (begin_time x) (s_timeout x) (passive x).
Definition set_s_out (v : ptr) (x : comm_session) : comm_session :=
  CSession (s_target x) (s_conn x) v (s_in x) (s_seq x) (begin_time x) (s_timeout x) (passive x).
Definition set_s_in (v : ptr) (x : comm_session) : comm_session :=
  CSession (s_target x) (s_conn x) (s_out x) v (s_seq x) (begin_time x) (s_timeout x) (passive x).

(** ** Parameters *)

(** The names that no file defines. *)
Class CommExterns : Type := {
  list_add : ptr → ptr → M (gmap positive cell) unit;
  list_del : ptr → M (gmap positive cell) unit;
  SS_STATE_COMPLETE : Z;
  SS_STATE_ERROR : Z;
  SS_STATE_DISRUPTED : Z;
}.

(** More of the system: what an object on the stack or fresh from [malloc] holds
    before it is written, the address of [new] and that of the list of a new object; what
    [mpoller_add_timer] leaves in [*timer] and [*index]. *)
Class CommMemory : Type := {
  junk_data : commstate → poller_data;
  junk_entry : commstate → conn_entry;
  junk_links : commstate → cell;
  member_list : commstate → loc;
  new_addr : commstate → loc;
  timer_slot : commstate → ptr * Z;
}.

(** The virtual functions of sessions, targets, services and messages. *)
Class CommCallbacks : Type := {
  handle : loc → Z → Z → M commstate unit;
  message_out : loc → M commstate ptr;
  message_in : loc → M commstate ptr;
  release : loc → M commstate unit;
  create_connect_fd : loc → M commstate Z;
  target_new_connection : loc → Z → M commstate ptr;
  new_session : loc → Z → ptr → M commstate ptr;
  handle_stop : loc → Z → M commstate unit;
  create_listen_fd : loc → M commstate Z;
  service_new_connection : loc → Z → M commstate ptr;
  append : loc → list Z → M commstate (Z * Z);
  inner_feedback : loc → Z → M commstate Z;
  duration : loc → M commstate (Z * timespec);
  sleep_handle : loc → Z → Z → M commstate unit;
}.

Section handlers.
Context `{CommEnv} `{CommMemory} `{CommClient} `{CommExterns} `{CommCallbacks}.

(** ** Shared steps *)

(** Locking or unlocking the mutex of a target, a service or an entry. *)
Definition target_mutex (p : ptr) : M commstate unit :=
  let* _ := tgt_get m_idle_list p in ret tt.
Definition service_mutex (p : ptr) : M commstate unit :=
  let* _ := svc_get alive_list p in ret tt.
Definition entry_mutex (p : ptr) : M commstate unit :=
  let* _ := ent_get state_ p in ret tt.

(** [__sync_add_and_fetch(&entry->ref, 1)], [__sync_sub_and_fetch(&entry->ref, 1)] *)
Definition entry_incref (entry : ptr) : M commstate unit :=
  ent_set (λ e, set_ref_ (i32 (ref_ e + 1)) e) entry.
Definition entry_decref (entry : ptr) : M commstate Z :=
  ent_set (λ e, set_ref_ (i32 (ref_ e - 1)) e) entry ;;;
  ent_get ref_ entry.

(** [session->handle(state, error)]; reading [state] before it is set is undefined
    behaviour. *)
Definition session_handle (session : ptr) (state : option Z) (error : Z) : M commstate unit :=
  let* l := as_loc session in
  match state with
  | None => ub
  | Some state => modify (add_ccall (KHandle l state error) 0) ;;; handle l state error
  end.
(** [target->release()] *)
Definition target_release (target : ptr) : M commstate unit :=
  let* l := as_loc target in
  modify (add_ccall (KRelease l) 0) ;;; release l.
(** [service->handle_stop(error)] *)
Definition service_stopped (service : ptr) (error : Z) : M commstate unit :=
  let* l := as_loc service in
  modify (add_ccall (KHandleStop l error) 0) ;;; handle_stop l error.

(** [mpoller_add(&data, timeout, this->mpoller)] *)
Definition mpoller_add_data (d : poller_data) (timeout : Z) : M commstate Z :=
  let* mp := gets comm_mpoller in ccall_ (KAdd d timeout mp).
(** [mpoller_del(fd, this->mpoller)] *)
Definition mpoller_del_this (fd : Z) : M commstate unit :=
  let* mp := gets comm_mpoller in let* _ := mpoller_del_fd fd mp in ret tt.
(** [if (mpoller_add(...) >= 0) { if (this->stop_flag) mpoller_del(...); break; }]:
    whether it was added. *)
Definition add_unless_stopped (d : poller_data) (timeout : Z) : M commstate bool :=
  let* r := mpoller_add_data d timeout in
  if (0 <=? r)%Z then
    let* stop := gets stop_flag in
    (if negb (stop =? 0)%Z then mpoller_del_this (fd d) else ret tt) ;;;
    ret true
  else ret false.

(** The timeout for the first bytes of a reply. *)
Definition reply_timeout (session : ptr) : M commstate Z :=
  let* l := as_loc session in
  let* timeout := first_timeout_of l in
  if (timeout =? 0)%Z then first_timeout_recv session
  else ses_set (set_times (-1) (TS (-1) 0)) session ;;; ret timeout.

(** The state a session is told when its result is an error, a deletion or a stop;
    the result's error is ECONNRESET when the peer closed. *)
Definition failed_state (st : Z) : option Z :=
  if (st =? PR_ST_FINISHED)%Z || (st =? PR_ST_ERROR)%Z then Some CS_STATE_ERROR
  else if (st =? PR_ST_DELETED)%Z || (st =? PR_ST_STOPPED)%Z then Some CS_STATE_STOPPED
  else None.
Definition failed_error (st error : Z) : Z :=
  if (st =? PR_ST_FINISHED)%Z then ECONNRESET else error.

(** ** Read results *)

(** What the [switch] of the two handlers of incoming messages sets: [entry] and
    [session] (or NULL), [state] and [res->error]. *)
Record incoming : Type := Incoming {
  i_entry : ptr;
  i_session : ptr;
  i_state : option Z;
  i_error : Z;
}.

Definition incoming_request (res : poller_result) (entry target : ptr) : M commstate incoming :=
  let st := pr_state res in
  if (st =? PR_ST_SUCCESS)%Z then
    let* session := ent_get session_ entry in
    target_mutex target ;;;
    let* es := ent_get state_ entry in
    (if (es =? CONN_STATE_SUCCESS)%Z then
       entry_incref entry ;;;
       ent_set (set_state_ CONN_STATE_IDLE) entry ;;;
       let* head := tgt_get m_idle_list target in
       clnk (list_add entry (Some head))
     else ret tt) ;;;
    ses_set (set_passive 2) session ;;;
    target_mutex target ;;;
    ret (Incoming entry session (Some CS_STATE_TOREPLY) (pr_error res))
  else
  match failed_state st with
  | None => ret (Incoming entry None None (pr_error res))
  | Some state =>
    let error := failed_error st (pr_error res) in
    target_mutex target ;;;
    let* es := ent_get state_ entry in
    let* r :=
      (if (es =? CONN_STATE_KEEPALIVE)%Z then
         let* service := ent_get service_ entry in
         service_mutex service ;;;
         let* es := ent_get state_ entry in
         (if (es =? CONN_STATE_KEEPALIVE)%Z then clnk (list_del entry) else ret tt) ;;;
         let* service := ent_get service_ entry in
         service_mutex service ;;;
         ret (Incoming entry None (Some state) error)
       else if (es =? CONN_STATE_IDLE)%Z then
         clnk (list_del entry) ;;;
         ret (Incoming entry None (Some state) error)
       else if (es =? CONN_STATE_ERROR)%Z then
         let* error := ent_get error_ entry in
         let* session := ent_get session_ entry in
         ret (Incoming entry session (Some CS_STATE_ERROR) error)
       else if (es =? CONN_STATE_RECEIVING)%Z then
         let* session := ent_get session_ entry in
         ret (Incoming entry session (Some state) error)
       else if (es =? CONN_STATE_SUCCESS)%Z then
         ent_set (set_state_ CONN_STATE_CLOSING) entry ;;;
         ret (Incoming None None (Some state) error)
       else ret (Incoming entry None (Some state) error)) in
    target_mutex target ;;;
    ret r
  end.

Definition handle_incoming_request (res : poller_result) : M commstate unit :=
  let entry := context (pr_data res) in
  let* target := ent_get target_ entry in
  let* i := incoming_request res entry target in
  if nonnull (i_entry i) then
    (if nonnull (i_session i) then session_handle (i_session i) (i_state i) (i_error i)
     else ret tt) ;;;
    let* n := entry_decref (i_entry i) in
    if (n =? 0)%Z then __release_conn (i_entry i) ;;; target_decref target
    else ret tt
  else ret tt.

Definition incoming_reply (res : poller_result) (entry target : ptr) : M commstate incoming :=
  let st := pr_state res in
  if (st =? PR_ST_SUCCESS)%Z then
    let* session := ent_get session_ entry in
    target_mutex target ;;;
    let* es := ent_get state_ entry in
    (if (es =? CONN_STATE_SUCCESS)%Z then
       entry_incref entry ;;;
       let* t := ses_get s_timeout session in
       if negb (t =? 0)%Z then
         ent_set (set_state_ CONN_STATE_IDLE) entry ;;;
         let* head := tgt_get m_idle_list target in
         clnk (list_add entry (Some head))
       else ent_set (set_state_ CONN_STATE_CLOSING) entry
     else ret tt) ;;;
    target_mutex target ;;;
    ret (Incoming entry session (Some CS_STATE_SUCCESS) (pr_error res))
  else
  match failed_state st with
  | None => ret (Incoming entry None None (pr_error res))
  | Some state =>
    let error := failed_error st (pr_error res) in
    target_mutex target ;;;
    entry_mutex entry ;;;
    let* es := ent_get state_ entry in
    let* r :=
      (if (es =? CONN_STATE_IDLE)%Z then
         clnk (list_del entry) ;;;
         ret (Incoming entry None (Some state) error)
       else if (es =? CONN_STATE_ERROR)%Z then
         let* error := ent_get error_ entry in
         let* session := ent_get session_ entry in
         ret (Incoming entry session (Some CS_STATE_ERROR) error)
       else if (es =? CONN_STATE_RECEIVING)%Z then
         let* session := ent_get session_ entry in
         ret (Incoming entry session (Some state) error)
       else if (es =? CONN_STATE_SUCCESS)%Z then
         ent_set (set_state_ CONN_STATE_CLOSING) entry ;;;
         ret (Incoming None None (Some state) error)
       else ret (Incoming entry None (Some state) error)) in
    target_mutex target ;;;
    entry_mutex entry ;;;
    ret r
  end.

Definition handle_incoming_reply (res : poller_result) : M commstate unit :=
  let entry := context (pr_data res) in
  let* target := ent_get target_ entry in
  let* i := incoming_reply res entry target in
  if nonnull (i_entry i) then
    (if nonnull (i_session i) then
       target_release target ;;;
       session_handle (i_session i) (i_state i) (i_error i)
     else ret tt) ;;;
    let* n := entry_decref (i_entry i) in
    if (n =? 0)%Z then __release_conn (i_entry i) else ret tt
  else ret tt.

Definition handle_read_result (res : poller_result) : M commstate unit :=
  let entry := context (pr_data res) in
  if negb (pr_state res =? PR_ST_MODIFIED)%Z then
    let* service := ent_get service_ entry in
    if nonnull service then handle_incoming_request res else handle_incoming_reply res
  else ret tt.

(** ** Write results *)

(** Wait for the next request on the connection of a reply that was sent. *)
Definition keep_alive (res : poller_result) (entry service target : ptr) (timeout : Z) :
    M commstate unit :=
  entry_incref entry ;;;
  let d := read_data CREATE_REQUEST (pr_data res) in
  target_mutex target ;;;
  let* r := mpoller_add_data d timeout in
  (if (0 <=? r)%Z then
     service_mutex service ;;;
     let* stop := gets stop_flag in
     let* lfd := svc_get listen_fd service in
     (if (stop =? 0)%Z && (0 <=? lfd)%Z then
        ent_set (set_state_ CONN_STATE_KEEPALIVE) entry ;;;
        let* head := svc_get alive_list service in
        clnk (list_add_tail entry (Some head))
      else
        mpoller_del_this (fd d) ;;;
        ent_set (set_state_ CONN_STATE_CLOSING) entry) ;;;
     service_mutex service
   else let* _ := entry_decref entry in ret tt) ;;;
  target_mutex target.

(** The end of [handle_reply_result]. *)
Definition replied (entry session target : ptr) (state error : Z) : M commstate unit :=
  session_handle session (Some state) error ;;;
  let* n := entry_decref entry in
  if (n =? 0)%Z then __release_conn entry ;;; target_decref target else ret tt.

Definition handle_reply_result (res : poller_result) : M commstate unit :=
  let entry := context (pr_data res) in
  let* service := ent_get service_ entry in
  let* session := ent_get session_ entry in
  let* target := ent_get target_ entry in
  let st := pr_state res in
  if (st =? PR_ST_FINISHED)%Z then
    let* l := as_loc session in
    let* timeout := keep_alive_timeout l in
    (if negb (timeout =? 0)%Z then keep_alive res entry service target timeout else ret tt) ;;;
    replied entry session target CS_STATE_SUCCESS (pr_error res)
  else
  match failed_state st with
  | Some state => replied entry session target state (pr_error res)
  | None => ret tt
  end.

(** The end of [handle_request_result]. *)
Definition request_failed (entry session : ptr) (state error : Z) : M commstate unit :=
  let* target := ent_get target_ entry in
  target_release target ;;;
  session_handle session (Some state) error ;;;
  entry_mutex entry ;;;
  entry_mutex entry ;;;
  let* n := entry_decref entry in
  if (n =? 0)%Z then __release_conn entry else ret tt.

Definition handle_request_result (res : poller_result) : M commstate unit :=
  let entry := context (pr_data res) in
  let* session := ent_get session_ entry in
  let st := pr_state res in
  if (st =? PR_ST_FINISHED)%Z then
    ent_set (set_state_ CONN_STATE_RECEIVING) entry ;;;
    let* timeout := reply_timeout session in
    let* added := add_unless_stopped (read_data CREATE_REPLY (pr_data res)) timeout in
    if added : bool then ret tt else
    let* e := get_cerrno in
    request_failed entry session CS_STATE_ERROR e
  else
  match failed_state st with
  | Some state => request_failed entry session state (pr_error res)
  | None => ret tt
  end.

Definition handle_write_result (res : poller_result) : M commstate unit :=
  let entry := context (pr_data res) in
  let* w := ent_get write_iov_ entry in
  obj_free ciovs set_ciovs w ;;;
  let* service := ent_get service_ entry in
  if nonnull service then handle_reply_result res else handle_request_result res.

(** ** New connections *)

(** [malloc] of an entry, with its list member. *)
Definition new_entry : M commstate ptr := λ s,
  match cmalloc s with
  | Some l => Done (Some l, set_centries (<[l := junk_entry s]> (centries s))
                             (set_clinks (<[l := junk_links s]> (clinks s)) s))
  | None => Done (None, s)
  end.
(** [free(entry)] *)
Definition free_entry (entry : ptr) : M commstate unit :=
  obj_free centries set_centries entry ;;;
  obj_free clinks set_clinks entry.

Definition accept_conn (target service : ptr) : M commstate ptr :=
  let* fd := tgt_get t_sockfd target in
  let* r := __set_fd_nonblock fd in
  if (0 <=? r)%Z then
    let* entry := new_entry in
    if nonnull entry then
      let* l := as_loc service in
      let* fd := tgt_get t_sockfd target in
      let* conn := service_new_connection l fd in
      if nonnull conn then
        let* fd := tgt_get t_sockfd target in
        ent_set (λ e, ConnEntry conn 0 fd CONN_STATE_CONNECTED (error_ e) 1 (write_iov_ e)
                        (session_ e) target service None) entry ;;;
        ret entry
      else
        free_entry entry ;;;
        ret None
    else ret None
  else ret None.

(** The end of [handle_connect_result]. *)
Definition connect_failed (entry session target : ptr) (state error : Z) : M commstate unit :=
  target_release target ;;;
  session_handle session (Some state) error ;;;
  __release_conn entry.

Definition handle_connect_result (fuel : nat) (res : poller_result) : M commstate unit :=
  let entry := context (pr_data res) in
  let* session := ent_get session_ entry in
  let* target := ent_get target_ entry in
  let st := pr_state res in
  if (st =? PR_ST_FINISHED)%Z then
    let* l := as_loc session in
    let* out := message_out l in
    ses_set (set_s_out out) session ;;;
    let* break :=
      (if nonnull out then
         let* r := send_message fuel entry in
         if (r =? 0)%Z then
           let* timeout := reply_timeout session in
           add_unless_stopped (read_data CREATE_REPLY (pr_data res)) timeout
         else ret (0 <? r)%Z
       else ret false) in
    if break : bool then ret tt else
    let* e := get_cerrno in
    connect_failed entry session target CS_STATE_ERROR e
  else
  match failed_state st with
  | Some state => connect_failed entry session target state (pr_error res)
  | None => ret tt
  end.

(** [res->data.result] *)
Definition result_ptr (d : poller_data) : ptr :=
  match arg d with UPtr p => p | UIov _ _ => None end.

(** The results of a service that is not [PR_ST_SUCCESS]. *)
Definition service_result (res : poller_result) : M commstate unit :=
  let service := context (pr_data res) in
  let st := pr_state res in
  if (st =? PR_ST_DELETED)%Z then shutdown_service service
  else if (st =? PR_ST_ERROR)%Z || (st =? PR_ST_STOPPED)%Z then
    service_stopped service (pr_error res)
  else ret tt.

Definition handle_listen_result (res : poller_result) : M commstate unit :=
  let service := context (pr_data res) in
  if (pr_state res =? PR_ST_SUCCESS)%Z then
    let target := result_ptr (pr_data res) in
    let* entry := accept_conn target service in
    let* break :=
      (if nonnull entry then
         let* mp := gets comm_mpoller in
         ent_set (set_mpoller_ mp) entry ;;;
         let* fd := ent_get sockfd_ entry in
         let d := PData PD_OP_READ (iovcnt (pr_data res)) fd CREATE_REQUEST entry (UPtr None) in
         let* timeout := tgt_get m_response_timeout target in
         let* added := add_unless_stopped d timeout in
         if added : bool then ret true
         else __release_conn entry ;;; ret false
       else
         let* fd := tgt_get t_sockfd target in
         close_fd fd ;;;
         ret false) in
    if break : bool then ret tt else target_decref target
  else service_result res.

Definition handle_recvfrom_result (res : poller_result) : M commstate unit :=
  if (pr_state res =? PR_ST_SUCCESS)%Z then
    let entry := result_ptr (pr_data res) in
    let* target := ent_get target_ entry in
    let* es := ent_get state_ entry in
    let* (state, error) :=
      (if (es =? CONN_STATE_SUCCESS)%Z then
         ent_set (set_state_ CONN_STATE_IDLE) entry ;;;
         let* head := tgt_get m_idle_list target in
         clnk (list_add entry (Some head)) ;;;
         ret (CS_STATE_TOREPLY, 0)%Z
       else if (es =? CONN_STATE_ERROR)%Z then
         let* error := ent_get error_ entry in
         ret (CS_STATE_ERROR, error)
       else ret (CS_STATE_ERROR, EBADMSG)) in
    let* session := ent_get session_ entry in
    session_handle session (Some state) error ;;;
    if (state =? CS_STATE_ERROR)%Z then __release_conn entry ;;; target_decref target
    else ret tt
  else service_result res.

(** ** Sleeping *)

Definition sleep_state (st : Z) : option Z :=
  if (st =? PR_ST_FINISHED)%Z then Some SS_STATE_COMPLETE
  else if (st =? PR_ST_DELETED)%Z || (st =? PR_ST_ERROR)%Z then Some SS_STATE_ERROR
  else if (st =? PR_ST_STOPPED)%Z then Some SS_STATE_DISRUPTED
  else None.

Definition handle_sleep_result (res : poller_result) : M commstate unit :=
  let error := if (pr_state res =? PR_ST_DELETED)%Z then ECANCELED else pr_error res in
  let* l := as_loc (context (pr_data res)) in
  match sleep_state (pr_state res) with
  | None => ub
  | Some state =>
    modify (add_ccall (KSleepHandle l state error) 0) ;;;
    sleep_handle l state error
  end.
End handlers.
