(* ===== verification/CommMessage.v ===== *)
(** communicator.cc, [append_message] to [recvfrom]: the callbacks of the poller
    threads, which make messages, connections and targets. *)
From S2P Require Export CommHandle.

Abbreviation msg_get := (obj_get cmsgs) (only parsing).
Abbreviation msg_set := (obj_set cmsgs set_cmsgs) (only parsing).

Section messages.
Context `{CommEnv} `{CommMemory} `{CommClient} `{CommExterns} `{CommCallbacks}.

(** ** Receiving *)

(** The timeout of the next bytes of a message that is not complete. *)
Definition receiving_timeout (session : ptr) : M commstate Z :=
  let* b := ses_get begin_time session in
  if (tv_sec b <? 0)%Z then
    let* timeout :=
      (if (tv_nsec b <? 0)%Z then let* l := as_loc session in first_timeout_of l
       else ret 0%Z) in
    if (timeout =? 0)%Z then first_timeout_recv session
    else
      ses_set (λ x, set_times (s_timeout x) (TS (tv_sec (begin_time x)) 0) x) session ;;;
      ret timeout
  else next_timeout session.

(** The result, and what [*size] is set to. *)
Definition append_message (buf : list Z) (msg : ptr) : M commstate (Z * Z) :=
  let* entry := msg_get in_entry msg in
  let* session := ent_get session_ entry in
  let* l := as_loc msg in
  let* (r, n) := append l buf in
  let set_timeout (timeout : Z) : M commstate (Z * Z) :=
    let* fd := ent_get sockfd_ entry in
    let* mp := ent_get mpoller_ entry in
    let* _ := mpoller_set_fd_timeout fd timeout mp in
    ret (r, n) in
  if (0 <? r)%Z then
    ent_set (set_state_ CONN_STATE_SUCCESS) entry ;;;
    let* service := ent_get service_ entry in
    if negb (nonnull service) then
      let* l := as_loc session in
      let* timeout := keep_alive_timeout l in
      ses_set (set_s_timeout timeout) session ;;;
      if (timeout =? 0)%Z then
        let* fd := ent_get sockfd_ entry in
        let* mp := ent_get mpoller_ entry in
        let* _ := mpoller_del_fd fd mp in
        ret (r, n)
      else set_timeout timeout
    else set_timeout (-1)%Z
  else if (r =? 0)%Z then
    let* t := ses_get s_timeout session in
    if negb (t =? 0)%Z then
      let* timeout := receiving_timeout session in
      set_timeout timeout
    else ret (r, n)
  else ret (r, n).

(** [session->message_in()] made the message of the session. *)
Definition message_of (session entry : ptr) (append : bool) : M commstate ptr :=
  let* l := as_loc session in
  let* inp := message_in l in
  (if nonnull inp then
     msg_set (λ m, CIn (if append then APPEND_MESSAGE else in_append m) entry) inp ;;;
     ses_set (set_s_in inp) session
   else ret tt) ;;;
  ret inp.

(** The session of an incoming request, and its fields. *)
Definition begin_session (entry service target : ptr) : M commstate ptr :=
  let* seq := ent_get seq_ entry in
  let* conn := ent_get conn_ entry in
  let* l := as_loc service in
  let* session := new_session l seq conn in
  if negb (nonnull session) then ret None else
  ses_set (set_passive 1) session ;;;
  ent_set (set_session_ session) entry ;;;
  ses_set (set_s_target target) session ;;;
  let* conn := ent_get conn_ entry in
  let* seq := ent_get seq_ entry in
  ses_set (set_s_conn conn seq) session ;;;
  ent_set (set_seq_ (i64 (seq + 1))) entry ;;;
  ses_set (set_s_out None) session ;;;
  ses_set (set_s_in None) session ;;;
  ret session.

(** Whether a request may begin: the connection is taken off the list of idle ones. *)
Definition take_alive (entry service target : ptr) : M commstate bool :=
  let* es := ent_get state_ entry in
  (if (es =? CONN_STATE_IDLE)%Z then target_mutex target ;;; target_mutex target
   else ret tt) ;;;
  service_mutex service ;;;
  let* es := ent_get state_ entry in
  let* ok :=
    (if (es =? CONN_STATE_KEEPALIVE)%Z then clnk (list_del entry) ;;; ret true
     else ret (es =? CONN_STATE_CONNECTED)%Z) in
  service_mutex service ;;;
  ret ok.

Definition create_request (entry : ptr) : M commstate ptr :=
  let* service := ent_get service_ entry in
  let* target := ent_get target_ entry in
  let* ok := take_alive entry service target in
  if negb ok then put_cerrno EBADMSG ;;; ret None else
  let* session := begin_session entry service target in
  if negb (nonnull session) then ret None else
  let* timeout := first_timeout_recv session in
  let* fd := ent_get sockfd_ entry in
  let* mp := ent_get mpoller_ entry in
  let* _ := mpoller_set_fd_timeout fd timeout mp in
  ent_set (set_state_ CONN_STATE_RECEIVING) entry ;;;
  target_incref target ;;;
  message_of session entry true.

Definition create_reply (entry : ptr) : M commstate ptr :=
  let* es := ent_get state_ entry in
  (if (es =? CONN_STATE_IDLE)%Z then entry_mutex entry ;;; entry_mutex entry
   else ret tt) ;;;
  let* es := ent_get state_ entry in
  if negb (es =? CONN_STATE_RECEIVING)%Z then put_cerrno EBADMSG ;;; ret None else
  let* session := ent_get session_ entry in
  message_of session entry true.

(** The [do]-loop over a datagram: [append] is handed what is left of it and takes
    [n] bytes; more than that is outside the buffer. *)
Fixpoint recv_loop (fuel : nat) (msg : loc) (entry : ptr) (buf : list Z) : M commstate unit :=
  match fuel with
  | O => nofuel
  | S fuel =>
    let* (r, n) := append msg buf in
    if (r =? 0)%Z then
      if (0 <=? n)%Z && (n <=? Z.of_nat (length buf))%Z then
        let buf := drop (Z.to_nat n) buf in
        if (0 <? Z.of_nat (length buf))%Z then recv_loop fuel msg entry buf else ret tt
      else ub
    else if (r <? 0)%Z then
      let* e := get_cerrno in
      ent_set (set_error_ e) entry ;;;
      ent_set (set_state_ CONN_STATE_ERROR) entry
    else ent_set (set_state_ CONN_STATE_SUCCESS) entry
  end.

Definition recv_request (fuel : nat) (buf : list Z) (entry : ptr) : M commstate Z :=
  let* service := ent_get service_ entry in
  let* target := ent_get target_ entry in
  let* session := begin_session entry service target in
  if negb (nonnull session) then ret (-1)%Z else
  ent_set (set_state_ CONN_STATE_RECEIVING) entry ;;;
  target_incref target ;;;
  let* inp := message_of session entry false in
  match inp with
  | Some msg => recv_loop fuel msg entry buf ;;; ret 0%Z
  | None => ret 0%Z
  end.

Definition partial_written (n : Z) (entry : ptr) : M commstate Z :=
  let* session := ent_get session_ entry in
  let* timeout := next_timeout session in
  let* fd := ent_get sockfd_ entry in
  let* mp := ent_get mpoller_ entry in
  let* _ := mpoller_set_fd_timeout fd timeout mp in
  ret 0%Z.

(** ** New targets *)

(** [new CommServiceTarget]: [new] does not fail. *)
Definition new_target : M commstate ptr := λ s,
  let l := new_addr s in
  Done (Some l, set_ctargets (<[l := CTarget None 0 0 0 (member_list s) 0 0 None]> (ctargets s))
                  (set_clinks (<[member_list s := junk_links s]> (clinks s)) s)).

(** [service->incref(); target->service = service; target->sockfd = sockfd;
    target->ref = 1;] *)
Definition adopt (target service : ptr) (sockfd : Z) : M commstate unit :=
  service_incref service ;;;
  tgt_set (λ t, CTarget (m_addr t) (m_addrlen t) (m_connect_timeout t) (m_response_timeout t)
                  (m_idle_list t) sockfd 1 service) target.

Definition accept (addr : list Z) (len sockfd : Z) (service : ptr) : M commstate ptr :=
  let* target := new_target in
  let* ok :=
    (if nonnull target then
       let* rt := svc_get response_timeout service in
       let* r := target_init target addr len 0 rt in
       if (0 <=? r)%Z then adopt target service sockfd ;;; ret true
       else obj_free ctargets set_ctargets target ;;; ret false
     else ret false) in
  if ok : bool then ret target else close_fd sockfd ;;; ret None.

Definition recvfrom (fuel : nat) (addr : list Z) (len : Z) (buf : list Z) (service : ptr) :
    M commstate ptr :=
  let* lfd := svc_get listen_fd service in
  let* sockfd := ccall_ (KDup lfd) in
  if (0 <=? sockfd)%Z then
    let* target := accept addr len sockfd service in
    if nonnull target then
      let* entry := accept_conn target service in
      let* done :=
        (if nonnull entry then
           let* r := recv_request fuel buf entry in
           if (0 <=? r)%Z then ret true else __release_conn entry ;;; ret false
         else close_fd sockfd ;;; ret false) in
      if done : bool then ret entry
      else target_decref target ;;; ret None
    else ret None
  else ret None.
End messages.
