(* ===== verification/CommRequest.v ===== *)
(** communicator.cc, [nonblock_connect] to [unsleep]: the interface of a
    [Communicator] but for its creation and the I/O services. *)
From S2P Require Export CommMessage.

Section interface.
Context `{CommEnv} `{CommMemory} `{CommClient} `{CommExterns} `{CommCallbacks}.

(** ** Requests *)

Definition nonblock_connect (target : ptr) : M commstate Z :=
  let* l := as_loc target in
  let* sockfd := create_connect_fd l in
  if (0 <=? sockfd)%Z then
    let* r := __set_fd_nonblock sockfd in
    let* ok :=
      (if (0 <=? r)%Z then
         let* addr := tgt_get m_addr target in
         let* len := tgt_get m_addrlen target in
         let* r := ccall_ (KConnect sockfd addr len) in
         let* e := get_cerrno in
         ret ((0 <=? r)%Z || (e =? EINPROGRESS)%Z)
       else ret false) in
    if ok : bool then ret sockfd else close_fd sockfd ;;; ret (-1)%Z
  else ret (-1)%Z.

Definition launch_conn (session target : ptr) : M commstate ptr :=
  let* sockfd := nonblock_connect target in
  if (0 <=? sockfd)%Z then
    let* entry := new_entry in
    let* made :=
      (if nonnull entry then
         let* r := ccall_ (KMutexInit entry) in
         let* ok :=
           (if (r =? 0)%Z then
              let* l := as_loc target in
              let* conn := target_new_connection l sockfd in
              if nonnull conn then
                ent_set (λ e, ConnEntry conn 0 sockfd CONN_STATE_CONNECTING (error_ e) 1
                                (write_iov_ e) session target None None) entry ;;;
                ret true
              else ret false
            else put_cerrno r ;;; ret false) in
         (if ok : bool then ret tt else free_entry entry) ;;;
         ret ok
       else ret false) in
    if made : bool then ret entry else close_fd sockfd ;;; ret None
  else ret None.

(** The [while (1)]: an idle connection that the mpoller still has, or NULL. *)
Fixpoint idle_loop (fuel : nat) (target : ptr) : M commstate ptr :=
  match fuel with
  | O => nofuel
  | S fuel =>
    target_mutex target ;;;
    let* head := tgt_get m_idle_list target in
    let* empty := clnk (list_empty (Some head)) in
    let* entry :=
      (if negb empty then
         let* pos := clnk (ld next (Some head)) in
         clnk (list_del pos) ;;;
         entry_mutex pos ;;;
         ret pos
       else ret None) in
    target_mutex target ;;;
    if negb (nonnull entry) then put_cerrno ENOENT ;;; ret None else
    let* fd := ent_get sockfd_ entry in
    let* mp := gets comm_mpoller in
    let* r := mpoller_set_fd_timeout fd (-1) mp in
    if (0 <=? r)%Z then ret entry
    else
      ent_set (set_state_ CONN_STATE_CLOSING) entry ;;;
      entry_mutex entry ;;;
      idle_loop fuel target
  end.

(** [session->out = session->message_out(); if (session->out) ret =
    this->send_message(entry);] *)
Definition send_out (fuel : nat) (session entry : ptr) : M commstate Z :=
  let* l := as_loc session in
  let* out := message_out l in
  ses_set (set_s_out out) session ;;;
  if nonnull out then send_message fuel entry else ret (-1)%Z.

(** [if (ret < 0) { entry->error = errno; ...; ret = 1; }] *)
Definition sent_or_broken (r : Z) (entry : ptr) : M commstate Z :=
  if (r <? 0)%Z then
    let* e := get_cerrno in
    ent_set (set_error_ e) entry ;;;
    let* fd := ent_get sockfd_ entry in
    mpoller_del_this fd ;;;
    ent_set (set_state_ CONN_STATE_ERROR) entry ;;;
    ret 1%Z
  else ret r.

(** [session->conn = entry->conn; session->seq = entry->seq++;] *)
Definition join_conn (session entry : ptr) : M commstate unit :=
  let* conn := ent_get conn_ entry in
  let* seq := ent_get seq_ entry in
  ses_set (set_s_conn conn seq) session ;;;
  ent_set (set_seq_ (i64 (seq + 1))) entry.

Definition request_idle_conn (fuel : nat) (session target : ptr) : M commstate Z :=
  let* entry := bounded (λ s, S (size (clinks s))) (λ n, idle_loop n target) in
  if negb (nonnull entry) then ret (-1)%Z else
  ent_set (set_session_ session) entry ;;;
  join_conn session entry ;;;
  let* r := send_out fuel session entry in
  let* r := sent_or_broken r entry in
  entry_mutex entry ;;;
  ret r.

Definition request_new_conn (session target : ptr) : M commstate Z :=
  let* entry := launch_conn session target in
  if nonnull entry then
    let* mp := gets comm_mpoller in
    ent_set (set_mpoller_ mp) entry ;;;
    join_conn session entry ;;;
    let* junk := gets junk_data in
    let* fd := ent_get sockfd_ entry in
    let data := PData PD_OP_CONNECT (iovcnt junk) fd (func junk) entry (arg junk) in
    let* t := ses_get s_target session in
    let* timeout := tgt_get m_connect_timeout t in
    let* r := mpoller_add_data data timeout in
    if (0 <=? r)%Z then ret 0%Z
    else __release_conn entry ;;; ret (-1)%Z
  else ret (-1)%Z.

Definition request (fuel : nat) (session target : ptr) : M commstate Z :=
  let* p := ses_get passive session in
  if negb (p =? 0)%Z then put_cerrno EINVAL ;;; ret (-1)%Z else
  let* errno_bak := get_cerrno in
  ses_set (set_s_target target) session ;;;
  ses_set (set_s_out None) session ;;;
  ses_set (set_s_in None) session ;;;
  let* r := request_idle_conn fuel session target in
  let* r := (if (r <? 0)%Z then request_new_conn session target else ret 0%Z) in
  if (r <? 0)%Z then
    ses_set (set_s_conn None 0) session ;;;
    ret (-1)%Z
  else put_cerrno errno_bak ;;; ret 0%Z.

(** ** Services *)

Definition nonblock_listen (service : ptr) : M commstate Z :=
  let* l := as_loc service in
  let* sockfd := create_listen_fd l in
  if (0 <=? sockfd)%Z then
    let* r := __set_fd_nonblock sockfd in
    let* ok :=
      (if (0 <=? r)%Z then
         let* addr := svc_get bind_addr service in
         let* len := svc_get addrlen service in
         let* r := __bind_sockaddr sockfd addr len in
         if (0 <=? r)%Z then
           let* r := ccall_ (KListen sockfd) in
           let* e := get_cerrno in
           if (0 <=? r)%Z || (e =? EOPNOTSUPP)%Z then
             svc_set (λ v, CService (bind_addr v) (addrlen v) (listen_timeout v)
                             (response_timeout v) (b2z (0 <=? r)%Z) (listen_fd v) (sref v)
                             (alive_list v)) service ;;;
             ret true
           else ret false
         else ret false
       else ret false) in
    if ok : bool then ret sockfd else close_fd sockfd ;;; ret (-1)%Z
  else ret (-1)%Z.

Definition bind (service : ptr) : M commstate Z :=
  let* errno_bak := get_cerrno in
  let* sockfd := nonblock_listen service in
  if (0 <=? sockfd)%Z then
    svc_set (set_listen_fd sockfd) service ;;;
    svc_set (set_sref 1) service ;;;
    let* rel := svc_get reliable service in
    let* junk := gets junk_data in
    let data :=
      if negb (rel =? 0)%Z
      then PData PD_OP_LISTEN (iovcnt junk) sockfd ACCEPT service (UPtr None)
      else PData PD_OP_RECVFROM (iovcnt junk) sockfd RECVFROM service (UPtr None) in
    let* lt := svc_get listen_timeout service in
    let* r := mpoller_add_data data lt in
    if (0 <=? r)%Z then put_cerrno errno_bak ;;; ret 0%Z
    else close_fd sockfd ;;; ret (-1)%Z
  else ret (-1)%Z.

Definition unbind (service : ptr) : M commstate unit :=
  let* errno_bak := get_cerrno in
  let* fd := svc_get listen_fd service in
  let* mp := gets comm_mpoller in
  let* r := mpoller_del_fd fd mp in
  if (r <? 0)%Z then shutdown_service service ;;; put_cerrno errno_bak
  else ret tt.

(** ** Replies *)

Definition reply_reliable (fuel : nat) (session target : ptr) : M commstate Z :=
  target_mutex target ;;;
  let* head := tgt_get m_idle_list target in
  let* empty := clnk (list_empty (Some head)) in
  let* r :=
    (if negb empty then
       let* entry := clnk (ld next (Some head)) in
       clnk (list_del entry) ;;;
       let* r := send_out fuel session entry in
       sent_or_broken r entry
     else put_cerrno ENOENT ;;; ret (-1)%Z) in
  target_mutex target ;;;
  ret r.

Definition reply_message_unreliable (entry : ptr) : M commstate Z :=
  let* session := ent_get session_ entry in
  let* out := ses_get s_out session in
  let* (cnt, vectors) := encode out ENCODE_IOV_MAX in
  if (ENCODE_IOV_MAX <? u32 cnt)%Z then
    (if (ENCODE_IOV_MAX <? cnt)%Z then put_cerrno EOVERFLOW else ret tt) ;;;
    ret (-1)%Z
  else if (0 <? cnt)%Z then
    let* target := ent_get target_ entry in
    let* addr := tgt_get m_addr target in
    let* len := tgt_get m_addrlen target in
    let* fd := ent_get sockfd_ entry in
    let* r := ccall_ (KSendmsg fd addr len (take (Z.to_nat cnt) vectors)) in
    if (r <? 0)%Z then ret (-1)%Z else ret 0%Z
  else ret 0%Z.

Definition reply_unreliable (session target : ptr) : M commstate Z :=
  let* head := tgt_get m_idle_list target in
  let* empty := clnk (list_empty (Some head)) in
  if negb empty then
    let* entry := clnk (ld next (Some head)) in
    clnk (list_del entry) ;;;
    let* l := as_loc session in
    let* out := message_out l in
    ses_set (set_s_out out) session ;;;
    let* sent :=
      (if nonnull out then
         let* r := reply_message_unreliable entry in ret (0 <=? r)%Z
       else ret false) in
    if sent : bool then ret 0%Z
    else
      __release_conn entry ;;;
      target_decref target ;;;
      ret (-1)%Z
  else put_cerrno ENOENT ;;; ret (-1)%Z.

Definition reply (fuel : nat) (session : ptr) : M commstate Z :=
  let* p := ses_get passive session in
  if negb (p =? 2)%Z then put_cerrno EINVAL ;;; ret (-1)%Z else
  let* errno_bak := get_cerrno in
  ses_set (set_passive 3) session ;;;
  let* target := ses_get s_target session in
  let* service := tgt_get t_service target in
  let* rel := svc_get reliable service in
  let* r :=
    (if negb (rel =? 0)%Z then reply_reliable fuel session target
     else reply_unreliable session target) in
  if (r <? 0)%Z then ret (-1)%Z else
  (if (r =? 0)%Z then
     let* inp := ses_get s_in session in
     let* entry := msg_get in_entry inp in
     session_handle session (Some CS_STATE_SUCCESS) 0 ;;;
     let* n := entry_decref entry in
     if (n =? 0)%Z then __release_conn entry ;;; target_decref target else ret tt
   else ret tt) ;;;
  put_cerrno errno_bak ;;;
  ret 0%Z.

(** Whether the connection of the session can still be written to. *)
Definition can_push (session inp : ptr) : M commstate bool :=
  let* p := ses_get passive session in
  if (p =? 2)%Z then
    let* target := ses_get s_target session in
    let* head := tgt_get m_idle_list target in
    let* empty := clnk (list_empty (Some head)) in
    ret (negb empty)
  else if (p =? 0)%Z then
    let* entry := msg_get in_entry inp in
    let* x := ent_get session_ entry in
    ret (bool_decide (x = session))
  else ret (p =? 1)%Z.

Definition push (size : Z) (session : ptr) : M commstate Z :=
  let* inp := ses_get s_in session in
  match inp with
  | None => put_cerrno ENOENT ;;; ret (-1)%Z
  | Some msg =>
    let* p := ses_get passive session in
    let* owner :=
      (if negb (p =? 0)%Z then ses_get s_target session else msg_get in_entry inp) in
    let mutex := if negb (p =? 0)%Z then target_mutex owner else entry_mutex owner in
    mutex ;;;
    let* ok := can_push session inp in
    let* r :=
      (if ok : bool then inner_feedback msg size
       else put_cerrno ENOENT ;;; ret (-1)%Z) in
    mutex ;;;
    ret r
  end.

Definition shutdown (session : ptr) : M commstate Z :=
  let* p := ses_get passive session in
  if negb (p =? 2)%Z then put_cerrno EINVAL ;;; ret (-1)%Z else
  ses_set (set_passive 3) session ;;;
  let* target := ses_get s_target session in
  let* r := target_shutdown target in
  if (r =? 0)%Z then put_cerrno ENOENT ;;; ret (-1)%Z
  else ret 0%Z.

(** ** Sleeping *)

Abbreviation slp_get := (obj_get csleeps) (only parsing).
Abbreviation slp_set := (obj_set csleeps set_csleeps) (only parsing).

Definition sleep (session : ptr) : M commstate Z :=
  let* l := as_loc session in
  let* (r, value) := duration l in
  if (0 <=? r)%Z then
    let* mp := gets comm_mpoller in
    let* r := ccall_ (KAddTimer value session mp) in
    let* (timer, index) := gets timer_slot in
    slp_set (λ _, CSleep timer index) session ;;;
    if (0 <=? r)%Z then ret 0%Z else ret (-1)%Z
  else ret (-1)%Z.

Definition unsleep (session : ptr) : M commstate Z :=
  let* timer := slp_get sl_timer session in
  let* index := slp_get sl_index session in
  let* mp := gets comm_mpoller in
  ccall_ (KDelTimer timer index mp).
End interface.
