(* ===== verification/Communicator.v ===== *)
(** communicator.cc, the whole [Communicator]: its message queue, thread pool,
    mpoller and I/O services; [handle_aio_result], the thread that handles results,
    [init], [deinit] and what remains of the interface. *)
From S2P Require Import Mpoller IoService ThrdPool.
From S2P Require Export CommRequest.

(** ** Data *)

(** What a communicator works on: the connections ([commstate], with errno and
    [stop_flag]), the I/O services by address, the message queue, the results that
    are allocated, by address, the thread pool, whether [this->thrdpool] is not
    NULL, and the mpoller. *)
Record communicator : Type := Communicator {
  conns : commstate;
  ioservices : gmap positive iostate;
  rqueue : mqstate;
  results : gmap Z poller_result;
  tpool : tpstate;
  has_pool : bool;
  mpollers : Mpoller.mpoller;
}.

Definition set_conns (v : commstate) (s : communicator) : communicator :=
  Communicator v (ioservices s) (rqueue s) (results s) (tpool s) (has_pool s) (mpollers s).
Definition set_ioservices (v : gmap positive iostate) (s : communicator) : communicator :=
  Communicator (conns s) v (rqueue s) (results s) (tpool s) (has_pool s) (mpollers s).
Definition set_rqueue (v : mqstate) (s : communicator) : communicator :=
  Communicator (conns s) (ioservices s) v (results s) (tpool s) (has_pool s) (mpollers s).
Definition set_results (v : gmap Z poller_result) (s : communicator) : communicator :=
  Communicator (conns s) (ioservices s) (rqueue s) v (tpool s) (has_pool s) (mpollers s).
Definition set_tpool (v : tpstate) (s : communicator) : communicator :=
  Communicator (conns s) (ioservices s) (rqueue s) (results s) v (has_pool s) (mpollers s).
Definition set_has_pool (v : bool) (s : communicator) : communicator :=
  Communicator (conns s) (ioservices s) (rqueue s) (results s) (tpool s) v (mpollers s).
Definition set_mpollers (v : Mpoller.mpoller) (s : communicator) : communicator :=
  Communicator (conns s) (ioservices s) (rqueue s) (results s) (tpool s) (has_pool s) v.

(** [sizeof(struct poller_result)], the offset of a result's link word. *)
Definition sizeof_poller_result : Z := 40.
Definition AIO_FINISH : ptr := Some 7%positive.
(** The address of [Communicator::handler_thread_routine]. *)
Definition HANDLER_ROUTINE : Z := 2.

(** sysconf, and [malloc] of a queue and of a result. *)
Class SysEnv : Type := {
  sysconf_open_max : communicator → Z;
  malloc_rqueue : communicator → option Z;
  malloc_result : communicator → option Z;
}.
(** The virtual functions of an [IOService]. *)
Class IOServices : Type := {
  create_event_fd : loc → M communicator Z;
  io_handle_stop : loc → Z → M communicator unit;
}.

Section communicator.
Context `{CommEnv} `{CommMemory} `{CommClient} `{CommExterns} `{CommCallbacks}.
Context `{IOKernel} `{IOClient} `{ThreadEnv} `{TaskClient}.
Context `{Env} `{Poller : Client} `{MEnv} `{SysEnv} `{IOServices}.
(** The thread that runs. *)
Context (me : nat).

(** ** Instructions *)

Definition oncs {A} (m : M commstate A) : M communicator A := zoom conns set_conns m.
Definition onrq {A} (m : M mqstate A) : M communicator A := zoom rqueue set_rqueue m.
Definition onpool {A} (m : M tpstate A) : M communicator A := zoom tpool set_tpool m.
Definition onmp {A} (m : M Mpoller.mpoller A) : M communicator A := zoom mpollers set_mpollers m.
(** Code of the I/O service at an address. *)
Definition onio {A} (p : ptr) (m : M iostate A) : M communicator A := λ s,
  match p with
  | None => UB
  | Some l =>
      match ioservices s !! l with
      | None => UB
      | Some x =>
          match m x with
          | Done (a, y) => Done (a, set_ioservices (<[l := y]> (ioservices s)) s)
          | UB => UB
          | Blocked => Blocked
          | NoFuel => NoFuel
          end
      end
  end.

(** A result by its address; [free(res)]. *)
Definition result_at (a : Z) : M communicator poller_result := λ s,
  match results s !! a with Some r => Done (r, s) | None => UB end.
Definition free_result (a : Z) : M communicator unit := λ s,
  match results s !! a with
  | Some _ =>
      Done (tt, set_results (delete a (results s))
                  (set_rqueue (set_words (delete (a + sizeof_poller_result)%Z (words (rqueue s)))
                                 (rqueue s)) s))
  | None => UB
  end.

(** ** I/O services *)

Definition shutdown_io_service (fuel : nat) (service : ptr) : M communicator unit :=
  let* fd := onio service (gets event_fd) in
  oncs (close_fd fd) ;;;
  onio service (modify (set_event_fd (-1))) ;;;
  onio service (IoService.decref fuel).

Definition handle_aio_result (fuel : nat) (res : poller_result) : M communicator unit :=
  let service := context (pr_data res) in
  let st := pr_state res in
  if (st =? PR_ST_SUCCESS)%Z then
    let* session := oncs (as_loc (result_ptr (pr_data res))) in
    onio service
      (iolnk (list_del (Some session)) ;;;
       let* r := IoService.ses_get sres session in
       let* (state, error) := outcome_of r in
       IoService.handle session state error) ;;;
    onio service (IoService.decref fuel)
  else if (st =? PR_ST_DELETED)%Z then shutdown_io_service fuel service
  else if (st =? PR_ST_ERROR)%Z || (st =? PR_ST_STOPPED)%Z then
    let* l := oncs (as_loc service) in
    io_handle_stop l (pr_error res)
  else ret tt.

Definition io_bind (service : ptr) : M communicator Z :=
  let* l := oncs (as_loc service) in
  let* event_fd := create_event_fd l in
  if (0 <=? event_fd)%Z then
    let* r := oncs (__set_fd_nonblock event_fd) in
    let* ok :=
      (if (0 <=? r)%Z then
         onio service (modify (set_ref 1)) ;;;
         let* junk := oncs (gets junk_data) in
         let data := PData PD_OP_EVENT (iovcnt junk) event_fd AIO_FINISH service (UPtr None) in
         let* r := oncs (mpoller_add_data data (-1)) in
         if (0 <=? r)%Z then onio service (modify (set_event_fd event_fd)) ;;; ret true
         else ret false
       else ret false) in
    if ok : bool then ret 0%Z else oncs (close_fd event_fd) ;;; ret (-1)%Z
  else ret (-1)%Z.

Definition io_unbind (fuel : nat) (service : ptr) : M communicator unit :=
  let* errno_bak := oncs get_cerrno in
  let* fd := onio service (gets event_fd) in
  let* mp := gets (λ s, comm_mpoller (conns s)) in
  let* r := oncs (mpoller_del_fd fd mp) in
  if (r <? 0)%Z then shutdown_io_service fuel service ;;; oncs (put_cerrno errno_bak)
  else ret tt.

(** ** Handler threads *)

(** The [switch] on [res->data.operation]: whether it has a handler. *)
Definition handle_result (fuel : nat) (res : poller_result) : M communicator bool :=
  let op := operation (pr_data res) in
  if (op =? PD_OP_TIMER)%Z then oncs (handle_sleep_result res) ;;; ret true
  else if (op =? PD_OP_READ)%Z then oncs (handle_read_result res) ;;; ret true
  else if (op =? PD_OP_WRITE)%Z then oncs (handle_write_result res) ;;; ret true
  else if (op =? PD_OP_CONNECT)%Z then oncs (handle_connect_result fuel res) ;;; ret true
  else if (op =? PD_OP_LISTEN)%Z then oncs (handle_listen_result res) ;;; ret true
  else if (op =? PD_OP_RECVFROM)%Z then oncs (handle_recvfrom_result res) ;;; ret true
  else if (op =? PD_OP_EVENT)%Z || (op =? PD_OP_NOTIFY)%Z then
    handle_aio_result fuel res ;;; ret true
  else ret false.

(** The [while (1)] over the queue; [hfuel] bounds the loops of a handler. Whether
    the loop is left by [break] (and not by the end of the thread). *)
Fixpoint handler_loop (fuel hfuel : nat) : M communicator bool :=
  match fuel with
  | O => nofuel
  | S fuel =>
    let* a := onrq (msgqueue_get me) in
    if (a =? 0)%Z then ret true else
    let* res := result_at a in
    let* handled := handle_result hfuel res in
    free_result a ;;;
    if handled : bool then handler_loop fuel hfuel
    else
      let* tp := gets has_pool in
      if tp : bool then
        let* inp := onpool (thrdpool_in_pool me) in
        onpool (thrdpool_exit me) ;;;
        if inp : bool then ret false else handler_loop fuel hfuel
      else handler_loop fuel hfuel
  end.

Definition handler_thread_routine (fuel hfuel : nat) : M communicator unit :=
  let* break := handler_loop fuel hfuel in
  let* tp := gets has_pool in
  if break && negb tp then
    onmp Mpoller.mpoller_destroy ;;;
    onrq msgqueue_destroy
  else ret tt.

(** [Communicator::callback]: the result at [a] goes to the queue. *)
Definition callback (a : Z) : M communicator unit := onrq (msg_queue_put me a).

(** ** Creation *)

(** [for (i = 0; i < handler_threads; i++)]: [i] after it. *)
Fixpoint schedule_loop (fuel : nat) (i n : Z) : M communicator Z :=
  match fuel with
  | O => nofuel
  | S fuel =>
    if negb (i <? n)%Z then ret i else
    let* r := onpool (thrdpool_schedule me (Task HANDLER_ROUTINE 0)) in
    if (r <? 0)%Z then ret i else schedule_loop fuel (i + 1) n
  end.

Definition create_handler_threads (handler_threads : Z) : M communicator Z :=
  let* ok := onpool (thrdpool_create me handler_threads 0) in
  modify (set_has_pool ok) ;;;
  if ok : bool then
    let* i := schedule_loop (S (Z.to_nat handler_threads)) 0 handler_threads in
    if (i =? handler_threads)%Z then ret 0%Z
    else
      onrq (msgqueue_set_nonblock me) ;;;
      onpool (thrdpool_destroy me false) ;;;
      ret (-1)%Z
  else ret (-1)%Z.

Definition create_poller (poller_threads : Z) : M communicator Z :=
  let* max := gets (λ s, u64 (sysconf_open_max s)) in
  if (i64 max <? 0)%Z then ret (-1)%Z else
  let* q := gets malloc_rqueue in
  let* made := onrq (msgqueue_create q (16 * 1024) sizeof_poller_result) in
  if made : bool then
    let* ok := onmp (Mpoller.mpoller_create max poller_threads) in
    let* started :=
      (if ok : bool then
         let* r := onmp Mpoller.mpoller_start in
         if (0 <=? r)%Z then ret true else onmp Mpoller.mpoller_destroy ;;; ret false
       else ret false) in
    if started : bool then ret 0%Z else onrq msgqueue_destroy ;;; ret (-1)%Z
  else ret (-1)%Z.

Definition init (poller_threads handler_threads : Z) : M communicator Z :=
  if (poller_threads =? 0)%Z then oncs (put_cerrno EINVAL) ;;; ret (-1)%Z else
  let* r := create_poller poller_threads in
  if (0 <=? r)%Z then
    let* r := create_handler_threads handler_threads in
    if (0 <=? r)%Z then
      oncs (modify (set_stop_flag 0)) ;;;
      ret 0%Z
    else
      onmp Mpoller.mpoller_stop ;;;
      onmp Mpoller.mpoller_destroy ;;;
      onrq msgqueue_destroy ;;;
      ret (-1)%Z
  else ret (-1)%Z.

Definition is_handler_thread : M communicator bool := onpool (thrdpool_in_pool me).

Definition deinit (fuel hfuel : nat) : M communicator unit :=
  let* in_handler := is_handler_thread in
  oncs (modify (set_stop_flag 1)) ;;;
  onmp Mpoller.mpoller_stop ;;;
  onrq (msgqueue_set_nonblock me) ;;;
  onpool (thrdpool_destroy me false) ;;;
  modify (set_has_pool false) ;;;
  if negb in_handler then handler_thread_routine fuel hfuel else ret tt.

(** ** More and fewer threads *)

Definition increase_handler_thread : M communicator Z :=
  let* buf := onpool ThrdPool.new_entry in
  if negb (buf =? 0)%Z then
    let* r := onpool thrdpool_increase in
    if (0 <=? r)%Z then
      onpool (__thrdpool_schedule me (Task HANDLER_ROUTINE 0) buf) ;;;
      ret 0%Z
    else
      onpool (ThrdPool.free_entry buf) ;;;
      ret (-1)%Z
  else ret (-1)%Z.

(** [malloc] of a result with its link word. *)
Definition new_result : M communicator Z := λ s,
  match malloc_result s with
  | Some a =>
      Done (a, set_results (<[a := PResult 0 0 (junk_data (conns s))]> (results s))
                 (set_rqueue (set_words (<[(a + sizeof_poller_result)%Z := 0%Z]> (words (rqueue s)))
                                (rqueue s)) s))
  | None => Done (0%Z, s)
  end.
Definition set_operation (op : Z) (r : poller_result) : poller_result :=
  let d := pr_data r in
  PResult (pr_state r) (pr_error r) (PData op (iovcnt d) (fd d) (func d) (context d) (arg d)).

Definition decrease_handler_thread (fuel : nat) : M communicator Z :=
  let* a := new_result in
  if negb (a =? 0)%Z then
    let* r := result_at a in
    modify (λ s, set_results (<[a := set_operation (-1) r]> (results s)) s) ;;;
    onrq (msgqueue_put_head me fuel a) ;;;
    ret 0%Z
  else ret (-1)%Z.
End communicator.
