(* ===== verification/MapSum.v ===== *)
(** Sums over finite maps, to count the references to an object. *)
From S2P Require Export Prelude.

Section msum.
Context {A : Type}.
Implicit Types (f : A → Z) (m : gmap positive A).

(** The sum of [f] over the values of a map. *)
Definition msum f m : Z := map_fold (λ _ x acc, f x + acc)%Z 0%Z m.

Lemma msum_empty f : msum f ∅ = 0%Z.
Proof. apply map_fold_empty. Qed.
Lemma msum_insert_new f m l x : m !! l = None → msum f (<[l := x]> m) = (f x + msum f m)%Z.
Proof. intros H. unfold msum. rewrite map_fold_insert_L; [done|lia|done]. Qed.
Lemma msum_delete f m l x : m !! l = Some x → msum f (delete l m) = (msum f m - f x)%Z.
Proof.
  intros H. rewrite <- (insert_delete_id m l x H) at 2.
  rewrite msum_insert_new by apply lookup_delete_eq. lia.
Qed.
Lemma msum_insert f m l x y :
  m !! l = Some x → msum f (<[l := y]> m) = (msum f m - f x + f y)%Z.
Proof.
  intros H. rewrite <- insert_delete_eq, msum_insert_new by apply lookup_delete_eq.
  rewrite (msum_delete _ _ _ _ H). lia.
Qed.

Lemma msum_bounds f m : (∀ x, 0 ≤ f x ≤ 1)%Z → (0 ≤ msum f m ≤ Z.of_nat (size m))%Z.
Proof.
  intros Hf. induction m as [|l x m Hl IH] using map_ind.
  - rewrite msum_empty. lia.
  - rewrite msum_insert_new, map_size_insert_None by done. specialize (Hf x). lia.
Qed.
Lemma msum_ge f m l x : (∀ x, 0 ≤ f x)%Z → m !! l = Some x → (f x ≤ msum f m)%Z.
Proof.
  intros Hf Hl. rewrite <- (insert_delete_id m l x Hl), msum_insert_new by apply lookup_delete_eq.
  assert (0 ≤ msum f (delete l m))%Z; [|lia].
  induction (delete l m) as [|k y n Hk IH] using map_ind; [by rewrite msum_empty|].
  rewrite msum_insert_new by done. specialize (Hf y). lia.
Qed.

(** A map whose addresses are below [n] has at most [n] values. *)
Lemma size_addresses m (n : nat) :
  (∀ l, is_Some (m !! l) → (Zpos l < Z.of_nat n)%Z) → size m ≤ n.
Proof.
  intros H. rewrite <- size_dom. unfold size, set_size. simpl.
  assert (elements (dom m) ⊆+ (Pos.of_nat <$> seq 0 n)) as Hsub.
  { apply NoDup_submseteq; [apply NoDup_elements|].
    intros l Hl%elem_of_elements%elem_of_dom%H. apply list_elem_of_fmap.
    exists (Pos.to_nat l). split; [lia|]. apply elem_of_seq. lia. }
  apply submseteq_length in Hsub. by rewrite length_fmap, length_seq in Hsub.
Qed.
End msum.
