(* ===== verification/CommRefs.v ===== *)
(** Reference counts of the communicator: what a target and a service count, and the
    rules by which code moves references. *)
From S2P Require Export MapSum CommSpec CommRequest.

(** ** Views *)

(** What the counts depend on: of an entry its target, service and session; of a
    session whether it is passive and its target; of a target its count and service;
    of a service its count. And which message a session has, and what the messages
    are. *)
Abbreviation entry_key := (ptr * ptr * ptr)%type (only parsing).
Record refview : Type := RefView {
  ve : gmap positive (ptr * ptr * ptr);
  vs : gmap positive (bool * ptr);
  vt : gmap positive (Z * ptr);
  vv : gmap positive Z;
  vm : gmap positive ptr * gmap positive comm_in;
}.
Definition ekey (e : conn_entry) : ptr * ptr * ptr := (target_ e, service_ e, session_ e).
Definition skey (x : comm_session) : bool * ptr := (negb (passive x =? 0)%Z, s_target x).
Definition tkey (t : comm_target) : Z * ptr := (t_ref t, t_service t).
Definition views (s : commstate) : refview :=
  RefView (ekey <$> centries s) (skey <$> csessions s) (tkey <$> ctargets s)
    (sref <$> cservices s) (s_in <$> csessions s, cmsgs s).

Definition with_ve (f : gmap positive (ptr * ptr * ptr) → gmap positive (ptr * ptr * ptr))
    (w : refview) : refview := RefView (f (ve w)) (vs w) (vt w) (vv w) (vm w).
Definition with_vs (f : gmap positive (bool * ptr) → gmap positive (bool * ptr)) (w : refview) :
    refview := RefView (ve w) (f (vs w)) (vt w) (vv w) (vm w).
Definition with_vt (f : gmap positive (Z * ptr) → gmap positive (Z * ptr)) (w : refview) :
    refview := RefView (ve w) (vs w) (f (vt w)) (vv w) (vm w).
Definition with_vv (f : gmap positive Z → gmap positive Z) (w : refview) : refview :=
  RefView (ve w) (vs w) (vt w) (f (vv w)) (vm w).

(** ** Counting *)

(** Whether an entry, or a session, holds a reference to the target [t]; whether a
    target holds one to the service [v]. *)
Definition hold_e (t : loc) (k : ptr * ptr * ptr) : Z :=
  b2z (bool_decide (k.1.1 = Some t) && nonnull k.1.2).
Definition hold_s (t : loc) (k : bool * ptr) : Z := b2z (k.1 && bool_decide (k.2 = Some t)).
Definition hold_t (v : loc) (k : Z * ptr) : Z := b2z (bool_decide (k.2 = Some v)).

(** The references to a target that connections and sessions hold; those to a
    service that targets hold. *)
Definition trefs (t : loc) (w : refview) : Z :=
  (msum (hold_e t) (ve w) + msum (hold_s t) (vs w))%Z.
Definition vrefs (v : loc) (w : refview) : Z := msum (hold_t v) (vt w).

(** References held elsewhere: by a result on its way to a handler, by the listening
    socket of a service, by code that is running. *)
Record debt : Type := Debt { dt : loc → Z; dv : loc → Z }.
#[export] Instance debt_equiv : Equiv debt := λ d d',
  (∀ t, dt d t = dt d' t) ∧ (∀ v, dv d v = dv d' v).
#[export] Instance debt_equivalence : Equivalence (≡@{debt}).
Proof.
  split; [done|by intros ?? [??]|intros ??? [H1 H2] [H3 H4]]. split; intros; [by rewrite H1|by rewrite H2].
Qed.
Definition dplus (d d' : debt) : debt := Debt (λ t, dt d t + dt d' t)%Z (λ v, dv d v + dv d' v)%Z.
Definition dminus (d d' : debt) : debt := Debt (λ t, dt d t - dt d' t)%Z (λ v, dv d v - dv d' v)%Z.
Definition dzero : debt := Debt (λ _, 0%Z) (λ _, 0%Z).
Definition on_e (k : ptr * ptr * ptr) : debt := Debt (λ t, hold_e t k) (λ _, 0%Z).
Definition on_s (k : bool * ptr) : debt := Debt (λ t, hold_s t k) (λ _, 0%Z).
Definition on_t (t : loc) : debt := Debt (λ u, b2z (bool_decide (u = t))) (λ _, 0%Z).
Definition on_v (v : loc) : debt := Debt (λ _, 0%Z) (λ u, b2z (bool_decide (u = v))).

(** The bound on addresses, and so on the objects that exist at a time: it keeps the
    [int] counts from wrapping. *)
Definition max_addr : Z := 2 ^ 29.

(** The counts are right: a service target counts the references to it, and is
    there as long as there are any; a service counts its targets. *)
Record counted (d : debt) (w : refview) : Prop := Counted {
  c_ref t r v : vt w !! t = Some (r, Some v) → r = i32 (trefs t w + dt d t);
  c_nonneg t : (0 ≤ trefs t w + dt d t)%Z;
  c_live t : (0 < trefs t w + dt d t)%Z → ∃ r v, vt w !! t = Some (r, Some v);
  c_sref v r : vv w !! v = Some r → r = i32 (vrefs v w + dv d v);
  c_entries l : is_Some (ve w !! l) → (Zpos l < max_addr)%Z;
  c_sessions l : is_Some (vs w !! l) → (Zpos l < max_addr)%Z;
}.

#[export] Instance counted_proper : Proper ((≡) ==> (=) ==> (↔)) counted.
Proof.
  enough (∀ d d' w, d ≡ d' → counted d w → counted d' w) as H.
  { intros d d' E w ? <-. split; apply H; by symmetry || done. }
  intros d d' w [Et Ev] []. constructor; try done; intros.
  - rewrite <- Et. eauto.
  - rewrite <- Et. eauto.
  - eapply c_live0. by rewrite Et.
  - rewrite <- Ev. eauto.
Qed.

(** The messages do not count. *)
Lemma counted_ext d w w' :
  ve w' = ve w → vs w' = vs w → vt w' = vt w → vv w' = vv w → counted d w → counted d w'.
Proof.
  destruct w, w'. simpl. intros -> -> -> -> [C1 C2 C3 C4 C5 C6]. by constructor.
Qed.

Lemma hold_e_bounds t k : (0 ≤ hold_e t k ≤ 1)%Z.
Proof. unfold hold_e, b2z. case_match; lia. Qed.
Lemma hold_s_bounds t k : (0 ≤ hold_s t k ≤ 1)%Z.
Proof. unfold hold_s, b2z. case_match; lia. Qed.

Lemma counted_bounds d w t : counted d w → (0 ≤ trefs t w ≤ 2 ^ 30)%Z.
Proof.
  intros [_ _ _ _ He Hs]. unfold trefs.
  pose proof (msum_bounds (hold_e t) (ve w) (hold_e_bounds t)).
  pose proof (msum_bounds (hold_s t) (vs w) (hold_s_bounds t)).
  pose proof (size_addresses (ve w) (Z.to_nat max_addr)) as H1.
  pose proof (size_addresses (vs w) (Z.to_nat max_addr)) as H2.
  unfold max_addr in *. rewrite Z2Nat.id in H1, H2 by lia.
  specialize (H1 He). specialize (H2 Hs). lia.
Qed.

(** ** Moving references *)

Lemma sw_add z k : i32 (i32 z + k) = i32 (z + k).
Proof.
  unfold i32, sw. f_equal.
  replace ((z + 2 ^ (32 - 1)) `mod` 2 ^ 32 - 2 ^ (32 - 1) + k + 2 ^ (32 - 1))%Z
    with ((z + 2 ^ (32 - 1)) `mod` 2 ^ 32 + k)%Z by lia.
  rewrite Zplus_mod_idemp_l. f_equal. lia.
Qed.

Ltac debts := split; intros; cbn [dt dv dplus dminus dzero on_e on_s on_t on_v]; try lia.

Section moves.
Context (d : debt) (w : refview) (C : counted d w).

Lemma trefs_entry t e k k' :
  ve w !! e = Some k →
  trefs t (with_ve <[e := k']> w) = (trefs t w - hold_e t k + hold_e t k')%Z.
Proof. intros H. unfold trefs. simpl. rewrite (msum_insert _ _ _ _ _ H). lia. Qed.
Lemma trefs_session t x k k' :
  vs w !! x = Some k →
  trefs t (with_vs <[x := k']> w) = (trefs t w - hold_s t k + hold_s t k')%Z.
Proof. intros H. unfold trefs. simpl. rewrite (msum_insert _ _ _ _ _ H). lia. Qed.

(** Changing what is held moves the references to the debt, or from it. *)
Lemma counted_trefs d' w' :
  vt w' = vt w → vv w' = vv w → (∀ v, dv d' v = dv d v) →
  (∀ t, trefs t w' + dt d' t = trefs t w + dt d t)%Z →
  (∀ l, is_Some (ve w' !! l) → (Zpos l < max_addr)%Z) →
  (∀ l, is_Some (vs w' !! l) → (Zpos l < max_addr)%Z) →
  counted d' w'.
Proof.
  intros Et Ev Hv Hd He Hs. destruct C as [C1 C2 C3 C4 C5 C6]. constructor; try done.
  - intros t r v. rewrite Et, Hd. apply C1.
  - intros t. rewrite Hd. apply C2.
  - intros t. rewrite Et, Hd. apply C3.
  - intros v r. rewrite Ev, Hv. unfold vrefs. rewrite Et. apply C4.
Qed.

Lemma counted_entry e k k' :
  ve w !! e = Some k →
  counted (dminus (dplus d (on_e k)) (on_e k')) (with_ve <[e := k']> w).
Proof.
  intros H. apply counted_trefs; try done.
  - intros v. simpl. lia.
  - intros t. rewrite (trefs_entry _ _ _ _ H). simpl. lia.
  - intros l. simpl. rewrite lookup_insert_is_Some'. intros [<-|Hl]; eapply c_entries; eauto.
  - apply C.
Qed.
Lemma counted_entry_new e k :
  ve w !! e = None → (Zpos e < max_addr)%Z →
  counted (dminus d (on_e k)) (with_ve <[e := k]> w).
Proof.
  intros H Hb. apply counted_trefs; try done.
  - intros v. simpl. lia.
  - intros t. unfold trefs. simpl. rewrite msum_insert_new by done. lia.
  - intros l. simpl. rewrite lookup_insert_is_Some'. intros [<-|Hl]; [done|]. by eapply c_entries.
  - apply C.
Qed.
Lemma counted_entry_delete e k :
  ve w !! e = Some k → counted (dplus d (on_e k)) (with_ve (delete e) w).
Proof.
  intros H. apply counted_trefs; try done.
  - intros v. simpl. lia.
  - intros t. unfold trefs. simpl. rewrite (msum_delete _ _ _ _ H). lia.
  - intros l. simpl. rewrite lookup_delete_is_Some. intros [_ Hl]. by eapply c_entries.
  - apply C.
Qed.

Lemma counted_session x k k' :
  vs w !! x = Some k →
  counted (dminus (dplus d (on_s k)) (on_s k')) (with_vs <[x := k']> w).
Proof.
  intros H. apply counted_trefs; try done.
  - intros v. simpl. lia.
  - intros t. rewrite (trefs_session _ _ _ _ H). simpl. lia.
  - apply C.
  - intros l. simpl. rewrite lookup_insert_is_Some'. intros [<-|Hl]; eapply c_sessions; eauto.
Qed.
Lemma counted_session_new x k :
  vs w !! x = None → (Zpos x < max_addr)%Z →
  counted (dminus d (on_s k)) (with_vs <[x := k]> w).
Proof.
  intros H Hb. apply counted_trefs; try done.
  - intros v. simpl. lia.
  - intros t. unfold trefs. simpl. rewrite msum_insert_new by done. lia.
  - apply C.
  - intros l. simpl. rewrite lookup_insert_is_Some'. intros [<-|Hl]; [done|]. by eapply c_sessions.
Qed.
Lemma counted_session_delete x k :
  vs w !! x = Some k → counted (dplus d (on_s k)) (with_vs (delete x) w).
Proof.
  intros H. apply counted_trefs; try done.
  - intros v. simpl. lia.
  - intros t. unfold trefs. simpl. rewrite (msum_delete _ _ _ _ H). lia.
  - apply C.
  - intros l. simpl. rewrite lookup_delete_is_Some. intros [_ Hl]. by eapply c_sessions.
Qed.

Lemma vrefs_update v t k k' :
  vt w !! t = Some k → k'.2 = k.2 → vrefs v (with_vt <[t := k']> w) = vrefs v w.
Proof.
  intros H E. unfold vrefs. simpl. rewrite (msum_insert _ _ _ _ _ H). unfold hold_t. rewrite E. lia.
Qed.

(** A target counts one reference more, or less, which the code then holds, or gave
    up; the target stays as long as it counts any. *)
Lemma counted_target t r v n :
  vt w !! t = Some (r, Some v) → (0 ≤ trefs t w + dt d t + n)%Z →
  counted (dplus d (Debt (λ u, if decide (u = t) then n else 0%Z) (λ _, 0%Z)))
    (with_vt <[t := (i32 (r + n), Some v)]> w).
Proof.
  intros H Hn. pose proof C as [C1 C2 C3 C4 C5 C6]. constructor.
  - intros u r' v'. simpl. destruct (decide (u = t)) as [->|Hne].
    + rewrite lookup_insert_eq. intros [= <- <-]. rewrite (C1 _ _ _ H), sw_add.
      f_equal. unfold trefs. simpl. lia.
    + rewrite lookup_insert_ne by done. intros Hu. rewrite (C1 _ _ _ Hu).
      f_equal. unfold trefs. simpl. lia.
  - intros u. simpl. change (trefs u (with_vt _ w)) with (trefs u w).
    case_decide as E; [subst u|]; [lia|]. specialize (C2 u). lia.
  - intros u. simpl. change (trefs u (with_vt _ w)) with (trefs u w).
    destruct (decide (u = t)) as [->|Hne].
    + rewrite lookup_insert_eq. eauto.
    + rewrite lookup_insert_ne by done. rewrite Z.add_0_r. apply C3.
  - intros u r'. simpl. rewrite Z.add_0_r, (vrefs_update _ _ (r, Some v)) by done. apply C4.
  - apply C5.
  - apply C6.
Qed.

(** A target without references goes: its service has one reference less. *)
Lemma counted_target_delete t r v :
  vt w !! t = Some (r, Some v) → (trefs t w + dt d t = 0)%Z →
  counted (dplus d (on_v v)) (with_vt (delete t) w).
Proof.
  intros H H0. pose proof C as [C1 C2 C3 C4 C5 C6]. constructor; try done.
  - intros u r' v'. simpl. rewrite lookup_delete_Some, Z.add_0_r. intros [_ Hu]. eauto.
  - intros u. simpl. rewrite Z.add_0_r. apply C2.
  - intros u. simpl. change (trefs u (with_vt _ w)) with (trefs u w). rewrite Z.add_0_r. intros Hu.
    destruct (decide (u = t)) as [->|Hne]; [lia|]. rewrite lookup_delete_ne by done. eauto.
  - intros u r'. simpl. intros Hu. rewrite (C4 _ _ Hu). f_equal. unfold vrefs. simpl.
    rewrite (msum_delete _ _ _ _ H). unfold hold_t. simpl. unfold b2z.
    repeat case_bool_decide; simplify_eq/=; lia.
Qed.

(** A target that was of no service becomes one that counts the code's reference. *)
Lemma counted_target_adopt t r v :
  vt w !! t = Some (r, None) →
  counted (dminus (dplus d (on_t t)) (on_v v)) (with_vt <[t := (1%Z, Some v)]> w).
Proof.
  intros H. pose proof C as [C1 C2 C3 C4 C5 C6].
  assert (trefs t w + dt d t = 0)%Z as H0.
  { pose proof (C2 t). destruct (decide (trefs t w + dt d t = 0)%Z) as [|Hne]; [done|].
    destruct (C3 t) as (? & ? & Hl); [lia|]. congruence. }
  constructor; try done.
  - intros u r' v'. simpl. change (trefs u (with_vt _ w)) with (trefs u w). unfold b2z.
    destruct (decide (u = t)) as [->|Hne].
    + rewrite lookup_insert_eq, bool_decide_true by done. intros [= <- <-].
      by replace (trefs t w + (dt d t + 1 - 0))%Z with 1%Z by lia.
    + rewrite lookup_insert_ne, bool_decide_false, Z.add_0_r, Z.sub_0_r by done. apply C1.
  - intros u. simpl. change (trefs u (with_vt _ w)) with (trefs u w). specialize (C2 u).
    unfold b2z. case_bool_decide; lia.
  - intros u. simpl. change (trefs u (with_vt _ w)) with (trefs u w). unfold b2z.
    destruct (decide (u = t)) as [->|Hne].
    + rewrite lookup_insert_eq. eauto.
    + rewrite lookup_insert_ne, bool_decide_false, Z.add_0_r, Z.sub_0_r by done. apply C3.
  - intros u r'. simpl. intros Hu. rewrite (C4 _ _ Hu). f_equal. unfold vrefs. simpl.
    rewrite (msum_insert _ _ _ _ _ H). unfold hold_t. simpl. unfold b2z.
    repeat case_bool_decide; simplify_eq; lia.
Qed.
(** An object that is no service target comes or goes. *)
Lemma counted_target_other f t r :
  f = insert t (r, None) ∧ vt w !! t = None ∨
  f = delete t ∧ (∃ r', vt w !! t = Some (r', None)) →
  counted d (with_vt f w).
Proof.
  intros H. pose proof C as [C1 C2 C3 C4 C5 C6].
  assert (∀ u k, k.2 ≠ None → f (vt w) !! u = Some k ↔ vt w !! u = Some k) as Hf.
  { intros u k Hk. destruct H as [[-> Hn]|[-> (r' & Hr)]].
    - destruct (decide (u = t)) as [->|]; [|by rewrite lookup_insert_ne].
      rewrite lookup_insert_eq, Hn. split; intros; simplify_eq; done.
    - destruct (decide (u = t)) as [->|]; [|by rewrite lookup_delete_ne].
      rewrite lookup_delete_eq, Hr. split; intros; simplify_eq; done. }
  constructor; try done; simpl.
  - intros u r' v. rewrite Hf by done. apply C1.
  - intros u Hu. destruct (C3 u Hu) as (r' & v & Hv). exists r', v. by rewrite Hf.
  - intros v r' Hv. rewrite (C4 _ _ Hv). f_equal. unfold vrefs. simpl.
    destruct H as [[-> Hn]|[-> (r'' & Hr)]].
    + rewrite msum_insert_new by done. unfold hold_t. simpl. lia.
    + rewrite (msum_delete _ _ _ _ Hr). unfold hold_t. simpl. lia.
Qed.

Lemma counted_service v r n :
  vv w !! v = Some r →
  counted (dplus d (Debt (λ _, 0%Z) (λ u, if decide (u = v) then n else 0%Z)))
    (with_vv <[v := i32 (r + n)]> w).
Proof.
  intros H. pose proof C as [C1 C2 C3 C4 C5 C6]. constructor; try done.
  - intros t r' v'. simpl. rewrite Z.add_0_r. apply C1.
  - intros t. simpl. rewrite Z.add_0_r. apply C2.
  - intros t. simpl. rewrite Z.add_0_r. apply C3.
  - intros u r'. simpl. change (vrefs u (with_vv _ w)) with (vrefs u w).
    destruct (decide (u = v)) as [->|Hne].
    + rewrite lookup_insert_eq. intros [= <-]. rewrite (C4 _ _ H), sw_add. f_equal. lia.
    + rewrite lookup_insert_ne, Z.add_0_r by done. apply C4.
Qed.
End moves.
