(* ===== verification/CommStill.v ===== *)
(** The parts of the communicator that move no reference: every other proof about
    the counts steps over them. *)
From S2P Require Export CommFrame CommRefs.

(** Code that leaves every reference where it was. *)
Abbreviation still := (leaves views) (only parsing).
(** Code that does so but for the messages of sessions. *)
Definition mild {A} (m : M commstate A) : Prop :=
  ∀ s a s', m s = Done (a, s') →
    ve (views s') = ve (views s) ∧ vs (views s') = vs (views s) ∧
    vt (views s') = vt (views s) ∧ vv (views s') = vv (views s).
(** Code that keeps the counts right, whatever is held elsewhere. *)
Definition keeps {A} (m : M commstate A) : Prop :=
  ∀ d s a s', counted d (views s) → m s = Done (a, s') → counted d (views s').

(** Writing members that are not in the view. *)
Lemma fmap_insert_same {X Y} (key : X → Y) (m : gmap positive X) l x y :
  m !! l = Some x → key y = key x → key <$> <[l := y]> m = key <$> m.
Proof.
  intros H E. rewrite fmap_insert, E. apply insert_id. by rewrite lookup_fmap, H.
Qed.
Lemma still_ent_set f p : (∀ e, ekey (f e) = ekey e) → still (ent_set f p).
Proof.
  intros H s a s' E. destruct p; simpl in E; [|done]. case_match; simplify_eq.
  unfold views. simpl. f_equal. by eapply fmap_insert_same.
Qed.
Lemma still_ses_set f p : (∀ x, skey (f x) = skey x) → (∀ x, s_in (f x) = s_in x) → still (ses_set f p).
Proof.
  intros H H2 s a s' E. destruct p; simpl in E; [|done]. case_match; simplify_eq.
  unfold views. simpl. f_equal; [by eapply fmap_insert_same|]. f_equal. by eapply fmap_insert_same.
Qed.
Lemma still_tgt_set f p : (∀ x, tkey (f x) = tkey x) → still (tgt_set f p).
Proof.
  intros H s a s' E. destruct p; simpl in E; [|done]. case_match; simplify_eq.
  unfold views. simpl. f_equal. by eapply fmap_insert_same.
Qed.
Lemma still_svc_set f p : (∀ x, sref (f x) = sref x) → still (svc_set f p).
Proof.
  intros H s a s' E. destruct p; simpl in E; [|done]. case_match; simplify_eq.
  unfold views. simpl. f_equal. by eapply fmap_insert_same.
Qed.

Lemma still_keeps {A} (m : M commstate A) : still m → keeps m.
Proof. intros H d s a s' Hc E. by rewrite (H _ _ _ E). Qed.
Lemma keeps_seq {A B} (m : M commstate A) (k : A → M commstate B) :
  keeps m → (∀ a, keeps (k a)) → keeps (bnd m k).
Proof.
  intros Hm Hk d s b s' Hc (a & s1 & E1 & E2)%bnd_done_inv.
  eapply Hk; [|exact E2]. by eapply Hm.
Qed.

Lemma mild_keeps {A} (m : M commstate A) : mild m → keeps m.
Proof. intros H d s a s' Hc E. destruct (H _ _ _ E) as (?&?&?&?). by eapply counted_ext. Qed.
Lemma still_mild {A} (m : M commstate A) : still m → mild m.
Proof. intros H s a s' E. by rewrite (H _ _ _ E). Qed.
Lemma mild_bnd {A B} (m : M commstate A) (k : A → M commstate B) :
  mild m → (∀ a, mild (k a)) → mild (bnd m k).
Proof.
  intros Hm Hk s b s' (a & s1 & E1 & E2)%bnd_done_inv.
  destruct (Hm _ _ _ E1) as (?&?&?&?), (Hk _ _ _ _ E2) as (?&?&?&?). split_and!; congruence.
Qed.
Lemma mild_ses_set f p : (∀ x, skey (f x) = skey x) → mild (ses_set f p).
Proof.
  intros H s a s' E. destruct p; simpl in E; [|done]. case_match; simplify_eq.
  split_and!; try done. simpl. by eapply fmap_insert_same.
Qed.
Lemma mild_msg_set f p : mild (obj_set cmsgs set_cmsgs f p).
Proof. intros s a s' E. destruct p; simpl in E; [|done]. case_match; by simplify_eq. Qed.

Create HintDb still discriminated.
Ltac calm :=
  hush ltac:(first [ solve [eauto with still nocore] | apply still_ent_set; done
    | apply still_ses_set; done | apply still_tgt_set; done | apply still_svc_set; done ]).

(** What the counts need of the system and of the client. The allocators give fresh
    addresses below the bound. The getters, the codecs and the functions that make
    connections and messages move no reference. What a session does with its
    outcome keeps the counts and the connections of that session; [release] keeps
    the connections; [handle_unbound] keeps the targets and the
    sessions. *)
Class CommRefLaws (E : CommEnv) (R : CommMemory) (C : CommClient) (K : CommCallbacks) : Prop := {
  cmalloc_fresh s l : cmalloc s = Some l → centries s !! l = None ∧ (Zpos l < max_addr)%Z;
  new_fresh s : ctargets s !! new_addr s = None;
  still_send_timeout l : still (send_timeout l);
  still_receive_timeout l : still (receive_timeout l);
  still_keep_alive_timeout l : still (keep_alive_timeout l);
  still_first_timeout_of l : still (first_timeout_of l);
  still_encode o n : still (encode o n);
  still_message_out l : still (message_out l);
  mild_message_in l : mild (message_in l);
  still_append l b : still (append l b);
  still_feedback l n : still (inner_feedback l n);
  still_connect_fd l : still (create_connect_fd l);
  still_listen_fd l : still (create_listen_fd l);
  still_target_conn l f : still (target_new_connection l f);
  still_service_conn l f : still (service_new_connection l f);
  keeps_handle l st e : keeps (handle l st e);
  handle_pins l st e s s' x k : handle l st e s = Done (tt, s') →
    ve (views s) !! x = Some k → k.2 = Some l → ve (views s') !! x = Some k;
  keeps_release l : keeps (release l);
  release_pins l s s' x k : release l s = Done (tt, s') →
    ve (views s) !! x = Some k → ve (views s') !! x = Some k;
  keeps_stop l e : keeps (handle_stop l e);
  keeps_sleep l st e : keeps (sleep_handle l st e);
  still_duration l : still (duration l);
  keeps_unbound l : keeps (service_unbound l);
  unbound_pins l s s' : service_unbound l s = Done (tt, s') →
    vt (views s') = vt (views s) ∧ vs (views s') = vs (views s);
  new_session_new l q c s x s' : new_session l q c s = Done (x, s') →
    ve (views s') = ve (views s) ∧ vt (views s') = vt (views s) ∧ vv (views s') = vv (views s) ∧
    match x with
    | None => vs (views s') = vs (views s)
    | Some l => ∃ t, vs (views s) !! l = None ∧ (Zpos l < max_addr)%Z ∧
                     vs (views s') = <[l := (false, t)]> (vs (views s))
    end;
}.

#[export] Hint Resolve still_send_timeout still_receive_timeout still_keep_alive_timeout
  still_first_timeout_of still_encode still_message_out still_append still_feedback
  still_connect_fd still_listen_fd still_target_conn still_service_conn still_duration : still.

Section still.
Context `{E : CommEnv} `{R : CommMemory} `{C : CommClient} `{X : CommExterns} `{K : CommCallbacks}
  `{!CommRefLaws E R C K}.

(** ** communicator.cc, to [send_message] *)

Lemma still_set_nonblock f : still (__set_fd_nonblock f).
Proof. unfold __set_fd_nonblock. calm. Qed.
Lemma still_close f : still (close_fd f).
Proof. unfold close_fd. calm. Qed.
Lemma still_mpoller_del f mp : still (mpoller_del_fd f mp).
Proof. by apply leaves_ccall. Qed.
Lemma still_mpoller_set f t mp : still (mpoller_set_fd_timeout f t mp).
Proof. by apply leaves_ccall. Qed.
Lemma still_put_errno e : still (put_cerrno e).
Proof. by apply leaves_modify. Qed.
Lemma still_get_errno : still get_cerrno.
Proof. apply leaves_gets. Qed.
Hint Resolve still_set_nonblock still_close still_mpoller_del still_mpoller_set still_put_errno
  still_get_errno : still.

Lemma still_bind_sockaddr f a l : still (__bind_sockaddr f a l).
Proof. unfold __bind_sockaddr. calm. Qed.
Lemma still_copy_addr a : still (copy_addr a).
Proof. intros s x s' H. unfold copy_addr in H. case_match; by simplify_eq. Qed.
Lemma still_copy_iovs a : still (copy_iovs a).
Proof. intros s x s' H. unfold copy_iovs in H. case_match; by simplify_eq. Qed.
Hint Resolve still_copy_addr still_copy_iovs still_bind_sockaddr : still.
Lemma still_target_init t a l c r : still (target_init t a l c r).
Proof. unfold target_init. calm. Qed.
Lemma still_target_deinit t : still (target_deinit t).
Proof. unfold target_deinit. calm. Qed.
Lemma still_drain_alive fuel h c m : still (drain_alive fuel h c m).
Proof. revert c. induction fuel; intros c; cbn [drain_alive]; calm. Qed.
Hint Resolve still_drain_alive : still.
Lemma still_drain v m : still (drain v m).
Proof. unfold drain. calm. Qed.
Lemma still_int_of z : still (int_of z).
Proof. unfold int_of. calm. Qed.
Lemma still_clock : still cclock_gettime.
Proof. apply leaves_gets. Qed.
Hint Resolve still_target_init still_target_deinit still_drain still_int_of still_clock : still.
Lemma still_first_timeout x : still (first_timeout x).
Proof. unfold first_timeout. calm. Qed.
Lemma still_next_timeout x : still (next_timeout x).
Proof. unfold next_timeout. calm. Qed.
Hint Resolve still_first_timeout still_next_timeout : still.
Lemma still_first_send x : still (first_timeout_send x).
Proof. unfold first_timeout_send. calm. Qed.
Lemma still_first_recv x : still (first_timeout_recv x).
Proof. unfold first_timeout_recv. calm. Qed.
Lemma still_sync_loop fuel f vs : still (sync_loop fuel f vs).
Proof. revert vs. induction fuel; intros vs; cbn [sync_loop]; calm. Qed.
Hint Resolve still_first_send still_first_recv still_sync_loop : still.
Lemma still_sent_all e x : still (sent_all e x).
Proof. unfold sent_all. calm. Qed.
Hint Resolve still_sent_all : still.
Lemma still_send_sync fuel vs e : still (send_message_sync fuel vs e).
Proof. unfold send_message_sync. calm. Qed.
Lemma still_send_async vs c e : still (send_message_async vs c e).
Proof. unfold send_message_async. calm. Qed.
Hint Resolve still_send_sync still_send_async : still.
Lemma still_send_message fuel e : still (send_message fuel e).
Proof. unfold send_message. calm. Qed.
Hint Resolve still_send_message : still.

(** ** Handlers *)

Lemma still_target_mutex p : still (target_mutex p).
Proof. unfold target_mutex. calm. Qed.
Lemma still_service_mutex p : still (service_mutex p).
Proof. unfold service_mutex. calm. Qed.
Lemma still_entry_mutex p : still (entry_mutex p).
Proof. unfold entry_mutex. calm. Qed.
Lemma still_entry_incref p : still (entry_incref p).
Proof. unfold entry_incref. calm. Qed.
Lemma still_entry_decref p : still (entry_decref p).
Proof. unfold entry_decref. calm. Qed.
Lemma still_mpoller_add d t : still (mpoller_add_data d t).
Proof. unfold mpoller_add_data. calm. Qed.
Lemma still_mpoller_del_this f : still (mpoller_del_this f).
Proof. unfold mpoller_del_this. calm. Qed.
Hint Resolve still_target_mutex still_service_mutex still_entry_mutex still_entry_incref
  still_entry_decref still_mpoller_add still_mpoller_del_this : still.
Lemma still_add_unless d t : still (add_unless_stopped d t).
Proof. unfold add_unless_stopped. calm. Qed.
Lemma still_reply_timeout x : still (reply_timeout x).
Proof. unfold reply_timeout. calm. Qed.
Lemma still_incoming_reply r e t : still (incoming_reply r e t).
Proof. unfold incoming_reply. calm. Qed.
Lemma still_keep_alive r e v t n : still (keep_alive r e v t n).
Proof. unfold keep_alive. calm. Qed.
Hint Resolve still_add_unless still_reply_timeout still_incoming_reply still_keep_alive : still.

(** ** Messages and the interface *)

Lemma still_receiving_timeout x : still (receiving_timeout x).
Proof. unfold receiving_timeout. calm. Qed.
Hint Resolve still_receiving_timeout : still.
Lemma still_append_message b m : still (append_message b m).
Proof. unfold append_message. calm. Qed.
Lemma mild_message_of x e b : mild (message_of x e b).
Proof.
  unfold message_of. repeat first [apply mild_bnd; intros | apply mild_message_in
    | apply mild_msg_set | apply mild_ses_set; done | apply still_mild; calm; fail | case_match].
Qed.
Lemma still_take_alive e v t : still (take_alive e v t).
Proof. unfold take_alive. calm. Qed.
Hint Resolve still_take_alive : still.
Lemma mild_create_reply e : mild (create_reply e).
Proof.
  unfold create_reply. repeat first [apply mild_message_of | apply mild_bnd; intros
    | apply still_mild; calm; fail | case_match].
Qed.
Lemma still_recv_loop fuel m e b : still (recv_loop fuel m e b).
Proof. revert b. induction fuel; intros b; cbn [recv_loop]; calm. Qed.
Hint Resolve still_recv_loop : still.
Lemma still_partial_written n e : still (partial_written n e).
Proof. unfold partial_written. calm. Qed.
Lemma still_nonblock_connect t : still (nonblock_connect t).
Proof. unfold nonblock_connect. calm. Qed.
Lemma still_idle_loop fuel t : still (idle_loop fuel t).
Proof. induction fuel; cbn [idle_loop]; calm. Qed.
Hint Resolve still_nonblock_connect still_idle_loop : still.
Lemma still_send_out fuel x e : still (send_out fuel x e).
Proof. unfold send_out. calm. Qed.
Lemma still_sent_or_broken r e : still (sent_or_broken r e).
Proof. unfold sent_or_broken. calm. Qed.
Lemma still_join_conn x e : still (join_conn x e).
Proof. unfold join_conn. calm. Qed.
Hint Resolve still_send_out still_sent_or_broken still_join_conn : still.
Lemma still_nonblock_listen v : still (nonblock_listen v).
Proof. unfold nonblock_listen. calm. Qed.
Lemma still_reply_reliable fuel x t : still (reply_reliable fuel x t).
Proof. unfold reply_reliable. calm. Qed.
Lemma still_reply_message_unreliable e : still (reply_message_unreliable e).
Proof. unfold reply_message_unreliable. calm. Qed.
Lemma still_can_push x i : still (can_push x i).
Proof. unfold can_push. calm. Qed.
Hint Resolve still_nonblock_listen still_reply_reliable still_reply_message_unreliable
  still_can_push : still.
Lemma still_push n x : still (push n x).
Proof. unfold push. calm. Qed.
Lemma still_sleep x : still (sleep x).
Proof. unfold sleep. calm. Qed.
Lemma still_unsleep x : still (unsleep x).
Proof. unfold unsleep. calm. Qed.
Lemma keeps_sleep_result r : keeps (handle_sleep_result r).
Proof.
  unfold handle_sleep_result. apply keeps_seq; [apply still_keeps; calm|]. intros l.
  case_match; [|done]. apply keeps_seq; [apply still_keeps; calm|]. intros _. apply keeps_sleep.
Qed.
End still.
#[export] Hint Resolve still_set_nonblock still_close still_mpoller_del still_mpoller_set
  still_put_errno still_get_errno still_copy_addr still_copy_iovs still_bind_sockaddr
  still_target_init still_target_deinit still_drain still_int_of still_clock still_first_timeout
  still_next_timeout still_first_send still_first_recv still_send_message still_target_mutex
  still_service_mutex still_entry_mutex still_entry_incref still_entry_decref still_mpoller_add
  still_mpoller_del_this still_add_unless still_reply_timeout still_incoming_reply
  still_keep_alive still_append_message still_take_alive
  still_recv_loop still_partial_written still_nonblock_connect still_idle_loop still_send_out
  still_sent_or_broken still_join_conn still_nonblock_listen still_reply_reliable
  still_reply_message_unreliable still_can_push still_push : still.
