(* ===== verification/CommCount.v ===== *)
(** How each operation that takes or gives up a reference changes the counts. *)
From S2P Require Export CommStill.

(** ** Inverting runs *)

Ltac past E1 := past_with views ltac:(calm) E1.
Tactic Notation "skip" hyp(E) :=
  let x := fresh "x" in let s1 := fresh "s" in let E1 := fresh "E" in
  take E x s1 E1; past E1; clear E1;
  match type of x with
  | unit => destruct x
  | (_ * _)%type => let a := fresh "r" in let b := fresh "n" in destruct x as [a b]
  | _ => idtac
  end.
(** Step over a read, and learn what it gave. *)
Tactic Notation "skip" hyp(E) "as" ident(x) ident(E1) :=
  let s1 := fresh "s" in take E x s1 E1; past E1.

Lemma ent_key e s k : ve (views s) !! e = Some k → ∃ en, centries s !! e = Some en ∧ ekey en = k.
Proof. simpl. rewrite lookup_fmap, fmap_Some. naive_solver. Qed.
Lemma ent_get_key {B} (f : conn_entry → B) (g : ptr * ptr * ptr → B) e s x s' k :
  (∀ en, f en = g (ekey en)) → ent_get f (Some e) s = Done (x, s') →
  ve (views s) !! e = Some k → s' = s ∧ x = g k.
Proof.
  intros Hf (-> & l & en & [= <-] & Hen & ->)%obj_get_inv (en' & Hen' & <-)%ent_key.
  split; [done|]. rewrite Hf. by simplify_eq.
Qed.
(** Read the target, the service or the session of an entry whose key is known. *)
Ltac read_key f g H He :=
  let p := fresh "p" in let s1 := fresh "s" in let E1 := fresh "E" in
  take H p s1 E1;
  destruct (ent_get_key f g _ _ _ _ _ (λ _, eq_refl) E1 He) as [-> ->]; clear E1; simpl in H.
Ltac read_target H He := read_key target_ (λ k : ptr * ptr * ptr, k.1.1) H He.
Ltac read_service H He := read_key service_ (λ k : ptr * ptr * ptr, k.1.2) H He.
Ltac read_session H He := read_key session_ (λ k : ptr * ptr * ptr, k.2) H He.

Lemma ent_set_inv f e s u s' :
  ent_set f (Some e) s = Done (u, s') →
  ∃ en, centries s !! e = Some en ∧ ve (views s) !! e = Some (ekey en) ∧
    views s' = with_ve <[e := ekey (f en)]> (views s).
Proof.
  intros E. simpl in E. case_match eqn:Hen; simplify_eq. eexists. split_and!; [done| |].
  - simpl. by rewrite lookup_fmap, Hen.
  - unfold views, with_ve. simpl. by rewrite fmap_insert.
Qed.
Lemma ses_set_inv f x s u s' :
  ses_set f (Some x) s = Done (u, s') →
  ∃ se, csessions s !! x = Some se ∧ vs (views s) !! x = Some (skey se) ∧
    let w := with_vs <[x := skey (f se)]> (views s) in
    ve (views s') = ve w ∧ vs (views s') = vs w ∧ vt (views s') = vt w ∧ vv (views s') = vv w.
Proof.
  intros E. simpl in E. case_match eqn:Hse; simplify_eq. eexists. split; [done|]. split.
  - simpl. by rewrite lookup_fmap, Hse.
  - cbv zeta. simpl. by rewrite fmap_insert.
Qed.
Lemma tgt_set_inv f t s u s' :
  tgt_set f (Some t) s = Done (u, s') →
  ∃ x, ctargets s !! t = Some x ∧ vt (views s) !! t = Some (tkey x) ∧
    views s' = with_vt <[t := tkey (f x)]> (views s).
Proof.
  intros E. simpl in E. case_match eqn:Hx; simplify_eq. eexists. split_and!; [done| |].
  - simpl. by rewrite lookup_fmap, Hx.
  - unfold views, with_vt. simpl. by rewrite fmap_insert.
Qed.
Lemma svc_set_inv f v s u s' :
  svc_set f (Some v) s = Done (u, s') →
  ∃ x, cservices s !! v = Some x ∧ vv (views s) !! v = Some (sref x) ∧
    views s' = with_vv <[v := sref (f x)]> (views s).
Proof.
  intros E. simpl in E. case_match eqn:Hx; simplify_eq. eexists. split_and!; [done| |].
  - simpl. by rewrite lookup_fmap, Hx.
  - unfold views, with_vv. simpl. by rewrite fmap_insert.
Qed.

Lemma views_target s t k : vt (views s) !! t = Some k → ∃ x, ctargets s !! t = Some x ∧ tkey x = k.
Proof. simpl. rewrite lookup_fmap, fmap_Some. naive_solver. Qed.

(** A debt is what the other one is, up to what the entries and sessions hold. *)
Lemma counted_eq d d' w : d ≡ d' → counted d w → counted d' w.
Proof. by intros ->. Qed.
Lemma on_e_target t v x : on_e (Some t, Some v, x) ≡ on_t t.
Proof.
  split; intros u; [|done]. simpl. unfold hold_e. simpl. rewrite andb_true_r.
  f_equal. by apply bool_decide_ext; split; congruence.
Qed.
Lemma on_e_client p x : on_e (p, None, x) ≡ dzero.
Proof. split; intros u; [|done]. simpl. unfold hold_e. simpl. by rewrite andb_false_r. Qed.
Lemma on_s_target t : on_s (true, Some t) ≡ on_t t.
Proof.
  split; intros u; [|done]. simpl. unfold hold_s. simpl.
  f_equal. by apply bool_decide_ext; split; congruence.
Qed.
Lemma on_s_active p : on_s (false, p) ≡ dzero.
Proof. by split. Qed.
#[export] Instance dplus_proper : Proper ((≡) ==> (≡) ==> (≡)) dplus.
Proof. intros ?? [H1 H2] ?? [H3 H4]. split; intros; simpl; by rewrite ?H1, ?H2, ?H3, ?H4. Qed.
#[export] Instance dminus_proper : Proper ((≡) ==> (≡) ==> (≡)) dminus.
Proof. intros ?? [H1 H2] ?? [H3 H4]. split; intros; simpl; by rewrite ?H1, ?H2, ?H3, ?H4. Qed.

(** References in the program's hands are few, and none is negative. *)
Definition small (d : debt) : Prop := ∀ t, (0 ≤ dt d t ≤ 2 ^ 29)%Z.
Definition smallish (d : debt) : Prop := ∀ t, (- 2 ^ 29 ≤ dt d t ≤ 2 ^ 29)%Z.
Lemma small_smallish d : small d → smallish d.
Proof. intros H t. specialize (H t). lia. Qed.

Ltac weigh :=
  split; intros; simpl; unfold b2z;
  repeat first [case_bool_decide | case_decide]; simplify_eq; try lia; try done.

Section moves.
Context `{E : CommEnv} `{R : CommMemory} `{C : CommClient} `{X : CommExterns} `{K : CommCallbacks}
  `{!CommRefLaws E R C K}.

Lemma release_views s u s' e :
  __release_conn (Some e) s = Done (u, s') → views s' = with_ve (delete e) (views s).
Proof.
  intros H. unfold __release_conn in H. do 4 skip H.
  take H y s4 H4. assert (views s4 = with_ve (delete e) (views s3)) as V.
  { simpl in H4. case_match; simplify_eq. unfold views, with_ve. simpl. by rewrite fmap_delete. }
  past H. done.
Qed.
Lemma release_counted d s u s' e k :
  counted d (views s) → ve (views s) !! e = Some k → __release_conn (Some e) s = Done (u, s') →
  counted (dplus d (on_e k)) (views s').
Proof. intros Hc Hk H. rewrite (release_views _ _ _ _ H). by apply counted_entry_delete. Qed.

(** Giving up a reference to a target: at the last one its service is given up and
    the target freed. *)
Lemma service_decref_counted d v s u s' :
  counted (dplus d (on_v v)) (views s) → service_decref (Some v) s = Done (u, s') →
  counted d (views s') ∧ vt (views s') = vt (views s) ∧ vs (views s') = vs (views s).
Proof.
  intros Hc H. unfold service_decref in H. take H y s1 H1.
  apply svc_set_inv in H1 as (x & Hx & Hvx & V).
  assert (counted d (views s1) ∧ vt (views s1) = vt (views s) ∧ vs (views s1) = vs (views s))
    as (Hc1 & Ht & Hvs).
  { rewrite V. split_and!; [|done..].
    eapply counted_eq; [|apply (counted_service _ _ Hc v (sref x) (-1) Hvx)]. weigh. }
  clear Hc V y. skip H. case_match.
  - skip H. skip H. split; [exact (keeps_unbound _ _ _ _ _ Hc1 H)|].
    rewrite <- Ht, <- Hvs. destruct u. exact (unbound_pins _ _ _ H).
  - past H. done.
Qed.

Lemma target_decref_counted_gen d t s u s' :
  smallish d → (0 ≤ trefs t (views s) + dt d t)%Z →
  counted (dplus d (on_t t)) (views s) → target_decref (Some t) s = Done (u, s') →
  counted d (views s') ∧ vs (views s') = vs (views s).
Proof.
  intros Hs H0 Hc H. destruct (Hs t) as [Hs1 Hs2].
  pose proof (counted_bounds _ _ t Hc) as Hb.
  destruct (c_live _ _ Hc t) as (r & v & Ht).
  { simpl. unfold b2z. rewrite bool_decide_true by done. lia. }
  unfold target_decref in H. take H y s1 H1.
  apply tgt_set_inv in H1 as (x & Hx & Hvx & V). rewrite Ht in Hvx.
  assert (tkey (set_t_ref (i32 (t_ref x - 1)) x) = (i32 (r - 1), Some v)) as Ek.
  { injection Hvx as -> Hv. unfold tkey. simpl. by rewrite <- Hv. }
  rewrite Ek in V. clear Ek Hvx.
  assert (counted d (views s1)) as Hc1.
  { rewrite V. eapply counted_eq; [|apply (counted_target _ _ Hc t r v (-1) Ht)].
    - weigh.
    - simpl. unfold b2z. rewrite bool_decide_true by done. lia. }
  assert (vt (views s1) !! t = Some (i32 (r - 1), Some v)) as Ht1.
  { rewrite V. apply lookup_insert_eq. }
  assert (vs (views s1) = vs (views s)) as <- by by rewrite V.
  clear V Hc Ht Hx H0 y. take H r1 s2 H2. apply obj_get_inv in H2 as (-> & l & x1 & [= <-] & Hx1 & ->).
  assert (t_ref x1 = i32 (r - 1) ∧ t_service x1 = Some v) as [Hr1 Hv1].
  { destruct (views_target _ _ _ Ht1) as (x2 & Hx2 & Hk). rewrite Hx1 in Hx2.
    injection Hx2 as ->. unfold tkey in Hk. by injection Hk. }
  rewrite Hr1 in H. destruct (i32 (r - 1) =? 0)%Z eqn:Ez; [|by past H].
  apply Z.eqb_eq in Ez. take H sv s2 H2. apply obj_get_inv in H2 as (-> & l & x2 & [= <-] & Hx2 & ->).
  assert (x2 = x1) as -> by congruence. rewrite Hv1 in H. take H y s2 H2.
  rewrite Ez in Ht1.
  destruct (service_decref_counted (dminus d (on_v v)) v s1 y s2) as (Hc2 & Ht2 & Hv2); [|done|].
  { eapply counted_eq; [|exact Hc1]. weigh. }
  rewrite <- Ht2 in Ht1. rewrite <- Hv2. clear H2 Hc1 Ht2 Hv2 Hx1 Hx2 y. skip H.
  pose proof (counted_bounds _ _ t Hc2) as Hb2.
  pose proof (c_ref _ _ Hc2 _ _ _ Ht1) as Hr. simpl in Hr. rewrite Z.sub_0_r in Hr.
  rewrite i32_small in Hr by lia.
  assert (views s' = with_vt (delete t) (views s0)) as ->.
  { simpl in H. case_match; simplify_eq. unfold views, with_vt. simpl. by rewrite fmap_delete. }
  split; [|done].
  eapply counted_eq; [|apply (counted_target_delete _ _ Hc2 t 0 v Ht1)]; [weigh|simpl; lia].
Qed.
Lemma target_decref_counted d t s u s' :
  small d → counted (dplus d (on_t t)) (views s) → target_decref (Some t) s = Done (u, s') →
  counted d (views s').
Proof.
  intros Hs Hc H. pose proof (counted_bounds _ _ t Hc). destruct (Hs t).
  eapply target_decref_counted_gen; [by apply small_smallish| |done|done]. lia.
Qed.
End moves.
