(* ===== verification/CommCountHandlers.v ===== *)
(** The handlers of results keep the reference counts. *)
From S2P Require Export CommCount.

Section handlers.
Context `{E : CommEnv} `{R : CommMemory} `{C : CommClient} `{X : CommExterns} `{K : CommCallbacks}
  `{!CommRefLaws E R C K}.
Implicit Types (d : debt) (s : commstate) (e t v l : loc).

(** ** Letting go of a connection *)

Lemma drop_server_counted_gen d s u s' e t v x :
  small d → counted d (views s) → ve (views s) !! e = Some (Some t, Some v, x) →
  (__release_conn (Some e) ;;; target_decref (Some t)) s = Done (u, s') →
  counted d (views s') ∧ vs (views s') = vs (views s).
Proof.
  intros Hs Hc He H. take H y s1 H1.
  assert (counted (dplus d (on_t t)) (views s1)) as Hc1.
  { eapply counted_eq; [|by eapply release_counted]. by rewrite on_e_target. }
  assert (vs (views s1) = vs (views s)) as <- by by rewrite (release_views _ _ _ _ H1).
  pose proof (counted_bounds _ _ t Hc1). destruct (Hs t).
  eapply target_decref_counted_gen; [by apply small_smallish| |done|done]. lia.
Qed.
Lemma drop_server_counted d s u s' e t v x :
  small d → counted d (views s) → ve (views s) !! e = Some (Some t, Some v, x) →
  (__release_conn (Some e) ;;; target_decref (Some t)) s = Done (u, s') → counted d (views s').
Proof. apply drop_server_counted_gen. Qed.
Lemma drop_client_counted d s u s' e p x :
  counted d (views s) → ve (views s) !! e = Some (p, None, x) →
  __release_conn (Some e) s = Done (u, s') → counted d (views s').
Proof.
  intros Hc He H. eapply counted_eq; [|by eapply release_counted].
  rewrite on_e_client. split; intros; simpl; lia.
Qed.

Lemma decref_server_counted d s u s' e t v x :
  small d → counted d (views s) → ve (views s) !! e = Some (Some t, Some v, x) →
  (let* n := entry_decref (Some e) in
   if (n =? 0)%Z then __release_conn (Some e) ;;; target_decref (Some t) else ret tt) s =
    Done (u, s') → counted d (views s').
Proof.
  intros Hs Hc He H. skip H. case_match; [by eapply drop_server_counted|by past H].
Qed.
Lemma decref_client_counted d s u s' e p x :
  counted d (views s) → ve (views s) !! e = Some (p, None, x) →
  (let* n := entry_decref (Some e) in
   if (n =? 0)%Z then __release_conn (Some e) else ret tt) s = Done (u, s') →
  counted d (views s').
Proof.
  intros Hc He H. skip H. case_match; [by eapply drop_client_counted|by past H].
Qed.

(** Telling a session its outcome keeps the counts and the session's connection. *)
Lemma session_handle_counted d s u s' p st er :
  counted d (views s) → session_handle p st er s = Done (u, s') →
  counted d (views s') ∧
  ∀ e k, ve (views s) !! e = Some k → k.2 = p → ve (views s') !! e = Some k.
Proof.
  intros Hc H. unfold session_handle in H. skip H as l E1. destruct p; [|done].
  unfold as_loc, ret in E1. simplify_eq. destruct st; [|done]. skip H. split.
  - by eapply keeps_handle.
  - intros e k He Hk. destruct u. exact (handle_pins _ _ _ _ _ _ _ H He Hk).
Qed.
Lemma target_release_counted d s u s' p :
  counted d (views s) → target_release p s = Done (u, s') →
  counted d (views s') ∧
  ∀ e k, ve (views s) !! e = Some k → ve (views s') !! e = Some k.
Proof.
  intros Hc H. unfold target_release in H. do 2 skip H. split.
  - by eapply keeps_release.
  - intros e k He. destruct u. exact (release_pins _ _ _ _ _ H He).
Qed.

(** ** Read results *)

(** The session of a complete request is the passive one that [create_request] made. *)
Definition session_passive (w : refview) (x : ptr) : Prop :=
  ∀ l k, x = Some l → vs w !! l = Some k → k.1 = true.

(** What the [switch] leaves: the entry or NULL, no session or the entry's. *)
Definition incoming_ok (e : loc) (x : ptr) (i : incoming) : Prop :=
  (i_entry i = Some e ∨ i_entry i = None) ∧ (i_session i = None ∨ i_session i = x).

Lemma set_passive_views n p s u s' :
  n ≠ 0%Z → session_passive (views s) (Some p) → ses_set (set_passive n) (Some p) s = Done (u, s') →
  views s' = views s.
Proof.
  intros Hn Hp H. simpl in H. case_match eqn:Hse; simplify_eq. unfold views. simpl. f_equal.
  - eapply fmap_insert_same; [done|]. unfold skey. simpl.
    assert (negb (passive c =? 0)%Z = true) as ->.
    { apply (Hp p (skey c)); [done|]. simpl. by rewrite lookup_fmap, Hse. }
    f_equal. apply negb_true_iff, Z.eqb_neq. done.
  - f_equal. by eapply fmap_insert_same.
Qed.

Lemma incoming_request_views res e (tp : ptr) (k : ptr * ptr * ptr) s i s' :
  ve (views s) !! e = Some k → (pr_state res = PR_ST_SUCCESS → session_passive (views s) k.2) →
  incoming_request res (Some e) tp s = Done (i, s') →
  views s' = views s ∧ incoming_ok e k.2 i.
Proof.
  intros He Hp H. unfold incoming_request in H. case_match eqn:Est.
  - apply Z.eqb_eq in Est. specialize (Hp Est). read_session H He.
    do 3 skip H. take H y s4 H4. destruct k.2 as [p|]; [|done].
    rewrite <- (set_passive_views 2 _ _ _ _ ltac:(done) Hp H4). clear H4. skip H.
    injection H as <- <-. split; [done|]. split; [by left|by right].
  - case_match; [|by injection H as <- <-; split; [|split; [left|left]]].
    do 2 skip H. take H r s2 H2.
    assert (views s2 = views s1 ∧ incoming_ok e k.2 r) as [<- Hr].
    { repeat case_match; repeat first [read_session H2 He | skip H2]; injection H2 as <- <-;
        (split; [done|]); split; simpl; auto. }
    skip H. injection H as <- <-. done.
Qed.

Lemma incoming_reply_session res e (tp : ptr) (k : ptr * ptr * ptr) s i s' :
  ve (views s) !! e = Some k → incoming_reply res (Some e) tp s = Done (i, s') →
  incoming_ok e k.2 i.
Proof.
  intros He H. unfold incoming_reply in H. case_match eqn:Est.
  - read_session H He. do 4 skip H. injection H as <- <-. split; [by left|by right].
  - case_match; [|by injection H as <- <-; split; [left|left]].
    do 3 skip H. take H r sr H2.
    assert (incoming_ok e k.2 r) as Hr.
    { repeat case_match; repeat first [read_session H2 He | skip H2]; injection H2 as <- <-;
        split; simpl; auto. }
    past H2. do 2 skip H. by injection H as <- <-.
Qed.

Lemma incoming_request_counted d s u s' res e t v x :
  small d → counted d (views s) → ve (views s) !! e = Some (Some t, Some v, x) →
  context (pr_data res) = Some e →
  (pr_state res = PR_ST_SUCCESS → session_passive (views s) x) →
  handle_incoming_request res s = Done (u, s') → counted d (views s').
Proof.
  intros Hs Hc He Hctx Hp H. unfold handle_incoming_request in H. rewrite Hctx in H.
  read_target H He. take H i s1 H1.
  destruct (incoming_request_views _ _ _ _ _ _ _ He Hp H1) as [V [Hi Hj]]. clear Hp.
  same_obs views V s. clear V H1.
  destruct Hi as [Hi|Hi]; rewrite Hi in H; [|by past H]. simpl in H.
  take H y s2 H2. assert (counted d (views s2) ∧
    ve (views s2) !! e = Some (Some t, Some v, x)) as [Hc2 He2].
  { destruct Hj as [Hj|Hj]; rewrite Hj in H2; [by past H2|].
    case_match; [|by past H2].
    destruct (session_handle_counted _ _ _ _ _ _ _ Hc H2) as [? Hpin]. auto. }
  by eapply decref_server_counted.
Qed.

Lemma incoming_reply_counted d s u s' res e p x :
  counted d (views s) → ve (views s) !! e = Some (p, None, x) →
  context (pr_data res) = Some e →
  handle_incoming_reply res s = Done (u, s') → counted d (views s').
Proof.
  intros Hc He Hctx H. unfold handle_incoming_reply in H. rewrite Hctx in H.
  read_target H He. take H i s1 H1.
  destruct (incoming_reply_session _ _ _ _ _ _ _ He H1) as [Hi Hj]. past H1. clear H1.
  destruct Hi as [Hi|Hi]; rewrite Hi in H; [|by past H]. simpl in H.
  take H y s2 H2. assert (counted d (views s2) ∧
    ve (views s2) !! e = Some (p, None, x)) as [Hc2 He2].
  { destruct Hj as [Hj|Hj]; rewrite Hj in H2; [by past H2|].
    case_match; [|by past H2]. take H2 z s3 H3.
    destruct (target_release_counted _ _ _ _ _ Hc H3) as [Hc3 Hpin].
    destruct (session_handle_counted _ _ _ _ _ _ _ Hc3 H2) as [? Hpin2]. auto. }
  by eapply decref_client_counted.
Qed.

(** A read result on a connection that is there. *)
Lemma read_result_counted d s u s' res e t sv x :
  small d → counted d (views s) → ve (views s) !! e = Some (Some t, sv, x) →
  context (pr_data res) = Some e →
  (pr_state res = PR_ST_SUCCESS → is_Some sv → session_passive (views s) x) →
  handle_read_result res s = Done (u, s') → counted d (views s').
Proof.
  intros Hs Hc He Hctx Hp H. unfold handle_read_result in H. rewrite Hctx in H.
  case_match; [|by past H]. read_service H He. destruct sv as [v|]; simpl in H.
  - eapply incoming_request_counted; eauto.
  - by eapply incoming_reply_counted.
Qed.

(** ** Write results *)

Lemma replied_counted d s u s' e t v x st er :
  small d → counted d (views s) → ve (views s) !! e = Some (Some t, Some v, x) →
  replied (Some e) x (Some t) st er s = Done (u, s') → counted d (views s').
Proof.
  intros Hs Hc He H. unfold replied in H. take H y s1 H1.
  destruct (session_handle_counted _ _ _ _ _ _ _ Hc H1) as [Hc1 Hpin].
  eapply decref_server_counted; eauto.
Qed.
Lemma request_failed_counted d s u s' e p x st er :
  counted d (views s) → ve (views s) !! e = Some (p, None, x) →
  request_failed (Some e) x st er s = Done (u, s') → counted d (views s').
Proof.
  intros Hc He H. unfold request_failed in H. read_target H He. take H y s1 H1.
  destruct (target_release_counted _ _ _ _ _ Hc H1) as [Hc1 Hpin1]. take H z s2 H2.
  destruct (session_handle_counted _ _ _ _ _ _ _ Hc1 H2) as [Hc2 Hpin2].
  assert (ve (views s2) !! e = Some (p, None, x)) as He2 by auto. do 2 skip H.
  eapply decref_client_counted; eauto.
Qed.

Lemma write_result_counted d s u s' res e t sv x :
  small d → counted d (views s) → ve (views s) !! e = Some (Some t, sv, x) →
  context (pr_data res) = Some e →
  handle_write_result res s = Done (u, s') → counted d (views s').
Proof.
  intros Hs Hc He Hctx H. unfold handle_write_result in H. rewrite Hctx in H. do 2 skip H.
  read_service H He. destruct sv as [v|]; simpl in H.
  - unfold handle_reply_result in H. rewrite Hctx in H.
    read_service H He. read_session H He. read_target H He. case_match.
    + do 3 skip H. by eapply replied_counted.
    + case_match; [by eapply replied_counted|by past H].
  - unfold handle_request_result in H. rewrite Hctx in H. read_session H He. case_match.
    + do 2 skip H. skip H. case_match; [by past H|]. skip H. by eapply request_failed_counted.
    + case_match; [by eapply request_failed_counted|by past H].
Qed.

(** ** New connections *)

Lemma connect_result_counted d s u s' fuel res e p x :
  counted d (views s) → ve (views s) !! e = Some (p, None, x) →
  context (pr_data res) = Some e →
  handle_connect_result fuel res s = Done (u, s') → counted d (views s').
Proof.
  intros Hc He Hctx H. unfold handle_connect_result in H. rewrite Hctx in H.
  read_session H He. read_target H He.
  assert (∀ s st er u, counted d (views s) → ve (views s) !! e = Some (p, None, x) →
    connect_failed (Some e) x p st er s = Done (u, s') → counted d (views s')) as Hfail.
  { clear s u Hc He H. intros s st er u Hc He H. unfold connect_failed in H. take H y s1 H1.
    destruct (target_release_counted _ _ _ _ _ Hc H1) as [Hc1 Hpin1]. take H z s2 H2.
    destruct (session_handle_counted _ _ _ _ _ _ _ Hc1 H2) as [Hc2 Hpin2].
    eapply drop_client_counted; eauto. }
  case_match.
  - do 4 skip H. case_match; [by past H|]. skip H. by eapply Hfail.
  - case_match; [by eapply Hfail|by past H].
Qed.
End handlers.
