(* ===== verification/CommCountAccept.v ===== *)
(** Connections and targets that come and go with a service, and the counts. *)
From S2P Require Export CommCountHandlers.

Section accept.
Context `{E : CommEnv} `{R : CommMemory} `{C : CommClient} `{X : CommExterns} `{K : CommCallbacks}
  `{!CommRefLaws E R C K}.
Implicit Types (d : debt) (s : commstate) (e t v l : loc).

Lemma new_entry_inv s p s' :
  new_entry s = Done (p, s') →
  (p = None ∧ s' = s) ∨
  ∃ l, p = Some l ∧ ve (views s) !! l = None ∧ (Zpos l < max_addr)%Z ∧
       views s' = with_ve <[l := ekey (junk_entry s)]> (views s).
Proof.
  intros H. unfold new_entry in H. case_match eqn:Em; simplify_eq; [right|by left].
  apply cmalloc_fresh in Em as [Hn Hb]. eexists. split_and!; [done| |done|].
  - simpl. by rewrite lookup_fmap, Hn.
  - unfold views, with_ve. simpl. by rewrite fmap_insert.
Qed.

Lemma free_entry_counted d s u s' e k :
  counted d (views s) → ve (views s) !! e = Some k → free_entry (Some e) s = Done (u, s') →
  counted (dplus d (on_e k)) (views s').
Proof.
  intros Hc Hk H. unfold free_entry in H.
  take H y s4 H4. assert (views s4 = with_ve (delete e) (views s)) as V.
  { simpl in H4. case_match; simplify_eq. unfold views, with_ve. simpl. by rewrite fmap_delete. }
  past H. rewrite V. by apply counted_entry_delete.
Qed.

(** A new entry written and then used: what it held of its junk is given back. *)
Lemma entry_init_counted d s u s' e k f k' :
  counted (dminus d (on_e k)) (views s) → ve (views s) !! e = Some k →
  ent_set f (Some e) s = Done (u, s') → (∀ en, ekey (f en) = k' (ekey en)) →
  counted (dminus d (on_e (k' k))) (views s') ∧ ve (views s') !! e = Some (k' k).
Proof.
  intros Hc He H Hf. apply ent_set_inv in H as (en & Hen & Hk & V).
  rewrite He in Hk. simplify_eq. rewrite V, Hf. split; [|by apply lookup_insert_eq].
  eapply counted_eq; [|apply (counted_entry _ _ Hc _ _ (k' (ekey en)) He)].
  split; intros; simpl; lia.
Qed.

Lemma accept_conn_counted d s p s' t v :
  counted d (views s) → accept_conn (Some t) (Some v) s = Done (p, s') →
  match p with
  | None => counted d (views s')
  | Some e => counted (dminus d (on_t t)) (views s') ∧
              ∃ x, ve (views s') !! e = Some (Some t, Some v, x)
  end.
Proof.
  intros Hc H. unfold accept_conn in H. do 2 skip H. case_match; [|by injection H as <- <-].
  take H q s2 H2. apply new_entry_inv in H2 as [[-> ->]|(e & -> & Hn & Hb & V)];
    [by injection H as <- <-|].
  pose proof (counted_entry_new _ _ Hc e (ekey (junk_entry s1)) Hn Hb) as Hc2.
  assert (ve (views s2) !! e = Some (ekey (junk_entry s1))) as He
    by (rewrite V; apply lookup_insert_eq).
  rewrite <- V in Hc2. clear V Hc Hn. simpl in H. do 3 skip H. case_match.
  - skip H. take H y s8 H8.
    destruct (entry_init_counted _ _ _ _ _ _ _ (λ k, (Some t, Some v, k.2)) Hc2 He
                H8 (λ _, eq_refl)) as [Hc8 He8].
    injection H as <- <-. split; [|by eexists].
    by rewrite <- (on_e_target t v (ekey (junk_entry s1)).2).
  - take H y s8 H8. injection H as <- <-.
    eapply counted_eq; [|by eapply free_entry_counted].
    split; intros; simpl; lia.
Qed.

(** ** Listening *)

Lemma service_shutdown_counted d s u s' v :
  counted (dplus d (on_v v)) (views s) → shutdown_service (Some v) s = Done (u, s') →
  counted d (views s').
Proof.
  intros Hc H. unfold shutdown_service in H. do 4 skip H.
  by destruct (service_decref_counted _ _ _ _ _ Hc H).
Qed.

(** A result of a listening service: an accepted target's reference passes to its
    connection, or is given up; a deletion gives up the listening one. *)
Definition listen_debt (res : poller_result) (d : debt) : debt :=
  if (pr_state res =? PR_ST_SUCCESS)%Z then
    match result_ptr (pr_data res) with Some t => dminus d (on_t t) | None => d end
  else if (pr_state res =? PR_ST_DELETED)%Z then
    match context (pr_data res) with Some v => dminus d (on_v v) | None => d end
  else d.

Lemma service_result_counted d s u s' res :
  (pr_state res =? PR_ST_SUCCESS)%Z = false → counted d (views s) →
  service_result res s = Done (u, s') → counted (listen_debt res d) (views s').
Proof.
  intros Hst Hc H. unfold service_result, listen_debt in *. rewrite Hst. case_match.
  - destruct (context (pr_data res)) as [v|].
    + eapply service_shutdown_counted; [|done]. eapply counted_eq; [|done]. split; intros; simpl; lia.
    + unfold shutdown_service in H. take H y s1 H1. done.
  - case_match; [|by past H]. unfold service_stopped in H. do 2 skip H. by eapply keeps_stop.
Qed.

Lemma listen_result_counted d s u s' res t v :
  small (dminus d (on_t t)) → counted d (views s) →
  result_ptr (pr_data res) = Some t → context (pr_data res) = Some v →
  handle_listen_result res s = Done (u, s') → counted (listen_debt res d) (views s').
Proof.
  intros Hs Hc Ht Hv H. unfold handle_listen_result in H. case_match eqn:Hst;
    [|by eapply service_result_counted].
  unfold listen_debt. rewrite Hst, Ht, Hv in *.
  take H p s1 H1. pose proof (accept_conn_counted _ _ _ _ _ _ Hc H1) as Ha. clear Hc H1.
  assert (∀ s u, counted d (views s) → target_decref (Some t) s = Done (u, s') →
    counted (dminus d (on_t t)) (views s')) as Hdecref.
  { clear H. intros s2 u2 Hc2 H. eapply target_decref_counted; [done| |done].
    eapply counted_eq; [|done]. split; intros; simpl; lia. }
  destruct p as [e|]; simpl in H.
  - destruct Ha as (Hc & x & He). take H b s2 H2.
    assert (if b : bool then counted (dminus d (on_t t)) (views s2) else counted d (views s2)) as Hb.
    { do 5 skip H2. branch H2; [by injection H2 as <- <-|]. take H2 y s9 H9.
      injection H2 as <- <-. eapply counted_eq; [|by eapply release_counted].
      rewrite on_e_target. split; intros; simpl; lia. }
    destruct b; [by past H|by eapply Hdecref].
  - take H b s2 H2. do 2 skip H2. injection H2 as <- <-. by eapply Hdecref.
Qed.

Lemma recvfrom_result_counted d s u s' res e t v x :
  small d → counted d (views s) →
  (pr_state res = PR_ST_SUCCESS →
   result_ptr (pr_data res) = Some e ∧ ve (views s) !! e = Some (Some t, Some v, x)) →
  handle_recvfrom_result res s = Done (u, s') →
  counted (if (pr_state res =? PR_ST_SUCCESS)%Z then d else listen_debt res d) (views s').
Proof.
  intros Hs Hc Hres H. unfold handle_recvfrom_result in H. branch H;
    [|by eapply service_result_counted].
  destruct Hres as [Hp He]; [by apply Z.eqb_eq|]. rewrite Hp in H. read_target H He.
  do 2 skip H. read_session H He. take H y s4 H4.
  destruct (session_handle_counted _ _ _ _ _ _ _ Hc H4) as [Hc4 Hpin].
  branch H; [|by past H]. eapply drop_server_counted; [done|done| |done]. by apply Hpin.
Qed.

(** ** Requests that arrive *)

(** Writing a session moves what it held to what it holds. *)
Lemma session_write_counted d s u s' l k f k' :
  counted (dminus d (on_s k)) (views s) → vs (views s) !! l = Some k →
  ses_set f (Some l) s = Done (u, s') → (∀ se, skey (f se) = k' (skey se)) →
  counted (dminus d (on_s (k' k))) (views s') ∧ vs (views s') !! l = Some (k' k) ∧
  ve (views s') = ve (views s) ∧ vt (views s') = vt (views s).
Proof.
  intros Hc Hl H Hf. apply ses_set_inv in H as (se & Hse & Hk & V1 & V2 & V3 & V4).
  rewrite Hl in Hk. simplify_eq. rewrite Hf in V1, V2, V3, V4. split_and!; [| |by rewrite V1|by rewrite V3].
  - eapply counted_ext; [exact V1|exact V2|exact V3|exact V4|].
    eapply counted_eq; [|apply (counted_session _ _ Hc _ _ (k' (skey se)) Hl)].
    split; intros; simpl; lia.
  - rewrite V2. apply lookup_insert_eq.
Qed.
(** The session of an entry holds nothing. *)
Lemma entry_session_counted d s u s' e k x :
  counted d (views s) → ve (views s) !! e = Some k →
  ent_set (set_session_ x) (Some e) s = Done (u, s') →
  counted d (views s') ∧ ve (views s') !! e = Some (k.1, x) ∧ vs (views s') = vs (views s) ∧
  vt (views s') = vt (views s).
Proof.
  intros Hc He H. apply ent_set_inv in H as (en & Hen & Hk & V).
  rewrite He in Hk. simplify_eq. rewrite V. split_and!; [|by apply lookup_insert_eq|done..].
  eapply counted_eq; [|apply (counted_entry _ _ Hc _ _ (ekey (set_session_ x en)) He)].
  split; intros; simpl; [|lia]. unfold hold_e. simpl. lia.
Qed.

(** [begin_session] makes a passive session of the entry's target, whose reference is
    taken next. *)
Lemma begin_session_counted d s p s' e t v x :
  counted d (views s) → ve (views s) !! e = Some (Some t, Some v, x) →
  begin_session (Some e) (Some v) (Some t) s = Done (p, s') →
  match p with
  | None => counted d (views s')
  | Some l => counted (dminus d (on_t t)) (views s')
  end ∧ (∃ x', ve (views s') !! e = Some (Some t, Some v, x')) ∧
  vt (views s') = vt (views s).
Proof.
  intros Hc He H. unfold begin_session in H. do 3 skip H. take H q s3 H3.
  apply new_session_new in H3 as (V1 & V2 & V3 & Hq).
  destruct q as [l|]; simpl in H.
  - destruct Hq as (p0 & Hn & Hb & V4).
    pose proof (counted_session_new _ _ Hc l (false, p0) Hn Hb) as Hc3.
    apply (counted_ext _ _ (views s3)) in Hc3; [|done..]. rewrite <- V1 in He.
    assert (vs (views s3) !! l = Some (false, p0)) as Hl by (rewrite V4; apply lookup_insert_eq).
    clear V1 V3 V4 Hc Hn. take H y s4 H4.
    destruct (session_write_counted _ _ _ _ _ _ _ (λ k, (true, k.2)) Hc3 Hl H4 (λ _, eq_refl))
      as (Hc4 & Hl4 & V4 & T4). rewrite <- V4 in He. rewrite <- V2, <- T4. clear y V2 T4 V4 H4 Hc3 Hl. take H y s5 H5.
    destruct (entry_session_counted _ _ _ _ _ _ _ Hc4 He H5) as (Hc5 & He5 & V5 & T5).
    rewrite <- V5 in Hl4. rewrite <- T5. clear y V5 T5 H5 He Hc4. take H y s6 H6.
    destruct (session_write_counted _ _ _ _ _ _ _ (λ k, (k.1, Some t)) Hc5 Hl4 H6 (λ _, eq_refl))
      as (Hc6 & Hl6 & V6 & T6). rewrite <- V6 in He5. rewrite <- T6. clear y V6 T6 H6 Hc5 Hl4. do 5 skip H.
    take H y sz H7. destruct (mild_ses_set (set_s_in None) _ (λ _, eq_refl) _ _ _ H7) as (M1 & M2 & M3 & M4).
    injection H as <- <-. rewrite M1, M3. split_and!; [|by eexists|done].
    eapply counted_ext; [done..|]. by rewrite <- (on_s_target t).
  - injection H as <- <-. split_and!; [|by exists x; rewrite V1|done].
    by eapply counted_ext.
Qed.

Lemma service_target d s e t v x :
  small d → counted d (views s) → ve (views s) !! e = Some (Some t, Some v, x) →
  ∃ r v, vt (views s) !! t = Some (r, Some v).
Proof.
  intros Hs Hc He. eapply c_live; [done|]. destruct (Hs t) as [Hs0 _].
  pose proof (msum_ge (hold_e t) _ _ _ (λ k, proj1 (hold_e_bounds t k)) He) as H1.
  pose proof (msum_bounds (hold_s t) (vs (views s)) (hold_s_bounds t)) as H2.
  assert (hold_e t (Some t, Some v, x) = 1%Z) as E1.
  { unfold hold_e. simpl. by rewrite bool_decide_true. }
  unfold trefs. lia.
Qed.

Lemma incref_counted d s u s' t r v :
  counted (dminus d (on_t t)) (views s) → vt (views s) !! t = Some (r, Some v) →
  target_incref (Some t) s = Done (u, s') →
  counted d (views s') ∧ ve (views s') = ve (views s).
Proof.
  intros Hc Ht H. unfold target_incref in H. apply tgt_set_inv in H as (y & Hy & Hk & V).
  rewrite Ht in Hk. assert (tkey (set_t_ref (i32 (t_ref y + 1)) y) = (i32 (r + 1), Some v)) as Ek.
  { injection Hk as -> Hv. unfold tkey. simpl. by rewrite <- Hv. }
  rewrite V, Ek. split; [|done]. pose proof (c_nonneg _ _ Hc t).
  eapply counted_eq; [|apply (counted_target _ _ Hc t r v 1 Ht); lia]. weigh.
Qed.

(** A request arrives on a connection: its session takes a reference. *)
Lemma create_request_counted d s p s' e t v x :
  small d → counted d (views s) → ve (views s) !! e = Some (Some t, Some v, x) →
  create_request (Some e) s = Done (p, s') → counted d (views s').
Proof.
  intros Hs Hc He H. unfold create_request in H. read_service H He. read_target H He.
  skip H. branch H; [skip H; by past H|]. take H q s2 H2.
  destruct (service_target _ _ _ _ _ _ Hs Hc He) as (r & v' & Ht).
  destruct (begin_session_counted _ _ _ _ _ _ _ _ Hc He H2) as (Hc2 & _ & V).
  destruct q as [l|]; simpl in H; [|by past H]. rewrite <- V in Ht. clear V Hc H2.
  do 5 skip H. take H y s9 H9.
  destruct (incref_counted _ _ _ _ _ _ _ Hc2 Ht H9) as [Hc9 _].
  exact (mild_keeps _ (mild_message_of _ _ _) _ _ _ _ Hc9 H).
Qed.

Lemma recv_request_counted d s fuel buf r s' e t v x :
  small d → counted d (views s) → ve (views s) !! e = Some (Some t, Some v, x) →
  recv_request fuel buf (Some e) s = Done (r, s') →
  counted d (views s') ∧ ∃ x', ve (views s') !! e = Some (Some t, Some v, x').
Proof.
  intros Hs Hc He H. unfold recv_request in H. read_service H He. read_target H He.
  take H q s2 H2. destruct (service_target _ _ _ _ _ _ Hs Hc He) as (n & v' & Ht).
  destruct (begin_session_counted _ _ _ _ _ _ _ _ Hc He H2) as (Hc2 & He2 & V).
  destruct q as [l|]; simpl in H; [|by past H]. rewrite <- V in Ht. clear V Hc H2 He x.
  destruct He2 as [x He]. skip H. take H y s9 H9.
  destruct (incref_counted _ _ _ _ _ _ _ Hc2 Ht H9) as [Hc9 V9]. rewrite <- V9 in He.
  clear V9 H9. take H i sm Hm.
  pose proof (mild_keeps _ (mild_message_of _ _ _) _ _ _ _ Hc9 Hm) as Hc10.
  destruct (mild_message_of _ _ _ _ _ _ Hm) as [V10 _]. rewrite <- V10 in He. clear Hc9 V10 Hm.
  destruct i; [skip H|]; past H; eauto.
Qed.

(** ** Callbacks of the listening socket *)

(** A new target counts the one reference that its result carries to the handler. *)
Lemma adopt_counted d s u s' t v fd r :
  counted d (views s) → vt (views s) !! t = Some (r, None) →
  adopt (Some t) (Some v) fd s = Done (u, s') → counted (dplus d (on_t t)) (views s').
Proof.
  intros Hc Ht H. unfold adopt, service_incref in H. take H z s1 H1.
  apply svc_set_inv in H1 as (sv & _ & Hsv & V1).
  apply tgt_set_inv in H as (y' & _ & _ & V).
  pose proof (counted_service _ _ Hc v (sref sv) 1 Hsv) as Hc1.
  change (sref (set_sref (i32 (sref sv + 1)) sv)) with (i32 (sref sv + 1)) in V1.
  rewrite <- V1 in Hc1. assert (vt (views s1) !! t = Some (r, None)) as Ht1 by by rewrite V1.
  rewrite V. eapply counted_eq; [|apply (counted_target_adopt _ _ Hc1 t r v Ht1)]. weigh.
Qed.

Lemma accept_counted d s p s' addr len fd v :
  counted d (views s) → accept addr len fd (Some v) s = Done (p, s') →
  match p with None => counted d (views s') | Some t => counted (dplus d (on_t t)) (views s') end.
Proof.
  intros Hc H. unfold accept in H. take H q s1 H1. unfold new_target in H1. simplify_eq.
  set (t := new_addr s) in *. assert (vt (views s) !! t = None) as Hn.
  { simpl. rewrite lookup_fmap. unfold t. by rewrite new_fresh. }
  match type of H with _ ?s0 = _ => set (s1 := s0) in * end.
  assert (views s1 = with_vt <[t := (0%Z, None)]> (views s)) as V.
  { unfold views, with_vt. simpl. by rewrite fmap_insert. }
  pose proof (counted_target_other _ _ Hc (insert t (0%Z, None)) t 0%Z ltac:(by left)) as Hc1.
  assert (vt (views s1) !! t = Some (0%Z, None)) as Ht by (rewrite V; apply lookup_insert_eq).
  rewrite <- V in Hc1. clearbody s1. clearbody t. clear V Hc Hn s. simpl in H.
  take H ok s2 H2. do 2 skip H2. branch H2.
  - take H2 y s5 H5. injection H2 as <- <-. injection H as <- <-. by eapply adopt_counted.
  - take H2 y s5 H5. injection H2 as <- <-.
    assert (counted d (views s5)) as Hc5.
    { assert (views s5 = with_vt (delete t) (views s0)) as ->.
      { simpl in H5. case_match; simplify_eq. unfold views, with_vt. simpl. by rewrite fmap_delete. }
      apply (counted_target_other _ _ Hc1 _ t 0%Z). right. eauto. }
    skip H. by injection H as <- <-.
Qed.

Lemma recvfrom_counted d s fuel addr len buf p s' v :
  small d → counted d (views s) → recvfrom fuel addr len buf (Some v) s = Done (p, s') →
  counted d (views s').
Proof.
  intros Hs Hc H. unfold recvfrom in H. do 2 skip H. branch H; [|by past H].
  take H q s2 H2. pose proof (accept_counted _ _ _ _ _ _ _ _ Hc H2) as Ha. clear Hc H2.
  destruct q as [t|]; simpl in H; [|by past H].
  assert (∀ s, counted (dplus d (on_t t)) (views s) →
    (target_decref (Some t) ;;; ret None) s = Done (p, s') → counted d (views s')) as Hdrop.
  { clear - Hs K CommRefLaws0. intros s Hc H. take H y s1 H1. injection H as <- <-.
    by eapply target_decref_counted. }
  take H q s3 H3. pose proof (accept_conn_counted _ _ _ _ _ _ Ha H3) as Hb. clear Ha H3.
  destruct q as [e|]; simpl in H.
  - destruct Hb as (Hc & xe & He). take H b s4 H4. take H4 r s5 H5.
    assert (counted d (views s3)) as Hc3.
    { eapply counted_eq; [|exact Hc]. split; intros; simpl; lia. }
    destruct (recv_request_counted _ _ _ _ _ _ _ _ _ _ Hs Hc3 He H5) as (Hc5 & x' & He5).
    branch H4; [injection H4 as <- <-; by past H|]. take H4 y s6 H6. injection H4 as <- <-.
    eapply Hdrop; [|done]. eapply counted_eq; [|by eapply release_counted].
    by rewrite on_e_target.
  - take H b s4 H4. skip H4. injection H4 as <- <-. by eapply Hdrop.
Qed.
End accept.
