(* ===== verification/CommCountInterface.v ===== *)
(** The calls of the client, and the counts. *)
From S2P Require Export CommCountAccept.

Section interface.
Context `{E : CommEnv} `{R : CommMemory} `{C : CommClient} `{X : CommExterns} `{K : CommCallbacks}
  `{!CommRefLaws E R C K}.
Implicit Types (d : debt) (s : commstate) (e t v l : loc).

(** ** Requests *)

Lemma ses_set_active_counted d s u s' l f :
  counted d (views s) → (∃ p, vs (views s) !! l = Some (false, p)) →
  ses_set f (Some l) s = Done (u, s') → (∀ se, (skey (f se)).1 = (skey se).1) →
  counted d (views s') ∧ ∃ p, vs (views s') !! l = Some (false, p).
Proof.
  intros Hc (p & Hl) H Hf. apply ses_set_inv in H as (se & Hse & Hk & V1 & V2 & V3 & V4).
  rewrite Hl in Hk. assert (skey se = (false, p)) as Hk2 by congruence.
  assert ((skey (f se)).1 = false) as Hf2 by by rewrite Hf, Hk2.
  destruct (skey (f se)) as [b q]. cbn [fst] in Hf2. subst b. split.
  - eapply counted_ext; [exact V1|exact V2|exact V3|exact V4|].
    eapply counted_eq; [|apply (counted_session _ _ Hc _ _ (false, q) Hl)].
    rewrite !on_s_active. split; intros; simpl; lia.
  - exists q. rewrite V2. apply lookup_insert_eq.
Qed.

Lemma launch_conn_counted d s p s' x (tp : ptr) :
  counted d (views s) → launch_conn x tp s = Done (p, s') →
  counted d (views s') ∧ ∀ e, p = Some e → ∃ k, ve (views s') !! e = Some (k, None, x).
Proof.
  intros Hc H. unfold launch_conn in H. skip H. branch H; [|past H; by injection H as <- <-].
  take H q s2 H2. apply new_entry_inv in H2 as [[-> ->]|(e & -> & Hn & Hb & V)].
  { simpl in H. rewrite ret_bnd in H. skip H. by injection H as <- <-. }
  pose proof (counted_entry_new _ _ Hc e (ekey (junk_entry s0)) Hn Hb) as Hc2.
  assert (ve (views s2) !! e = Some (ekey (junk_entry s0))) as He
    by (rewrite V; apply lookup_insert_eq).
  rewrite <- V in Hc2. clear V Hc Hn. simpl in H.
  take H b s3 H3. skip H3. take H3 ok s5 H5.
  assert (if ok : bool then counted d (views s5) ∧ ∃ k, ve (views s5) !! e = Some (k, None, x)
          else counted (dminus d (on_e (ekey (junk_entry s0)))) (views s5) ∧
               ve (views s5) !! e = Some (ekey (junk_entry s0))) as Hok.
  { branch H5; [|skip H5; by injection H5 as <- <-]. do 2 skip H5.
    branch H5; [|by injection H5 as <- <-]. take H5 y s8 H8.
    destruct (entry_init_counted _ _ _ _ _ _ _ (λ k, (tp, None, x)) Hc2 He H8 (λ _, eq_refl))
      as [Hc8 He8]. injection H5 as <- <-. split; [|by eexists].
    eapply counted_eq; [|exact Hc8]. rewrite on_e_client. split; intros; simpl; lia. }
  destruct ok.
  - destruct Hok as [Hc5 He5]. skip H3. injection H3 as <- <-. injection H as <- <-.
    split; [done|]. by intros ? [= <-].
  - destruct Hok as [Hc5 He5]. take H3 y s6 H6. injection H3 as <- <-.
    pose proof (free_entry_counted _ _ _ _ _ _ Hc5 He5 H6) as Hc6. skip H. injection H as <- <-.
    split; [|done]. eapply counted_eq; [|exact Hc6]. split; intros; simpl; lia.
Qed.

Lemma request_idle_counted d s fuel r s' x (tp : ptr) :
  counted d (views s) → request_idle_conn fuel x tp s = Done (r, s') → counted d (views s').
Proof.
  intros Hc H. unfold request_idle_conn in H. skip H as p E1. clear E1.
  destruct p as [e|]; simpl in H; [|by past H]. take H y s1 H1.
  pose proof (ent_set_inv _ _ _ _ _ H1) as (en & _ & He & _).
  destruct (entry_session_counted _ _ _ _ _ _ _ Hc He H1) as [Hc1 _]. do 4 skip H.
  by injection H as <- <-.
Qed.

Lemma request_new_counted d s r s' x (tp : ptr) :
  counted d (views s) → request_new_conn x tp s = Done (r, s') → counted d (views s').
Proof.
  intros Hc H. unfold request_new_conn in H. take H p s1 H1.
  destruct (launch_conn_counted _ _ _ _ _ _ Hc H1) as [Hc1 He]. clear H1.
  destruct p as [e|]; simpl in H; [|by injection H as <- <-].
  destruct (He e eq_refl) as (k & Hk). clear He. do 8 skip H. branch H; [by past H|].
  take H y s9 H9. injection H as <- <-. by eapply drop_client_counted.
Qed.

Lemma request_counted d s fuel r s' l (tp : ptr) :
  counted d (views s) → request fuel (Some l) tp s = Done (r, s') → counted d (views s').
Proof.
  intros Hc H. unfold request in H. take H p s1 H1.
  apply obj_get_inv in H1 as (-> & ? & se & [= <-] & Hse & ->).
  branch H; [skip H; by past H|].
  assert (∃ p, vs (views s) !! l = Some (false, p)) as Hl.
  { exists (s_target se). simpl. rewrite lookup_fmap, Hse. simpl. unfold skey. by rewrite Heqb. }
  skip H. do 3 (let H1 := fresh in let sx := fresh "s" in take H y sx H1;
    destruct (ses_set_active_counted _ _ _ _ _ _ Hc Hl H1 (λ _, eq_refl)) as [Hc' Hl'];
    clear H1 Hc Hl y; rename Hc' into Hc, Hl' into Hl).
  take H r1 sa H2. pose proof (request_idle_counted _ _ _ _ _ _ _ Hc H2) as Hc2.
  take H r2 sb H3. assert (counted d (views sb)) as Hc3.
  { branch H3; [by eapply request_new_counted|by injection H3 as <- <-]. }
  branch H; [skip H|skip H]; by injection H as <- <-.
Qed.

(** ** Services *)

(** Whether [bind] gets as far as counting the listening socket; whether [unbind]
    leaves the listening socket to the mpoller, which will give it up. *)
Definition listens (v : loc) (s : commstate) : bool :=
  match nonblock_listen (Some v) s with Done (fd, _) => (0 <=? fd)%Z | _ => false end.
Definition watched (v : loc) (s : commstate) : bool :=
  match svc_get listen_fd (Some v) s with
  | Done (fd, _) => (0 <=? (ccall_result (KDel fd (comm_mpoller s)) s).1)%Z
  | _ => false
  end.

(** [n] more references to the service [v]. *)
Definition more_v (v : loc) (n : Z) : debt :=
  Debt (λ _, 0%Z) (λ u, if decide (u = v) then n else 0%Z).

(** [bind] sets the count of a service to 1, for its listening socket. It does so before
    it gives the socket to the mpoller, and when that fails the count stays. *)
Lemma bind_counted d s r s' v n :
  counted d (views s) → (vrefs v (views s) + dv d v + n = 1)%Z → bind (Some v) s = Done (r, s') →
  counted (if listens v s then dplus d (more_v v n) else d) (views s').
Proof.
  intros Hc H0 H. unfold bind in H. take H e1 sx H1. apply gets_inv in H1 as [-> ->].
  take H sfd s1 H1. unfold listens. rewrite H1. past H1. clear H1.
  branch H; [|by injection H as <- <-].
  skip H. take H y sa H2. apply svc_set_inv in H2 as (sv & _ & Hsv & V).
  assert (counted (dplus d (more_v v n)) (views sa)) as Hc2.
  { rewrite V. change (sref (set_sref 1 sv)) with 1%Z.
    pose proof (counted_service _ _ Hc v (sref sv) n Hsv) as Hc2.
    assert (i32 (sref sv + n) = 1)%Z as E1.
    { by rewrite (c_sref _ _ Hc _ _ Hsv), sw_add, H0. }
    by rewrite E1 in Hc2. }
  clear Hc V. do 4 skip H. branch H; skip H; by injection H as <- <-.
Qed.

Lemma unbind_counted d s u s' v :
  counted d (views s) → unbind (Some v) s = Done (u, s') →
  counted (if watched v s then d else dminus d (on_v v)) (views s').
Proof.
  intros Hc H. unfold unbind in H. take H e1 sx H1. apply gets_inv in H1 as [-> ->].
  take H sfd s1 H1. unfold watched. rewrite H1.
  apply obj_get_inv in H1 as (-> & _). take H mp s1 H1. apply gets_inv in H1 as [-> ->].
  take H r s1 H1. assert ((ccall_result (KDel sfd (comm_mpoller s)) s).1 = r) as ->.
  { unfold mpoller_del_fd, ccall_ in H1. destruct (ccall_result _ _). by injection H1. }
  past H1. clear H1. destruct (r <? 0)%Z eqn:Hr.
  - assert ((0 <=? r)%Z = false) as -> by lia. take H y sa H4.
    assert (counted (dminus d (on_v v)) (views sa)) as Hc4; [|by past H].
    eapply service_shutdown_counted; [|done].
    eapply counted_eq; [|exact Hc]. split; intros; simpl; lia.
  - assert ((0 <=? r)%Z = true) as -> by lia. by past H.
Qed.

(** ** Replies *)

(** What the list of idle connections of a target starts with is one of its own. *)
Definition idle_owned (s : commstate) (t : loc) : Prop :=
  ∀ x c e k, ctargets s !! t = Some x → clinks s !! m_idle_list x = Some c → next c = Some e →
    e ≠ m_idle_list x → ve (views s) !! e = Some k → ∃ v z, k = (Some t, Some v, z).

Lemma clnk_inv {A} (m : M (gmap positive cell) A) s a s' :
  clnk m s = Done (a, s') → ∃ h, m (clinks s) = Done (a, h) ∧ s' = set_clinks h s.
Proof.
  intros H. unfold clnk, zoom in H. destruct (m (clinks s)) as [[b h]| | |]; simplify_eq. eauto.
Qed.
Lemma ld_inv {A} (f : cell → A) p h a h' :
  ld f p h = Done (a, h') → h' = h ∧ ∃ l c, p = Some l ∧ h !! l = Some c ∧ a = f c.
Proof. intros H. destruct p; simpl in H; [|done]. case_match; simplify_eq. naive_solver. Qed.

Lemma idle_first s t head s1 s2 p s3 :
  tgt_get m_idle_list (Some t) s = Done (head, s1) →
  clnk (list_empty (Some head)) s1 = Done (false, s2) →
  clnk (ld next (Some head)) s2 = Done (p, s3) →
  views s3 = views s ∧
  (idle_owned s t → ∀ e k, p = Some e → ve (views s) !! e = Some k →
     ∃ v z, k = (Some t, Some v, z)).
Proof.
  intros (-> & ? & x & [= <-] & Hx & ->)%obj_get_inv (h & H1 & ->)%clnk_inv (h' & H2 & ->)%clnk_inv.
  unfold list_empty in H1. apply bnd_done_inv in H1 as (n & h1 & (-> & l & c & [= <-] & Hc & ->)%ld_inv & H1).
  injection H1 as Hb <-. apply ld_inv in H2 as (-> & l & c' & [= <-] & Hc' & ->). simpl in Hc'.
  split; [done|]. intros Ho e k He Hk. simplify_eq. apply (Ho x c e k); try done.
  apply bool_decide_eq_false in Hb. congruence.
Qed.

Lemma release_key p s u s' :
  __release_conn p s = Done (u, s') → ∃ e k, p = Some e ∧ ve (views s) !! e = Some k.
Proof.
  intros H. unfold __release_conn in H. take H c s1 H1.
  apply obj_get_inv in H1 as (_ & e & en & -> & He & _).
  exists e, (ekey en). split; [done|]. simpl. by rewrite lookup_fmap, He.
Qed.

(** Letting go of the first idle connection of a target. *)
Lemma drop_idle_counted d s u s' p t :
  small d → counted d (views s) →
  (∀ e k, p = Some e → ve (views s) !! e = Some k → ∃ v z, k = (Some t, Some v, z)) →
  (__release_conn p ;;; target_decref (Some t)) s = Done (u, s') →
  counted d (views s') ∧ vs (views s') = vs (views s).
Proof.
  intros Hs Hc Ho H. pose proof H as H0. take H0 y s1 H1.
  destruct (release_key _ _ _ _ H1) as (e & k & -> & Hk).
  destruct (Ho _ _ eq_refl Hk) as (v & z & ->). by eapply drop_server_counted_gen.
Qed.

Lemma reply_unreliable_counted d s r s' x t :
  small d → counted d (views s) → idle_owned s t →
  reply_unreliable x (Some t) s = Done (r, s') →
  counted d (views s') ∧ (0 ≤ r → views s' = views s)%Z.
Proof.
  intros Hs Hc Ho H. unfold reply_unreliable in H. take H hp s1 H1. take H b s2 H2.
  destruct b; simpl in H.
  - past H1. past H2. skip H. injection H as <- <-. done.
  - take H p s3 H3. destruct (idle_first _ _ _ _ _ _ _ H1 H2 H3) as [V Hown].
    specialize (Hown Ho). rewrite <- V in Hc, Hown |- *. clear V Ho H1 H2 H3.
    do 5 skip H. branch H; [by injection H as <- <-|]. take H y s9 H9.
    take H z s10 H10. injection H as <- <-. split; [|lia].
    eapply (drop_idle_counted _ _ z s10); [done|exact Hc|exact Hown|].
    unfold bnd. by rewrite H9.
Qed.

(** The message of the session belongs to the connection that the session is of. *)
Definition reply_linked (w : refview) (l t : loc) : Prop :=
  ∀ m i e, (vm w).1 !! l = Some (Some m) → (vm w).2 !! m = Some i → in_entry i = Some e →
    ∃ v, ve w !! e = Some (Some t, Some v, Some l).

Lemma ses_set_idle f p s u s' t :
  ses_set f p s = Done (u, s') → idle_owned s t → idle_owned s' t.
Proof. intros H. destruct p; simpl in H; [|done]. case_match; simplify_eq. done. Qed.
Lemma ses_target l s q s' b t :
  ses_get s_target (Some l) s = Done (q, s') → vs (views s) !! l = Some (b, Some t) →
  s' = s ∧ q = Some t.
Proof.
  intros (-> & ? & se & [= <-] & Hse & ->)%obj_get_inv Hl. split; [done|].
  simpl in Hl. rewrite lookup_fmap, Hse in Hl. by injection Hl.
Qed.

(** The session is told, and the connection's reference given up. *)
Lemma reply_end_counted d s u s' l t :
  small d → counted d (views s) → reply_linked (views s) l t →
  (let* inp := ses_get s_in (Some l) in
   let* entry := msg_get in_entry inp in
   session_handle (Some l) (Some CS_STATE_SUCCESS) 0 ;;;
   let* n := entry_decref entry in
   if (n =? 0)%Z then __release_conn entry ;;; target_decref (Some t) else ret tt) s =
    Done (u, s') → counted d (views s').
Proof.
  intros Hs Hc Hln H. take H inp s1 H1.
  apply obj_get_inv in H1 as (-> & ? & se & [= <-] & Hse & ->).
  take H p s1 H1. apply obj_get_inv in H1 as (-> & m & i & Hm & Hi & ->).
  take H y s1 H1. destruct (session_handle_counted _ _ _ _ _ _ _ Hc H1) as [Hc1 Hpin].
  destruct (in_entry i) as [e|] eqn:He; [|done].
  destruct (Hln m i e) as (v & Hk); [|done|done|].
  { simpl. by rewrite lookup_fmap, Hse, <- Hm. }
  eapply decref_server_counted; [done|exact Hc1| |exact H]. by apply Hpin.
Qed.

Lemma reply_counted d s fuel r s' l t :
  small d → counted d (views s) → (∃ b, vs (views s) !! l = Some (b, Some t)) →
  (∀ se, csessions s !! l = Some se → passive se = 2%Z →
   idle_owned s t ∧ reply_linked (views s) l t) →
  reply fuel (Some l) s = Done (r, s') → counted d (views s').
Proof.
  intros Hs Hc (b & Hl) Hw H. unfold reply in H. take H p s1 H1.
  apply obj_get_inv in H1 as (-> & ? & se & [= <-] & Hse & ->).
  branch H; [skip H; by past H|]. apply negb_false_iff, Z.eqb_eq in Heqb0.
  destruct (Hw se Hse Heqb0) as [Ho Hln]. clear Hw.
  unfold get_cerrno in H. rewrite gets_bnd in H. take H y s1 H1.
  assert (session_passive (views s) (Some l)) as Hp.
  { intros ? k [= <-] Hk. simpl in Hk. rewrite lookup_fmap, Hse in Hk. simplify_eq/=.
    by rewrite Heqb0. }
  pose proof (set_passive_views 3 _ _ _ _ ltac:(done) Hp H1) as V.
  apply (ses_set_idle _ _ _ _ _ _ H1) in Ho. rewrite <- V in *. clear V Hp H1 Hse.
  take H q s2 H2. destruct (ses_target _ _ _ _ _ _ H2 Hl) as [-> ->]. clear H2.
  take H v s2 H2. apply obj_get_inv in H2 as (-> & _ & _ & _ & _ & _).
  take H rel s2 H2. apply obj_get_inv in H2 as (-> & _ & _ & _ & _ & _).
  take H r1 s2 H2. assert (counted d (views s2) ∧ (0 ≤ r1 → views s2 = views s1)%Z) as [Hc2 V2].
  { branch H2; [past H2; done|]. by eapply reply_unreliable_counted. }
  branch H; [by injection H as <- <-|]. take H z s3 H3.
  assert (counted d (views s3)) as Hc3.
  { branch H3; [|by past H3]. eapply reply_end_counted; [done|done| |exact H3].
    rewrite V2 by lia. done. }
  skip H. by injection H as <- <-.
Qed.

(** ** The end of sessions *)

Lemma target_shutdown_counted d s r s' t :
  small d → counted d (views s) → idle_owned s t →
  target_shutdown (Some t) s = Done (r, s') →
  counted d (views s') ∧ vs (views s') = vs (views s).
Proof.
  intros Hs Hc Ho H. unfold target_shutdown in H. take H hp s1 H1. take H b s2 H2.
  take H r1 s3 H3. assert (counted d (views s3) ∧ vs (views s3) = vs (views s)) as [Hc3 <-].
  { destruct b; simpl in H3.
    - past H1. past H2. by injection H3 as <- <-.
    - take H3 p s4 H4. destruct (idle_first _ _ _ _ _ _ _ H1 H2 H4) as [V Hown].
      specialize (Hown Ho). rewrite <- V in Hc, Hown |- *. clear V Ho H1 H2 H4. do 3 skip H3.
      take H3 y s9 H9. injection H3 as <- <-. branch H9; [by past H9|].
      by eapply drop_idle_counted. }
  skip H. by injection H as <- <-.
Qed.

(** [delete session]: the destructor, and the memory. *)
Definition delete_session (this : ptr) : M commstate unit :=
  session_destroy this ;;;
  obj_free csessions set_csessions this.

Lemma delete_session_counted d s u s' l b (tp : ptr) :
  small d → counted d (views s) → vs (views s) !! l = Some (b, tp) →
  (∀ t, b = true → tp = Some t → idle_owned s t) →
  delete_session (Some l) s = Done (u, s') → counted d (views s').
Proof.
  intros Hs Hc Hl Ho H. unfold delete_session in H. take H y s1 H1.
  assert (vs (views s1) = vs (views s) ∧ counted (dminus d (on_s (b, tp))) (views s1)) as [V Hc1].
  { unfold session_destroy in H1. take H1 p s2 H2.
    apply obj_get_inv in H2 as (-> & ? & se & [= <-] & Hse & ->).
    assert (skey se = (b, tp)) as Hk.
    { simpl in Hl. rewrite lookup_fmap, Hse in Hl. simpl in Hl. congruence. }
    injection Hk as Hb Ht. branch H1.
    - injection H1 as _ <-. simpl in Hb. subst b. split; [done|].
      rewrite on_s_active. eapply counted_eq; [|exact Hc]. split; intros; simpl; lia.
    - simpl in Hb. subst b.
      take H1 q s2 H2. apply obj_get_inv in H2 as (-> & ? & se' & [= <-] & Hse' & ->).
      assert (se' = se) as -> by congruence. rewrite Ht in H1.
      destruct tp as [t|].
      + take H1 z s2 H2. assert (counted d (views s2) ∧ vs (views s2) = vs (views s)) as [Hc2 V2].
        { branch H2; [|by past H2]. take H2 r s3 H3. injection H2 as _ <-.
          eapply target_shutdown_counted; eauto. }
        rewrite <- V2 in Hl |- *. clear V2 Hc Hse Hse' Ho Ht. rename Hc2 into Hc.
        pose proof (msum_ge (hold_s t) _ _ _ (λ k, proj1 (hold_s_bounds t k)) Hl) as Hge.
        pose proof (msum_bounds (hold_e t) (ve (views s2)) (hold_e_bounds t)) as Hge2.
        assert (hold_s t (true, Some t) = 1%Z) as E1.
        { unfold hold_s. simpl. by rewrite bool_decide_true. }
        destruct (target_decref_counted_gen (dminus d (on_t t)) t s2 y s1) as [Hc1 V1].
        * intros t'. specialize (Hs t'). simpl. unfold b2z. case_bool_decide; lia.
        * destruct (Hs t). simpl. unfold trefs, b2z. rewrite bool_decide_true by done. lia.
        * eapply counted_eq; [|exact Hc]. split; intros; simpl; lia.
        * done.
        * split; [done|]. by rewrite on_s_target.
      + take H1 z s2 H2. done. }
  assert (vs (views s') = delete l (vs (views s1)) ∧ ve (views s') = ve (views s1) ∧
          vt (views s') = vt (views s1) ∧ vv (views s') = vv (views s1)) as (V1 & V2 & V3 & V4).
  { simpl in H. case_match; simplify_eq. simpl. by rewrite fmap_delete. }
  eapply (counted_ext _ (with_vs (delete l) (views s1))); [done..|].
  eapply counted_eq; [|apply (counted_session_delete _ _ Hc1 l (b, tp)); by rewrite V].
  split; intros; simpl; lia.
Qed.

Lemma shutdown_counted d s r s' l t b :
  small d → counted d (views s) → vs (views s) !! l = Some (b, Some t) →
  (b = true → idle_owned s t) → shutdown (Some l) s = Done (r, s') → counted d (views s').
Proof.
  intros Hs Hc Hl Ho H. unfold shutdown in H. take H p s1 H1.
  apply obj_get_inv in H1 as (-> & ? & se & [= <-] & Hse & ->).
  branch H; [skip H; by past H|]. apply negb_false_iff, Z.eqb_eq in Heqb0.
  assert (b = true) as E1.
  { simpl in Hl. rewrite lookup_fmap, Hse in Hl. injection Hl as <- _. by rewrite Heqb0. }
  specialize (Ho E1). clear E1.
  take H y s1 H1. assert (session_passive (views s) (Some l)) as Hp.
  { intros ? k [= <-] Hk. simpl in Hk. rewrite lookup_fmap, Hse in Hk. simplify_eq/=.
    by rewrite Heqb0. }
  pose proof (set_passive_views 3 _ _ _ _ ltac:(done) Hp H1) as V.
  apply (ses_set_idle _ _ _ _ _ _ H1) in Ho. rewrite <- V in *. clear V Hp H1 Hse.
  take H q s2 H2. destruct (ses_target _ _ _ _ _ _ H2 Hl) as [-> ->]. clear H2.
  take H n s2 H2. destruct (target_shutdown_counted _ _ _ _ _ Hs Hc Ho H2) as [Hc2 _].
  branch H; [skip H|]; by injection H as <- <-.
Qed.
End interface.
