(* ===== verification/CommCountSteps.v ===== *)
(** Runs of a communicator: results, callbacks and calls of the client in any order.
    The reference counts are right in every state that a run with its links in order
    reaches. *)
From stdpp Require Import relations.
From S2P Require Export CommCountInterface.

(** ** What the client does with its objects *)

(** [new] of a session, which is not passive, of a [CommTarget], whose members
    after [CommTarget]'s do not matter, and of a service, at an address that nothing
    refers to; [delete] of a target that is of no service and of a service; and
    changes of what the counts do not depend on. *)
Inductive client_change (d : debt) (w : refview) : refview → Prop :=
| NewSession l p :
    vs w !! l = None → (Zpos l < max_addr)%Z →
    client_change d w (with_vs <[l := (false, p)]> w)
| NewTarget t r : vt w !! t = None → client_change d w (with_vt <[t := (r, None)]> w)
| DeleteTarget t r : vt w !! t = Some (r, None) → client_change d w (with_vt (delete t) w)
| NewService v :
    vv w !! v = None → (vrefs v w + dv d v = 0)%Z → client_change d w (with_vv <[v := 0%Z]> w)
| DeleteService v : client_change d w (with_vv (delete v) w)
| OtherChange w' :
    ve w' = ve w → vs w' = vs w → vt w' = vt w → vv w' = vv w → client_change d w w'.

Lemma client_change_counted d w w' : counted d w → client_change d w w' → counted d w'.
Proof.
  intros Hc [l p Hl Hb|t r Ht|t r Ht|v Hv H0|v|w1 E1 E2 E3 E4].
  - eapply counted_eq; [|by apply (counted_session_new _ _ Hc l (false, p))]. debts.
    unfold hold_s. simpl. lia.
  - eapply counted_target_other; eauto.
  - eapply counted_target_other with (r := 0%Z); eauto.
  - destruct Hc as [C1 C2 C3 C4 C5 C6]. constructor; try done. intros u r. simpl.
    change (vrefs u (with_vv _ w)) with (vrefs u w).
    destruct (decide (u = v)) as [->|]; [rewrite lookup_insert_eq|rewrite lookup_insert_ne by done];
      [intros [= <-]; by rewrite H0|apply C4].
  - destruct Hc as [C1 C2 C3 C4 C5 C6]. constructor; try done. intros u r. simpl.
    change (vrefs u (with_vv _ w)) with (vrefs u w). rewrite lookup_delete_Some. naive_solver.
  - by eapply counted_ext.
Qed.

(** ** Steps *)

Section steps.
Context `{E : CommEnv} `{R : CommMemory} `{C : CommClient} `{X : CommExterns} `{K : CommCallbacks}
  `{!CommRefLaws E R C K}.
Implicit Types (d : debt) (f : gset loc) (s : commstate) (e t v l m : loc).

(** The objects, with the references that are held by none of them: [held], by accepts
    under way and listening sockets; and [unbound], the services whose [bind] failed
    after it had set the count to 1, which it leaves. *)
Record run_state : Type := RunState {
  held : debt;
  unbound : gset loc;
  objects : commstate;
}.
Definition owed d f : debt := Debt (dt d) (λ v, dv d v + b2z (bool_decide (v ∈ f)))%Z.

(** What the code relies on of the links between its objects and the counts do not
    ensure: a server's connection has a session that is passive; what the idle list of
    a server's target starts with is one of its connections; and the message of a
    session that may be replied to names the connection that the session is of. The
    list that [list_add_tail] is given at communicator.cc:623 with its arguments
    swapped can be left with links that break the second. *)
Record in_order (s : commstate) : Prop := InOrder {
  io_session e t v x : ve (views s) !! e = Some (Some t, Some v, x) → session_passive (views s) x;
  io_idle t r v : vt (views s) !! t = Some (r, Some v) → idle_owned s t;
  io_reply l se t : csessions s !! l = Some se → passive se = 2%Z → s_target se = Some t →
    reply_linked (views s) l t;
}.

(** A step from a state in which [d] is held elsewhere. A result names a connection
    that is there; the target that an accept made carries its reference in the
    result. *)
Inductive comm_step : run_state → run_state → Prop :=
| StepRead d f s s' res e t sv x :
    context (pr_data res) = Some e → ve (views s) !! e = Some (Some t, sv, x) → small d →
    handle_read_result res s = Done (tt, s') → comm_step (RunState d f s) (RunState d f s')
| StepWrite d f s s' res e t sv x :
    context (pr_data res) = Some e → ve (views s) !! e = Some (Some t, sv, x) → small d →
    handle_write_result res s = Done (tt, s') → comm_step (RunState d f s) (RunState d f s')
| StepConnect d f s s' fuel res e p x :
    context (pr_data res) = Some e → ve (views s) !! e = Some (p, None, x) →
    handle_connect_result fuel res s = Done (tt, s') → comm_step (RunState d f s) (RunState d f s')
| StepListen d f s s' res t v :
    result_ptr (pr_data res) = Some t → context (pr_data res) = Some v →
    small d → (pr_state res = PR_ST_SUCCESS → 0 < dt d t)%Z →
    handle_listen_result res s = Done (tt, s') →
    comm_step (RunState d f s) (RunState (listen_debt res d) f s')
| StepRecvfrom d f s s' res e t v x :
    small d → (pr_state res = PR_ST_SUCCESS →
      result_ptr (pr_data res) = Some e ∧ ve (views s) !! e = Some (Some t, Some v, x)) →
    handle_recvfrom_result res s = Done (tt, s') →
    comm_step (RunState d f s)
      (RunState (if (pr_state res =? PR_ST_SUCCESS)%Z then d else listen_debt res d) f s')
| StepSleep d f s s' res :
    handle_sleep_result res s = Done (tt, s') → comm_step (RunState d f s) (RunState d f s')
| StepAppend d f s s' buf p r :
    append_message buf p s = Done (r, s') → comm_step (RunState d f s) (RunState d f s')
| StepCreateRequest d f s s' e t v x p :
    small d → ve (views s) !! e = Some (Some t, Some v, x) →
    create_request (Some e) s = Done (p, s') → comm_step (RunState d f s) (RunState d f s')
| StepCreateReply d f s s' p r :
    create_reply p s = Done (r, s') → comm_step (RunState d f s) (RunState d f s')
| StepPartial d f s s' n p r :
    partial_written n p s = Done (r, s') → comm_step (RunState d f s) (RunState d f s')
| StepAccept d f s s' addr len fd v p :
    accept addr len fd (Some v) s = Done (p, s') →
    comm_step (RunState d f s)
      (RunState (match p with Some t => dplus d (on_t t) | None => d end) f s')
| StepRecv d f s s' fuel addr len buf v p :
    small d → recvfrom fuel addr len buf (Some v) s = Done (p, s') →
    comm_step (RunState d f s) (RunState d f s')
| StepRequest d f s s' fuel l p r :
    request fuel (Some l) p s = Done (r, s') → comm_step (RunState d f s) (RunState d f s')
| StepReply d f s s' fuel l t b r :
    small d → vs (views s) !! l = Some (b, Some t) →
    reply fuel (Some l) s = Done (r, s') → comm_step (RunState d f s) (RunState d f s')
| StepPush d f s s' n p r :
    push n p s = Done (r, s') → comm_step (RunState d f s) (RunState d f s')
| StepShutdown d f s s' l t b r :
    small d → vs (views s) !! l = Some (b, Some t) →
    shutdown (Some l) s = Done (r, s') → comm_step (RunState d f s) (RunState d f s')
| StepBind d f s s' v r :
    (vrefs v (views s) + dv d v = 0)%Z → bind (Some v) s = Done (r, s') →
    comm_step (RunState d f s)
      (if negb (listens v s) then RunState d f s'
       else if (0 <=? r)%Z then RunState (dplus d (on_v v)) (f ∖ {[v]}) s'
       else RunState d ({[v]} ∪ f) s')
| StepUnbind d f s s' v :
    unbind (Some v) s = Done (tt, s') →
    comm_step (RunState d f s)
      (if watched v s then RunState d f s'
       else if decide (v ∈ f) then RunState d (f ∖ {[v]}) s' else RunState (dminus d (on_v v)) f s')
| StepClient d f s s' :
    client_change (owed d f) (views s) (views s') → comm_step (RunState d f s) (RunState d f s')
| StepDelete d f s s' l b (tp : ptr) :
    small d → vs (views s) !! l = Some (b, tp) →
    delete_session (Some l) s = Done (tt, s') → comm_step (RunState d f s) (RunState d f s')
| StepSleepCall d f s s' p r :
    sleep p s = Done (r, s') → comm_step (RunState d f s) (RunState d f s')
| StepUnsleep d f s s' p r :
    unsleep p s = Done (r, s') → comm_step (RunState d f s) (RunState d f s').

(** A run whose states, but for the last, have their links in order. *)
Definition orderly_step (p q : run_state) : Prop := in_order (objects p) ∧ comm_step p q.

Definition accounted (p : run_state) : Prop := counted (owed (held p) (unbound p)) (views (objects p)).

Lemma owed_listen res d f : listen_debt res (owed d f) ≡ owed (listen_debt res d) f.
Proof. unfold listen_debt. repeat case_match; split; intros; simpl; lia. Qed.
(** The count that [bind] sets, of the socket or of nothing. *)
Lemma owed_bind d f v n :
  (n + b2z (bool_decide (v ∈ f)) = 1)%Z →
  dplus (owed d f) (more_v v n) ≡ owed (dplus d (on_v v)) (f ∖ {[v]}) ∧
  dplus (owed d f) (more_v v n) ≡ owed d ({[v]} ∪ f).
Proof.
  intros Hn. split; (split; intros u; simpl; [lia|]); unfold b2z in *;
    (destruct (decide (u = v)) as [->|Hu];
     [|rewrite ?(bool_decide_ext (u ∈ f ∖ {[v]}) (u ∈ f)), ?(bool_decide_ext (u ∈ {[v]} ∪ f) (u ∈ f))
         by set_solver]).
  - rewrite (bool_decide_false (v ∈ f ∖ {[v]})), (bool_decide_true (v = v)) by set_solver. lia.
  - rewrite (bool_decide_false (u = v)) by done. lia.
  - rewrite (bool_decide_true (v ∈ {[v]} ∪ f)) by set_solver. lia.
  - lia.
Qed.
Lemma owed_unbind d f v : v ∈ f → dminus (owed d f) (on_v v) ≡ owed d (f ∖ {[v]}).
Proof.
  intros Hv. split; intros u; simpl; [lia|]. unfold b2z.
  destruct (decide (u = v)) as [->|Hn].
  - rewrite (bool_decide_false (v ∈ f ∖ {[v]})), !bool_decide_true by set_solver. lia.
  - rewrite (bool_decide_false (u = v)), (bool_decide_ext (u ∈ f ∖ {[v]}) (u ∈ f)) by set_solver. lia.
Qed.

(** A passive session's target is a service's, so its idle list is in order. *)
Lemma session_idle d s l t :
  small d → counted d (views s) → in_order s → vs (views s) !! l = Some (true, Some t) → idle_owned s t.
Proof.
  intros Hs Hc Hio Hl.
  pose proof (msum_ge (hold_s t) _ _ _ (λ k, proj1 (hold_s_bounds t k)) Hl) as Hge.
  pose proof (msum_bounds (hold_e t) (ve (views s)) (hold_e_bounds t)) as Hge2.
  assert (hold_s t (true, Some t) = 1%Z) as E1.
  { unfold hold_s. simpl. by rewrite bool_decide_true. }
  destruct (c_live _ _ Hc t) as (r & v & Hv).
  - specialize (Hs t). unfold trefs. lia.
  - by eapply io_idle.
Qed.

Lemma reply_in_order d s fuel r s' l t b :
  small d → counted d (views s) → in_order s → vs (views s) !! l = Some (b, Some t) →
  reply fuel (Some l) s = Done (r, s') → counted d (views s').
Proof.
  intros Hs Hc Hio Hl H. eapply reply_counted; [done|done|by exists b| |exact H].
  intros se Hse Hp. pose proof Hl as Hl2. simpl in Hl2.
  rewrite lookup_fmap, Hse in Hl2. injection Hl2 as Hb Ht. rewrite Hp in Hb. simpl in Hb. subst b.
  split; [by eapply session_idle|by eapply io_reply].
Qed.

Lemma orderly_step_accounted p q : orderly_step p q → accounted p → accounted q.
Proof.
  intros [Hio Hstep]. unfold accounted. destruct Hstep; simpl in Hio |- *; intros Hc.
  - eapply read_result_counted; eauto. intros _ [v ->]. by eapply io_session.
  - eapply write_result_counted; eauto.
  - eapply connect_result_counted; eauto.
  - rewrite <- owed_listen. destruct (pr_state res =? PR_ST_SUCCESS)%Z eqn:Hst.
    + eapply listen_result_counted; eauto. apply Z.eqb_eq in Hst. intros u.
      specialize (H1 u) as Hu. specialize (H2 Hst). simpl. unfold b2z.
      case_bool_decide; subst; lia.
    + eapply service_result_counted; [done..|]. unfold handle_listen_result in H3.
      by rewrite Hst in H3.
  - pose proof (recvfrom_result_counted (owed d f) _ _ _ _ _ _ _ _ H Hc H0 H1) as Hr. case_match; [done|].
    by rewrite <- owed_listen.
  - by eapply keeps_sleep_result.
  - erewrite still_append_message; eauto.
  - eapply create_request_counted; eauto.
  - destruct (mild_create_reply _ _ _ _ H) as (E1 & E2 & E3 & E4). by eapply counted_ext.
  - erewrite still_partial_written; eauto.
  - pose proof (accept_counted _ _ _ _ _ _ _ _ Hc H) as Ha. destruct p as [t|]; [|done].
    eapply counted_eq; [|exact Ha]. split; intros; simpl; lia.
  - eapply recvfrom_counted; eauto.
  - by eapply request_counted.
  - by eapply (reply_in_order (owed d f)).
  - erewrite still_push; eauto.
  - eapply (shutdown_counted (owed d f)); eauto. intros ->. by eapply (session_idle (owed d f)).
  - set (n := (1 - b2z (bool_decide (v ∈ f)))%Z).
    destruct (owed_bind d f v n) as [E1 E2]; [unfold n; lia|].
    assert (vrefs v (views s) + dv (owed d f) v + n = 1)%Z as En by (cbn [dv owed]; unfold n; lia).
    pose proof (bind_counted _ _ _ _ _ n Hc En H0) as Hb.
    destruct (listens v s); [|done]. simpl.
    destruct (0 <=? r)%Z; simpl; [by rewrite <- E1|by rewrite <- E2].
  - pose proof (unbind_counted _ _ _ _ _ Hc H) as Hu. destruct (watched v s); [done|].
    case_decide; simpl.
    + by rewrite <- owed_unbind.
    + eapply counted_eq; [|exact Hu]. split; intros; simpl; lia.
  - by eapply client_change_counted.
  - eapply (delete_session_counted (owed d f)); eauto. intros t -> ->.
    by eapply (session_idle (owed d f)).
  - erewrite still_sleep; eauto.
  - erewrite still_unsleep; eauto.
Qed.

(** ** Every state a run reaches *)

Lemma counted_empty s :
  centries s = ∅ → csessions s = ∅ → ctargets s = ∅ → cservices s = ∅ →
  counted (owed dzero ∅) (views s).
Proof.
  intros E1 E2 E3 E4. unfold views. rewrite E1, E2, E3, E4.
  assert (∀ t, trefs t (RefView ∅ ∅ ∅ ∅ (s_in <$> ∅, cmsgs s)) = 0%Z) as Ht by done.
  constructor; simpl; rewrite ?fmap_empty; intros *; rewrite ?lookup_empty; try done.
  all: rewrite ?fmap_empty; try by intros [].
Qed.

Definition no_objects (s : commstate) : Prop :=
  centries s = ∅ ∧ csessions s = ∅ ∧ ctargets s = ∅ ∧ cservices s = ∅.

Lemma run_counted s0 q :
  no_objects s0 → rtc orderly_step (RunState dzero ∅ s0) q → accounted q.
Proof.
  intros (E1 & E2 & E3 & E4) Hr.
  assert (∀ p q, rtc orderly_step p q → accounted p → accounted q) as H.
  { induction 1; eauto using orderly_step_accounted. }
  apply (H _ _ Hr). by apply counted_empty.
Qed.

(** ** What the invariant says of the objects *)

Lemma held_nonneg t w : (0 ≤ msum (hold_e t) (ve w) ∧ 0 ≤ msum (hold_s t) (vs w))%Z.
Proof.
  split; [apply (msum_bounds _ _ (hold_e_bounds t))|apply (msum_bounds _ _ (hold_s_bounds t))].
Qed.
Lemma entry_trefs s e en t :
  centries s !! e = Some en → target_ en = Some t → service_ en ≠ None →
  (1 ≤ trefs t (views s))%Z.
Proof.
  intros He Ht Hv. unfold trefs. pose proof (held_nonneg t (views s)).
  assert (ve (views s) !! e = Some (ekey en)) as Hk by (simpl; by rewrite lookup_fmap, He).
  pose proof (msum_ge (hold_e t) _ _ _ (λ k, proj1 (hold_e_bounds t k)) Hk).
  assert (hold_e t (ekey en) = 1%Z); [|lia].
  unfold hold_e, ekey. simpl. rewrite Ht, bool_decide_true by done. by destruct (service_ en).
Qed.
Lemma session_trefs s l se t :
  csessions s !! l = Some se → s_target se = Some t → passive se ≠ 0%Z →
  (1 ≤ trefs t (views s))%Z.
Proof.
  intros He Ht Hv%Z.eqb_neq. unfold trefs. pose proof (held_nonneg t (views s)).
  assert (vs (views s) !! l = Some (skey se)) as Hk by (simpl; by rewrite lookup_fmap, He).
  pose proof (msum_ge (hold_s t) _ _ _ (λ k, proj1 (hold_s_bounds t k)) Hk).
  assert (hold_s t (skey se) = 1%Z); [|lia].
  unfold hold_s, skey. simpl. by rewrite Ht, bool_decide_true, Hv by done.
Qed.
Lemma counted_there d s t :
  counted d (views s) → (0 < trefs t (views s) + dt d t)%Z →
  ∃ x, ctargets s !! t = Some x ∧ t_service x ≠ None.
Proof.
  intros Hc (r & v & Hv)%(c_live _ _ Hc). destruct (views_target _ _ _ Hv) as (x & Hx & [= _ Ev]).
  exists x. by rewrite Ev.
Qed.
Lemma counted_target_ref d s t x :
  counted d (views s) → ctargets s !! t = Some x → t_service x ≠ None →
  t_ref x = i32 (trefs t (views s) + dt d t).
Proof.
  intros Hc Hx Hv. destruct (t_service x) as [v|] eqn:Ev; [|done].
  apply (c_ref _ _ Hc t (t_ref x) v). simpl. rewrite lookup_fmap, Hx. simpl. unfold tkey.
  by rewrite Ev.
Qed.
Lemma counted_service_ref d s v x :
  counted d (views s) → cservices s !! v = Some x → sref x = i32 (vrefs v (views s) + dv d v).
Proof. intros Hc Hx. apply (c_sref _ _ Hc). simpl. by rewrite lookup_fmap, Hx. Qed.
End steps.
