(* ===== verification/CommIdle.v ===== *)
(** The idle connections of a target: the list that replies fill and requests empty. *)
From S2P Require Export CommSpec CommRequest.

(** What [list_add] and [list_del], which no file defines, promise: a new first
    element, and an element less. *)
Class CommListLaws (X : CommExterns) : Prop := {
  list_add_law h head xs (e : loc) :
    dlist h head xs → e ∉ head :: xs → is_Some (h !! e) →
    ∃ h', list_add (Some e) (Some head) h = Done (tt, h') ∧ dlist h' head (e :: xs) ∧
          (∀ l, l ∉ head :: e :: xs → h' !! l = h !! l);
  list_del_law h head xs (e : loc) ys :
    dlist h head (xs ++ e :: ys) →
    ∃ h', list_del (Some e) h = Done (tt, h') ∧ dlist h' head (xs ++ ys) ∧
          (∀ l, l ∉ head :: xs ++ ys → h' !! l = h !! l);
}.

(** How many connections at the front of a list the mpoller does not know. *)
Fixpoint unknown (k : loc → bool) (es : list loc) : nat :=
  match es with
  | [] => 0
  | e :: es => if k e then 0 else S (unknown k es)
  end.
(** The entries after the first [n] of [es] were made CLOSING. *)
Definition closed (es : list loc) (m : gmap positive conn_entry) (y : loc) : option conn_entry :=
  if decide (y ∈ es) then set_state_ CONN_STATE_CLOSING <$> m !! y else m !! y.

Lemma closed_cons e es m en y :
  m !! e = Some en → e ∉ es →
  closed es (<[e := set_state_ CONN_STATE_CLOSING en]> m) y = closed (e :: es) m y.
Proof.
  intros He Hn. unfold closed. destruct (decide (y = e)) as [->|Hy].
  - rewrite decide_False, decide_True by (done || by left). by rewrite lookup_insert_eq, He.
  - rewrite lookup_insert_ne by done.
    assert (y ∈ e :: es ↔ y ∈ es) as Hi by (rewrite elem_of_cons; naive_solver).
    destruct (decide (y ∈ es)), (decide (y ∈ e :: es)); tauto.
Qed.

Section idle.
Context `{E : CommEnv} `{R : CommMemory} `{C : CommClient} `{X : CommExterns} `{K : CommCallbacks}
  `{!CommListLaws X}.
(** The mpoller answers for a descriptor the same way throughout a loop. *)
Context (mp : ptr) (known : Z → bool).
Hypothesis (answers : ∀ fd s, comm_mpoller s = mp →
  (0 <=? (ccall_result (KSetTimeout fd (-1) mp) s).1)%Z = known fd).

Lemma set_clinks_same s : set_clinks (clinks s) s = s.
Proof. by destruct s. Qed.

Lemma idle_loop_run t tg fuel : ∀ es s,
  comm_mpoller s = mp → ctargets s !! t = Some tg → dlist (clinks s) (m_idle_list tg) es →
  ∀ fd, (∀ e, e ∈ es → ∃ en, centries s !! e = Some en ∧ sockfd_ en = fd e) → length es < fuel →
  let n := unknown (known ∘ fd) es in
  ∃ s', idle_loop fuel (Some t) s = Done (es !! n, s') ∧
    dlist (clinks s') (m_idle_list tg) (drop (S n) es) ∧
    (∀ y, centries s' !! y = closed (take n es) (centries s) y) ∧
    ctargets s' = ctargets s ∧ csessions s' = csessions s ∧ comm_mpoller s' = mp ∧
    (es !! n = None → cerrno s' = ENOENT).
Proof.
  induction fuel as [|fuel IH]; intros es s Hmp Ht Hd fd Hen Hf n; [lia|].
  cbn [idle_loop]. unfold target_mutex. rewrite !bnd_assoc.
  rewrite !(obj_get_bnd ctargets _ _ _ _ tg) by done. rewrite ret_bnd.
  rewrite (obj_get_bnd ctargets _ _ _ _ tg) by done.
  rewrite (clnk_bnd _ _ _ (bool_decide (es = [])) (clinks s))
    by (apply list_empty_dlist; by destruct Hd as (? & ? & _)).
  rewrite set_clinks_same. destruct es as [|e es]; simpl.
  { rewrite !ret_bnd, bnd_assoc, (obj_get_bnd ctargets _ _ _ _ tg), ret_bnd by done.
    eexists. split; [reflexivity|]. by split_and!. }
  assert (nxt (clinks s) (m_idle_list tg) = Some (Some e)) as Hn by by destruct Hd as (_ & [? _] & _).
  rewrite bnd_assoc, (clnk_bnd _ _ _ (Some e) (clinks s)) by by apply ld_next_run.
  rewrite set_clinks_same.
  destruct (list_del_law (clinks s) (m_idle_list tg) [] e es Hd) as (h & Edel & Hd' & _).
  rewrite bnd_assoc, (clnk_bnd _ _ _ tt h) by done.
  destruct (Hen e) as (en & He & Hfd); [by left|].
  unfold entry_mutex. rewrite !bnd_assoc, (obj_get_bnd centries _ _ _ _ en) by done.
  rewrite !ret_bnd, bnd_assoc, (obj_get_bnd ctargets _ _ _ _ tg), ret_bnd by done. simpl.
  rewrite (obj_get_bnd centries _ _ _ _ en), gets_bnd by done. simpl. rewrite Hmp, Hfd.
  destruct (ccall_result (KSetTimeout (fd e) (-1) mp) (set_clinks h s)) as [r er] eqn:Er.
  unfold mpoller_set_fd_timeout. rewrite (ccall_bnd _ _ _ _ _ Er).
  pose proof (answers (fd e) (set_clinks h s) Hmp) as Hk. rewrite Er in Hk. simpl in Hk. rewrite Hk.
  subst n. simpl. unfold compose. destruct (known (fd e)).
  { eexists. split; [reflexivity|]. by split_and!. }
  rewrite (obj_set_bnd centries _ _ _ _ _ en) by done.
  set (s1 := add_ccall _ _ _). change (centries s1) with (centries s).
  rewrite bnd_assoc, (obj_get_bnd centries _ _ _ _ (set_state_ CONN_STATE_CLOSING en)), ret_bnd
    by (simpl; by rewrite lookup_insert_eq).
  set (s2 := set_centries _ s1).
  destruct Hd as (Hnd & _). apply NoDup_cons in Hnd as [_ [Hne Hnd]%NoDup_cons].
  destruct (IH es s2) with (fd := fd) as (s' & E1 & E2 & E3 & E4 & E5 & E6 & E7);
    [done|done|done| |simpl in Hf; lia|].
  { intros x Hx. simpl. rewrite lookup_insert_ne by (by intros ->). apply Hen. by right. }
  exists s'. split_and!; [done|done| |done|done|done|done].
  intros y. rewrite E3. apply (closed_cons e (take _ es)); [done|].
  intros Hi. by apply Hne, (subseteq_take (unknown (known ∘ fd) es) es).
Qed.

(** What is left of [request_idle_conn] once it has its connection. *)
Definition send_on (fuel : nat) (session entry : ptr) : M commstate Z :=
  let* r := send_out fuel session entry in
  let* r := sent_or_broken r entry in
  entry_mutex entry ;;;
  ret r.

Lemma idle_fuel h head es : dlist h head es → length es < S (size h).
Proof.
  intros (Hnd & Hf & _). apply Nat.lt_succ_r, NoDup_size.
  - by apply NoDup_cons in Hnd as [_ ?].
  - intros x Hx. eapply fseg_alloc; [exact Hf|by right].
Qed.

Lemma request_idle_run t tg es s x se fuel fd :
  comm_mpoller s = mp → ctargets s !! t = Some tg → dlist (clinks s) (m_idle_list tg) es →
  (∀ e, e ∈ es → ∃ en, centries s !! e = Some en ∧ sockfd_ en = fd e) →
  csessions s !! x = Some se →
  let n := unknown (known ∘ fd) es in
  match es !! n with
  | None =>
      ∃ s', request_idle_conn fuel (Some x) (Some t) s = Done ((-1)%Z, s') ∧
        cerrno s' = ENOENT ∧ dlist (clinks s') (m_idle_list tg) [] ∧
        (∀ y, centries s' !! y = closed es (centries s) y)
  | Some e =>
      ∃ s' en, centries s !! e = Some en ∧
        request_idle_conn fuel (Some x) (Some t) s = send_on fuel (Some x) (Some e) s' ∧
        dlist (clinks s') (m_idle_list tg) (drop (S n) es) ∧
        centries s' !! e = Some (set_seq_ (i64 (seq_ en + 1)) (set_session_ (Some x) en)) ∧
        csessions s' !! x = Some (set_s_conn (conn_ en) (seq_ en) se) ∧
        (∀ y, y ≠ e → centries s' !! y = closed (take n es) (centries s) y)
  end.
Proof.
  intros Hmp Ht Hd Hen Hx n. pose proof (idle_fuel _ _ _ Hd) as Hlen.
  destruct (idle_loop_run t tg _ es s Hmp Ht Hd fd Hen Hlen) as (s1 & E1 & E2 & E3 & _ & E5 & _ & E7).
  fold n in E1, E2, E3, E7. unfold request_idle_conn. rewrite (bnd_done (bounded _ _) _ _ _ _ E1).
  destruct (es !! n) as [e|] eqn:He; cbn [nonnull negb].
  - destruct (Hen e) as (en & Hee & _); [by eapply list_elem_of_lookup_2|].
    assert (centries s1 !! e = Some en) as H1.
    { rewrite E3. unfold closed. rewrite decide_False; [done|]. intros Hi.
      apply list_elem_of_lookup in Hi as (i & Hi). apply lookup_take_Some in Hi as [Hi Hlt].
      destruct Hd as (Hnd & _). apply NoDup_cons in Hnd as [_ Hnd].
      pose proof (NoDup_lookup _ _ _ _ Hnd Hi He). lia. }
    rewrite (obj_set_bnd centries _ _ _ _ _ en) by done. unfold join_conn. rewrite !bnd_assoc.
    assert (csessions s1 !! x = Some se) as H2 by by rewrite E5. csteps.
    eexists _, en. split; [done|]. split; [reflexivity|]. simpl. split_and!; [done| | |].
    + by rewrite insert_insert_eq, lookup_insert_eq.
    + by rewrite lookup_insert_eq.
    + intros y Hy. by rewrite !lookup_insert_ne by done.
  - exists s1. split; [done|]. split; [by apply E7|]. apply lookup_ge_None in He. split.
    + by rewrite drop_ge in E2 by lia.
    + intros y. by rewrite E3, take_ge by lia.
Qed.
End idle.
