(* ===== verification/CommReceive.v ===== *)
(** Receiving: a datagram is handed to the message piece by piece, and what comes of
    it is what its session is told; the timeouts of a message that arrives. *)
From S2P Require Export CommIdle.

Section receive.
Context `{E : CommEnv} `{R : CommMemory} `{C : CommClient} `{X : CommExterns} `{K : CommCallbacks}
  `{!CommListLaws X}.

(** ** Datagrams *)

(** [fed msg ps buf s r s']: from [s] the message [msg] is handed [buf] and takes the
    pieces [ps] of it one after the other; then it takes the whole of what is left
    and wants more ([r] is 0), or it is complete, or wrong ([r] is not 0). *)
Inductive fed (msg : loc) : list (list Z) → list Z → commstate → Z → commstate → Prop :=
| FedEnd buf s r n s' :
    CommHandle.append msg buf s = Done ((r, n), s') → r ≠ 0%Z → fed msg [] buf s r s'
| FedAll buf s s' :
    CommHandle.append msg buf s = Done ((0, Z.of_nat (length buf))%Z, s') → fed msg [buf] buf s 0 s'
| FedMore ps buf s n s1 r s' :
    CommHandle.append msg buf s = Done ((0%Z, n), s1) → (0 ≤ n < Z.of_nat (length buf))%Z →
    fed msg ps (drop (Z.to_nat n) buf) s1 r s' → fed msg (take (Z.to_nat n) buf :: ps) buf s r s'.

Lemma fed_prefix msg ps buf s r s' :
  fed msg ps buf s r s' → concat ps `prefix_of` buf ∧ (r = 0%Z → concat ps = buf).
Proof.
  induction 1 as [| |ps buf s n s1 r s' _ Hn _ [IH1 IH2]]; simpl.
  - split; [apply prefix_nil|done].
  - rewrite app_nil_r. split; [by exists []; rewrite app_nil_r|done].
  - split.
    + rewrite <- (take_drop (Z.to_nat n) buf) at 2. by apply prefix_app.
    + intros Hr. rewrite (IH2 Hr). apply take_drop.
Qed.

(** What the loop makes of the last answer. *)
Definition parsed (e : loc) (r : Z) (s : commstate) : commstate :=
  if (r =? 0)%Z then s else
  set_centries
    (alter (λ en, if (r <? 0)%Z then set_state_ CONN_STATE_ERROR (set_error_ (cerrno s) en)
                  else set_state_ CONN_STATE_SUCCESS en) e (centries s)) s.

(** The message answers, takes at most what there is of what it asks more of, and leaves
    the connections alone; and it takes at least a byte when it asks more. *)
Definition answers (msg : loc) : Prop := ∀ buf s, ∃ r n s',
  CommHandle.append msg buf s = Done ((r, n), s') ∧
  (r = 0 → 0 ≤ n ≤ Z.of_nat (length buf))%Z ∧
  centries s' = centries s ∧ ctargets s' = ctargets s ∧ clinks s' = clinks s.
Definition progresses (msg : loc) : Prop := ∀ buf s n s',
  CommHandle.append msg buf s = Done ((0%Z, n), s') → buf ≠ [] → (0 < n)%Z.

(** What the loop does with the last answer. *)
Lemma recv_loop_last msg e r n fuel buf s s1 :
  CommHandle.append msg buf s = Done ((r, n), s1) → r ≠ 0%Z → is_Some (centries s1 !! e) →
  recv_loop (S fuel) msg (Some e) buf s = Done (tt, parsed e r s1).
Proof.
  intros E1 Hr [en He]. cbn [recv_loop]. rewrite (bnd_done _ _ _ _ _ E1).
  unfold parsed. rewrite (proj2 (Z.eqb_neq r 0)) by done.
  assert (∀ f, alter f e (centries s1) = <[e := f en]> (centries s1)) as Ha.
  { intros f. apply map_eq. intros x. rewrite lookup_alter, lookup_insert.
    case_decide; [|done]. subst. by rewrite He. }
  destruct (r <? 0)%Z; rewrite Ha.
  - unfold get_cerrno. csteps.
    erewrite obj_set_run by (simpl; by rewrite lookup_insert_eq). simpl.
    by rewrite insert_insert_eq.
  - by erewrite obj_set_run.
Qed.
(** ... and with one that asks for more. *)
Lemma recv_loop_more msg e n fuel buf s s1 :
  CommHandle.append msg buf s = Done ((0%Z, n), s1) → (0 ≤ n ≤ Z.of_nat (length buf))%Z →
  recv_loop (S fuel) msg (Some e) buf s =
    if decide (n < Z.of_nat (length buf))%Z then recv_loop fuel msg (Some e) (drop (Z.to_nat n) buf) s1
    else Done (tt, s1).
Proof.
  intros E1 Hn. cbn [recv_loop]. rewrite (bnd_done _ _ _ _ _ E1). simpl.
  rewrite (proj2 (Z.leb_le 0 n)), (proj2 (Z.leb_le n _)), length_drop by lia. simpl.
  destruct (Z.ltb_spec 0 (Z.of_nat (length buf - Z.to_nat n))); case_decide; try lia; done.
Qed.

Lemma recv_loop_run msg e : answers msg → ∀ fuel buf s, is_Some (centries s !! e) →
  recv_loop fuel msg (Some e) buf s = NoFuel ∨
  ∃ ps r s1, fed msg ps buf s r s1 ∧
    recv_loop fuel msg (Some e) buf s = Done (tt, parsed e r s1) ∧
    centries s1 = centries s ∧ ctargets s1 = ctargets s ∧ clinks s1 = clinks s.
Proof.
  intros Ht fuel. induction fuel as [|fuel IH]; intros buf s He; [by left|].
  destruct (Ht buf s) as (r & n & s1 & E1 & Hn & Hce & Hct & Hcl).
  destruct (decide (r = 0%Z)) as [->|Hr].
  - rewrite (recv_loop_more _ _ _ _ _ _ _ E1) by auto. case_decide.
    + destruct (IH (drop (Z.to_nat n) buf) s1) as [->|(ps & r & s2 & F & -> & H1 & H2 & H3)];
        [by rewrite Hce|by left|right].
      exists (take (Z.to_nat n) buf :: ps), r, s2. split; [|by rewrite H1, H2, H3].
      eapply FedMore; [done|lia|done].
    + right. assert (n = Z.of_nat (length buf)) as -> by lia.
      exists [buf], 0%Z, s1. split; [by apply FedAll|]. by split_and!.
  - right. exists [], r, s1. split; [by eapply FedEnd|]. split; [|done].
    eapply recv_loop_last; [done..|]. by rewrite Hce.
Qed.

Lemma recv_loop_ends msg e : answers msg → progresses msg → ∀ fuel buf s,
  is_Some (centries s !! e) → length buf < fuel → recv_loop fuel msg (Some e) buf s ≠ NoFuel.
Proof.
  intros Ht Hp fuel. induction fuel as [|fuel IH]; intros buf s He Hf; [lia|].
  destruct (Ht buf s) as (r & n & s1 & E1 & Hn & Hce & _).
  destruct (decide (r = 0%Z)) as [->|Hr].
  - rewrite (recv_loop_more _ _ _ _ _ _ _ E1) by auto. case_decide; [|done].
    apply IH; [by rewrite Hce|]. rewrite length_drop.
    assert (0 < n)%Z; [|lia]. eapply Hp; [done|]. intros ->. simpl in *. lia.
  - rewrite (recv_loop_last _ _ _ _ _ _ _ _ E1) by (done || by rewrite Hce). done.
Qed.

Lemma recv_loop_spins msg e buf s :
  buf ≠ [] → CommHandle.append msg buf s = Done ((0, 0)%Z, s) → ∀ fuel,
  recv_loop fuel msg (Some e) buf s = NoFuel.
Proof.
  intros Hb Ha fuel. induction fuel as [|fuel IH]; [done|].
  rewrite (recv_loop_more _ _ _ _ _ _ _ Ha) by lia. rewrite decide_True; [done|].
  destruct buf; [done|simpl; lia].
Qed.

(** What the session of a datagram is told, by the last answer and errno. *)
Definition told (r error : Z) : Z * Z :=
  if (0 <? r)%Z then (CS_STATE_TOREPLY, 0%Z)
  else if (r <? 0)%Z then (CS_STATE_ERROR, error)
  else (CS_STATE_ERROR, EBADMSG).

(** [handle_recvfrom_result] up to the call of the session. *)
Definition recvfrom_end (session entry target : ptr) (w : Z * Z) : M commstate unit :=
  session_handle session (Some w.1) w.2 ;;;
  if (w.1 =? CS_STATE_ERROR)%Z then __release_conn entry ;;; target_decref target else ret tt.

Lemma parsed_entry e r s en :
  centries s !! e = Some en →
  centries (parsed e r s) !! e =
    Some (if (r =? 0)%Z then en
          else if (r <? 0)%Z then set_state_ CONN_STATE_ERROR (set_error_ (cerrno s) en)
          else set_state_ CONN_STATE_SUCCESS en).
Proof.
  intros He. unfold parsed. destruct (r =? 0)%Z; [done|]. simpl.
  rewrite lookup_alter_eq, He. by destruct (r <? 0)%Z.
Qed.
Lemma parsed_rest e r s :
  ctargets (parsed e r s) = ctargets s ∧ clinks (parsed e r s) = clinks s.
Proof. unfold parsed. by destruct (r =? 0)%Z. Qed.

Lemma recvfrom_told res e s en t tg es r :
  pr_state res = PR_ST_SUCCESS → result_ptr (pr_data res) = Some e →
  centries s !! e = Some en → state_ en = CONN_STATE_RECEIVING → target_ en = Some t →
  ctargets s !! t = Some tg → dlist (clinks s) (m_idle_list tg) es →
  e ∉ m_idle_list tg :: es → is_Some (clinks s !! e) →
  ∃ s', handle_recvfrom_result res (parsed e r s) =
          recvfrom_end (session_ en) (Some e) (Some t) (told r (cerrno s)) s' ∧
    if (0 <? r)%Z then
      dlist (clinks s') (m_idle_list tg) (e :: es) ∧
      centries s' !! e = Some (set_state_ CONN_STATE_IDLE en)
    else s' = parsed e r s.
Proof.
  intros Hst Hres He Hs Ht Htg Hd Hn Hl. pose proof (parsed_entry e r s en He) as Hv.
  destruct (parsed_rest e r s) as [Hvt Hvl].
  unfold handle_recvfrom_result. rewrite Hst, Hres. cbn [Z.eqb Pos.eqb PR_ST_SUCCESS].
  rewrite !(obj_get_bnd centries _ _ _ _ _ Hv). unfold told.
  destruct (Z.ltb_spec 0 r) as [Hr|Hr]; [|destruct (Z.ltb_spec r 0) as [Hr'|Hr']].
  - rewrite (proj2 (Z.eqb_neq r 0)), (proj2 (Z.ltb_ge r 0)) in * by lia. cbn.
    destruct (list_add_law (clinks s) (m_idle_list tg) es e Hd Hn Hl) as (h & Ea & Hd' & _).
    rewrite !bnd_assoc, (obj_set_bnd centries _ _ _ _ _ _ Hv), Ht.
    rewrite bnd_assoc, (obj_get_bnd ctargets _ _ _ _ tg) by (simpl; by rewrite Hvt).
    rewrite bnd_assoc, (clnk_bnd _ _ _ tt h) by (simpl; by rewrite Hvl). rewrite ret_bnd.
    erewrite obj_get_bnd by (simpl; by rewrite lookup_insert_eq).
    eexists. split; [reflexivity|]. simpl. by rewrite lookup_insert_eq.
  - rewrite (proj2 (Z.eqb_neq r 0)) in * by lia. cbn. rewrite bnd_assoc.
    rewrite !(obj_get_bnd centries _ _ _ _ _ Hv), ret_bnd. cbn.
    rewrite !(obj_get_bnd centries _ _ _ _ _ Hv), Ht. by eexists.
  - assert (r = 0%Z) as -> by lia. cbn in *. rewrite Hs. cbn.
    rewrite !(obj_get_bnd centries _ _ _ _ _ Hv), Ht. by eexists.
Qed.
End receive.
