(* ===== verification/CommTyped.v ===== *)
(** The members of the communicator's objects stay within their types: counts and
    sequence numbers within their widths, states and [passive] among their values.
    A session whose [passive] is fixed keeps it. *)
From S2P Require Export CommSpec CommRequest.

(** ** Types *)

Definition within (lo hi z : Z) : Prop := (lo ≤ z < hi)%Z.
Definition ok_entry (e : conn_entry) : Prop :=
  within CONN_STATE_CONNECTING (CONN_STATE_ERROR + 1) (state_ e) ∧
  within (- 2 ^ 31) (2 ^ 31) (ref_ e) ∧ within (- 2 ^ 63) (2 ^ 63) (seq_ e).
Definition ok_target (t : comm_target) : Prop := within (- 2 ^ 31) (2 ^ 31) (t_ref t).
Definition ok_service (v : comm_service) : Prop := within (- 2 ^ 31) (2 ^ 31) (sref v).

Lemma sw_within w z : (0 < w)%Z → within (- 2 ^ (w - 1)) (2 ^ (w - 1)) (sw w z).
Proof.
  intros Hw. unfold sw, within. pose proof (Z.mod_pos_bound (z + 2 ^ (w - 1)) (2 ^ w)) as Hm.
  assert (2 ^ w = 2 * 2 ^ (w - 1))%Z as E by (rewrite <- Z.pow_succ_r by lia; f_equal; lia).
  assert (0 < 2 ^ w)%Z by (apply Z.pow_pos_nonneg; lia). specialize (Hm ltac:(done)). lia.
Qed.
Lemma i32_within z : within (- 2 ^ 31) (2 ^ 31) (i32 z).
Proof. by apply (sw_within 32). Qed.
Lemma i64_within z : within (- 2 ^ 63) (2 ^ 63) (i64 z).
Proof. by apply (sw_within 64). Qed.

Section typed.
(** The sessions whose [passive] is fixed, and the value it has. *)
Context (fixed : loc → option Z).

Definition ok_session (l : loc) (x : comm_session) : Prop :=
  within 0 4 (passive x) ∧ (∀ p, fixed l = Some p → passive x = p).

(** All objects are within their types but the entries [H], which [malloc] gave and
    nothing has written yet. *)
Record typed (H : loc → Prop) (s : commstate) : Prop := Typed {
  ty_entries e x : centries s !! e = Some x → H e ∨ ok_entry x;
  ty_sessions l x : csessions s !! l = Some x → ok_session l x;
  ty_targets t x : ctargets s !! t = Some x → ok_target x;
  ty_services v x : cservices s !! v = Some x → ok_service x;
}.

(** Code that keeps the objects within their types. *)
Definition sound {A} (m : M commstate A) : Prop :=
  ∀ H s a s', typed H s → m s = Done (a, s') → typed H s'.

Lemma typed_same H s s' :
  centries s' = centries s → csessions s' = csessions s → ctargets s' = ctargets s →
  cservices s' = cservices s → typed H s → typed H s'.
Proof. intros E1 E2 E3 E4 []. constructor; by rewrite ?E1, ?E2, ?E3, ?E4. Qed.

Lemma sound_ret {A} (a : A) : sound (ret a).
Proof. by intros H s b s' Ht [= <- <-]. Qed.
Lemma sound_bnd {A B} (m : M commstate A) (k : A → M commstate B) :
  sound m → (∀ a, sound (k a)) → sound (bnd m k).
Proof. intros Hm Hk H s b s' Ht (a & s1 & E1 & E2)%bnd_done_inv. eapply Hk; [|done]. by eapply Hm. Qed.
Lemma sound_clnk {A} (m : M (gmap positive cell) A) : sound (clnk m).
Proof.
  intros H s a s' Ht E. unfold clnk, zoom in E. destruct (m (clinks s)) as [[b h]| | |]; simplify_eq.
  by eapply typed_same; [..|exact Ht].
Qed.
Lemma sound_gets {A} (f : commstate → A) : sound (gets f).
Proof. by intros H s b s' Ht [= <- <-]. Qed.
Lemma sound_modify f : (∀ H s, typed H s → typed H (f s)) → sound (modify f).
Proof. intros Hf H s a s' Ht [= <- <-]. by apply Hf. Qed.
Lemma sound_ub {A} : sound (ub : M commstate A).
Proof. done. Qed.
Lemma sound_nofuel {A} : sound (nofuel : M commstate A).
Proof. done. Qed.
Lemma sound_bounded {A} f (m : nat → M commstate A) : (∀ n, sound (m n)) → sound (bounded f m).
Proof. intros H H' s. apply H. Qed.
Lemma sound_as_loc p : sound (as_loc p).
Proof. destruct p; [apply sound_ret|done]. Qed.
Lemma sound_ccall `{CommEnv} c : sound (ccall_ c).
Proof.
  intros P s a s' Ht E. unfold ccall_ in E. destruct (ccall_result c s). simplify_eq.
  by eapply typed_same; [..|exact Ht].
Qed.
Lemma sound_get {X A} (m : commstate → gmap positive X) (f : X → A) p : sound (obj_get m f p).
Proof. intros H s a s' Ht E. destruct p; simpl in E; [|done]. case_match; by simplify_eq. Qed.

(** Writing, and freeing, an object. *)
Lemma sound_ent_set f p : (∀ e, ok_entry e → ok_entry (f e)) → sound (ent_set f p).
Proof.
  intros Hf H s a s' [] E. destruct p; simpl in E; [|done]. case_match eqn:Hl; simplify_eq.
  constructor; simpl; try done. intros e x. rewrite lookup_insert. case_decide; [|eauto].
  subst. intros [= <-]. destruct (ty_entries0 _ _ Hl); auto.
Qed.
Lemma sound_ses_set f p : (∀ l x, ok_session l x → ok_session l (f x)) → sound (ses_set f p).
Proof.
  intros Hf H s a s' [] E. destruct p; simpl in E; [|done]. case_match eqn:Hl; simplify_eq.
  constructor; simpl; try done. intros e x. rewrite lookup_insert. case_decide; [|eauto].
  subst. intros [= <-]. eauto.
Qed.
Lemma sound_tgt_set f p : (∀ x, ok_target x → ok_target (f x)) → sound (tgt_set f p).
Proof.
  intros Hf H s a s' [] E. destruct p; simpl in E; [|done]. case_match eqn:Hl; simplify_eq.
  constructor; simpl; try done. intros e x. rewrite lookup_insert. case_decide; [|eauto].
  subst. intros [= <-]. eauto.
Qed.
Lemma sound_svc_set f p : (∀ x, ok_service x → ok_service (f x)) → sound (svc_set f p).
Proof.
  intros Hf H s a s' [] E. destruct p; simpl in E; [|done]. case_match eqn:Hl; simplify_eq.
  constructor; simpl; try done. intros e x. rewrite lookup_insert. case_decide; [|eauto].
  subst. intros [= <-]. eauto.
Qed.
Lemma sound_obj {X} (m : commstate → gmap positive X) upd f p :
  (∀ H s v, typed H s → typed H (upd v s)) → sound (obj_set m upd f p).
Proof. intros Hu H s a s' Ht E. destruct p; simpl in E; [|done]. case_match; simplify_eq. by apply Hu. Qed.
Lemma sound_free {X} (m : commstate → gmap positive X) upd p :
  (∀ H s l, typed H s → typed H (upd (delete l (m s)) s)) → sound (obj_free m upd p).
Proof.
  intros Hu H s a s' Ht E. destruct p; simpl in E; [case_match|]; simplify_eq; [by apply Hu|done].
Qed.

Lemma typed_delete_entry H s l : typed H s → typed H (set_centries (delete l (centries s)) s).
Proof. intros []. constructor; simpl; try done. intros e x [_ ?]%lookup_delete_Some. eauto. Qed.
Lemma typed_delete_session H s l : typed H s → typed H (set_csessions (delete l (csessions s)) s).
Proof. intros []. constructor; simpl; try done. intros e x [_ ?]%lookup_delete_Some. eauto. Qed.
Lemma typed_delete_target H s l : typed H s → typed H (set_ctargets (delete l (ctargets s)) s).
Proof. intros []. constructor; simpl; try done. intros e x [_ ?]%lookup_delete_Some. eauto. Qed.
End typed.

Create HintDb sound discriminated.
#[export] Hint Resolve sound_ret sound_clnk sound_gets sound_ub sound_nofuel sound_as_loc sound_ccall
  sound_get : sound.

(** A write that keeps an object within its type. *)
Ltac well_typed :=
  intros; unfold ok_entry, ok_target, ok_service in *; simpl in *;
  repeat match goal with H : _ ∧ _ |- _ => destruct H end;
  split_and?; first [ assumption | apply i32_within | apply i64_within | by split | done ].
Ltac sounds :=
  repeat first
    [ progress intros
    | progress cbv zeta
    | solve [eauto with sound nocore]
    | apply sound_bnd | apply sound_bounded
    | apply sound_ent_set; solve [well_typed] | apply sound_ses_set; solve [by intros]
    | apply sound_tgt_set; solve [well_typed] | apply sound_svc_set; solve [well_typed]
    | apply sound_obj; by intros ??? [] | apply sound_free; by intros ??? []
    | apply sound_free; intros; by apply typed_delete_entry
    | apply sound_free; intros; by apply typed_delete_session
    | apply sound_free; intros; by apply typed_delete_target
    | apply sound_modify; by intros ?? []
    | case_match ].

(** What the client's virtual functions and the names without a definition keep: the
    types of the objects, and the [passive] that is fixed. *)
Class CommTypeLaws (C : CommClient) (K : CommCallbacks) (fixed : loc → option Z) : Prop := {
  sound_send_timeout l : sound fixed (send_timeout l);
  sound_receive_timeout l : sound fixed (receive_timeout l);
  sound_keep_alive_timeout l : sound fixed (keep_alive_timeout l);
  sound_first_timeout_of l : sound fixed (first_timeout_of l);
  sound_encode o n : sound fixed (encode o n);
  sound_unbound l : sound fixed (service_unbound l);
  sound_handle l st e : sound fixed (handle l st e);
  sound_message_out l : sound fixed (message_out l);
  sound_message_in l : sound fixed (message_in l);
  sound_release l : sound fixed (release l);
  sound_connect_fd l : sound fixed (create_connect_fd l);
  sound_target_conn l f : sound fixed (target_new_connection l f);
  sound_new_session l q c : sound fixed (new_session l q c);
  sound_handle_stop l e : sound fixed (handle_stop l e);
  sound_listen_fd l : sound fixed (create_listen_fd l);
  sound_service_conn l f : sound fixed (service_new_connection l f);
  sound_append l b : sound fixed (append l b);
  sound_feedback l n : sound fixed (inner_feedback l n);
  sound_duration l : sound fixed (duration l);
  sound_sleep_handle l st e : sound fixed (sleep_handle l st e);
}.
#[export] Hint Resolve sound_send_timeout sound_receive_timeout sound_keep_alive_timeout
  sound_first_timeout_of sound_encode sound_unbound sound_handle sound_message_out sound_message_in
  sound_release sound_connect_fd sound_target_conn sound_new_session sound_handle_stop
  sound_listen_fd sound_service_conn sound_append sound_feedback sound_duration
  sound_sleep_handle : sound.

Section code.
Context `{E : CommEnv} `{R : CommMemory} `{C : CommClient} `{X : CommExterns} `{K : CommCallbacks}.
Context (fixed : loc → option Z) `{!CommTypeLaws C K fixed}.
Local Abbreviation sound := (sound fixed).

(** ** Sockets, counts, timeouts *)

Lemma sound_put_errno e : sound (put_cerrno e).
Proof. unfold put_cerrno. sounds. Qed.
Lemma sound_get_errno : sound get_cerrno.
Proof. unfold get_cerrno. sounds. Qed.
Lemma sound_nonblock f : sound (__set_fd_nonblock f).
Proof. unfold __set_fd_nonblock. sounds. Qed.
Lemma sound_close f : sound (close_fd f).
Proof. unfold close_fd. sounds. Qed.
Lemma sound_mp_del f mp : sound (mpoller_del_fd f mp).
Proof. apply sound_ccall. Qed.
Lemma sound_mp_timeout f t mp : sound (mpoller_set_fd_timeout f t mp).
Proof. apply sound_ccall. Qed.
Hint Resolve sound_put_errno sound_get_errno sound_nonblock sound_close sound_mp_del
  sound_mp_timeout : sound.
Lemma sound_release_conn e : sound (__release_conn e).
Proof. unfold __release_conn. sounds. Qed.
Lemma sound_service_decref v : sound (service_decref v).
Proof. unfold service_decref. sounds. Qed.
Lemma sound_target_deinit t : sound (target_deinit t).
Proof. unfold target_deinit. sounds. Qed.
Hint Resolve sound_release_conn sound_service_decref sound_target_deinit : sound.
Lemma sound_target_decref t : sound (target_decref t).
Proof. unfold target_decref. sounds. Qed.
Hint Resolve sound_target_decref : sound.
Lemma sound_target_shutdown t : sound (target_shutdown t).
Proof. unfold target_shutdown. sounds. Qed.
Lemma sound_first_timeout x : sound (first_timeout x).
Proof. unfold first_timeout, cclock_gettime. sounds. Qed.
Lemma sound_next_timeout x : sound (next_timeout x).
Proof. unfold next_timeout, cclock_gettime, int_of. sounds. Qed.
Hint Resolve sound_target_shutdown sound_first_timeout sound_next_timeout : sound.
Lemma sound_first_send x : sound (first_timeout_send x).
Proof. unfold first_timeout_send. sounds. Qed.
Lemma sound_first_recv x : sound (first_timeout_recv x).
Proof. unfold first_timeout_recv. sounds. Qed.
Hint Resolve sound_first_send sound_first_recv : sound.

(** ** Sending *)

Lemma sound_copy_iovs a : sound (copy_iovs a).
Proof.
  intros H s x s' Ht E1. unfold copy_iovs in E1. case_match; simplify_eq; [|done].
  by eapply typed_same; [..|exact Ht].
Qed.
Lemma sound_sync_loop fuel f vs : sound (sync_loop fuel f vs).
Proof. revert vs. induction fuel; intros vs; cbn [sync_loop]; sounds. Qed.
Lemma sound_sent_all e x : sound (sent_all e x).
Proof. unfold sent_all. sounds. Qed.
Hint Resolve sound_copy_iovs sound_sync_loop sound_sent_all : sound.
Lemma sound_send_sync fuel vs e : sound (send_message_sync fuel vs e).
Proof. unfold send_message_sync. sounds. Qed.
Lemma sound_send_async vs c e : sound (send_message_async vs c e).
Proof. unfold send_message_async. sounds. Qed.
Hint Resolve sound_send_sync sound_send_async : sound.
Lemma sound_send_message fuel e : sound (send_message fuel e).
Proof. unfold send_message. sounds. Qed.
Hint Resolve sound_send_message : sound.
Lemma sound_send_out fuel x e : sound (send_out fuel x e).
Proof. unfold send_out. sounds. Qed.
Lemma sound_mp_add d t : sound (mpoller_add_data d t).
Proof. unfold mpoller_add_data. sounds. Qed.
Lemma sound_mp_del_this f : sound (mpoller_del_this f).
Proof. unfold mpoller_del_this. sounds. Qed.
Hint Resolve sound_send_out sound_mp_add sound_mp_del_this : sound.
Lemma sound_sent_or_broken r e : sound (sent_or_broken r e).
Proof. unfold sent_or_broken. sounds. Qed.
Hint Resolve sound_sent_or_broken : sound.

(** ** Telling sessions *)

Lemma sound_session_handle p st er : sound (session_handle p st er).
Proof. unfold session_handle. sounds. Qed.
Lemma sound_target_release p : sound (target_release p).
Proof. unfold target_release. sounds. Qed.
Lemma sound_service_stopped p er : sound (service_stopped p er).
Proof. unfold service_stopped. sounds. Qed.
Lemma sound_target_mutex p : sound (target_mutex p).
Proof. unfold target_mutex. sounds. Qed.
Lemma sound_service_mutex p : sound (service_mutex p).
Proof. unfold service_mutex. sounds. Qed.
Lemma sound_entry_mutex p : sound (entry_mutex p).
Proof. unfold entry_mutex. sounds. Qed.
Lemma sound_entry_incref p : sound (entry_incref p).
Proof. unfold entry_incref. sounds. Qed.
Lemma sound_entry_decref p : sound (entry_decref p).
Proof. unfold entry_decref. sounds. Qed.
Hint Resolve sound_session_handle sound_target_release sound_service_stopped sound_target_mutex
  sound_service_mutex sound_entry_mutex sound_entry_incref sound_entry_decref : sound.

(** ** Replies *)

Lemma sound_reply_reliable fuel x t : sound (reply_reliable fuel x t).
Proof. unfold reply_reliable. sounds. Qed.
Lemma sound_reply_message_unreliable e : sound (reply_message_unreliable e).
Proof. unfold reply_message_unreliable. sounds. Qed.
Hint Resolve sound_reply_reliable sound_reply_message_unreliable : sound.
Lemma sound_reply_unreliable x t : sound (reply_unreliable x t).
Proof. unfold reply_unreliable. sounds. Qed.
Hint Resolve sound_reply_unreliable : sound.
Lemma sound_can_push x i : sound (can_push x i).
Proof. unfold can_push. sounds. Qed.
Hint Resolve sound_can_push : sound.
Lemma sound_push n x : sound (push n x).
Proof. unfold push. sounds. Qed.

(** ** Writes and connections *)

Lemma sound_add_unless d t : sound (add_unless_stopped d t).
Proof. unfold add_unless_stopped. sounds. Qed.
Lemma sound_reply_timeout x : sound (reply_timeout x).
Proof. unfold reply_timeout. sounds. Qed.
Hint Resolve sound_add_unless sound_reply_timeout : sound.
Lemma sound_keep_alive r e v t n : sound (keep_alive r e v t n).
Proof. unfold keep_alive. sounds. Qed.
Lemma sound_replied e x t st er : sound (replied e x t st er).
Proof. unfold replied. sounds. Qed.
Lemma sound_request_failed e x st er : sound (request_failed e x st er).
Proof. unfold request_failed. sounds. Qed.
Lemma sound_connect_failed e x t st er : sound (connect_failed e x t st er).
Proof. unfold connect_failed. sounds. Qed.
Hint Resolve sound_keep_alive sound_replied sound_request_failed sound_connect_failed : sound.
Lemma sound_reply_result r : sound (handle_reply_result r).
Proof. unfold handle_reply_result. sounds. Qed.
Lemma sound_request_result r : sound (handle_request_result r).
Proof. unfold handle_request_result. sounds. Qed.
Hint Resolve sound_reply_result sound_request_result : sound.
Lemma sound_write_result r : sound (handle_write_result r).
Proof. unfold handle_write_result. sounds. Qed.
Lemma sound_connect_result fuel r : sound (handle_connect_result fuel r).
Proof. unfold handle_connect_result. sounds. Qed.
Lemma sound_incoming_reply r e t : sound (incoming_reply r e t).
Proof. unfold incoming_reply. sounds. Qed.
Hint Resolve sound_incoming_reply : sound.
Lemma sound_handle_incoming_reply r : sound (handle_incoming_reply r).
Proof. unfold handle_incoming_reply. sounds. Qed.
Lemma sound_sleep_result r : sound (handle_sleep_result r).
Proof. unfold handle_sleep_result. sounds. Qed.

(** ** Messages *)

Lemma sound_receiving x : sound (receiving_timeout x).
Proof. unfold receiving_timeout. sounds. Qed.
Hint Resolve sound_receiving : sound.
Lemma sound_append_message b m : sound (append_message b m).
Proof. unfold append_message. sounds. Qed.
Lemma sound_message_of x e b : sound (message_of x e b).
Proof. unfold message_of. sounds. Qed.
Lemma sound_take_alive e v t : sound (take_alive e v t).
Proof. unfold take_alive. sounds. Qed.
Lemma sound_recv_loop fuel m e b : sound (recv_loop fuel m e b).
Proof. revert b. induction fuel; intros b; cbn [recv_loop]; sounds. Qed.
Lemma sound_incref t : sound (target_incref t).
Proof. unfold target_incref. sounds. Qed.
Hint Resolve sound_message_of sound_take_alive sound_recv_loop sound_incref : sound.
Lemma sound_create_reply e : sound (create_reply e).
Proof. unfold create_reply. sounds. Qed.
Lemma sound_partial_written n e : sound (partial_written n e).
Proof. unfold partial_written. sounds. Qed.

(** ** Services, sleeping *)

Lemma sound_drain_alive fuel h c m : sound (drain_alive fuel h c m).
Proof. revert c. induction fuel; intros c; cbn [drain_alive]; sounds. Qed.
Hint Resolve sound_drain_alive : sound.
Lemma sound_drain v m : sound (drain v m).
Proof. unfold drain. sounds. Qed.
Hint Resolve sound_drain : sound.
Lemma sound_shutdown_service v : sound (shutdown_service v).
Proof. unfold shutdown_service. sounds. Qed.
Hint Resolve sound_shutdown_service : sound.
Lemma sound_service_result r : sound (service_result r).
Proof. unfold service_result. sounds. Qed.
Hint Resolve sound_service_result : sound.
Lemma sound_bind_sockaddr f a l : sound (__bind_sockaddr f a l).
Proof. unfold __bind_sockaddr. sounds. Qed.
Hint Resolve sound_bind_sockaddr : sound.
Lemma sound_nonblock_listen v : sound (nonblock_listen v).
Proof. unfold nonblock_listen. sounds. Qed.
Hint Resolve sound_nonblock_listen : sound.
Lemma sound_bind v : sound (bind v).
Proof. unfold bind. sounds. Qed.
Lemma sound_unbind v : sound (unbind v).
Proof. unfold unbind. sounds. Qed.
Lemma sound_sleep x : sound (sleep x).
Proof. unfold sleep. sounds. Qed.
Lemma sound_unsleep x : sound (unsleep x).
Proof. unfold unsleep. sounds. Qed.

(** ** New connections *)

(** Code that ends with the entry [l], fresh from [malloc], written or freed. *)
Definition settles {A} (l : loc) (m : M commstate A) : Prop :=
  ∀ H s a s', typed fixed (λ x, x = l ∨ H x) s → m s = Done (a, s') → typed fixed H s'.

Lemma settles_after {A B} l (m : M commstate A) (k : A → M commstate B) :
  sound m → (∀ a, settles l (k a)) → settles l (bnd m k).
Proof. intros Hm Hk H s b s' Ht (a & s1 & E1 & E2)%bnd_done_inv. eapply Hk; [|done]. by eapply Hm. Qed.
Lemma settles_before {A B} l (m : M commstate A) (k : A → M commstate B) :
  settles l m → (∀ a, sound (k a)) → settles l (bnd m k).
Proof. intros Hm Hk H s b s' Ht (a & s1 & E1 & E2)%bnd_done_inv. eapply Hk; [|done]. by eapply Hm. Qed.
Lemma settles_set l f : (∀ e, ok_entry (f e)) → settles l (ent_set f (Some l)).
Proof.
  intros Hf H s a s' [] E1. simpl in E1. case_match; simplify_eq. constructor; simpl; try done.
  intros e x. rewrite lookup_insert. case_decide as Hl; [intros [= <-]; auto|].
  intros Hx. destruct (ty_entries0 _ _ Hx) as [[->|]|]; auto. done.
Qed.
Lemma settles_free l : settles l (free_entry (Some l)).
Proof.
  unfold free_entry. apply settles_before; [|intros; sounds].
  intros H s a s' [] E1. simpl in E1. case_match; simplify_eq. constructor; simpl; try done.
  intros e x. rewrite lookup_delete_Some. intros [Hl Hx].
  destruct (ty_entries0 _ _ Hx) as [[->|]|]; auto. done.
Qed.
Lemma sound_new_entry {A} (k : ptr → M commstate A) :
  (∀ l, settles l (k (Some l))) → sound (k None) → sound (bnd new_entry k).
Proof.
  intros Hk Hn H s b s' Ht (a & s1 & E1 & E2)%bnd_done_inv. unfold new_entry in E1.
  destruct (cmalloc s) as [l|]; simplify_eq; [|by eapply Hn].
  eapply Hk; [|exact E2]. destruct Ht. constructor; simpl; try done.
  intros e x. rewrite lookup_insert. case_decide as Hl; [by left; left|].
  intros Hx. destruct (ty_entries0 _ _ Hx); auto.
Qed.

Lemma sound_accept_conn t v : sound (accept_conn t v).
Proof.
  unfold accept_conn. do 2 (apply sound_bnd; [sounds|intros]). case_match; [|sounds].
  apply sound_new_entry; [intros l; cbn [nonnull]|sounds].
  do 3 (apply settles_after; [sounds|intros]). case_match.
  - apply settles_after; [sounds|intros]. apply settles_before; [|intros; sounds].
    apply settles_set. well_typed.
  - apply settles_before; [apply settles_free|intros; sounds].
Qed.
Lemma sound_nonblock_connect t : sound (nonblock_connect t).
Proof. unfold nonblock_connect. sounds. Qed.
Hint Resolve sound_accept_conn sound_nonblock_connect : sound.

(** Code that settles the entry exactly when it says so; otherwise it is freed. *)
Definition settles_if (l : loc) (m : M commstate bool) : Prop :=
  ∀ H s b s', typed fixed (λ x, x = l ∨ H x) s → m s = Done (b, s') →
    typed fixed (λ x, (b = false ∧ x = l) ∨ H x) s'.
Lemma settles_if_after {A} l (m : M commstate A) k :
  sound m → (∀ a, settles_if l (k a)) → settles_if l (bnd m k).
Proof. intros Hm Hk H s b s' Ht (a & s1 & E1 & E2)%bnd_done_inv. eapply Hk; [|done]. by eapply Hm. Qed.
Lemma typed_ext H H' s : (∀ x, H x → H' x) → typed fixed H s → typed fixed H' s.
Proof. intros HH []. constructor; try done. intros e x Hx. destruct (ty_entries0 _ _ Hx); auto. Qed.
Lemma settles_if_true {A} l (m : M commstate A) : settles l m → settles_if l (m ;;; ret true).
Proof.
  intros Hm H s b s' Ht (a & s1 & E1 & [= <- <-])%bnd_done_inv.
  eapply typed_ext; [|by eapply Hm]. auto.
Qed.
Lemma settles_if_false {A} l (m : M commstate A) : sound m → settles_if l (m ;;; ret false).
Proof.
  intros Hm H s b s' Ht (a & s1 & E1 & [= <- <-])%bnd_done_inv.
  eapply typed_ext; [|by eapply Hm]. intros x [->|]; auto.
Qed.
Lemma settles_or_free l (m : M commstate bool) :
  settles_if l m →
  settles l (let* ok := m in (if ok : bool then ret tt else free_entry (Some l)) ;;; ret ok).
Proof.
  intros Hm H s b s' Ht (ok & s1 & E1 & E2)%bnd_done_inv. specialize (Hm _ _ _ _ Ht E1).
  destruct ok.
  - injection E2 as <- <-. eapply typed_ext; [|exact Hm]. by intros x [[]|].
  - apply bnd_done_inv in E2 as (u & s2 & E2 & [= <- <-]). eapply settles_free; [|exact E2].
    eapply typed_ext; [|exact Hm]. intros x [[]|]; auto.
Qed.

Lemma sound_launch_conn x t : sound (launch_conn x t).
Proof.
  unfold launch_conn. apply sound_bnd; [sounds|intros fd']. case_match; [|sounds].
  apply sound_new_entry; [intros l; cbn [nonnull]|sounds].
  apply settles_before; [|intros; sounds]. apply settles_after; [sounds|intros].
  apply settles_or_free. case_match.
  - do 2 (apply settles_if_after; [sounds|intros]). case_match.
    + apply settles_if_true, settles_set. well_typed.
    + by apply (settles_if_false l (ret tt)), sound_ret.
  - by apply settles_if_false, sound_put_errno.
Qed.
Hint Resolve sound_launch_conn : sound.

(** ** Requests *)

Lemma sound_idle_loop fuel t : sound (idle_loop fuel t).
Proof. induction fuel; cbn [idle_loop]; sounds. Qed.
Lemma sound_join_conn x e : sound (join_conn x e).
Proof. unfold join_conn. sounds. Qed.
Hint Resolve sound_idle_loop sound_join_conn : sound.
Lemma sound_request_idle fuel x t : sound (request_idle_conn fuel x t).
Proof. unfold request_idle_conn. sounds. Qed.
Lemma sound_request_new x t : sound (request_new_conn x t).
Proof. unfold request_new_conn. sounds. Qed.
Hint Resolve sound_request_idle sound_request_new : sound.
Lemma sound_request fuel x t : sound (request fuel x t).
Proof. unfold request. sounds. Qed.

(** ** New targets *)

Lemma sound_listen_result r : sound (handle_listen_result r).
Proof. unfold handle_listen_result. sounds. Qed.
Lemma sound_recvfrom_result r : sound (handle_recvfrom_result r).
Proof. unfold handle_recvfrom_result. sounds. Qed.
Lemma sound_new_target : sound new_target.
Proof.
  intros H s a s' [] [= <- <-]. constructor; simpl; try done. intros t x.
  rewrite lookup_insert. case_decide; [|eauto]. intros [= <-]. by split.
Qed.
Lemma sound_copy_addr a : sound (copy_addr a).
Proof.
  intros H s x s' Ht E1. unfold copy_addr in E1. case_match; simplify_eq; [|done].
  by eapply typed_same; [..|exact Ht].
Qed.
Hint Resolve sound_new_target sound_copy_addr : sound.
Lemma sound_target_init t a l c r : sound (target_init t a l c r).
Proof. unfold target_init. sounds. Qed.
Lemma sound_adopt t v f : sound (adopt t v f).
Proof. unfold adopt, service_incref. sounds. Qed.
Hint Resolve sound_target_init sound_adopt : sound.
Lemma sound_accept a l f v : sound (accept a l f v).
Proof. unfold accept. sounds. Qed.
Hint Resolve sound_accept : sound.

(** ** Setting [passive] *)

Lemma sound_set_passive n p :
  within 0 4 n → (∀ l, p = Some l → fixed l = None ∨ fixed l = Some n) →
  sound (ses_set (set_passive n) p).
Proof.
  intros Hn Hf H s a s' [] E1. destruct p as [l|]; simpl in E1; [|done].
  case_match; simplify_eq. constructor; simpl; try done.
  intros y x. rewrite lookup_insert. case_decide; [|eauto]. subst. intros [= <-].
  split; [done|]. simpl. intros q Hq. destruct (Hf _ eq_refl); congruence.
Qed.
End code.
#[export] Hint Resolve sound_put_errno sound_get_errno sound_nonblock sound_close sound_mp_del
  sound_mp_timeout sound_release_conn sound_target_decref sound_target_shutdown sound_first_recv
  sound_session_handle sound_target_mutex sound_entry_mutex sound_service_mutex sound_entry_incref
  sound_entry_decref sound_reply_reliable sound_reply_unreliable sound_handle_incoming_reply
  sound_message_of sound_take_alive sound_recv_loop sound_incref sound_accept sound_accept_conn
  sound_write_result sound_connect_result sound_listen_result sound_recvfrom_result
  sound_sleep_result sound_append_message sound_create_reply sound_partial_written sound_push
  sound_request sound_bind sound_unbind sound_drain sound_sleep sound_unsleep : sound.

(** ** The program *)

(** What the handler threads, the poller threads and the client call. *)
Inductive comm_call : Type :=
| OnRead (res : poller_result)
| OnWrite (res : poller_result)
| OnConnect (fuel : nat) (res : poller_result)
| OnListen (res : poller_result)
| OnRecvfrom (res : poller_result)
| OnSleep (res : poller_result)
| Append (buf : list Z) (msg : ptr)
| CreateRequest (entry : ptr)
| CreateReply (entry : ptr)
| Written (n : Z) (entry : ptr)
| Accept (addr : list Z) (len sockfd : Z) (service : ptr)
| Recvfrom (fuel : nat) (addr : list Z) (len : Z) (buf : list Z) (service : ptr)
| Request (fuel : nat) (session target : ptr)
| Reply (fuel : nat) (session : ptr)
| Push (size : Z) (session : ptr)
| Shutdown (session : ptr)
| Bind (service : ptr)
| Unbind (service : ptr)
| Drain (service : ptr) (max : Z)
| Sleep (session : ptr)
| Unsleep (session : ptr)
| Destroy (session : ptr).

Section program.
Context `{E : CommEnv} `{R : CommMemory} `{C : CommClient} `{X : CommExterns} `{K : CommCallbacks}.

Definition run_call (c : comm_call) : M commstate unit :=
  let void {A} (m : M commstate A) : M commstate unit := let* _ := m in ret tt in
  match c with
  | OnRead res => handle_read_result res
  | OnWrite res => handle_write_result res
  | OnConnect fuel res => handle_connect_result fuel res
  | OnListen res => handle_listen_result res
  | OnRecvfrom res => handle_recvfrom_result res
  | OnSleep res => handle_sleep_result res
  | Append buf msg => void (append_message buf msg)
  | CreateRequest entry => void (create_request entry)
  | CreateReply entry => void (create_reply entry)
  | Written n entry => void (partial_written n entry)
  | Accept addr len fd service => void (accept addr len fd service)
  | Recvfrom fuel addr len buf service => void (recvfrom fuel addr len buf service)
  | Request fuel session target => void (request fuel session target)
  | Reply fuel session => void (reply fuel session)
  | Push size session => void (push size session)
  | Shutdown session => void (shutdown session)
  | Bind service => void (bind service)
  | Unbind service => unbind service
  | Drain service max => void (drain service max)
  | Sleep session => void (sleep session)
  | Unsleep session => void (unsleep session)
  | Destroy session => session_destroy session
  end.
Fixpoint run_calls (cs : list comm_call) : M commstate unit :=
  match cs with
  | [] => ret tt
  | c :: cs => run_call c ;;; run_calls cs
  end.

Section free.
Local Abbreviation free := (λ _ : loc, @None Z).
Context `{!CommTypeLaws C K free}.
Local Abbreviation sound := (sound free).

Lemma sound_passive n p : within 0 4 n → sound (ses_set (set_passive n) p).
Proof. intros Hn. apply sound_set_passive; auto. Qed.
Ltac sounds_passive :=
  repeat first [progress sounds | apply sound_bnd | apply sound_passive; by split].

Lemma sound_incoming_request r e t : sound (incoming_request r e t).
Proof. unfold incoming_request. sounds_passive. Qed.
Hint Resolve sound_incoming_request : sound.
Lemma sound_handle_incoming_request r : sound (handle_incoming_request r).
Proof. unfold handle_incoming_request. sounds. Qed.
Hint Resolve sound_handle_incoming_request : sound.
Lemma sound_read_result r : sound (handle_read_result r).
Proof. unfold handle_read_result. sounds. Qed.
Lemma sound_begin_session e v t : sound (begin_session e v t).
Proof. unfold begin_session. sounds_passive. Qed.
Hint Resolve sound_begin_session : sound.
Lemma sound_create_request e : sound (create_request e).
Proof. unfold create_request. sounds. Qed.
Lemma sound_recv_request fuel b e : sound (recv_request fuel b e).
Proof. unfold recv_request. sounds. Qed.
Hint Resolve sound_recv_request : sound.
Lemma sound_recvfrom fuel a l b v : sound (recvfrom fuel a l b v).
Proof. unfold recvfrom. sounds. Qed.
Lemma sound_reply fuel x : sound (reply fuel x).
Proof. unfold reply. sounds_passive. Qed.
Lemma sound_shutdown x : sound (shutdown x).
Proof. unfold shutdown. sounds_passive. Qed.
Lemma sound_session_destroy x : sound (session_destroy x).
Proof. unfold session_destroy. sounds. Qed.
Hint Resolve sound_read_result sound_create_request sound_recvfrom sound_reply sound_shutdown
  sound_session_destroy : sound.

Lemma sound_call c : sound (run_call c).
Proof. destruct c; cbn [run_call]; sounds. Qed.
Lemma sound_calls cs : sound (run_calls cs).
Proof.
  induction cs as [|c cs IH]; [apply sound_ret|]. apply sound_bnd; [apply sound_call|done].
Qed.
End free.

(** ** Replying once *)

(** Only the session [l] has its [passive] fixed, to 3: it has been replied to, or
    shut down. *)
Definition replied_to (l : loc) : loc → option Z := λ x, if decide (x = l) then Some 3%Z else None.

(** The operations that end a session that is to be replied to. *)
Inductive ending_call (l : loc) : M commstate Z → Prop :=
| EndReply fuel : ending_call l (reply fuel (Some l))
| EndShutdown : ending_call l (shutdown (Some l)).

Lemma typed_fix H l n s :
  typed (λ _, None) H s → (∀ x, csessions s !! l = Some x → passive x = n) →
  typed (λ x, if decide (x = l) then Some n else None) H s.
Proof.
  intros [] Hp. constructor; try done. intros y x Hx. destruct (ty_sessions0 _ _ Hx) as [Hw _].
  split; [done|]. intros q. case_decide; [|done]. subst. intros [= <-]. auto.
Qed.

Lemma ending_refused l op s x :
  ending_call l op → csessions s !! l = Some x → passive x ≠ 2%Z →
  op s = Done ((-1)%Z, set_cerrno EINVAL s).
Proof.
  intros [fuel|] Hx Hp%Z.eqb_neq; unfold reply, shutdown;
    by rewrite (obj_get_bnd csessions _ _ _ _ x), Hp by done.
Qed.

Lemma ending_once l op H s x r s' `{!CommTypeLaws C K (replied_to l)} :
  typed (λ _, None) H s → csessions s !! l = Some x → passive x = 2%Z → ending_call l op →
  op s = Done (r, s') → ∀ x', csessions s' !! l = Some x' → passive x' = 3%Z.
Proof.
  intros Ht Hx Hp Hop Hr x' Hx'.
  assert (typed (replied_to l) H s') as [_ Hs _ _].
  { set (s1 := set_csessions (<[l := set_passive 3 x]> (csessions s)) s).
    assert (typed (replied_to l) H s1) as H1.
    { apply typed_fix.
      - destruct Ht. constructor; simpl; try done. intros y z. rewrite lookup_insert.
        case_decide; [|eauto]. intros [= <-]. by split.
      - intros z. simpl. rewrite lookup_insert_eq. by intros [= <-]. }
    destruct Hop as [fuel|]; unfold reply, shutdown in Hr;
      rewrite (obj_get_bnd csessions _ _ _ _ x), Hp in Hr by done; cbn [Z.eqb Pos.eqb negb] in Hr.
    - unfold get_cerrno in Hr. rewrite gets_bnd in Hr.
      rewrite (obj_set_bnd csessions _ _ _ _ _ x) in Hr by done. revert Hr.
      match goal with |- ?m _ = _ → _ => enough (sound (replied_to l) m) as Hm; [by apply Hm|] end.
      sounds.
    - rewrite (obj_set_bnd csessions _ _ _ _ _ x) in Hr by done. revert Hr.
      match goal with |- ?m _ = _ → _ => enough (sound (replied_to l) m) as Hm; [by apply Hm|] end.
      sounds. }
  apply (Hs _ _ Hx'). unfold replied_to. by rewrite decide_True.
Qed.
End program.
