(* ===== verification/CommConnect.v ===== *)
(** New connections of a client: every way out of [request_new_conn] accounts for the
    socket and for the memory it took. *)
From S2P Require Export CommCount.

(** How often [fd] was closed. *)
Definition is_close (fd : Z) (c : ccall) : bool :=
  match c with KClose f => (f =? fd)%Z | _ => false end.
Definition closes (fd : Z) (cs : list (ccall * Z)) : nat :=
  length (List.filter (λ c, is_close fd c.1) cs).

Lemma closes_cons fd c r cs : c ≠ KClose fd → closes fd ((c, r) :: cs) = closes fd cs.
Proof.
  intros H. unfold closes. simpl. destruct c; try done. simpl.
  destruct (Z.eqb_spec fd0 fd); [congruence|done].
Qed.
Lemma closes_close fd r cs : closes fd ((KClose fd, r) :: cs) = S (closes fd cs).
Proof. unfold closes. simpl. by rewrite Z.eqb_refl. Qed.

(** What this is about: the connections, and the closes of a descriptor. *)
Definition held_by (fd : Z) (s : commstate) : gmap positive conn_entry * nat :=
  (centries s, closes fd (ccalls s)).
(** Code that changes neither. *)
Abbreviation idle fd := (leaves (held_by fd)) (only parsing).

Lemma idle_call `{CommEnv} fd c : c ≠ KClose fd → idle fd (ccall_ c).
Proof.
  intros Hc s a s' E. unfold ccall_ in E. destruct (ccall_result c s). simplify_eq.
  unfold held_by. simpl. by rewrite closes_cons.
Qed.
Lemma close_run `{CommEnv} fd s u s' :
  close_fd fd s = Done (u, s') → held_by fd s' = (centries s, S (closes fd (ccalls s))).
Proof.
  unfold close_fd. intros (r & s1 & E1 & [= <- <-])%bnd_done_inv. unfold ccall_ in E1.
  destruct (ccall_result _ _). simplify_eq. unfold held_by. simpl. by rewrite closes_close.
Qed.

Ltac idles := hush ltac:(apply idle_call; congruence).

(** The client's functions make the socket and the connection object, and nothing
    else of this; [malloc] gives an address without an entry. *)
Class CommConnectLaws (E : CommEnv) (K : CommCallbacks) : Prop := {
  idle_connect_fd fd l : idle fd (create_connect_fd l);
  idle_target_conn fd l f : idle fd (target_new_connection l f);
  malloc_fresh s l : cmalloc s = Some l → centries s !! l = None;
}.

Section connect.
Context `{E : CommEnv} `{R : CommMemory} `{C : CommClient} `{X : CommExterns} `{K : CommCallbacks}
  `{!CommConnectLaws E K}.

(** The descriptor [fd] given up, if there is one: one close more. *)
Definition given_up (fd : Z) (s : commstate) : gmap positive conn_entry * nat :=
  (centries s, if (0 <=? fd)%Z then S (closes fd (ccalls s)) else closes fd (ccalls s)).

(** The socket [nonblock_connect] returns is open; a socket it does not return it has
    closed, once. *)
Lemma nonblock_connect_owned t l fd s1 s r s' :
  t = Some l → create_connect_fd l s = Done (fd, s1) → nonblock_connect t s = Done (r, s') →
  r = fd ∧ (0 ≤ fd)%Z ∧ held_by fd s' = held_by fd s ∨
  r = (-1)%Z ∧ held_by fd s' = given_up fd s.
Proof.
  intros -> Hc H. unfold nonblock_connect in H. take H l1 s0 E0. injection E0 as <- <-.
  pose proof (idle_connect_fd fd _ _ _ _ Hc) as V. take H f s2 E1. rewrite Hc in E1.
  injection E1 as <- <-. unfold given_up. destruct (0 <=? fd)%Z eqn:Hfd; [|injection H as <- <-; by right].
  take H y s2 E2. assert (held_by fd s2 = held_by fd s1) as V2.
  { refine ((_ : idle fd _) _ _ _ E2). unfold __set_fd_nonblock. idles. }
  take H ok s3 E3. assert (held_by fd s3 = held_by fd s2) as V3.
  { refine ((_ : idle fd _) _ _ _ E3). unfold get_cerrno. idles. }
  destruct ok.
  - injection H as <- <-. left. apply Z.leb_le in Hfd. split_and!; [done|done|]. by rewrite V3, V2, V.
  - take H u s4 E4. injection H as <- <-. right. split; [done|].
    rewrite (close_run _ _ _ _ E4). unfold held_by in *. congruence.
Qed.

(** An entry of [s'] that was not of [s], which owns [fd], open. *)
Definition owned_by (fd : Z) (e : loc) (en : conn_entry) (s s' : commstate) : Prop :=
  centries s !! e = None ∧ sockfd_ en = fd ∧ (0 ≤ fd)%Z ∧
  held_by fd s' = (<[e := en]> (centries s), closes fd (ccalls s)).

Lemma ent_set_owned fd e en f p s s1 u s' :
  centries s !! e = None → (0 ≤ fd)%Z →
  held_by fd s1 = (<[e := en]> (centries s), closes fd (ccalls s)) →
  p = Some e → ent_set f p s1 = Done (u, s') → sockfd_ (f en) = fd →
  owned_by fd e (f en) s s'.
Proof.
  intros He Hf Hh -> E1 Hfd. unfold held_by in Hh. injection Hh as Hce Hcl.
  simpl in E1. rewrite Hce, lookup_insert_eq in E1. injection E1 as _ <-.
  split_and!; [done|done|done|]. unfold held_by. simpl. by rewrite insert_insert_eq, Hcl.
Qed.
Lemma idle_owned_by {A} fd e en (m : M commstate A) s s1 a s' :
  idle fd m → owned_by fd e en s s1 → m s1 = Done (a, s') → owned_by fd e en s s'.
Proof. intros Hm (He & Hs & Hf & Hh) E1. split_and!; try done. by rewrite (Hm _ _ _ E1). Qed.
Lemma release_owned fd e en s s1 u s' :
  owned_by fd e en s s1 → __release_conn (Some e) s1 = Done (u, s') → held_by fd s' = given_up fd s.
Proof.
  intros (He & Hs & Hf & Hh) H. unfold __release_conn in H. take H c s2 E2.
  apply obj_get_inv in E2 as (-> & _). take H y s2 E2.
  rewrite <- (idle_call fd (KDeleteConn c) ltac:(done) _ _ _ E2) in Hh. clear E2.
  take H f s3 E3. apply obj_get_inv in E3 as (-> & ? & x & [= <-] & Hx & ->).
  unfold held_by in Hh. injection Hh as Hce Hcl. rewrite Hce, lookup_insert_eq in Hx.
  injection Hx as <-. rewrite Hs in H. take H y1 s3 E3. apply close_run in E3.
  unfold held_by in E3. injection E3 as E4 E5. take H y2 s4 E6.
  rewrite ((leaves_free (held_by fd) clinks set_clinks (Some e) (λ _ _, eq_refl)) _ _ _ H). simpl in E6. rewrite E4, Hce, lookup_insert_eq in E6.
  injection E6 as _ <-. unfold held_by, given_up. simpl.
  rewrite (proj2 (Z.leb_le 0 fd)) by done. by rewrite E5, Hcl, delete_insert_id.
Qed.

(** ... and is a connection of the session [x] to the target [t] that is being made. *)
Definition launched (fd : Z) (x t : ptr) (e : loc) (s s' : commstate) : Prop :=
  ∃ en, owned_by fd e en s s' ∧ state_ en = CONN_STATE_CONNECTING ∧ ref_ en = 1%Z ∧
        session_ en = x ∧ target_ en = t.

Lemma launched_idle {A} fd x t e (m : M commstate A) s s1 a s' :
  idle fd m → launched fd x t e s s1 → m s1 = Done (a, s') → launched fd x t e s s'.
Proof. intros Hm (en & Ho & H) E1. exists en. split; [|done]. by eapply idle_owned_by. Qed.
Lemma launched_set fd x t e f s s1 u s' :
  (∀ en, sockfd_ (f en) = sockfd_ en ∧ state_ (f en) = state_ en ∧ ref_ (f en) = ref_ en ∧
         session_ (f en) = session_ en ∧ target_ (f en) = target_ en) →
  launched fd x t e s s1 → ent_set f (Some e) s1 = Done (u, s') → launched fd x t e s s'.
Proof.
  intros Hf (en & (He & Hs & Hfd & Hh) & H1 & H2 & H3 & H4) E1.
  destruct (Hf en) as (F1 & F2 & F3 & F4 & F5). exists (f en). split; [|by split_and!; congruence].
  eapply ent_set_owned; try done. congruence.
Qed.

Lemma launch_conn_owned x t l fd s0 s p s' :
  t = Some l → create_connect_fd l s = Done (fd, s0) → launch_conn x t s = Done (p, s') →
  match p with
  | Some e => launched fd x t e s s'
  | None => held_by fd s' = given_up fd s
  end.
Proof.
  intros Ht Hc H. unfold launch_conn in H. take H f s1 E1.
  destruct (nonblock_connect_owned t l fd s0 s f s1 Ht Hc E1) as [(-> & Hf & V)|[-> V]];
    [|by injection H as <- <-].
  rewrite (proj2 (Z.leb_le 0 fd)) in H by done. take H e s2 E2. unfold new_entry in E2.
  injection V as Hce Hcl. destruct (cmalloc s1) as [m|] eqn:Em; injection E2 as <- <-; cycle 1.
  { take H y s3 E3. injection E3 as <- <-. take H y s3 E3. injection H as <- <-.
    rewrite (close_run _ _ _ _ E3). unfold given_up.
    by rewrite Hce, Hcl, (proj2 (Z.leb_le 0 fd)) by done. }
  pose proof (malloc_fresh _ _ Em) as Hm. rewrite Hce in Hm.
  set (s2 := set_centries _ _) in H.
  assert (held_by fd s2 = (<[m := junk_entry s1]> (centries s), closes fd (ccalls s))) as H2
    by (unfold held_by; simpl; by rewrite Hce, Hcl). clearbody s2.
  take H made s3 E3. cbn [nonnull] in E3. take E3 r s4 E4.
  rewrite <- (idle_call fd (KMutexInit (Some m)) ltac:(done) _ _ _ E4) in H2. clear E4. take E3 ok s5 E5.
  assert (if ok : bool then launched fd x t m s s5
          else held_by fd s5 = held_by fd s4) as H5.
  { branch E5; cycle 1.
    { take E5 y s6 E6. injection E5 as <- <-. by injection E6 as _ <-. }
    take E5 l1 s6 E6. rewrite Ht in E6. injection E6 as _ <-.
    take E5 c s6' E7. apply (idle_target_conn fd) in E7. branch E5; [|by injection E5 as <- <-].
    take E5 y s7 E8. injection E5 as <- <-. rewrite <- E7 in H2.
    set (f := λ e, ConnEntry _ _ _ _ _ _ _ _ _ _ _) in E8.
    exists (f (junk_entry s1)). split_and!; try done.
    eapply (ent_set_owned fd m (junk_entry s1) f (Some m) s s6' y s7); done. }
  take E3 y s6 E6. injection E3 as <- <-. destruct ok.
  - injection E6 as <- <-. by injection H as <- <-.
  - take H z s7 E7. injection H as <- <-. rewrite (close_run _ _ _ _ E7).
    unfold free_entry in E6. take E6 u s8 E8.
    pose proof ((leaves_free (held_by fd) clinks set_clinks (Some m) (λ _ _, eq_refl)) _ _ _ E6) as V6. rewrite H2 in H5.
    unfold held_by in H5. injection H5 as Hce5 Hcl5. simpl in E8.
    rewrite Hce5, lookup_insert_eq in E8. injection E8 as _ <-.
    unfold held_by in V6. simpl in V6. injection V6 as V61 V62.
    unfold given_up. rewrite (proj2 (Z.leb_le 0 fd)) by done.
    by rewrite V61, V62, Hcl5, delete_insert_id.
Qed.

(** [request_new_conn] returns 0 with one new entry, which owns the socket, open; or
    -1 with no entry more and the socket, if there was one, closed once. *)
Lemma request_new_owned x t l fd s0 s r s' :
  t = Some l → create_connect_fd l s = Done (fd, s0) → request_new_conn x t s = Done (r, s') →
  r = 0%Z ∧ (∃ e, launched fd x t e s s') ∨ r = (-1)%Z ∧ held_by fd s' = given_up fd s.
Proof.
  intros Ht Hc H. unfold request_new_conn in H. take H p s1 E1.
  pose proof (launch_conn_owned _ _ _ _ _ _ _ _ Ht Hc E1) as Ho. clear E1.
  destruct p as [e|]; cbn [nonnull] in H; [|injection H as <- <-; by right].
  take H mp s2 E2. apply gets_inv in E2 as [_ ->]. take H y1 s2 E2.
  apply (launched_set fd x t e) with (s := s) in E2; [|done..]. clear Ho.
  take H y2 s3 E3. unfold join_conn in E3. take E3 c s4 E4. apply obj_get_inv in E4 as (-> & _).
  take E3 q s4 E4. apply obj_get_inv in E4 as (-> & _). take E3 y3 s4 E4.
  apply (launched_idle fd x t e) with (s := s) in E4; [|by idles|done].
  apply (launched_set fd x t e) with (s := s) in E3; [|done..].
  take H j s5 E5. apply gets_inv in E5 as [_ ->]. take H f s5 E5. apply obj_get_inv in E5 as (-> & _).
  take H t' s5 E5. apply obj_get_inv in E5 as (-> & _).
  take H tm s5 E5. apply obj_get_inv in E5 as (-> & _). take H z s5 E5.
  apply (launched_idle fd x t e) with (s := s) in E5; [|unfold mpoller_add_data; by idles|done].
  branch H; [injection H as <- <-; left; eauto|]. right. take H u s6 E6. injection H as <- <-.
  split; [done|]. destruct E5 as (en & Hen & _). by eapply release_owned.
Qed.
End connect.
