(* ===== verification/CommWatch.v ===== *)
(** The life of a client's connection, as a machine of its own: what the poller
    still has to deliver for it, what its entry says, which list it is on, and what
    its session was told. *)
From stdpp Require Export functions.
From S2P Require Export MapSum CommFrame CommIdle.

(** ** The poller's part *)

(** Of the message that is read on a connection: there is none, bytes of it have
    arrived, or it is complete and its result is on the way to a handler. *)
Inductive reading : Type := NoMessage | Begun | Complete.
#[export] Instance reading_eq_dec : EqDecision reading.
Proof. solve_decision. Defined.

(** What a poller has for the descriptor of a connection: the operation whose last
    result is still to come, or is on the way to a handler; and the message. *)
Record watch : Type := Watch { w_op : option Z; w_msg : reading }.

(** What the communicator does of interest: an [mpoller_add] or [mpoller_mod] of an
    operation that succeeds, and the call of a session's [handle]. *)
Inductive act : Type := Watches (op : Z) (entry : ptr) | Tells (session : loc).
#[export] Instance act_eq_dec : EqDecision act.
Proof. solve_decision. Defined.
Definition act_of (c : ccall * Z) : option act :=
  match c.1 with
  | KAdd d _ _ | KMod d _ _ => if (0 <=? c.2)%Z then Some (Watches (operation d) (context d)) else None
  | KHandle l _ _ => Some (Tells l)
  | _ => None
  end.
Definition acts (cs : list (ccall * Z)) : list act := omap act_of cs.

(** A new operation takes the place of the old one. *)
Definition rewatch (a : act) (P : loc → watch) : loc → watch :=
  match a with
  | Watches op (Some e) => <[e := Watch (Some op) NoMessage]> P
  | _ => P
  end.
(** [new]: latest first. *)
Definition rewatch_all (new : list act) (P : loc → watch) : loc → watch := foldr rewatch P new.

(** How often the session [l] was told an outcome. *)
Fixpoint tells (l : loc) (new : list act) : Z :=
  match new with
  | [] => 0
  | a :: new => b2z (bool_decide (a = Tells l)) + tells l new
  end.

Lemma acts_cons c cs : acts (c :: cs) = match act_of c with Some a => a :: acts cs | None => acts cs end.
Proof. unfold acts. simpl. by destruct (act_of c). Qed.
Lemma tells_app l xs ys : tells l (xs ++ ys) = (tells l xs + tells l ys)%Z.
Proof. induction xs as [|a xs IH]; simpl; [done|]. rewrite IH. lia. Qed.

(** ** The communicator's part *)

(** Of an entry, what its life depends on. *)
Record lentry : Type := LEntry {
  l_state : Z;
  l_ref : Z;
  l_session : ptr;
  l_target : ptr;
  l_service : ptr;
}.
Definition lkey (e : conn_entry) : lentry :=
  LEntry (state_ e) (ref_ e) (session_ e) (target_ e) (service_ e).
(** Of a state: the entries, the lists with the heads of the targets, and the acts. *)
Record lview : Type := LView {
  lv_entries : gmap positive lentry;
  lv_links : gmap positive cell;
  lv_heads : gmap positive positive;
  lv_acts : list act;
}.
Definition live (s : commstate) : lview :=
  LView (lkey <$> centries s) (clinks s) (m_idle_list <$> ctargets s) (acts (ccalls s)).

Definition set_l_state (v : Z) (k : lentry) : lentry :=
  LEntry v (l_ref k) (l_session k) (l_target k) (l_service k).
Definition set_l_ref (v : Z) (k : lentry) : lentry :=
  LEntry (l_state k) v (l_session k) (l_target k) (l_service k).
Definition set_l_session (v : ptr) (k : lentry) : lentry :=
  LEntry (l_state k) (l_ref k) v (l_target k) (l_service k).
Definition with_entries (f : gmap positive lentry → gmap positive lentry) (V : lview) : lview :=
  LView (f (lv_entries V)) (lv_links V) (lv_heads V) (lv_acts V).
Definition with_links (h : gmap positive cell) (V : lview) : lview :=
  LView (lv_entries V) h (lv_heads V) (lv_acts V).
Definition with_acts (new : list act) (V : lview) : lview :=
  LView (lv_entries V) (lv_links V) (lv_heads V) (new ++ lv_acts V).

(** Whether the session of a connection waits to be told an outcome. *)
Definition owes (w : watch) (k : lentry) : bool :=
  match w_op w with
  | Some op =>
      if (op =? PD_OP_READ)%Z then
        bool_decide (w_msg w = Complete) || (l_state k =? CONN_STATE_RECEIVING)%Z ||
        (l_state k =? CONN_STATE_ERROR)%Z
      else true
  | None => bool_decide (w_msg w = Complete)
  end.
(** Whether a connection waits for a request, on the list of its target. *)
Definition idling (w : watch) (k : lentry) : bool :=
  bool_decide (w_op w = Some PD_OP_READ) && bool_decide (w_msg w = NoMessage) &&
  (l_state k =? CONN_STATE_IDLE)%Z.
(** The states that go with what the poller has. *)
Definition goes_with (w : watch) (k : lentry) : Prop :=
  match w_op w, w_msg w with
  | Some op, m =>
      (op = PD_OP_CONNECT ∧ m = NoMessage ∧ l_state k = CONN_STATE_CONNECTING) ∨
      (op = PD_OP_WRITE ∧ m = NoMessage ∧
       (l_state k = CONN_STATE_CONNECTING ∨ l_state k = CONN_STATE_IDLE)) ∨
      (op = PD_OP_READ ∧
       match m with
       | NoMessage =>
           l_state k = CONN_STATE_RECEIVING ∨ l_state k = CONN_STATE_ERROR ∨
           l_state k = CONN_STATE_IDLE ∨ l_state k = CONN_STATE_CLOSING
       | Begun => l_state k = CONN_STATE_RECEIVING
       | Complete => l_state k = CONN_STATE_SUCCESS
       end)
  | None, Complete => l_state k = CONN_STATE_CLOSING
  | None, _ => False
  end.

(** The connections whose outcome the session [l] waits for. *)
Definition waits (l : loc) (p : watch * lentry) : Z :=
  b2z (owes p.1 p.2 && bool_decide (l_session p.2 = Some l)).
Definition pairs (P : loc → watch) (m : gmap positive lentry) : gmap positive (watch * lentry) :=
  map_imap (λ e k, Some (P e, k)) m.
Definition in_flight (l : loc) (P : loc → watch) (m : gmap positive lentry) : Z :=
  msum (waits l) (pairs P m).

(** A connection in memory has one reference, the one of the poller or of the result
    that is on its way; its state goes with what is to come; and a session that waits
    is there to be told. *)
Record sane (w : watch) (k : lentry) : Prop := Sane {
  s_goes_with : goes_with w k;
  s_ref : l_ref k = 1%Z;
  s_service : l_service k = None;
  s_session : owes w k = true → l_session k ≠ None;
}.
(** [e] is an idle connection of the target [t]; the list at [head] is those. *)
Definition idle_conn (P : loc → watch) (m : gmap positive lentry) (t e : loc) : Prop :=
  ∃ k, m !! e = Some k ∧ idling (P e) k = true ∧ l_target k = Some t.
Definition idle_list (P : loc → watch) (V : lview) (t head : loc) (es : list loc) : Prop :=
  dlist (lv_links V) head es ∧ ∀ e, e ∈ es ↔ idle_conn P (lv_entries V) t e.
(** [A] is how many requests were made for each session: as many outcomes were told,
    or are to come. *)
Record well (P : loc → watch) (A : loc → Z) (V : lview) : Prop := Well {
  w_sane e k : lv_entries V !! e = Some k → sane (P e) k;
  w_cell e : is_Some (lv_entries V !! e) → is_Some (lv_links V !! e);
  w_list t head : lv_heads V !! t = Some head → ∃ es, idle_list P V t head es;
  w_heads t t' head : lv_heads V !! t = Some head → lv_heads V !! t' = Some head → t = t';
  w_head t head : lv_heads V !! t = Some head → lv_entries V !! head = None;
  w_count l : (tells l (lv_acts V) + in_flight l P (lv_entries V) = A l)%Z;
}.

(** Functions that agree everywhere. *)
#[export] Instance well_proper :
  Proper (pointwise_relation _ (=) ==> pointwise_relation _ (=) ==> (=) ==> (↔)) well.
Proof.
  enough (∀ P P' A A' V, (∀ x, P x = P' x) → (∀ l, A l = A' l) → well P A V → well P' A' V) as H.
  { intros P P' HP A A' HA V ? <-. split; apply H; intros x; symmetry || idtac; done. }
  intros P P' A A' V HP HA [W1 W2 W3 W4 W5 W6]. constructor; try done.
  - intros e k. rewrite <- HP. apply W1.
  - intros t head Ht. destruct (W3 t head Ht) as (es & Hd & Hi). exists es. split; [done|].
    intros e. rewrite Hi. unfold idle_conn. by rewrite HP.
  - intros l. rewrite <- HA, <- W6. unfold in_flight.
    assert (pairs P' (lv_entries V) = pairs P (lv_entries V)) as ->; [|done].
    apply map_eq. intros x. unfold pairs. rewrite !map_lookup_imap. by rewrite HP.
Qed.
Lemma fn_insert_same (P : loc → watch) e w : P e = w → pointwise_relation _ (=) (<[e := w]> P) P.
Proof. intros <- x. destruct (decide (e = x)) as [->|]; [apply fn_lookup_insert|by apply fn_lookup_insert_ne]. Qed.

Lemma idling_inv w k : idling w k = true → w = Watch (Some PD_OP_READ) NoMessage ∧ l_state k = CONN_STATE_IDLE.
Proof.
  unfold idling. intros [[H1%bool_decide_eq_true H2%bool_decide_eq_true]%andb_true_iff H3%Z.eqb_eq]%andb_true_iff.
  destruct w. simpl in *. by subst.
Qed.
Lemma idle_owes_not w k : idling w k = true → owes w k = false.
Proof. intros [-> Hk]%idling_inv. unfold owes. simpl. by rewrite Hk. Qed.

(** ** A change of one connection *)

(** The entry at [e] is now [o]: another one, a new one, or gone. *)
Abbreviation entry_at e o m := (partial_alter (λ _, o) e m) (only parsing).
Definition waits_at (l : loc) (w : watch) (o : option lentry) : Z :=
  match o with Some k => waits l (w, k) | None => 0 end.

Lemma pairs_lookup P m e : pairs P m !! e = (λ k, (P e, k)) <$> m !! e.
Proof. unfold pairs. rewrite map_lookup_imap. by destruct (m !! e). Qed.
Lemma pairs_change P m e w o :
  pairs (<[e := w]> P) (entry_at e o m) = partial_alter (λ _, (λ k, (w, k)) <$> o) e (pairs P m).
Proof.
  apply map_eq. intros x. rewrite pairs_lookup. destruct (decide (e = x)) as [->|Hx].
  - by rewrite !lookup_partial_alter_eq, fn_lookup_insert.
  - by rewrite !lookup_partial_alter_ne, fn_lookup_insert_ne, pairs_lookup by done.
Qed.
Lemma msum_change {X} (f : X → Z) (m : gmap positive X) e o :
  (msum f (partial_alter (λ _, o) e m) =
    msum f m - from_option f 0 (m !! e) + from_option f 0 o)%Z.
Proof.
  destruct o as [x|].
  - change (partial_alter _ e m) with (<[e := x]> m).
    destruct (m !! e) as [y|] eqn:He; simpl.
    + by rewrite (msum_insert _ _ _ y).
    + rewrite msum_insert_new by done. lia.
  - change (partial_alter _ e m) with (delete e m).
    destruct (m !! e) as [y|] eqn:He; simpl.
    + rewrite (msum_delete _ _ _ y) by done. lia.
    + rewrite delete_id by done. lia.
Qed.
Lemma in_flight_change l P m e w o :
  (in_flight l (<[e := w]> P) (entry_at e o m) =
    in_flight l P m - waits_at l (P e) (m !! e) + waits_at l w o)%Z.
Proof.
  unfold in_flight. rewrite pairs_change, msum_change, pairs_lookup.
  by destruct (m !! e), o.
Qed.
Lemma idle_conn_change P m t e w o x :
  idle_conn (<[e := w]> P) (entry_at e o m) t x ↔
  (x = e ∧ ∃ k, o = Some k ∧ idling w k = true ∧ l_target k = Some t) ∨ (x ≠ e ∧ idle_conn P m t x).
Proof.
  unfold idle_conn. destruct (decide (e = x)) as [->|Hx].
  - rewrite lookup_partial_alter_eq, fn_lookup_insert. naive_solver.
  - rewrite lookup_partial_alter_ne, fn_lookup_insert_ne by done. naive_solver.
Qed.
Lemma idle_conn_not P m t e : (∀ k, m !! e = Some k → idling (P e) k = false) → ¬ idle_conn P m t e.
Proof. intros He (k & Hk & Hi & _). specialize (He k Hk). congruence. Qed.

Section moves.
Context {P : loc → watch} {A : loc → Z} {V : lview} (W : well P A V).
Implicit Types (e t head : loc) (k : lentry) (w : watch) (new : list act).

(** What is left to show: the lists. *)
Lemma well_change e o w h new A' :
  (∀ k, o = Some k → sane w k) →
  (∀ x, is_Some (entry_at e o (lv_entries V) !! x) → is_Some (h !! x)) →
  (∀ t head, lv_heads V !! t = Some head → head ≠ e) →
  (∀ t head es, lv_heads V !! t = Some head → idle_list P V t head es →
     ∃ es', dlist h head es' ∧
       ∀ x, x ∈ es' ↔ idle_conn (<[e := w]> P) (entry_at e o (lv_entries V)) t x) →
  (∀ l, tells l new + waits_at l w o - waits_at l (P e) (lv_entries V !! e) = A' l - A l)%Z →
  well (<[e := w]> P) A' (LView (entry_at e o (lv_entries V)) h (lv_heads V) (new ++ lv_acts V)).
Proof.
  intros Hs Hc He Hl Hw. constructor; simpl.
  - intros x k. destruct (decide (e = x)) as [->|Hx].
    + rewrite lookup_partial_alter_eq, fn_lookup_insert. apply Hs.
    + rewrite lookup_partial_alter_ne, fn_lookup_insert_ne by done. apply (w_sane _ _ _ W).
  - done.
  - intros t head Hh. destruct (w_list _ _ _ W t head Hh) as (es & Hi). by eapply Hl.
  - apply (w_heads _ _ _ W).
  - intros t head Hh. rewrite lookup_partial_alter_ne by (intros ->; by eapply He).
    by apply (w_head _ _ _ W t).
  - intros l. rewrite tells_app, in_flight_change.
    pose proof (w_count _ _ _ W l). specialize (Hw l). lia.
Qed.

(** An entry is no head, and on no list but that of the idle connections of its
    target; two lists share no cell. *)
Lemma head_not_entry e k t head : lv_entries V !! e = Some k → lv_heads V !! t = Some head → head ≠ e.
Proof. intros He Hh ->. by rewrite (w_head _ _ _ W t e Hh) in He. Qed.
Lemma head_not_new e t head : lv_links V !! e = None → lv_heads V !! t = Some head → head ≠ e.
Proof.
  intros He Hh ->. destruct (w_list _ _ _ W t e Hh) as (es & (_ & Hf & _) & _).
  pose proof (fseg_alloc _ _ _ _ e Hf ltac:(by left)) as [c Hc]. congruence.
Qed.
Lemma lists_disjoint t t' head head' es es' x :
  lv_heads V !! t = Some head → lv_heads V !! t' = Some head' → t ≠ t' →
  idle_list P V t head es → idle_list P V t' head' es' → x ∈ head :: es → x ∉ head' :: es'.
Proof.
  intros Hh Hh' Hn [_ Hi] [_ Hi'] Hx Hx'. apply elem_of_cons in Hx, Hx'.
  destruct Hx as [->|(k & He & _ & Ht)%Hi], Hx' as [Ex|(k' & He' & _ & Ht')%Hi'].
  - rewrite <- Ex in Hh'. by apply Hn, (w_heads _ _ _ W _ _ head).
  - by apply (head_not_entry head k' t head).
  - subst. by apply (head_not_entry head' k t' head').
  - congruence.
Qed.

(** An entry that is not idle becomes another that is not idle, or none; or there
    is a new one. The other cells stay. *)
Lemma well_aside e o w h new A' :
  (∀ k, lv_entries V !! e = Some k → idling (P e) k = false) →
  (lv_entries V !! e = None → lv_links V !! e = None) →
  (∀ k, o = Some k → sane w k ∧ idling w k = false ∧ is_Some (h !! e)) →
  (∀ x, x ≠ e → h !! x = lv_links V !! x) →
  (∀ l, tells l new + waits_at l w o - waits_at l (P e) (lv_entries V !! e) = A' l - A l)%Z →
  well (<[e := w]> P) A' (LView (entry_at e o (lv_entries V)) h (lv_heads V) (new ++ lv_acts V)).
Proof.
  intros Hi Hn Ho Hh Hc.
  assert (∀ t head, lv_heads V !! t = Some head → head ≠ e) as Hne.
  { intros t head Ht. destruct (lv_entries V !! e) as [k|] eqn:He;
      [by eapply head_not_entry|by eapply head_not_new; [apply Hn|]]. }
  apply well_change; try done.
  - intros k Hk. by apply Ho.
  - intros x [k Hx]. destruct (decide (e = x)) as [->|Hxe].
    + rewrite lookup_partial_alter_eq in Hx. by apply (Ho k).
    + rewrite lookup_partial_alter_ne in Hx by done. rewrite Hh by done.
      apply (w_cell _ _ _ W). eauto.
  - intros t head es Ht [Hd He]. exists es. split.
    + eapply dlist_frame; [|exact Hd]. intros x Hx. apply Hh. intros ->.
      apply elem_of_cons in Hx as [->|Hx%He]; [by eapply Hne|by eapply (idle_conn_not P _ t e)].
    + intros x. rewrite He, idle_conn_change. split.
      * intros Hx. right. split; [|done]. intros ->. by eapply (idle_conn_not P _ t e).
      * intros [(-> & k & -> & Hk & _)|[_ ?]]; [|done]. destruct (Ho k) as (_ & ? & _); [done|congruence].
Qed.
Lemma well_move e k w' k' new A' :
  lv_entries V !! e = Some k → idling (P e) k = false → idling w' k' = false → sane w' k' →
  (∀ l, tells l new + waits l (w', k') - waits l (P e, k) = A' l - A l)%Z →
  well (<[e := w']> P) A' (with_acts new (with_entries <[e := k']> V)).
Proof.
  intros He Hi Hi' Hs Hc. apply (well_aside e (Some k')); rewrite ?He; try done.
  - by intros k0 [= <-].
  - intros k0 [= <-]. split_and!; [done..|]. apply (w_cell _ _ _ W). by eexists.
Qed.
Lemma well_drop e k w' new A' :
  lv_entries V !! e = Some k → idling (P e) k = false →
  (∀ l, tells l new - waits l (P e, k) = A' l - A l)%Z →
  well (<[e := w']> P) A'
    (LView (delete e (lv_entries V)) (delete e (lv_links V)) (lv_heads V) (new ++ lv_acts V)).
Proof.
  intros He Hi Hc. apply (well_aside e None); rewrite ?He; try done.
  - by intros k0 [= <-].
  - intros x Hx. by rewrite lookup_delete_ne.
  - intros l. rewrite <- (Hc l). simpl. lia.
Qed.
Lemma well_new e w k c new A' :
  lv_entries V !! e = None → lv_links V !! e = None → idling w k = false → sane w k →
  (∀ l, tells l new + waits l (w, k) = A' l - A l)%Z →
  well (<[e := w]> P) A'
    (LView (<[e := k]> (lv_entries V)) (<[e := c]> (lv_links V)) (lv_heads V) (new ++ lv_acts V)).
Proof.
  intros He Hl Hi Hs Hc. apply (well_aside e (Some k)); rewrite ?He; try done.
  - intros k0 [= <-]. split_and!; [done..|]. by rewrite lookup_insert_eq.
  - intros x Hx. by rewrite lookup_insert_ne.
  - intros l. rewrite <- (Hc l). simpl. lia.
Qed.

(** An idle connection leaves the list. *)
Lemma well_unlist `{X : CommExterns} `{!CommListLaws X} e k t head h w' k' new A' :
  lv_entries V !! e = Some k → idling (P e) k = true → l_target k = Some t →
  lv_heads V !! t = Some head → list_del (Some e) (lv_links V) = Done (tt, h) →
  idling w' k' = false → sane w' k' →
  (∀ l, tells l new + waits l (w', k') - waits l (P e, k) = A' l - A l)%Z →
  well (<[e := w']> P) A' (LView (<[e := k']> (lv_entries V)) h (lv_heads V) (new ++ lv_acts V)).
Proof.
  intros He Hi Ht Hh Hdel Hi' Hs Hc. destruct (w_list _ _ _ W t head Hh) as (es & Hd & Hm).
  assert (e ∈ es) as (xs & ys & ->)%list_elem_of_split by (apply Hm; by exists k).
  destruct (list_del_law _ _ _ _ _ Hd) as (h' & E & Hd' & Hf). rewrite E in Hdel.
  injection Hdel as ->. assert (e ∉ head :: xs ++ ys) as He'.
  { destruct Hd as [[Hn Hnd]%NoDup_cons _]. apply NoDup_app in Hnd as (_ & Hx & [Hy _]%NoDup_cons).
    intros Hin. set_unfold in Hin. destruct Hin as [->|[Hin|Hin]]; [|by eapply Hx; [done|left]|done].
    by apply (head_not_entry head k t head). }
  apply (well_change e (Some k')); rewrite ?He; try done.
  - by intros k0 [= <-].
  - intros x Hx. destruct (decide (x ∈ head :: xs ++ ys)) as [Hin|Hin].
    + destruct Hd' as (_ & Hfs & _). by eapply fseg_alloc.
    + rewrite Hf by done. apply (w_cell _ _ _ W). destruct (decide (e = x)) as [->|Hxe]; [by eexists|].
      by rewrite lookup_partial_alter_ne in Hx.
  - intros t' head'. by eapply head_not_entry.
  - intros t' head' es Hh' [Hd2 Hm2]. destruct (decide (t' = t)) as [->|Hne].
    + assert (head' = head) as -> by congruence. exists (xs ++ ys). split; [done|]. intros x.
      rewrite idle_conn_change. assert (x ∈ xs ++ e :: ys ↔ x = e ∨ x ∈ xs ++ ys) as Hx by set_solver.
      rewrite Hm in Hx. split.
      * intros Hin. right. split; [|tauto]. intros ->. by apply He'; right.
      * intros [(_ & k0 & [= <-] & ? & _)|[? Hic]]; [congruence|]. tauto.
    + exists es. split.
      * eapply dlist_frame; [|exact Hd2]. intros x Hx. apply Hf. intros Hin.
        refine (lists_disjoint _ _ _ _ _ _ _ Hh' Hh Hne (conj Hd2 Hm2) (conj Hd Hm) Hx _). set_solver.
      * intros x. rewrite Hm2, idle_conn_change. split.
        -- intros Hx. right. split; [|done]. intros ->. destruct Hx as (k0 & ? & _ & ?). congruence.
        -- intros [(_ & k0 & [= <-] & ? & _)|[_ ?]]; [congruence|done].
Qed.

(** A connection becomes idle. *)
Lemma well_enlist `{X : CommExterns} `{!CommListLaws X} e k t head h w' k' new A' :
  lv_entries V !! e = Some k → idling (P e) k = false → l_target k' = Some t →
  lv_heads V !! t = Some head → list_add (Some e) (Some head) (lv_links V) = Done (tt, h) →
  idling w' k' = true → sane w' k' →
  (∀ l, tells l new + waits l (w', k') - waits l (P e, k) = A' l - A l)%Z →
  well (<[e := w']> P) A' (LView (<[e := k']> (lv_entries V)) h (lv_heads V) (new ++ lv_acts V)).
Proof.
  intros He Hi Ht Hh Hadd Hi' Hs Hc. destruct (w_list _ _ _ W t head Hh) as (es & Hd & Hm).
  assert (∀ t, ¬ idle_conn P (lv_entries V) t e) as Hno.
  { intros t'. apply idle_conn_not. intros k0 Hk0. congruence. }
  assert (e ∉ head :: es) as Hn.
  { intros [->|Hin]%elem_of_cons; [by apply (head_not_entry head k t head)|]. by apply (Hno t), Hm. }
  destruct (list_add_law _ _ _ e Hd Hn) as (h' & E & Hd' & Hf); [by apply (w_cell _ _ _ W); eexists|].
  rewrite E in Hadd. injection Hadd as ->. apply (well_change e (Some k')); rewrite ?He; try done.
  - by intros k0 [= <-].
  - intros x Hx. destruct (decide (x ∈ head :: e :: es)) as [Hin|Hin].
    + destruct Hd' as (_ & Hfs & _). by eapply fseg_alloc.
    + rewrite Hf by done. apply (w_cell _ _ _ W).
      rewrite lookup_partial_alter_ne in Hx by set_solver. done.
  - intros t' head'. by eapply head_not_entry.
  - intros t' head' es' Hh' [Hd2 Hm2]. destruct (decide (t' = t)) as [->|Hne].
    + assert (head' = head) as -> by congruence. exists (e :: es). split; [done|]. intros x.
      rewrite idle_conn_change, elem_of_cons, Hm. split.
      * intros [->|Hx]; [left; eauto|right]. split; [|done]. intros ->. by eapply Hno.
      * intros [[-> _]|[_ ?]]; tauto.
    + exists es'. split.
      * eapply dlist_frame; [|exact Hd2]. intros x Hx. apply Hf. intros Hin.
        assert (x ∈ head :: es → False) as Hdis.
        { exact (lists_disjoint _ _ _ _ _ _ _ Hh' Hh Hne (conj Hd2 Hm2) (conj Hd Hm) Hx). }
        assert (x = e) as -> by set_solver. apply elem_of_cons in Hx as [->|Hx%Hm2].
        -- by apply (head_not_entry head' k t' head').
        -- by eapply Hno.
      * intros x. rewrite Hm2, idle_conn_change. split.
        -- intros Hx. right. split; [|done]. intros ->. by eapply Hno.
        -- intros [(_ & k0 & [= <-] & _ & ?)|[_ ?]]; [congruence|done].
Qed.
End moves.
