(* ===== verification/CommLife.v ===== *)
(** The client side of the communicator moves connections the way [CommWatch] says:
    what sending, the handlers, the callbacks and [request] do to the view. *)
From S2P Require Export CommRequest CommWatch.

(** Code that changes nothing of the life of a connection. *)
Abbreviation aside := (leaves live) (only parsing).

(** ** Writes that are seen, and that are not *)

Lemma aside_ent_set f p : (∀ e, lkey (f e) = lkey e) → aside (ent_set f p).
Proof.
  intros H s a s' E. destruct p; simpl in E; [|done]. case_match eqn:He; simplify_eq.
  unfold live. simpl. f_equal. rewrite fmap_insert, H. apply insert_id. by rewrite lookup_fmap, He.
Qed.
Lemma aside_tgt_set f p : (∀ t, m_idle_list (f t) = m_idle_list t) → aside (tgt_set f p).
Proof.
  intros H s a s' E. destruct p; simpl in E; [|done]. case_match eqn:He; simplify_eq.
  unfold live. simpl. f_equal. rewrite fmap_insert, H. apply insert_id. by rewrite lookup_fmap, He.
Qed.
Lemma live_set f g p s u s' :
  (∀ en, lkey (f en) = g (lkey en)) → ent_set f p s = Done (u, s') →
  ∃ e k, p = Some e ∧ lv_entries (live s) !! e = Some k ∧
         live s' = with_entries <[e := g k]> (live s).
Proof.
  intros H E. destruct p as [e|]; simpl in E; [|done]. case_match eqn:He; simplify_eq.
  exists e. eexists. split_and!; [done| |].
  - simpl. by rewrite lookup_fmap, He.
  - unfold live, with_entries. simpl. by rewrite fmap_insert, H.
Qed.
Lemma live_get {B} (f : conn_entry → B) (g : lentry → B) p s x s' :
  (∀ en, f en = g (lkey en)) → ent_get f p s = Done (x, s') →
  s' = s ∧ ∃ e k, p = Some e ∧ lv_entries (live s) !! e = Some k ∧ x = g k.
Proof.
  intros Hf (-> & e & en & -> & He & ->)%obj_get_inv. split; [done|]. eexists _, _.
  split_and!; [done| |apply Hf]. simpl. by rewrite lookup_fmap, He.
Qed.
Lemma live_head p s x s' :
  tgt_get m_idle_list p s = Done (x, s') →
  s' = s ∧ ∃ t, p = Some t ∧ lv_heads (live s) !! t = Some x.
Proof.
  intros (-> & t & tg & -> & Ht & ->)%obj_get_inv. split; [done|]. exists t. split; [done|].
  simpl. by rewrite lookup_fmap, Ht.
Qed.
Lemma live_clnk {A} (m : M (gmap positive cell) A) s a s' :
  clnk m s = Done (a, s') → ∃ h, m (lv_links (live s)) = Done (a, h) ∧ live s' = with_links h (live s).
Proof.
  intros E. unfold clnk, zoom in E. destruct (m (clinks s)) as [[b h]| | |] eqn:Em; simplify_eq.
  by exists h.
Qed.
Lemma live_call_made c r s :
  live (add_ccall c r s) =
    match act_of (c, r) with Some a => with_acts [a] (live s) | None => live s end.
Proof.
  trans (LView (lkey <$> centries s) (clinks s) (m_idle_list <$> ctargets s)
           (acts ((c, r) :: ccalls s))); [done|].
  rewrite acts_cons. by destruct (act_of (c, r)).
Qed.
Lemma live_call `{CommEnv} c s r s' :
  ccall_ c s = Done (r, s') →
  live s' = match act_of (c, r) with Some a => with_acts [a] (live s) | None => live s end.
Proof.
  intros E. unfold ccall_ in E. destruct (ccall_result c s) as [z e]. injection E as -> <-.
  apply (live_call_made c r (set_cerrno e s)).
Qed.

(** What the client's functions leave alone: the connections, the lists and the
    poller. [handle] may destroy its session and make others; the requests it makes
    are steps after it. [malloc] gives memory that nothing is at. *)
Class CommLifeLaws (E : CommEnv) (C : CommClient) (K : CommCallbacks) : Prop := {
  aside_send_timeout l : aside (send_timeout l);
  aside_receive_timeout l : aside (receive_timeout l);
  aside_keep_alive_timeout l : aside (keep_alive_timeout l);
  aside_first_timeout_of l : aside (first_timeout_of l);
  aside_encode o n : aside (encode o n);
  aside_message_out l : aside (message_out l);
  aside_message_in l : aside (message_in l);
  aside_append l b : aside (CommHandle.append l b);
  aside_handle l st e : aside (handle l st e);
  aside_release l : aside (release l);
  aside_connect_fd l : aside (create_connect_fd l);
  aside_target_conn l f : aside (target_new_connection l f);
  malloc_unused s l : cmalloc s = Some l → centries s !! l = None ∧ clinks s !! l = None;
}.

Create HintDb life discriminated.
#[export] Hint Resolve aside_send_timeout aside_receive_timeout aside_keep_alive_timeout
  aside_first_timeout_of aside_encode aside_message_out aside_message_in aside_append aside_handle
  aside_release aside_connect_fd aside_target_conn : life.
Ltac lull :=
  hush ltac:(first [ solve [eauto with life nocore] | apply aside_ent_set; done
    | apply aside_tgt_set; done ]).
Ltac pass E1 := past_with live ltac:(lull) E1.
(** Step over a call that is [aside]. *)
Tactic Notation "pass" "over" hyp(E) "as" ident(x) :=
  let s1 := fresh "si" in let E1 := fresh "E" in take E x s1 E1; pass E1; clear E1.
Tactic Notation "pass" "over" hyp(E) := let x := fresh "xi" in pass over E as x.

Section life.
Context `{E : CommEnv} `{R : CommMemory} `{C : CommClient} `{X : CommExterns} `{K : CommCallbacks}
  `{!CommLifeLaws E C K}.

(** ** Sending *)

Lemma aside_put_errno e : aside (put_cerrno e).
Proof. by apply leaves_modify. Qed.
Lemma aside_get_errno : aside get_cerrno.
Proof. apply leaves_gets. Qed.
Lemma aside_set_nonblock f : aside (__set_fd_nonblock f).
Proof. unfold __set_fd_nonblock. lull. Qed.
Lemma aside_close f : aside (close_fd f).
Proof. unfold close_fd. lull. Qed.
Lemma aside_mpoller_del f mp : aside (mpoller_del_fd f mp).
Proof. by apply leaves_ccall. Qed.
Lemma aside_mpoller_set f t mp : aside (mpoller_set_fd_timeout f t mp).
Proof. by apply leaves_ccall. Qed.
Lemma aside_del_this f : aside (mpoller_del_this f).
Proof. unfold mpoller_del_this, mpoller_del_fd. lull. Qed.
Lemma aside_target_mutex p : aside (target_mutex p).
Proof. unfold target_mutex. lull. Qed.
Lemma aside_entry_mutex p : aside (entry_mutex p).
Proof. unfold entry_mutex. lull. Qed.
Lemma aside_copy_iovs vs : aside (copy_iovs vs).
Proof. intros s x s' H. unfold copy_iovs in H. case_match; by simplify_eq. Qed.
Hint Resolve aside_put_errno aside_get_errno aside_set_nonblock aside_close aside_mpoller_del
  aside_mpoller_set aside_del_this aside_target_mutex aside_entry_mutex aside_copy_iovs : life.
Lemma aside_int_of z : aside (int_of z).
Proof. unfold int_of. lull. Qed.
Lemma aside_clock : aside cclock_gettime.
Proof. apply leaves_gets. Qed.
Hint Resolve aside_int_of aside_clock : life.
Lemma aside_first_timeout x : aside (first_timeout x).
Proof. unfold first_timeout. lull. Qed.
Lemma aside_next_timeout x : aside (next_timeout x).
Proof. unfold next_timeout. lull. Qed.
Hint Resolve aside_first_timeout aside_next_timeout : life.
Lemma aside_first_send x : aside (first_timeout_send x).
Proof. unfold first_timeout_send. lull. Qed.
Lemma aside_first_recv x : aside (first_timeout_recv x).
Proof. unfold first_timeout_recv. lull. Qed.
Lemma aside_sync_loop fuel f vs : aside (sync_loop fuel f vs).
Proof. revert vs. induction fuel; intros vs; cbn [sync_loop]; lull. Qed.
Hint Resolve aside_first_send aside_first_recv aside_sync_loop : life.
Lemma aside_reply_timeout x : aside (reply_timeout x).
Proof. unfold reply_timeout. lull. Qed.
Hint Resolve aside_reply_timeout : life.

(** What is not sent at once is an error or is more than nothing. *)
Lemma sync_loop_rest fuel fd : ∀ vs s r rest s',
  sync_loop fuel fd vs s = Done ((r, rest), s') → rest ≠ [] → (r = -1 ∨ 0 < r)%Z.
Proof.
  induction fuel as [|fuel IH]; intros vs s r rest s' H Hr; [done|]. cbn [sync_loop] in H.
  branch H.
  - injection H as <- <- <-. destruct vs; [done|]. apply negb_true_iff, Z.ltb_ge in Heqb.
    simpl in Heqb. lia.
  - take H n s1 E1. clear E1. branch H; [|by eapply IH].
    take H e s2 E2. clear E2. injection H as <- <- _. apply negb_false_iff, Z.ltb_lt in Heqb.
    case_match; lia.
Qed.

(** Read a member of the entry [e] that is known to be [k]. *)
Lemma live_get_at {B} (f : conn_entry → B) (g : lentry → B) e k s x s' :
  (∀ en, f en = g (lkey en)) → ent_get f (Some e) s = Done (x, s') →
  lv_entries (live s) !! e = Some k → s' = s ∧ x = g k.
Proof.
  intros Hf (-> & e' & k' & [= <-] & Hk & ->)%(live_get f g) He; [|done]. split; congruence.
Qed.
Lemma live_set_at f g e k s u s' :
  (∀ en, lkey (f en) = g (lkey en)) → ent_set f (Some e) s = Done (u, s') →
  lv_entries (live s) !! e = Some k → live s' = with_entries <[e := g k]> (live s).
Proof.
  intros Hf (e' & k' & [= <-] & Hk & ->)%(live_set f g) He; [|done].
  assert (k' = k) as -> by congruence. done.
Qed.

Lemma sent_all_live e session k s u s' :
  sent_all (Some e) session s = Done (u, s') → lv_entries (live s) !! e = Some k →
  l_service k = None →
  live s' = with_entries <[e := set_l_state CONN_STATE_RECEIVING k]> (live s).
Proof.
  intros H He Hv. unfold sent_all in H. take H v s1 E1.
  destruct (live_get_at service_ l_service _ _ _ _ _ (λ _, eq_refl) E1 He) as [-> ->]. clear E1.
  rewrite Hv in H. cbn [nonnull] in H. take H z1 s1 E1. pass E1. clear E1. take H u1 s2 E1.
  pass E1. clear E1.
  by apply (live_set_at _ (set_l_state CONN_STATE_RECEIVING) e k) in H; [|done|].
Qed.

Lemma act_of_mod d t mp z :
  act_of (KMod d t mp, z) = if (z <? 0)%Z then None else Some (Watches (operation d) (context d)).
Proof. unfold act_of. simpl. by rewrite Z.leb_antisym; destruct (z <? 0)%Z. Qed.
Lemma act_of_add d t mp z :
  act_of (KAdd d t mp, z) = if (z <? 0)%Z then None else Some (Watches (operation d) (context d)).
Proof. apply (act_of_mod d t mp). Qed.

(** How sending ends: the request is out and the reply is awaited; the rest of it is
    for the poller; the connection was lost under it, which the reply will tell; or
    it failed. *)
Inductive send_end (e : loc) (k : lentry) (V : lview) : Z → lview → Prop :=
| SentAll : send_end e k V 0 (with_entries <[e := set_l_state CONN_STATE_RECEIVING k]> V)
| SentPart : send_end e k V 1 (with_acts [Watches PD_OP_WRITE (Some e)] V)
| SentLost : l_state k = CONN_STATE_IDLE →
    send_end e k V 1 (with_entries <[e := set_l_state CONN_STATE_RECEIVING k]> V)
| SentNot r : (r < 0)%Z → send_end e k V r V.

Lemma send_async_live vs c e k s r s' :
  send_message_async vs c (Some e) s = Done (r, s') → lv_entries (live s) !! e = Some k →
  l_state k ≠ CONN_STATE_RECEIVING → send_end e k (live s) r (live s').
Proof.
  intros H He Hk. unfold send_message_async in H. pass over H as arr. pass over H.
  destruct arr as [a|]; [|injection H as <- <-; by apply SentNot].
  pass over H. pass over H. pass over H. take H z1 s1 E1.
  destruct (live_get_at state_ l_state _ _ _ _ _ (λ _, eq_refl) E1 He) as [-> ->]. clear E1.
  pass over H. take H z s1 E1. match type of E1 with _ ?z = _ => rename z into s2 end.
  set (V := live s2) in *.
  assert (if (z <? 0)%Z then live s1 = V ∨ l_state k = CONN_STATE_IDLE ∧
            live s1 = with_entries <[e := set_l_state CONN_STATE_RECEIVING k]> V
          else live s1 = with_acts [Watches PD_OP_WRITE (Some e)] V) as Hz.
  { branch E1.
    - take E1 y s3 E2. apply live_call in E2. rewrite act_of_mod in E2. pass over E1 as er.
      take E1 u s4 E3. injection E1 as -> <-. destruct (z <? 0)%Z.
      + simpl in E3. fold V in E2. rewrite <- E2 in He. branch E3; [right|left].
        * apply (live_set_at _ (set_l_state CONN_STATE_RECEIVING) e k) in E3; [|done..].
          split; [by apply Z.eqb_eq|]. rewrite E3. by f_equal.
        * injection E3 as _ <-. done.
      + simpl in E3. injection E3 as _ <-. done.
    - take E1 y s3 E2. apply live_call in E2. rewrite act_of_add in E2. pass over E1 as er.
      pass over E1. injection E1 as -> <-. destruct (z <? 0)%Z; [left|].
      all: exact E2. }
  destruct (z <? 0)%Z; [|injection H as <- <-; rewrite Hz; apply SentPart].
  pass over H. pass over H. take H y s3 E2.
  assert (live s3 = V ∧ y = l_state k ∨ l_state k = CONN_STATE_IDLE ∧ y = CONN_STATE_RECEIVING ∧
    live s3 = with_entries <[e := set_l_state CONN_STATE_RECEIVING k]> V) as Hy.
  { destruct Hz as [Hz|[Hk' Hz]].
    - rewrite <- Hz in He.
      destruct (live_get_at state_ l_state _ _ _ _ _ (λ _, eq_refl) E2 He) as [-> ->]. by left.
    - destruct (live_get_at state_ l_state e (set_l_state CONN_STATE_RECEIVING k) _ _ _
        (λ _, eq_refl) E2) as [-> ->]; [by rewrite Hz; simpl; rewrite lookup_insert_eq|]. by right. }
  destruct Hy as [[Hs ->]|(Hi & -> & Hs)].
  - rewrite (proj2 (Z.eqb_neq _ _) Hk) in H. injection H as <- <-. rewrite Hs. by apply SentNot.
  - injection H as <- <-. rewrite Hs. by apply SentLost.
Qed.
Lemma send_live fuel e k s r s' :
  send_message fuel (Some e) s = Done (r, s') → lv_entries (live s) !! e = Some k →
  l_state k ≠ CONN_STATE_RECEIVING → l_service k = None → send_end e k (live s) r (live s').
Proof.
  intros H He Hk Hv. unfold send_message in H. pass over H. pass over H. pass over H as en.
  destruct en as [cnt vs]. branch H.
  { take H u s1 E1. pass E1. injection H as <- <-. by apply SentNot. }
  take H q s1 E1. destruct q as [cnt1 rest]. unfold send_message_sync in E1. pass over E1.
  pass over E1. take E1 q s2 E2. pose proof E2 as E3. pass E3. clear E3. destruct q as [r1 rs].
  destruct rs as [|v rs].
  - take E1 u s3 E3. injection E1 as <- <- <-. injection H as <- <-.
    rewrite (sent_all_live _ _ _ _ _ _ E3 He Hv). apply SentAll.
  - apply sync_loop_rest in E2; [|done]. injection E1 as <- <- <-. branch H.
    + injection H as <- <-. apply SentNot. apply Z.leb_le in Heqb0. lia.
    + by eapply send_async_live.
Qed.
Lemma send_out_live fuel l e k s r s' :
  send_out fuel (Some l) (Some e) s = Done (r, s') → lv_entries (live s) !! e = Some k →
  l_state k ≠ CONN_STATE_RECEIVING → l_service k = None → send_end e k (live s) r (live s').
Proof.
  intros H He Hk Hv. unfold send_out in H. pass over H. pass over H as out. pass over H.
  branch H; [by eapply send_live|]. injection H as <- <-. by apply SentNot.
Qed.

(** ** Requests *)

Context `{!CommListLaws X}.
Implicit Types (P : loc → watch) (A : loc → Z).

(** An idle connection that has just left the list, of an otherwise well-formed view. *)
Inductive taken P A (t e : loc) : lview → Prop :=
| Taken V k head h :
    well P A V → lv_entries V !! e = Some k → idling (P e) k = true → l_target k = Some t →
    lv_heads V !! t = Some head → list_del (Some e) (lv_links V) = Done (tt, h) →
    taken P A t e (with_links h V).

Lemma taken_well P A t e V k w' k' new A' :
  taken P A t e V → lv_entries V !! e = Some k → idling w' k' = false → sane w' k' →
  (∀ l, tells l new + waits l (w', k') - waits l (P e, k) = A' l - A l)%Z →
  well (<[e := w']> P) A' (with_acts new (with_entries <[e := k']> V)).
Proof.
  intros [V0 k0 head h W He Hi Ht Hh Hd] Hk. simpl in Hk. assert (k = k0) as -> by congruence.
  intros. by apply (well_unlist W e k0 t head h w' k').
Qed.

Lemma head_read P A t head b s s' :
  well P A (live s) → lv_heads (live s) !! t = Some head →
  clnk (list_empty (Some head)) s = Done (b, s') →
  live s' = live s ∧ ∃ es, idle_list P (live s) t head es ∧ b = bool_decide (es = []).
Proof.
  intros W Hh (h & Hb & ->)%live_clnk. destruct (w_list _ _ _ W t head Hh) as (es & Hd & Hm).
  rewrite (list_empty_dlist _ head es) in Hb by (destruct Hd as (? & ? & _); by split).
  injection Hb as <- <-. split; [done|]. exists es. by split.
Qed.
Lemma idle_loop_live fuel t : ∀ P A s p s',
  well P A (live s) → idle_loop fuel (Some t) s = Done (p, s') →
  lv_acts (live s') = lv_acts (live s) ∧
  match p with
  | None => well P A (live s')
  | Some e => taken P A t e (live s')
  end.
Proof.
  induction fuel as [|fuel IH]; intros P A s p s' W H; [done|]. cbn [idle_loop] in H.
  pass over H. take H hp s1 E1. apply live_head in E1 as (-> & t' & [= <-] & Hh).
  match type of H with _ ?z = _ => rename z into s1 end.
  take H b s2 E1. destruct (head_read _ _ _ _ _ _ _ W Hh E1) as (V2 & es & [Hd Hm] & ->).
  rewrite <- V2 in W, Hh, Hd, Hm. rewrite <- V2. clear E1 V2.
  take H p1 s3 E1. case_bool_decide as Hes; cbn [negb] in E1.
  { injection E1 as <- <-. pass over H. cbn [nonnull negb] in H. pass over H. injection H as <- <-.
    done. }
  destruct es as [|e es]; [done|]. take E1 pos s4 E2. apply live_clnk in E2 as (h & E2 & V4).
  rewrite (ld_next_run _ hp (Some e)) in E2 by by destruct Hd as (_ & [? _] & _).
  injection E2 as <- <-. change (with_links _ (live s2)) with (live s2) in V4. rewrite <- V4 in *. clear V4.
  destruct (proj1 (Hm e) ltac:(by left)) as (k & He & Hi & Ht).
  take E1 u s5 E2. destruct u. apply live_clnk in E2 as (h & Edel & V5). pass over E1. injection E1 as <- <-.
  pass over H. cbn [nonnull negb] in H. pass over H. pass over H. pass over H as r.
  branch H.
  { injection H as <- <-. rewrite V5. split; [done|]. by apply (Taken P A t e (live s4) k hp h). }
  take H u1 s6 E2. apply (live_set_at _ (set_l_state CONN_STATE_CLOSING) e k) in E2;
    [|done|by rewrite V5]. pass over H. rewrite V5 in E2.
  destruct (idling_inv _ _ Hi) as [Hw Hk]. destruct (w_sane _ _ _ W e k He) as [_ Hr Hv _].
  destruct (IH P A) with (2 := H) as [Ha HP]; [|by rewrite Ha, E2].
  rewrite E2, <- (fn_insert_same P e (P e) eq_refl), Hw.
  apply (well_unlist W e k t hp h _ (set_l_state CONN_STATE_CLOSING k) []); try done.
  - split; try done. right; right. split; [done|]. by do 3 right.
  - intros l. unfold waits. rewrite Hw. unfold owes. simpl. rewrite Hk. simpl. lia.
Qed.

Lemma taken_entry P A t e V :
  taken P A t e V →
  ∃ k, lv_entries V !! e = Some k ∧ P e = Watch (Some PD_OP_READ) NoMessage ∧
    l_state k = CONN_STATE_IDLE ∧ l_ref k = 1%Z ∧ l_service k = None.
Proof.
  intros [V0 k hp h W He Hi _ _ _]. destruct (idling_inv _ _ Hi) as [Hw Hk].
  destruct (w_sane _ _ _ W e k He) as [_ Hr Hv _]. by exists k.
Qed.

(** [A] with one more request of the session [l]. *)
Definition asked (l : loc) (A : loc → Z) : loc → Z := <[l := (A l + 1)%Z]> A.
Lemma asked_diff l A x : (asked l A x - A x)%Z = b2z (bool_decide (Some l = Some x)).
Proof.
  unfold asked. case_bool_decide as Hx.
  - injection Hx as <-. rewrite fn_lookup_insert. simpl. lia.
  - rewrite fn_lookup_insert_ne by congruence. simpl. lia.
Qed.

(** A request that goes out on an idle connection: it is awaited, being written, or
    lost, which will be told. *)
Lemma taken_asked P A t e l V k st new :
  taken P A t e V → lv_entries V !! e = Some k →
  new = [] ∧ (st = CONN_STATE_RECEIVING ∨ st = CONN_STATE_ERROR) ∨
  new = [Watches PD_OP_WRITE (Some e)] ∧ st = CONN_STATE_IDLE →
  well (rewatch_all new P) (asked l A)
    (with_acts new (with_entries <[e := set_l_state st (set_l_session (Some l) k)]> V)).
Proof.
  intros T Hk Hn. destruct (taken_entry _ _ _ _ _ T) as (k' & Hk' & Hw & Hs & Hr & Hv).
  assert (k' = k) as -> by congruence. set (k1 := set_l_state _ _).
  assert (∀ w, sane w k1 → owes w k1 = true → idling w k1 = false → ∀ l0, tells l0 new = 0%Z →
    (tells l0 new + waits l0 (w, k1) - waits l0 (P e, k) = asked l A l0 - A l0)%Z) as Hc.
  { intros w _ Ho _ l0 ->. rewrite asked_diff. unfold waits. rewrite Hw. cbn [fst snd].
    rewrite Ho. unfold owes at 1. simpl. rewrite Hs. simpl. lia. }
  destruct Hn as [[-> Hst]|[-> ->]].
  - rewrite <- (fn_insert_same P e _ Hw). simpl rewatch_all.
    assert (sane (Watch (Some PD_OP_READ) NoMessage) k1) as S1.
    { split; try done. right; right. split; [done|]. simpl. tauto. }
    assert (idling (Watch (Some PD_OP_READ) NoMessage) k1 = false) as I1 by by destruct Hst as [->| ->].
    apply (taken_well P A t e V k); [done..|]. intros l0. apply Hc; [done| |done|done].
    by destruct Hst as [->| ->].
  - simpl rewatch_all. apply (taken_well P A t e V k); [done|done|done| |].
    + split; try done. right; left. split_and!; [done|done|by right].
    + intros l0. apply Hc; try done. split; try done. right; left. split_and!; [done|done|by right].
Qed.

Lemma with_entries_twice e a b V :
  with_entries <[e := a]> (with_entries <[e := b]> V) = with_entries <[e := a]> V.
Proof. unfold with_entries. simpl. by rewrite insert_insert_eq. Qed.
Lemma aside_join x e : aside (join_conn x e).
Proof. unfold join_conn. lull. Qed.
Hint Resolve aside_join : life.

Lemma sent_or_broken_live r e k s r' s' :
  sent_or_broken r (Some e) s = Done (r', s') → lv_entries (live s) !! e = Some k →
  if (r <? 0)%Z
  then r' = 1%Z ∧ live s' = with_entries <[e := set_l_state CONN_STATE_ERROR k]> (live s)
  else r' = r ∧ live s' = live s.
Proof.
  intros H Hk. unfold sent_or_broken in H. destruct (r <? 0)%Z; [|by injection H as <- <-].
  do 4 pass over H. take H u s1 E1. injection H as <- <-. split; [done|].
  by apply (live_set_at _ (set_l_state CONN_STATE_ERROR) e k) in E1.
Qed.
(** Sending on an idle connection never fails at once. *)
Lemma sent_idle e k V r V1 s s' r' :
  l_state k = CONN_STATE_IDLE → send_end e k (with_entries <[e := k]> V) r V1 → live s = V1 →
  sent_or_broken r (Some e) s = Done (r', s') →
  (r' <? 0)%Z = false ∧ ∃ new st,
    live s' = with_acts new (with_entries <[e := set_l_state st k]> V) ∧
    (new = [] ∧ (st = CONN_STATE_RECEIVING ∨ st = CONN_STATE_ERROR) ∨
     new = [Watches PD_OP_WRITE (Some e)] ∧ st = CONN_STATE_IDLE).
Proof.
  intros Hk S Hs H.
  assert (∃ k', lv_entries (live s) !! e = Some k' ∧ (k' = k ∨ k' = set_l_state CONN_STATE_RECEIVING k))
    as (k' & Hk' & _).
  { rewrite Hs. destruct S; simpl; rewrite lookup_insert_eq; eauto. }
  pose proof (sent_or_broken_live _ _ _ _ _ _ H Hk') as B. rewrite Hs in B, Hk'.
  destruct S as [| |_|r Hr]; cbn in B.
  - destruct B as [-> ->]. split; [done|]. exists [], CONN_STATE_RECEIVING.
    rewrite with_entries_twice. split; [done|]. left. eauto.
  - destruct B as [-> ->]. split; [done|]. exists [Watches PD_OP_WRITE (Some e)], CONN_STATE_IDLE.
    split; [|by right]. by destruct k; simpl in Hk; subst.
  - destruct B as [-> ->]. split; [done|]. exists [], CONN_STATE_RECEIVING.
    rewrite with_entries_twice. split; [done|]. left. eauto.
  - apply Z.ltb_lt in Hr. rewrite Hr in B. destruct B as [-> ->]. split; [done|].
    simpl in Hk'. rewrite lookup_insert_eq in Hk'. injection Hk' as <-.
    exists [], CONN_STATE_ERROR. rewrite with_entries_twice. split; [done|]. left. eauto.
Qed.

Lemma request_idle_live fuel l t s r s' P A :
  well P A (live s) → request_idle_conn fuel (Some l) (Some t) s = Done (r, s') →
  ∃ new, lv_acts (live s') = new ++ lv_acts (live s) ∧
    if (r <? 0)%Z then new = [] ∧ well P A (live s')
    else well (rewatch_all new P) (asked l A) (live s').
Proof.
  intros W H. unfold request_idle_conn in H. take H p s1 E1. unfold bounded in E1.
  destruct (idle_loop_live _ _ _ _ _ _ _ W E1) as [Ha HT]. clear E1.
  destruct p as [e|]; cbn [nonnull negb] in H; [|injection H as <- <-; by exists []].
  destruct (taken_entry _ _ _ _ _ HT) as (k & Hk & Hw & Hs & Hr & Hv). rewrite <- Ha.
  take H u s2 E1.
  apply (live_set_at _ (set_l_session (Some l)) e k) in E1; [|done..].
  set (V := live s1) in *. set (k1 := set_l_session (Some l) k) in *.
  pass over H. take H r1 s4 E2.
  apply (send_out_live _ _ _ k1) in E2; [|by rewrite E1; simpl; rewrite lookup_insert_eq|by simpl; rewrite Hs|done].
  take H r2 s5 E3. rewrite E1 in E2.
  destruct (sent_idle e k1 V r1 _ s4 _ r2 Hs E2 eq_refl E3) as (Hr2 & new & st & Hl & Hn).
  pass over H. injection H as <- <-. rewrite Hl, Hr2. exists new. split; [done|]. by eapply taken_asked.
Qed.

(** The view without the connection [e], and with a new one. *)
Definition without (e : loc) (V : lview) : lview :=
  LView (delete e (lv_entries V)) (delete e (lv_links V)) (lv_heads V) (lv_acts V).
Definition with_conn (e : loc) (k : lentry) (c : cell) (V : lview) : lview :=
  LView (<[e := k]> (lv_entries V)) (<[e := c]> (lv_links V)) (lv_heads V) (lv_acts V).
Lemma without_new e k c V :
  lv_entries V !! e = None → lv_links V !! e = None → without e (with_conn e k c V) = V.
Proof.
  intros He Hl. destruct V. unfold without, with_conn. simpl in *.
  by rewrite !delete_insert_id.
Qed.

Lemma free_entry_live e s u s' :
  free_entry (Some e) s = Done (u, s') → live s' = without e (live s).
Proof.
  unfold free_entry. intros (u1 & s1 & E1 & E2)%bnd_done_inv. simpl in E1, E2.
  destruct (centries s !! e) eqn:He; [|done]. injection E1 as _ <-. simpl in E2.
  destruct (clinks s !! e) eqn:Hl; [|done]. injection E2 as _ <-.
  unfold live, without. simpl. by rewrite fmap_delete.
Qed.
Lemma release_live e s u s' :
  __release_conn (Some e) s = Done (u, s') → live s' = without e (live s).
Proof.
  intros H. unfold __release_conn in H. do 4 pass over H. by eapply free_entry_live.
Qed.
Lemma new_entry_live s p s' :
  new_entry s = Done (p, s') →
  match p with
  | None => live s' = live s
  | Some e => ∃ k c, lv_entries (live s) !! e = None ∧ lv_links (live s) !! e = None ∧
                live s' = with_conn e k c (live s)
  end.
Proof.
  unfold new_entry. destruct (cmalloc s) as [e|] eqn:Hm; intros [= <- <-]; [|done].
  destruct (malloc_unused s e Hm) as [He Hl]. exists (lkey (junk_entry s)), (junk_links s).
  split_and!; [simpl; by rewrite lookup_fmap, He|done|].
  unfold live, with_conn. simpl. by rewrite fmap_insert.
Qed.

(** The entry of a connection that is being made. *)
Definition connecting (l t : loc) : lentry := LEntry CONN_STATE_CONNECTING 1 (Some l) (Some t) None.
(** ... is there, and was not before. *)
Definition conn_made (l t e : loc) (V V' : lview) : Prop :=
  lv_entries V !! e = None ∧ lv_links V !! e = None ∧ ∃ c, V' = with_conn e (connecting l t) c V.

Lemma aside_nonblock_connect t : aside (nonblock_connect t).
Proof. unfold nonblock_connect. lull. Qed.
Hint Resolve aside_nonblock_connect : life.
Lemma launch_live l t s p s' :
  launch_conn (Some l) (Some t) s = Done (p, s') →
  match p with
  | None => live s' = live s
  | Some e => conn_made l t e (live s) (live s')
  end.
Proof.
  intros H. unfold launch_conn in H. pass over H as f.
  branch H; [|by injection H as <- <-]. take H e s1 E1. apply new_entry_live in E1.
  take H ok s2 E2. destruct e as [e|]; cbn [nonnull] in E2; cycle 1.
  { injection E2 as <- <-. pass over H. by injection H as <- <-. }
  destruct E1 as (k & c & He & Hl & E1). pass over E2 as r. take E2 ok1 s3 E3.
  match type of E3 with _ ?s0 = _ => rename s0 into s4 end.
  match type of E1 with _ = with_conn _ _ _ (live ?z) => rename z into s5 end.
  assert (if ok1 : bool then conn_made l t e (live s5) (live s3) else live s3 = live s4) as Hok.
  { branch E3; [|pass over E3; by injection E3 as <- <-]. pass over E3. pass over E3 as cn.
    branch E3; [|by injection E3 as <- <-]. take E3 u s6 E4. injection E3 as <- <-.
    apply (live_set_at _ (λ _, connecting l t) e k) in E4;
      [|done|by rewrite E1; simpl; rewrite lookup_insert_eq].
    split; [done|]. split; [done|]. exists c. rewrite E4, E1. unfold with_entries, with_conn. simpl.
    by rewrite insert_insert_eq. }
  take E2 u s6 E4. injection E2 as -> <-. destruct ok.
  - injection E4 as _ <-. by injection H as <- <-.
  - apply free_entry_live in E4. rewrite Hok, E1, without_new in E4 by done.
    pass over H. injection H as <- <-. done.
Qed.

Lemma mpoller_add_live d t s r s' :
  mpoller_add_data d t s = Done (r, s') →
  live s' = if (r <? 0)%Z then live s else with_acts [Watches (operation d) (context d)] (live s).
Proof.
  intros H. unfold mpoller_add_data in H. take H mp s1 E1. apply gets_inv in E1 as [_ ->].
  apply live_call in H. rewrite act_of_add in H. by destruct (r <? 0)%Z.
Qed.
(** A request that makes a connection. *)
Lemma request_new_live l t s r s' P A :
  well P A (live s) → request_new_conn (Some l) (Some t) s = Done (r, s') →
  ∃ new, lv_acts (live s') = new ++ lv_acts (live s) ∧
    if (r <? 0)%Z then new = [] ∧ well P A (live s')
    else well (rewatch_all new P) (asked l A) (live s').
Proof.
  intros W H. unfold request_new_conn in H. take H p s1 E1. apply launch_live in E1.
  destruct p as [e|]; cbn [nonnull] in H; cycle 1.
  { injection H as <- <-. rewrite E1. by exists []. }
  destruct E1 as (He & Hl & c & E1). do 7 pass over H. take H r1 s2 E2.
  apply mpoller_add_live in E2. rewrite Z.leb_antisym in H. rewrite E1 in E2.
  destruct (r1 <? 0)%Z; cbn [negb] in H.
  - take H u s3 E3. injection H as <- <-. apply release_live in E3.
    rewrite E2, without_new in E3 by done. rewrite E3. by exists [].
  - injection H as <- <-. rewrite E2. exists [Watches PD_OP_CONNECT (Some e)]. split; [done|].
    apply (well_new W e (Watch (Some PD_OP_CONNECT) NoMessage) (connecting l t) c); try done.
    + split; try done. by left.
    + intros x. rewrite asked_diff. done.
Qed.

(** [request] returns 0 and the session waits for its outcome, or it returns -1 and
    nobody waits more than before. *)
Lemma request_live fuel l t s r s' P A :
  well P A (live s) → request fuel (Some l) (Some t) s = Done (r, s') →
  ∃ new, lv_acts (live s') = new ++ lv_acts (live s) ∧
    if (r <? 0)%Z then new = [] ∧ well P A (live s')
    else well (rewatch_all new P) (asked l A) (live s').
Proof.
  intros W H. unfold request in H. pass over H. branch H.
  { pass over H. injection H as <- <-. by exists []. }
  do 4 pass over H. take H r1 s1 E1.
  destruct (request_idle_live _ _ _ _ _ _ _ _ W E1) as (new & Ha & W1). clear E1 W.
  take H r2 s2 E2. assert (∃ new2, lv_acts (live s2) = new2 ++ lv_acts (live s1) ∧
    if (r2 <? 0)%Z then (new2 = [] ∧ new = []) ∧ well P A (live s2)
    else well (rewatch_all (new2 ++ new) P) (asked l A) (live s2)) as (new2 & Ha2 & W2).
  { destruct (r1 <? 0)%Z.
    - destruct W1 as [-> W1].
      destruct (request_new_live _ _ _ _ _ _ _ W1 E2) as (new2 & H2 & W2). exists new2.
      rewrite app_nil_r. split; [done|]. destruct (r2 <? 0)%Z; tauto.
    - injection E2 as <- <-. by exists []. }
  exists (new2 ++ new). rewrite <- app_assoc, <- Ha. destruct (r2 <? 0)%Z eqn:Hr.
  - destruct W2 as [[-> ->] W2]. pass over H. injection H as <- <-. by split.
  - pass over H. injection H as <- <-. by split.
Qed.
End life.
