(* ===== verification/CommLifeHandlers.v ===== *)
(** What the handlers of a client's results and the callbacks of the poller threads
    do to the view, and that it stays well-formed. *)
From S2P Require Export CommLife.

#[export] Hint Resolve aside_put_errno aside_get_errno aside_close aside_mpoller_del
  aside_mpoller_set aside_del_this aside_target_mutex aside_entry_mutex aside_first_timeout
  aside_next_timeout aside_first_send aside_first_recv aside_reply_timeout : life.

Section handlers.
Context `{E : CommEnv} `{R : CommMemory} `{C : CommClient} `{X : CommExterns} `{K : CommCallbacks}
  `{!CommLifeLaws E C K} `{!CommListLaws X}.
Implicit Types (P : loc → watch) (A : loc → Z) (e l : loc) (k : lentry).

(** ** Shared steps *)

Lemma aside_target_release (t : ptr) : aside (target_release t).
Proof. unfold target_release. lull. Qed.
Hint Resolve aside_target_release : life.
Lemma handle_live l st err s u s' :
  session_handle (Some l) (Some st) err s = Done (u, s') → live s' = with_acts [Tells l] (live s).
Proof.
  intros H. unfold session_handle in H. take H l1 s1 E1. injection E1 as <- <-.
  take H u1 s1 E1. injection E1 as _ <-.
  rewrite (aside_handle _ _ _ _ _ _ H). apply (live_call_made (KHandle l st err) 0).
Qed.
Lemma decref_live e k s n s' :
  entry_decref (Some e) s = Done (n, s') → lv_entries (live s) !! e = Some k →
  n = i32 (l_ref k - 1) ∧ live s' = with_entries <[e := set_l_ref (i32 (l_ref k - 1)) k]> (live s).
Proof.
  intros H He. unfold entry_decref in H. take H u s1 E1.
  apply (live_set_at _ (λ k, set_l_ref (i32 (l_ref k - 1)) k) e k) in E1; [|done..].
  destruct (live_get_at ref_ l_ref e (set_l_ref (i32 (l_ref k - 1)) k) _ _ _ (λ _, eq_refl) H)
    as [-> ->]; [|done]. by rewrite E1; simpl; rewrite lookup_insert_eq.
Qed.
Lemma add_unless_live d (t : Z) s b s' :
  add_unless_stopped d t s = Done (b, s') →
  live s' = if b then with_acts [Watches (operation d) (context d)] (live s) else live s.
Proof.
  intros H. unfold add_unless_stopped in H. take H r s1 E1. apply mpoller_add_live in E1.
  rewrite Z.leb_antisym in H. destruct (r <? 0)%Z; cbn [negb] in H.
  - by injection H as <- <-.
  - pass over H. pass over H. injection H as <- <-. done.
Qed.
Lemma without_insert e k V : without e (with_entries <[e := k]> V) = without e V.
Proof. unfold without, with_entries. simpl. by rewrite delete_insert_eq. Qed.

(** A connection that has failed: its session is told, and it is freed. *)
Lemma request_failed_live e l st err s u s' k :
  request_failed (Some e) (Some l) st err s = Done (u, s') →
  lv_entries (live s) !! e = Some k → l_ref k = 1%Z →
  live s' = with_acts [Tells l] (without e (live s)).
Proof.
  intros H He Hr. unfold request_failed in H. pass over H. pass over H.
  take H u1 s1 E1. apply handle_live in E1. pass over H. pass over H.
  take H n s2 E2. apply (decref_live e k) in E2 as [-> V2]; [|by rewrite E1].
  rewrite Hr in H, V2. apply release_live in H. by rewrite H, V2, without_insert, E1.
Qed.
Lemma connect_failed_live e l t st err s u s' :
  connect_failed (Some e) (Some l) t st err s = Done (u, s') →
  live s' = with_acts [Tells l] (without e (live s)).
Proof.
  intros H. unfold connect_failed in H. pass over H. take H u1 s1 E1. apply handle_live in E1.
  apply release_live in H. by rewrite H, E1.
Qed.

(** ** What becomes of the invariant *)

(** Nothing more is to come for the connection. *)
Definition done_with : watch := Watch None NoMessage.

Lemma waits_told l x w k :
  owes w k = true → l_session k = Some l → waits x (w, k) = tells x [Tells l].
Proof.
  intros Ho Hs. unfold waits. simpl. rewrite Ho, Hs, Z.add_0_r. simpl. f_equal.
  apply bool_decide_ext. split; congruence.
Qed.
Lemma waits_not x w k : owes w k = false → waits x (w, k) = 0%Z.
Proof. intros Ho. unfold waits. simpl. by rewrite Ho. Qed.
Lemma waits_same x w k w' k' :
  owes w k = owes w' k' → l_session k = l_session k' → waits x (w, k) = waits x (w', k').
Proof. intros Ho Hs. unfold waits. simpl. by rewrite Ho, Hs. Qed.

Lemma well_told P A V e k l w :
  well P A V → lv_entries V !! e = Some k → owes (P e) k = true → l_session k = Some l →
  well (<[e := w]> P) A (with_acts [Tells l] (without e V)).
Proof.
  intros W He Ho Hs. apply (well_drop W e k w [Tells l]); [done| |].
  - destruct (idling (P e) k) eqn:Hi; [|done]. apply idle_owes_not in Hi. congruence.
  - intros x. rewrite (waits_told l x) by done. lia.
Qed.
Lemma well_gone P A V e k w :
  well P A V → lv_entries V !! e = Some k → owes (P e) k = false → idling (P e) k = false →
  well (<[e := w]> P) A (without e V).
Proof.
  intros W He Ho Hi. apply (well_drop W e k w []); [done..|].
  intros x. rewrite waits_not by done. simpl. lia.
Qed.
(** What a poller is asked for next takes the place of what is done. *)
Lemma rewatch_next P e op w w' :
  w' = Watch (Some op) NoMessage →
  pointwise_relation _ (=) (rewatch_all [Watches op (Some e)] (<[e := w]> P)) (<[e := w']> P).
Proof.
  intros -> x. simpl. destruct (decide (e = x)) as [->|Hx].
  - by rewrite !fn_lookup_insert.
  - by rewrite !fn_lookup_insert_ne.
Qed.
(** ... and the session goes on waiting. *)
Lemma well_next P A V e k k' op w :
  well P A V → lv_entries V !! e = Some k → owes (P e) k = true →
  sane (Watch (Some op) NoMessage) k' → owes (Watch (Some op) NoMessage) k' = true →
  l_session k' = l_session k →
  well (rewatch_all [Watches op (Some e)] (<[e := w]> P)) A
    (with_acts [Watches op (Some e)] (with_entries <[e := k']> V)).
Proof.
  intros W He Ho Hs Ho' Hk. rewrite (rewatch_next P e op w _ eq_refl).
  apply (well_move W e k); try done.
  - destruct (idling (P e) k) eqn:Hi; [|done]. apply idle_owes_not in Hi. congruence.
  - destruct (idling _ k') eqn:Hi; [|done]. apply idle_owes_not in Hi. congruence.
  - intros x. rewrite (waits_same x (P e) k (Watch (Some op) NoMessage) k') by congruence.
    simpl. lia.
Qed.

(** What the invariant says of a connection. *)
Lemma owed_session P A V e k :
  well P A V → lv_entries V !! e = Some k → owes (P e) k = true →
  ∃ l, l_session k = Some l ∧ l_ref k = 1%Z ∧ l_service k = None ∧ goes_with (P e) k.
Proof.
  intros W He Ho. destruct (w_sane _ _ _ W e k He) as [Hf Hr Hv Hs].
  destruct (l_session k) as [l|]; [eauto|]. by destruct Hs.
Qed.

(** The last result of an operation. *)
Definition last_result (res : poller_result) : Prop := is_Some (failed_state (pr_state res)).

(** The session goes on waiting, for what the poller was asked for; or the
    connection is as it was, but for its state. *)
Definition goes_on e k (V V' : lview) : Prop :=
  ∃ op k', V' = with_acts [Watches op (Some e)] (with_entries <[e := k']> V) ∧
    sane (Watch (Some op) NoMessage) k' ∧ owes (Watch (Some op) NoMessage) k' = true ∧
    l_session k' = l_session k.
Definition stopped e (V V' : lview) : Prop := without e V' = without e V.

Lemma with_entries_id e k V : lv_entries V !! e = Some k → with_entries <[e := k]> V = V.
Proof. intros He. destruct V. unfold with_entries. simpl in *. by rewrite insert_id. Qed.
Lemma well_goes_on P A V e k w V' :
  well P A V → lv_entries V !! e = Some k → owes (P e) k = true → goes_on e k V V' →
  ∃ new, lv_acts V' = new ++ lv_acts V ∧ well (rewatch_all new (<[e := w]> P)) A V'.
Proof.
  intros W He Ho (op & k' & -> & ?). exists [Watches op (Some e)]. split; [done|].
  by apply (well_next P A V e k); tauto.
Qed.
Lemma well_stopped P A V e k l V' w :
  well P A V → lv_entries V !! e = Some k → owes (P e) k = true → l_session k = Some l →
  stopped e V V' →
  ∃ new, lv_acts (with_acts [Tells l] (without e V')) = new ++ lv_acts V ∧
    well (rewatch_all new (<[e := w]> P)) A (with_acts [Tells l] (without e V')).
Proof.
  intros W He Ho Hs ->. exists [Tells l]. split; [done|]. by eapply (well_told P A V).
Qed.

(** The reply is awaited. *)
Lemma awaited e k V V' :
  l_ref k = 1%Z → l_service k = None → l_session k ≠ None →
  V' = with_acts [Watches PD_OP_READ (Some e)]
         (with_entries <[e := set_l_state CONN_STATE_RECEIVING k]> V) →
  goes_on e k V V'.
Proof.
  intros Hr Hv Hs ->. exists PD_OP_READ, (set_l_state CONN_STATE_RECEIVING k).
  split_and!; [done| |done|done]. split; try done. right; right. split; [done|]. by left.
Qed.

Lemma connected_sends fuel d l e k s b s' :
  (let* r := send_message fuel (Some e) in
   if (r =? 0)%Z then
     let* timeout := reply_timeout (Some l) in add_unless_stopped (read_data CREATE_REPLY d) timeout
   else ret (0 <? r)%Z) s = Done (b, s') →
  context d = Some e → lv_entries (live s) !! e = Some k → l_state k = CONN_STATE_CONNECTING →
  l_ref k = 1%Z → l_service k = None → l_session k ≠ None →
  if b : bool then goes_on e k (live s) (live s') else stopped e (live s) (live s').
Proof.
  intros H Hc He Hk Hr Hv Hs. take H r s1 E1.
  apply (send_live _ _ k) in E1; [|done|by rewrite Hk|done].
  remember (live s1) as V1 eqn:HV1. destruct E1 as [| |Hi|r Hr1]; cbn in H.
  - pass over H. apply add_unless_live in H. destruct b.
    + rewrite <- HV1 in H. simpl in H. rewrite Hc in H. by apply awaited.
    + unfold stopped. rewrite H, <- HV1. apply without_insert.
  - injection H as <- <-. rewrite <- HV1. exists PD_OP_WRITE, k.
    rewrite with_entries_id by done. split_and!; [done| |done|done].
    split; try done. right; left. split_and!; [done|done|by left].
  - by rewrite Hk in Hi.
  - rewrite (proj2 (Z.eqb_neq r 0)), (proj2 (Z.ltb_ge 0 r)) in H by lia. injection H as <- <-.
    unfold stopped. by rewrite <- HV1.
Qed.

Lemma connect_result_well fuel res s u s' e P A :
  well P A (live s) → context (pr_data res) = Some e → w_op (P e) = Some PD_OP_CONNECT →
  last_result res → handle_connect_result fuel res s = Done (u, s') →
  ∃ new, lv_acts (live s') = new ++ lv_acts (live s) ∧
    well (rewatch_all new (<[e := done_with]> P)) A (live s').
Proof.
  intros W Hc Hw Hl H. unfold handle_connect_result in H. rewrite Hc in H. take H x s1 E1.
  apply (live_get session_ l_session) in E1 as (-> & e' & k & [= <-] & He & ->); [|done].
  assert (owes (P e) k = true) as Ho by (unfold owes; by rewrite Hw).
  destruct (owed_session _ _ _ _ _ W He Ho) as (l & Hs & Hr & Hv & Hf). rewrite Hs in H.
  pass over H as t.
  assert (l_state k = CONN_STATE_CONNECTING) as Hk.
  { unfold goes_with in Hf. rewrite Hw in Hf. destruct Hf as [(_ & _ & ?)|[(? & _)|(? & _)]]; done. }
  assert (l_session k ≠ None) as Hsn by congruence. branch H; cycle 1.
  { destruct Hl as [st Hl]. rewrite Hl in H.
    apply connect_failed_live in H. rewrite H. by eapply well_stopped. }
  pass over H. pass over H as out. pass over H. take H b s1 E1.
  match type of E1 with _ ?z = _ => rename z into s2 end.
  assert (if b : bool then goes_on e k (live s2) (live s1) else stopped e (live s2) (live s1)) as Hb.
  { branch E1; [by eapply connected_sends|]. by injection E1 as <- <-. }
  destruct b.
  - injection H as _ <-. by eapply well_goes_on.
  - pass over H. apply connect_failed_live in H. rewrite H. by eapply well_stopped.
Qed.

Lemma write_result_well res s u s' e P A :
  well P A (live s) → context (pr_data res) = Some e → w_op (P e) = Some PD_OP_WRITE →
  last_result res → handle_write_result res s = Done (u, s') →
  ∃ new, lv_acts (live s') = new ++ lv_acts (live s) ∧
    well (rewatch_all new (<[e := done_with]> P)) A (live s').
Proof.
  intros W Hc Hw Hl H. unfold handle_write_result in H. rewrite Hc in H. pass over H. pass over H.
  take H v s1 E1. apply (live_get service_ l_service) in E1 as (-> & e' & k & [= <-] & He & ->); [|done].
  assert (owes (P e) k = true) as Ho by (unfold owes; by rewrite Hw).
  destruct (owed_session _ _ _ _ _ W He Ho) as (l & Hs & Hr & Hv & Hf).
  assert (l_session k ≠ None) as Hsn by congruence. rewrite Hv in H. cbn [nonnull] in H.
  unfold handle_request_result in H. rewrite Hc in H. take H x s1 E1.
  destruct (live_get_at session_ l_session _ _ _ _ _ (λ _, eq_refl) E1 He) as [-> ->]. clear E1.
  rewrite Hs in H. branch H; cycle 1.
  { destruct Hl as [st Hl]. rewrite Hl in H.
    apply (request_failed_live _ _ _ _ _ _ _ k) in H; [|done..]. rewrite H. by eapply well_stopped. }
  take H u1 s1 E1. apply (live_set_at _ (set_l_state CONN_STATE_RECEIVING) e k) in E1; [|done..].
  pass over H. take H b s2 E2. apply add_unless_live in E2. simpl in E2. rewrite Hc, E1 in E2.
  destruct b.
  - injection H as _ <-. eapply well_goes_on; [done..|]. by apply awaited.
  - pass over H. apply (request_failed_live _ _ _ _ _ _ _ (set_l_state CONN_STATE_RECEIVING k)) in H;
      [|by rewrite E2; simpl; rewrite lookup_insert_eq|done].
    rewrite H. eapply well_stopped; [done..|]. rewrite E2. apply without_insert.
Qed.

(** ** Read results *)

(** The end of [handle_incoming_reply]: the session is told, if there is one, and
    the result's reference given up. *)
Definition reply_end (i : incoming) (target : ptr) : M commstate unit :=
  if nonnull (i_entry i) then
    (if nonnull (i_session i) then
       target_release target ;;;
       session_handle (i_session i) (i_state i) (i_error i)
     else ret tt) ;;;
    let* n := entry_decref (i_entry i) in
    if (n =? 0)%Z then __release_conn (i_entry i) else ret tt
  else ret tt.
Definition told_of (p : ptr) : list act := match p with Some l => [Tells l] | None => [] end.

Lemma reply_end_live e x st err t s u s' k :
  reply_end (Incoming (Some e) x (Some st) err) t s = Done (u, s') →
  lv_entries (live s) !! e = Some k →
  live s' = with_acts (told_of x)
    (if (i32 (l_ref k - 1) =? 0)%Z then without e (live s)
     else with_entries <[e := set_l_ref (i32 (l_ref k - 1)) k]> (live s)).
Proof.
  intros H He. unfold reply_end in H. cbn [i_entry i_session i_state i_error nonnull] in H.
  take H u1 s1 E1.
  assert (live s1 = with_acts (told_of x) (live s)) as V1.
  { destruct x as [l|]; cbn [nonnull] in E1; [pass over E1; by apply handle_live in E1|].
    by injection E1 as _ <-. }
  take H n s2 E2. apply (decref_live e k) in E2 as [-> V2]; [|by rewrite V1].
  branch H.
  - apply release_live in H. rewrite H, V2, V1. apply (without_insert e).
  - injection H as _ <-. by rewrite V2, V1.
Qed.

Lemma target_mutex_live p s u s' :
  target_mutex p s = Done (u, s') → s' = s ∧ ∃ t head, p = Some t ∧ lv_heads (live s) !! t = Some head.
Proof.
  intros H. unfold target_mutex in H. take H hp s1 E1. injection H as _ <-.
  apply live_head in E1 as (-> & t & -> & Ht). eauto.
Qed.

(** What [incoming_reply] makes of the last result of a read: by the state of the
    connection. *)
Inductive read_ended e k (V : lview) : incoming → lview → Prop :=
| EndIdle t head h st err :
    l_state k = CONN_STATE_IDLE → l_target k = Some t → lv_heads V !! t = Some head →
    list_del (Some e) (lv_links V) = Done (tt, h) →
    read_ended e k V (Incoming (Some e) None (Some st) err) (with_links h V)
| EndWaiting st err :
    l_state k = CONN_STATE_ERROR ∨ l_state k = CONN_STATE_RECEIVING →
    read_ended e k V (Incoming (Some e) (l_session k) (Some st) err) V
| EndAnswered st err :
    l_state k = CONN_STATE_SUCCESS →
    read_ended e k V (Incoming None None (Some st) err)
      (with_entries <[e := set_l_state CONN_STATE_CLOSING k]> V)
| EndOther st err :
    l_state k ≠ CONN_STATE_IDLE → l_state k ≠ CONN_STATE_ERROR →
    l_state k ≠ CONN_STATE_RECEIVING → l_state k ≠ CONN_STATE_SUCCESS →
    read_ended e k V (Incoming (Some e) None (Some st) err) V.

Lemma incoming_ended res e k s i s' :
  incoming_reply res (Some e) (l_target k) s = Done (i, s') → last_result res →
  lv_entries (live s) !! e = Some k → read_ended e k (live s) i (live s').
Proof.
  intros H [st Hst] He. unfold incoming_reply in H. rewrite Hst in H.
  destruct (pr_state res =? PR_ST_SUCCESS)%Z eqn:Hss.
  { apply Z.eqb_eq in Hss. by rewrite Hss in Hst. }
  take H u s1 E1. apply target_mutex_live in E1 as (-> & t & head & Ht & Hh). pass over H.
  take H x s1 E1. destruct (live_get_at state_ l_state _ _ _ _ _ (λ _, eq_refl) E1 He) as [-> ->].
  clear E1. take H i1 s1 E1. match type of E1 with _ ?z = _ => rename z into s0 end.
  assert (read_ended e k (live s0) i1 (live s1)) as HR;
    [clear H|pass over H; pass over H; by injection H as <- <-].
  repeat branch E1; repeat match goal with
    | H : (_ =? _)%Z = true |- _ => apply Z.eqb_eq in H
    | H : (_ =? _)%Z = false |- _ => apply Z.eqb_neq in H
    end.
  - take E1 u1 s2 E2. destruct u1. apply live_clnk in E2 as (h & E2 & V2). injection E1 as <- <-.
    rewrite V2. by apply (EndIdle _ _ _ t head).
  - pass over E1. take E1 y s2 E2.
    destruct (live_get_at session_ l_session _ _ _ _ _ (λ _, eq_refl) E2 He) as [-> ->].
    injection E1 as <- <-. apply EndWaiting. by left.
  - take E1 y s2 E2.
    destruct (live_get_at session_ l_session _ _ _ _ _ (λ _, eq_refl) E2 He) as [-> ->].
    injection E1 as <- <-. apply EndWaiting. by right.
  - take E1 u1 s2 E2. apply (live_set_at _ (set_l_state CONN_STATE_CLOSING) e k) in E2; [|done..].
    injection E1 as <- <-. rewrite E2. by apply EndAnswered.
  - injection E1 as <- <-. by apply EndOther.
Qed.

(** The message and the state of a connection that is read from. *)
Lemma goes_with_read w k :
  goes_with w k → w_op w = Some PD_OP_READ →
  match w_msg w with
  | NoMessage =>
      l_state k = CONN_STATE_RECEIVING ∨ l_state k = CONN_STATE_ERROR ∨
      l_state k = CONN_STATE_IDLE ∨ l_state k = CONN_STATE_CLOSING
  | Begun => l_state k = CONN_STATE_RECEIVING
  | Complete => l_state k = CONN_STATE_SUCCESS
  end.
Proof. unfold goes_with. intros Hf Hw. rewrite Hw in Hf. by destruct Hf as [(? & _)|[(? & _)|(_ & ?)]]. Qed.
Lemma fn_insert_twice P e w w' :
  pointwise_relation _ (=) (<[e := w']> (<[e := w]> P)) (<[e := w']> P).
Proof.
  intros x. destruct (decide (e = x)) as [->|]; [by rewrite !fn_lookup_insert|by rewrite !fn_lookup_insert_ne].
Qed.
(** An idle connection is closed. *)
Lemma well_unlist_gone P A V e k t head h w :
  well P A V → lv_entries V !! e = Some k → idling (P e) k = true → l_target k = Some t →
  lv_heads V !! t = Some head → list_del (Some e) (lv_links V) = Done (tt, h) →
  well (<[e := w]> P) A (without e (with_links h V)).
Proof.
  intros W He Hi Ht Hh Hd. destruct (w_sane _ _ _ W e k He) as [_ Hr Hv _].
  rewrite <- (without_insert e (set_l_state CONN_STATE_CLOSING k)).
  rewrite <- (fn_insert_twice P e (Watch (Some PD_OP_READ) NoMessage)).
  apply (well_gone _ _ _ e (set_l_state CONN_STATE_CLOSING k));
    [|simpl; by rewrite lookup_insert_eq|by rewrite fn_lookup_insert..].
  apply (well_unlist W e k t head h _ _ []); try done.
  - split; try done. right; right. split; [done|]. by do 3 right.
  - intros x. rewrite (waits_not x (P e) k) by by apply idle_owes_not. rewrite waits_not by done.
    simpl. lia.
Qed.

(** A read ends: a reply that is complete is still to be told. *)
Definition read_done (w : watch) : watch :=
  Watch None (if decide (w_msg w = Complete) then Complete else NoMessage).

Lemma read_ended_well res s u s' e P A :
  well P A (live s) → context (pr_data res) = Some e → w_op (P e) = Some PD_OP_READ →
  last_result res → handle_incoming_reply res s = Done (u, s') →
  ∃ new, lv_acts (live s') = new ++ lv_acts (live s) ∧
    well (rewatch_all new (<[e := read_done (P e)]> P)) A (live s').
Proof.
  intros W Hc Hw Hl H. unfold handle_incoming_reply in H. rewrite Hc in H. take H t s1 E1.
  apply (live_get target_ l_target) in E1 as (-> & e' & k & [= <-] & He & ->); [|done].
  take H i s1 E1. apply (incoming_ended res e k) in E1; [|done..].
  destruct (w_sane _ _ _ W e k He) as [Hf Hr Hv Hs]. fold (reply_end i (l_target k)) in H.
  pose proof (goes_with_read _ _ Hf Hw) as Hm.
  remember (live s1) as V1 eqn:HV1. destruct E1 as [t head h st err Hk Ht Hh Hd|st err Hk|st err Hk|st err Hk1 Hk2 Hk3 Hk4].
  - assert (w_msg (P e) = NoMessage) as Hn by (destruct (w_msg (P e)); [done|by rewrite Hk in Hm..]).
    apply (reply_end_live _ _ _ _ _ _ _ _ k) in H; [|by rewrite <- HV1]. rewrite Hr, <- HV1 in H.
    simpl in H. rewrite H. exists []. split; [done|]. apply (well_unlist_gone P A _ e k t head h); try done.
    unfold idling. by rewrite Hw, Hn, Hk.
  - assert (owes (P e) k = true) as Ho.
    { unfold owes. rewrite Hw. destruct Hk as [-> | ->]; simpl; by rewrite !orb_true_r. }
    destruct (l_session k) as [l|] eqn:Hsk; [|by destruct Hs].
    apply (reply_end_live _ _ _ _ _ _ _ _ k) in H; [|by rewrite <- HV1]. rewrite Hr, <- HV1 in H.
    simpl in H. rewrite H. by apply (well_stopped P A _ e k l).
  - assert (w_msg (P e) = Complete) as Hn.
    { destruct (w_msg (P e)); [|by rewrite Hk in Hm|done]. rewrite Hk in Hm. naive_solver. }
    injection H as _ <-. rewrite <- HV1. exists []. split; [done|]. simpl rewatch_all.
    unfold read_done. rewrite decide_True by done.
    apply (well_move W e k _ _ []); try done.
    + unfold idling. by rewrite Hn, andb_false_r.
    + split; try done. intros _. apply Hs. unfold owes. by rewrite Hw, Hn.
    + intros x. rewrite (waits_same x (P e) k (Watch None Complete) (set_l_state CONN_STATE_CLOSING k)).
      * simpl. lia.
      * unfold owes. by rewrite Hw, Hn.
      * done.
  - apply (reply_end_live _ _ _ _ _ _ _ _ k) in H; [|by rewrite <- HV1]. rewrite Hr, <- HV1 in H.
    simpl in H. rewrite H. exists []. split; [done|].
    apply Z.eqb_neq in Hk1, Hk2, Hk3. assert (w_msg (P e) ≠ Complete) as Hn.
    { intros Hn. by rewrite Hn in Hm. }
    apply (well_gone P A (live s) e k); try done.
    + unfold owes. rewrite Hw, Hk2, Hk3. simpl. by rewrite bool_decide_false.
    + unfold idling. by rewrite Hk1, andb_false_r.
Qed.

(** What [incoming_reply] makes of a reply that is complete: the connection becomes
    idle, or closes because it is not to be kept, or was closing already. *)
Definition kept k (st : Z) : lentry := set_l_state st (set_l_ref (i32 (l_ref k + 1)) k).
Inductive answered e k (V : lview) : lview → Prop :=
| AnsIdle t head h :
    l_state k = CONN_STATE_SUCCESS → l_target k = Some t → lv_heads V !! t = Some head →
    list_add (Some e) (Some head) (lv_links V) = Done (tt, h) →
    answered e k V (with_links h (with_entries <[e := kept k CONN_STATE_IDLE]> V))
| AnsClosing :
    l_state k = CONN_STATE_SUCCESS →
    answered e k V (with_entries <[e := kept k CONN_STATE_CLOSING]> V)
| AnsLate : l_state k ≠ CONN_STATE_SUCCESS → answered e k V V.

Lemma incoming_answered res e k s i s' :
  incoming_reply res (Some e) (l_target k) s = Done (i, s') → pr_state res = PR_ST_SUCCESS →
  lv_entries (live s) !! e = Some k →
  i = Incoming (Some e) (l_session k) (Some CS_STATE_SUCCESS) (pr_error res) ∧
  answered e k (live s) (live s').
Proof.
  intros H Hst He. unfold incoming_reply in H. rewrite Hst in H. take H x s1 E1.
  destruct (live_get_at session_ l_session _ _ _ _ _ (λ _, eq_refl) E1 He) as [-> ->]. clear E1.
  pass over H. take H x s1 E1.
  destruct (live_get_at state_ l_state _ _ _ _ _ (λ _, eq_refl) E1 He) as [-> ->]. clear E1.
  take H u s1 E1. match type of E1 with _ ?z = _ => rename z into s0 end.
  assert (answered e k (live s0) (live s1)) as HR; [clear H|pass over H; by injection H as <- <-].
  branch E1; [apply Z.eqb_eq in Heqb|apply Z.eqb_neq in Heqb; injection E1 as _ <-; by apply AnsLate].
  take E1 u1 s2 E2. apply (live_set_at _ (λ k, set_l_ref (i32 (l_ref k + 1)) k) e k) in E2; [|done..].
  pass over E1 as tm.
  pose proof (f_equal (λ V, lv_entries V !! e) E2) as Hk. cbn [with_entries lv_entries] in Hk.
  rewrite lookup_insert_eq in Hk.
  branch E1.
  - take E1 u2 s3 E3. apply (live_set_at _ (set_l_state CONN_STATE_IDLE) e) with
      (k := set_l_ref (i32 (l_ref k + 1)) k) in E3; [|done..].
    rewrite E2, with_entries_twice in E3. take E1 hp s4 E4.
    apply live_head in E4 as (-> & t & Ht & Hh). rewrite E3 in Hh. destruct u.
    apply live_clnk in E1 as (h & E5 & ->). rewrite E3 in *. by apply (AnsIdle _ _ _ t hp).
  - apply (live_set_at _ (set_l_state CONN_STATE_CLOSING) e) with
      (k := set_l_ref (i32 (l_ref k + 1)) k) in E1; [|done..].
    rewrite E2, with_entries_twice in E1. rewrite E1. by apply AnsClosing.
Qed.

Lemma goes_with_complete w k :
  goes_with w k → w_msg w = Complete →
  owes w k = true ∧ (w_op w = Some PD_OP_READ ∧ l_state k = CONN_STATE_SUCCESS ∨
                     w_op w = None ∧ l_state k = CONN_STATE_CLOSING).
Proof.
  unfold goes_with, owes. intros Hf Hw. rewrite Hw in *. destruct (w_op w) as [op|]; [|by auto].
  destruct Hf as [(_ & ? & _)|[(_ & ? & _)|(-> & Hk)]]; [done..|]. by auto.
Qed.

Lemma kept_back k st : l_ref k = 1%Z → set_l_ref 1 (kept k st) = set_l_state st k.
Proof. destruct k. simpl. by intros ->. Qed.
Lemma answered_well res s u s' e P A :
  well P A (live s) → context (pr_data res) = Some e → w_msg (P e) = Complete →
  pr_state res = PR_ST_SUCCESS → handle_incoming_reply res s = Done (u, s') →
  ∃ new, lv_acts (live s') = new ++ lv_acts (live s) ∧
    well (rewatch_all new (<[e := Watch (w_op (P e)) NoMessage]> P)) A (live s').
Proof.
  intros W Hc Hw Hst H. unfold handle_incoming_reply in H. rewrite Hc in H. take H t s1 E1.
  apply (live_get target_ l_target) in E1 as (-> & e' & k & [= <-] & He & ->); [|done].
  take H i s1 E1. apply (incoming_answered res e k) in E1 as [-> E1]; [|done..].
  destruct (w_sane _ _ _ W e k He) as [Hf Hr Hv Hs].
  match type of H with ?m ?z = _ => change (m z) with
    (reply_end (Incoming (Some e) (l_session k) (Some CS_STATE_SUCCESS) (pr_error res)) (l_target k) z) in H end.
  destruct (goes_with_complete _ _ Hf Hw) as [Ho Hk]. destruct (l_session k) as [l|] eqn:Hl; [|by destruct Hs].
  assert (i32 (i32 (l_ref k + 1) - 1) = 1%Z) as Hr1 by by rewrite Hr.
  assert (idling (P e) k = false) as Hi.
  { destruct (idling (P e) k) eqn:Hi; [|done]. apply idle_owes_not in Hi. congruence. }
  assert (∀ st x, st = CONN_STATE_IDLE ∨ st = CONN_STATE_CLOSING →
    tells x [Tells l] + waits x (Watch (Some PD_OP_READ) NoMessage, set_l_state st k) - waits x (P e, k) =
    A x - A x)%Z as Hc'.
  { intros st x Hst'. rewrite (waits_told l x (P e) k), waits_not by (done || by destruct Hst' as [->| ->]).
    lia. }
  remember (live s1) as V1 eqn:HV1. destruct E1 as [t head h Hks Ht Hh Hadd|Hks|Hks].
  all: eapply reply_end_live in H; [|rewrite <- HV1; simpl; rewrite ?lookup_insert_eq; done].
  all: rewrite <- HV1 in H; exists [Tells l]; simpl in H.
  - destruct Hk as [[Hop _]|[_ Hk]]; [|by rewrite Hks in Hk]. rewrite Hr1 in H. simpl in H.
    rewrite kept_back in H by done. unfold with_links, with_entries in H. simpl in H.
    rewrite insert_insert_eq in H. split; [by rewrite H|]. rewrite H, Hop.
    apply (well_enlist W e k t head h _ _ [Tells l]); try done; [|intros x; apply Hc'; by left].
    split; try done. right; right. split; [done|]. right; right. by left.
  - destruct Hk as [[Hop _]|[_ Hk]]; [|by rewrite Hks in Hk]. rewrite Hr1 in H. simpl in H.
    rewrite kept_back, with_entries_twice in H by done. split; [by rewrite H|]. rewrite H, Hop.
    apply (well_move W e k _ _ [Tells l]); try done; [|intros x; apply Hc'; by right].
    split; try done. right; right. split; [done|]. by do 3 right.
  - destruct Hk as [[_ ?]|[Hop _]]; [done|]. rewrite Hr in H. simpl in H.
    split; [by rewrite H|]. rewrite H. by apply (well_told P A (live s) e k).
Qed.

(** Both kinds of result, through [handle_read_result]. *)
Lemma read_result_reply res s u s' e P A :
  well P A (live s) → context (pr_data res) = Some e → pr_state res ≠ PR_ST_MODIFIED →
  handle_read_result res s = Done (u, s') → handle_incoming_reply res s = Done (u, s').
Proof.
  intros W Hc Hm H. unfold handle_read_result in H. rewrite (proj2 (Z.eqb_neq _ _) Hm), Hc in H.
  cbn [negb] in H. take H v s1 E1.
  apply (live_get service_ l_service) in E1 as (-> & e' & k & [= <-] & He & ->); [|done].
  by rewrite (s_service _ _ (w_sane _ _ _ W e k He)) in H.
Qed.

(** ** Callbacks of the poller threads *)

(** The watch of a connection changes with its state, nothing else. *)
Lemma well_state P A V e k w st :
  well P A V → lv_entries V !! e = Some k → owes (P e) k = true → goes_with w (set_l_state st k) →
  owes w (set_l_state st k) = true →
  well (<[e := w]> P) A (with_entries <[e := set_l_state st k]> V).
Proof.
  intros W He Ho Hf Ho'. destruct (w_sane _ _ _ W e k He) as [_ Hr Hv Hs].
  apply (well_move W e k w (set_l_state st k) []); try done.
  - destruct (idling (P e) k) eqn:Hi; [|done]. apply idle_owes_not in Hi. congruence.
  - destruct (idling w _) eqn:Hi; [|done]. apply idle_owes_not in Hi. congruence.
  - split; try done. intros _. by apply Hs.
  - intros x. rewrite (waits_same x (P e) k w (set_l_state st k)) by (done || congruence). simpl. lia.
Qed.

Lemma aside_receiving_timeout x : aside (receiving_timeout x).
Proof. unfold receiving_timeout. lull. Qed.
Hint Resolve aside_receiving_timeout : life.

Lemma append_well buf m x s r n s' e P A :
  well P A (live s) → cmsgs s !! m = Some x → in_entry x = Some e → w_msg (P e) = Begun →
  append_message buf (Some m) s = Done ((r, n), s') →
  lv_acts (live s') = lv_acts (live s) ∧
  well (if (0 <? r)%Z then <[e := Watch (w_op (P e)) Complete]> P else P) A (live s').
Proof.
  intros W Hx Hxe Hw H. unfold append_message in H. take H p s1 E1.
  apply obj_get_inv in E1 as (-> & m' & x' & [= <-] & Hx' & ->).
  assert (x' = x) as -> by congruence. rewrite Hxe in H. take H sess s1 E1.
  apply (live_get session_ l_session) in E1 as (-> & e' & k & [= <-] & He & ->); [|done].
  pass over H. pass over H as rn. destruct rn as [r1 n1]. cbv zeta in H.
  assert (r = r1) as ->.
  { assert ((r, n) = (r1, n1)) as [= -> _]; [|done]. revert H. clear. intros H. revert H.
    match goal with |- ?m _ = _ → _ => assert (gives m (r1, n1)) as G by gives_it end.
    intros H. by apply G in H. }
  pose proof (w_sane _ _ _ W e k He) as [Hf Hr Hv Hs].
  assert (owes (P e) k = true ∧ w_op (P e) = Some PD_OP_READ) as [Ho Hop].
  { unfold goes_with in Hf. rewrite Hw in Hf. destruct (w_op (P e)) as [op|] eqn:Hop; [|done].
    destruct Hf as [(_ & ? & _)|[(_ & ? & _)|(-> & Hk)]]; [done..|].
    split; [|done]. unfold owes. by rewrite Hop, Hk, orb_true_r. }
  branch H.
  - take H u s1 E1. apply (live_set_at _ (set_l_state CONN_STATE_SUCCESS) e k) in E1; [|done..].
    pass H. rewrite E1. split; [done|]. apply (well_state P A _ e k); try done.
    + unfold goes_with. rewrite Hop. right; right. by split.
    + unfold owes. by rewrite Hop.
  - pass H. done.
Qed.

Lemma create_reply_well s p s' e P A :
  well P A (live s) → w_op (P e) = Some PD_OP_READ → create_reply (Some e) s = Done (p, s') →
  lv_acts (live s') = lv_acts (live s) ∧
  well (if nonnull p then <[e := Watch (w_op (P e)) Begun]> P else P) A (live s').
Proof.
  intros W Hop H. unfold create_reply in H. take H x s1 E1.
  apply (live_get state_ l_state) in E1 as (-> & e' & k & [= <-] & He & ->); [|done].
  pass over H. take H x s1 E1.
  destruct (live_get_at state_ l_state _ _ _ _ _ (λ _, eq_refl) E1 He) as [-> ->]. clear E1.
  branch H.
  { pass over H. injection H as <- <-. done. }
  apply negb_false_iff, Z.eqb_eq in Heqb. pose proof (w_sane _ _ _ W e k He) as [Hf _ _ _].
  pass over H as session.
  assert (aside (message_of session (Some e) true)) as Hq by (unfold message_of; lull).
  rewrite (Hq _ _ _ H). split; [done|]. destruct p; [|done].
  assert (owes (P e) k = true) as Ho.
  { unfold owes. by rewrite Hop, Heqb, orb_true_r. }
  assert (k = set_l_state CONN_STATE_RECEIVING k) as Hk by (destruct k; simpl in *; by subst).
  rewrite <- (with_entries_id e k) by done. rewrite Hk at 1. apply (well_state P A _ e k); try done.
  - unfold goes_with. rewrite Hop. right; right. by split.
  - unfold owes. by rewrite Hop.
Qed.
Lemma aside_partial n p : aside (partial_written n p).
Proof. unfold partial_written. lull. Qed.
End handlers.
