(* ===== verification/CommLifeRun.v ===== *)
(** Runs of the client side of a communicator: requests, the results of their
    connections and the callbacks of the poller threads in any order. Each request is
    told its outcome once. *)
From stdpp Require Import relations.
From S2P Require Export CommLifeHandlers.

(** ** Targets *)

Section targets.
Context {P : loc → watch} {A : loc → Z} {V : lview} (W : well P A V).

(** A target that no connection is of comes or goes. *)
Lemma well_new_target t head h :
  lv_heads V !! t = None → lv_links V !! head = None →
  (∀ e k, lv_entries V !! e = Some k → l_target k ≠ Some t) →
  dlist h head [] → (∀ x, x ≠ head → h !! x = lv_links V !! x) →
  well P A (LView (lv_entries V) h (<[t := head]> (lv_heads V)) (lv_acts V)).
Proof.
  intros Ht Hl Hu Hd Hh.
  assert (lv_entries V !! head = None) as He.
  { destruct (lv_entries V !! head) as [k|] eqn:He; [|done].
    destruct (w_cell _ _ _ W head) as [c Hc]; [by eexists|congruence]. }
  constructor; simpl; try apply W.
  - intros x Hx. rewrite Hh; [by apply (w_cell _ _ _ W)|]. intros ->. rewrite He in Hx. by destruct Hx.
  - intros t' head'. destruct (decide (t = t')) as [<-|Hne].
    + rewrite lookup_insert_eq. intros [= <-]. exists []. split; [done|]. intros e. split; [by intros ?%elem_of_nil|].
      intros (k & Hk & _ & Hkt). by destruct (Hu e k Hk).
    + rewrite lookup_insert_ne by done. intros Ht'. destruct (w_list _ _ _ W _ _ Ht') as (es & Hd' & Hm).
      exists es. split; [|done]. eapply dlist_frame; [|exact Hd']. intros x Hx. apply Hh. intros ->.
      destruct Hd' as (_ & Hf & _). destruct (fseg_alloc _ _ _ _ _ Hf Hx). simpl in *. congruence.
  - assert (∀ t', lv_heads V !! t' ≠ Some head) as Hn.
    { intros t' Ht'. by apply (head_not_new W head t' head). }
    intros t1 t2 x. rewrite !lookup_insert. intros H1 H2. repeat case_decide; simplify_eq; try done.
    + exfalso. by eapply Hn.
    + exfalso. by eapply Hn.
    + by eapply (w_heads _ _ _ W).
  - intros t' x. rewrite lookup_insert. case_decide; [intros [= <-]; done|]. apply (w_head _ _ _ W).
Qed.
Lemma well_drop_target t head :
  lv_heads V !! t = Some head → (∀ e k, lv_entries V !! e = Some k → l_target k ≠ Some t) →
  well P A (LView (lv_entries V) (delete head (lv_links V)) (delete t (lv_heads V)) (lv_acts V)).
Proof.
  intros Ht Hu. constructor; simpl; try apply W.
  - intros x Hx. rewrite lookup_delete_ne; [by apply (w_cell _ _ _ W)|]. intros <-.
    rewrite (w_head _ _ _ W t head Ht) in Hx. by destruct Hx.
  - intros t' head' [Hne Ht']%lookup_delete_Some. destruct (w_list _ _ _ W _ _ Ht') as (es & Hi).
    exists es. split; [|apply Hi]. eapply dlist_frame; [|apply Hi]. intros x Hx. apply lookup_delete_ne. intros <-.
    destruct (w_list _ _ _ W _ _ Ht) as (es0 & Hi0).
    eapply (lists_disjoint W t' t head' head); [done..|exact Hi|exact Hi0|exact Hx|by left].
  - intros t1 t2 x [_ H1]%lookup_delete_Some [_ H2]%lookup_delete_Some. by eapply (w_heads _ _ _ W).
  - intros t' x [_ H']%lookup_delete_Some. by eapply (w_head _ _ _ W).
Qed.
End targets.

Lemma well_start : well (λ _, done_with) (λ _, 0%Z) (LView ∅ ∅ ∅ []).
Proof.
  constructor; simpl; intros *; rewrite ?lookup_empty; try done.
Qed.

(** ** Steps *)

(** The acts of a step: those of [s'] that [s] does not have. *)
Definition news (s s' : commstate) : list act :=
  take (length (acts (ccalls s')) - length (acts (ccalls s))) (acts (ccalls s')).
Lemma news_eq s s' new : lv_acts (live s') = new ++ lv_acts (live s) → news s s' = new.
Proof.
  simpl. intros H. unfold news. rewrite H, length_app. replace (_ - _) with (length new) by lia.
  apply take_app_length.
Qed.

(** What the client asks for: a target it has allocated at [t], with its list at
    [head]. *)
Definition allocated (t head : loc) (c : cell) (s s1 : commstate) : Prop :=
  lv_heads (live s) !! t = None ∧ lv_links (live s) !! head = None ∧
  (∀ e k, lv_entries (live s) !! e = Some k → l_target k ≠ Some t) ∧
  live s1 = LView (lv_entries (live s)) (<[head := c]> (lv_links (live s)))
              (<[t := head]> (lv_heads (live s))) (lv_acts (live s)).

Section steps.
Context `{E : CommEnv} `{R : CommMemory} `{C : CommClient} `{X : CommExterns} `{K : CommCallbacks}
  `{!CommLifeLaws E C K} `{!CommListLaws X}.

(** What the pollers have for each connection, how many requests each session has
    made, and the state. The steps say when a result or a callback can come: each
    operation that a poller took has one last result, a read has the result of a
    message in between, and only what was begun is completed. *)
Definition life : Type := (loc → watch) * (loc → Z) * commstate.
Inductive life_step : life → life → Prop :=
| LifeRequest P A s fuel l t r s' :
    request fuel (Some l) (Some t) s = Done (r, s') →
    life_step (P, A, s) (rewatch_all (news s s') P, if (r <? 0)%Z then A else asked l A, s')
| LifeConnected P A s fuel res e s' :
    context (pr_data res) = Some e → w_op (P e) = Some PD_OP_CONNECT → last_result res →
    handle_connect_result fuel res s = Done (tt, s') →
    life_step (P, A, s) (rewatch_all (news s s') (<[e := done_with]> P), A, s')
| LifeWritten P A s res e s' :
    context (pr_data res) = Some e → w_op (P e) = Some PD_OP_WRITE → last_result res →
    handle_write_result res s = Done (tt, s') →
    life_step (P, A, s) (rewatch_all (news s s') (<[e := done_with]> P), A, s')
| LifeReadEnded P A s res e s' :
    context (pr_data res) = Some e → w_op (P e) = Some PD_OP_READ → last_result res →
    handle_read_result res s = Done (tt, s') →
    life_step (P, A, s) (rewatch_all (news s s') (<[e := read_done (P e)]> P), A, s')
| LifeReplied P A s res e s' :
    context (pr_data res) = Some e → w_msg (P e) = Complete → pr_state res = PR_ST_SUCCESS →
    handle_read_result res s = Done (tt, s') →
    life_step (P, A, s)
      (rewatch_all (news s s') (<[e := Watch (w_op (P e)) NoMessage]> P), A, s')
| LifeModified P A s res s' :
    pr_state res = PR_ST_MODIFIED → handle_read_result res s = Done (tt, s') →
    life_step (P, A, s) (P, A, s')
| LifeBegin P A s e p s' :
    w_op (P e) = Some PD_OP_READ → create_reply (Some e) s = Done (p, s') →
    life_step (P, A, s) (if nonnull p then <[e := Watch (w_op (P e)) Begun]> P else P, A, s')
| LifeAppend P A s m x e buf r n s' :
    cmsgs s !! m = Some x → in_entry x = Some e → w_msg (P e) = Begun →
    append_message buf (Some m) s = Done ((r, n), s') →
    life_step (P, A, s)
      (if (0 <? r)%Z then <[e := Watch (w_op (P e)) Complete]> P else P, A, s')
| LifePartial P A s n p r s' :
    partial_written n p s = Done (r, s') → life_step (P, A, s) (P, A, s')
| LifeTarget P A s t head c s1 addr len ct rt s' :
    allocated t head c s s1 → target_init (Some t) addr len ct rt s1 = Done (0%Z, s') →
    life_step (P, A, s) (P, A, s')
| LifeTargetGone P A s t head s' :
    lv_heads (live s) !! t = Some head →
    (∀ e k, lv_entries (live s) !! e = Some k → l_target k ≠ Some t) →
    live s' = LView (lv_entries (live s)) (delete head (lv_links (live s)))
                (delete t (lv_heads (live s))) (lv_acts (live s)) →
    life_step (P, A, s) (P, A, s')
| LifeClient P A s s' : live s' = live s → life_step (P, A, s) (P, A, s').

Definition well_life (q : life) : Prop := well q.1.1 q.1.2 (live q.2).

Lemma target_init_live t head addr len ct rt s u s' :
  target_init (Some t) addr len ct rt s = Done (0%Z, s') → u = tt →
  lv_heads (live s) !! t = Some head →
  ∃ h, list_init (Some head) (lv_links (live s)) = Done (u, h) ∧ live s' = with_links h (live s).
Proof.
  intros H -> Hh. unfold target_init in H.
  assert (aside (copy_addr addr)) as Hq.
  { intros s0 x s1 E1. unfold copy_addr in E1. case_match; by simplify_eq. }
  take H a s1 E1. rewrite <- (Hq _ _ _ E1) in *. clear E1 Hq. pass over H. branch H; [|done].
  pass over H. take H x s2 E1. apply live_head in E1 as (-> & t' & [= <-] & Hh').
  take H u s3 E1. injection H as <-. apply live_clnk in E1 as (h & E1 & Hs). destruct u.
  assert (x = head) as -> by congruence. by exists h.
Qed.

Lemma life_step_well q q' : life_step q q' → well_life q → well_life q'.
Proof.
  unfold well_life. destruct 1; simpl; intros W.
  - destruct (request_live _ _ _ _ _ _ _ _ W H) as (new & Hn & Hw). rewrite (news_eq _ _ _ Hn).
    destruct (r <? 0)%Z; [|done]. destruct Hw as [-> Hw]. done.
  - destruct (connect_result_well _ _ _ _ _ _ _ _ W H H0 H1 H2) as (new & Hn & Hw).
    by rewrite (news_eq _ _ _ Hn).
  - destruct (write_result_well _ _ _ _ _ _ _ W H H0 H1 H2) as (new & Hn & Hw).
    by rewrite (news_eq _ _ _ Hn).
  - apply (read_result_reply _ _ _ _ e P A) in H2; [|done..|].
    + destruct (read_ended_well _ _ _ _ _ _ _ W H H0 H1 H2) as (new & Hn & Hw).
      by rewrite (news_eq _ _ _ Hn).
    + intros Hm. destruct H1 as [st Hst]. by rewrite Hm in Hst.
  - apply (read_result_reply _ _ _ _ e P A) in H2; [|done..|by rewrite H1].
    destruct (answered_well _ _ _ _ _ _ _ W H H0 H1 H2) as (new & Hn & Hw).
    by rewrite (news_eq _ _ _ Hn).
  - unfold handle_read_result in H0. rewrite H in H0. by injection H0 as <-.
  - by eapply create_reply_well.
  - by eapply (append_well buf m x).
  - by rewrite (aside_partial _ _ _ _ _ H).
  - destruct H as (Ht & Hl & Hu & Hs).
    destruct (target_init_live t head addr len ct rt s1 tt s') as (h & Hi & ->); [done..| |].
    { rewrite Hs. simpl. by rewrite lookup_insert_eq. }
    destruct (list_init_dlist (lv_links (live s1)) head) as (h' & Hi' & Hd & Hf).
    { rewrite Hs. simpl. by rewrite lookup_insert_eq. }
    rewrite Hi in Hi'. injection Hi' as ->. unfold with_links. rewrite Hs in *. simpl in *.
    apply (well_new_target W t head); try done. intros x Hx. by rewrite Hf, lookup_insert_ne.
  - rewrite H1. by apply (well_drop_target W t head).
  - by rewrite H.
Qed.
Lemma life_run_well q q' : rtc life_step q q' → well_life q → well_life q'.
Proof. induction 1; eauto using life_step_well. Qed.

(** Nothing there yet. *)
Definition life_start (s : commstate) : life := (λ _, done_with, λ _, 0%Z, s).
Lemma life_start_well s :
  centries s = ∅ → ctargets s = ∅ → clinks s = ∅ → ccalls s = [] → well_life (life_start s).
Proof.
  intros E1 E2 E3 E4. unfold well_life, live. simpl. rewrite E1, E2, E3, E4, !fmap_empty.
  apply well_start.
Qed.

(** ** What it says of the objects *)

Lemma in_flight_nonneg l P m : (0 ≤ in_flight l P m)%Z.
Proof.
  apply (msum_bounds (waits l)). intros [w k]. unfold waits, b2z. case_match; lia.
Qed.
Lemma idle_conn_entry P s t e :
  idle_conn P (lkey <$> centries s) t e ↔
  ∃ en, centries s !! e = Some en ∧ target_ en = Some t ∧ state_ en = CONN_STATE_IDLE ∧
        P e = Watch (Some PD_OP_READ) NoMessage.
Proof.
  unfold idle_conn. rewrite lookup_fmap. split.
  - intros (k & (en & -> & ->)%fmap_Some & [Hw Hk]%idling_inv & Ht). by exists en.
  - intros (en & -> & Ht & Hk & Hw). exists (lkey en). split_and!; [done| |done].
    unfold idling. rewrite Hw. simpl. by rewrite Hk.
Qed.
(** [has_idle_conn] says whether the target has an idle connection. *)
Lemma has_idle_run P A s t tg :
  well P A (live s) → ctargets s !! t = Some tg →
  ∃ b, has_idle_conn (Some t) s = Done (b, s) ∧
    (b = true ↔ ∃ e, idle_conn P (lkey <$> centries s) t e).
Proof.
  intros W Ht. destruct (w_list _ _ _ W t (m_idle_list tg)) as (es & Hd & Hm).
  { simpl. by rewrite lookup_fmap, Ht. }
  exists (negb (bool_decide (es = []))). split.
  - unfold has_idle_conn. rewrite (obj_get_bnd ctargets _ _ _ _ tg) by done.
    rewrite (clnk_bnd _ _ _ (bool_decide (es = [])) (clinks s)).
    + by rewrite set_clinks_same.
    + apply list_empty_dlist. destruct Hd as (? & ? & _). by split.
  - rewrite negb_true_iff, bool_decide_eq_false. split.
    + destruct es as [|e es]; [done|]. intros _. exists e. apply Hm. by left.
    + intros (e & He) ->. apply Hm in He. by apply elem_of_nil in He.
Qed.
(** When no result is to come there is no connection either. *)
Lemma none_left P A V :
  well P A V → (∀ e, w_op (P e) = None ∧ w_msg (P e) ≠ Complete) → lv_entries V = ∅.
Proof.
  intros W H. apply map_eq. intros e. rewrite lookup_empty.
  destruct (lv_entries V !! e) as [k|] eqn:He; [|done].
  pose proof (s_goes_with _ _ (w_sane _ _ _ W e k He)) as Hf. unfold goes_with in Hf.
  destruct (H e) as [Ho Hm]. rewrite Ho in Hf. by destruct (w_msg (P e)).
Qed.
End steps.
