(* ===== verification/CommRunExamples.v ===== *)
(** A small server, for the concrete instances of the properties of whole runs: one
    service, whose sessions are made at one address. *)
From S2P Require Export CommReceive CommTyped CommCountSteps CommConnect.

(** ** The system *)

(** The first of four addresses with nothing at it. *)
Definition free_addr (s : commstate) : option positive :=
  list_find (λ l, centries s !! l = None ∧ clinks s !! l = None) [10; 11; 12; 13]%positive ≫= λ p, Some p.2.
Definition above_targets (s : commstate) : positive :=
  map_fold (λ l _ m, Pos.max (Pos.succ l) m) 300%positive (ctargets s).

Lemma free_addr_fresh s l :
  free_addr s = Some l → centries s !! l = None ∧ clinks s !! l = None ∧ (Zpos l < max_addr)%Z.
Proof.
  unfold free_addr. intros ([i l'] & H & [= <-])%bind_Some.
  apply list_find_Some in H as (Hl & [Hn Hn'] & _). split; [done|]. split; [done|].
  unfold max_addr. assert (l' ∈ [10; 11; 12; 13]%positive) as Hin by by eapply list_elem_of_lookup_2.
  set_unfold. destruct Hin as [->|[->|[->|[->|[]]]]]; lia.
Qed.
Lemma above_targets_fresh s : ctargets s !! above_targets s = None.
Proof.
  unfold above_targets.
  assert (∀ m : gmap positive comm_target, ∀ l, is_Some (m !! l) →
    (l < map_fold (λ l _ m, Pos.max (Pos.succ l) m) 300 m)%positive) as H.
  { apply (map_fold_weak_ind (λ r (m : gmap positive comm_target),
      ∀ l, is_Some (m !! l) → (l < r)%positive)).
    - intros l. by rewrite lookup_empty, is_Some_alt.
    - intros i x m r Hi IH l. rewrite lookup_insert_is_Some'. intros [<-|Hl%IH]; lia. }
  apply eq_None_not_Some. intros Hs%H. lia.
Qed.

(** Every call is answered with 0; but the mpoller does not know descriptor 21. *)
Definition run_env : CommEnv := {|
  ccall_result c _ := match c with KSetTimeout 21 _ _ => (-1, ENOENT) | _ => (0, 0) end%Z;
  cclock _ := TS 12 0;
  cmalloc := free_addr;
  sockname _ _ := (replicate 128 1%Z, 16%Z);
|}.
Definition run_memory : CommMemory := {|
  junk_data _ := PData 0 0 0 None None (UPtr None);
  junk_entry _ := ConnEntry None 7 7 7 7 7 None None None None None;
  junk_links _ := Cell None None None 0;
  member_list s := Pos.succ (Pos.succ (above_targets s));
  new_addr := above_targets;
  timer_slot _ := (None, 0%Z);
|}.
(** [list_add] and [list_del] as the kernel's list.h has them. *)
Definition linux_list_add (entry head : ptr) : M (gmap positive cell) unit :=
  let* first := ld next head in
  st (set_prev entry) first ;;;
  st (set_next first) entry ;;;
  st (set_prev head) entry ;;;
  st (set_next entry) head.

Lemma linux_list_add_dlist h head xs (e : loc) :
  dlist h head xs → e ∉ head :: xs → is_Some (h !! e) →
  ∃ h', linux_list_add (Some e) (Some head) h = Done (tt, h') ∧ dlist h' head (e :: xs) ∧
        (∀ l, l ∉ head :: e :: xs → h' !! l = h !! l).
Proof.
  intros (Hnd & Hf & Hb) Hne He. unfold linux_list_add.
  pose proof (fseg_first _ _ _ _ Hf) as Hn. unfold firstof in Hn.
  assert (is_Some (h !! head)) by eauto with kernel. destruct He as [ce He].
  assert (NoDup (head :: e :: xs)) as Hnd'.
  { apply NoDup_cons in Hnd as [? ?]. apply NoDup_cons. split; [set_solver|].
    apply NoDup_cons. split; [set_solver|done]. }
  destruct xs as [|x xs]; simpl in *.
  - assert (e ≠ head) by set_solver.
    eexists. split; [by repeat lstep|]. unfold dlist; split_and!; simpl; [done| | |].
    + split; fields; [by rewrite Hf|unfold nxt; by rewrite He].
    + split; fields; [unfold prv; by rewrite He|by rewrite Hb].
    + intros l Hl. rewrite !alter_out; set_solver.
  - destruct Hf as [Hf1 Hf2], Hb as [Hb1 Hb2].
    assert (e ≠ head ∧ e ≠ x ∧ head ≠ x) as (?&?&?).
    { apply NoDup_cons in Hnd as [? _]. set_solver. }
    apply NoDup_cons in Hnd as [Hhx Hndx].
    eexists. split; [by repeat lstep|]. unfold dlist; split_and!; simpl; [done| | |].
    + split_and!; [fields; by rewrite Hf1|fields; unfold nxt; by rewrite He|].
      eapply fseg_ext; [|done]. intros y Hy. fields; set_solver.
    + split_and!; [fields; unfold prv; by rewrite He|fields; by rewrite Hb1|].
      eapply bseg_ext; [|done]. intros y Hy.
      assert (y ≠ x) by (intros ->; apply NoDup_cons in Hndx as [? _]; set_solver).
      fields. set_solver.
    + intros l Hl. rewrite !alter_out; set_solver.
Qed.
Definition run_externs : CommExterns := {|
  list_add := linux_list_add;
  list_del := Dlist.list_delete;
  SS_STATE_COMPLETE := 0;
  SS_STATE_ERROR := 1;
  SS_STATE_DISRUPTED := 2;
|}.

(** ** The client *)

Definition run_client : CommClient := {|
  send_timeout _ := ret 1000%Z;
  receive_timeout _ := ret (-1)%Z;
  keep_alive_timeout _ := ret 60000%Z;
  first_timeout_of _ := ret 0%Z;
  encode _ _ := ret (1%Z, [Iov 100 3]);
  service_unbound _ := ret tt;
|}.
(** A session at 200, if there is none; its message is at 210. *)
Definition new_session_200 : M commstate ptr := λ s,
  match csessions s !! 200%positive with
  | Some _ => Done (None, s)
  | None =>
      Done (Some 200%positive,
            set_csessions (<[200%positive := CSession None None None None 0 (TS 0 0) (-1) 0]>
                             (csessions s)) s)
  end.
Definition message_210 : M commstate ptr := λ s,
  Done (Some 210%positive, set_cmsgs (<[210%positive := CIn None None]> (cmsgs s)) s).
Definition run_callbacks : CommCallbacks := {|
  handle _ _ _ := ret tt;
  message_out _ := ret (Some 220%positive);
  message_in _ := message_210;
  release _ := ret tt;
  create_connect_fd _ := ret 5%Z;
  target_new_connection _ _ := ret (Some 230%positive);
  new_session _ _ _ := new_session_200;
  handle_stop _ _ := ret tt;
  create_listen_fd _ := ret 4%Z;
  service_new_connection _ _ := ret (Some 231%positive);
  append _ b := ret (0, Z.min 2 (Z.of_nat (length b)))%Z;
  inner_feedback _ n := ret n;
  duration _ := ret (0%Z, TS 1 0);
  sleep_handle _ _ _ := ret tt;
|}.
#[local] Existing Instances run_env run_memory run_externs run_client run_callbacks.

Lemma keeps_nothing {A} (a : A) : keeps (ret a).
Proof. by intros d s b s' Hc [= <- <-]. Qed.

#[export] Instance run_list_laws : CommListLaws run_externs.
Proof.
  split; simpl.
  - apply linux_list_add_dlist.
  - intros h head xs e ys. apply list_delete_dlist.
Qed.
#[export] Instance run_laws : CommRefLaws run_env run_memory run_client run_callbacks.
Proof.
  constructor; simpl; intros; first
    [ apply leaves_ret | apply keeps_nothing
    | match goal with H : ret _ _ = Done _ |- _ => by injection H as <- end | idtac ].
  - destruct (free_addr_fresh s l) as (? & _ & ?); [done|]. done.
  - apply above_targets_fresh.
  - by intros s a s' [= <- <-].
  - unfold new_session_200 in H. case_match eqn:Hs; injection H as <- <-; [done|].
    split_and!; [done..|]. exists None. split_and!; [|done|].
    + by rewrite lookup_fmap, Hs.
    + simpl. by rewrite fmap_insert.
Qed.

(** ** A run *)

Definition after {A} (m : M commstate A) (s : commstate) : commstate :=
  match m s with Done (_, s') => s' | _ => s end.

(** A reliable service at 100, with its list of connections at 101, listens; a
    connection is accepted (its target is 300) and handed to a handler thread, which
    makes the entry 10; a request begins on it. *)
Definition run0 : commstate := CommState ∅ ∅ ∅ ∅ ∅ ∅ ∅ ∅ ∅ (Some 9%positive) 0 0 [].
Definition run1 : commstate :=
  set_clinks {[101%positive := Cell (Some 101%positive) (Some 101%positive) None 0]}
    (set_cservices {[100%positive := CService None 0 (-1) 500 1 (-1) 0 101]} run0).
Definition run2 : commstate := after (bind (Some 100%positive)) run1.
Definition run3 : commstate := after (accept (replicate 16 1%Z) 16 7 (Some 100%positive)) run2.
Definition listened : poller_result :=
  PResult PR_ST_SUCCESS 0
    (PData PD_OP_LISTEN 0 4 ACCEPT (Some 100%positive) (UPtr (Some 300%positive))).
Definition run4 : commstate := after (handle_listen_result listened) run3.
Definition run5 : commstate := after (create_request (Some 10%positive)) run4.

Definition run_debt : debt :=
  dminus (dplus (dplus dzero (on_v 100)) (on_t 300)) (on_t 300).

(** While there are no sessions and every idle list is empty the links are in order. *)
Lemma in_order_start s :
  csessions s = ∅ →
  map_Forall (λ _ x, (clinks s !! m_idle_list x ≫= next) = Some (m_idle_list x)) (ctargets s) →
  in_order s.
Proof.
  intros E H. constructor.
  - intros e t v x _ l k _. simpl. by rewrite E, lookup_fmap, lookup_empty.
  - intros t r v _ x c e k Hx Hc He Hne. specialize (H t x Hx). simpl in H. rewrite Hc in H.
    simpl in H. congruence.
  - intros l se t. by rewrite E, lookup_empty.
Qed.

(** ** Types *)

Lemma run_type_laws fixed : fixed 200%positive = None → CommTypeLaws run_client run_callbacks fixed.
Proof.
  intros Hf. constructor; simpl; intros; try apply sound_ret.
  - intros H s a s' Ht [= <- <-]. by eapply typed_same; [..|exact Ht].
  - intros H s a s' [] E. unfold new_session_200 in E. case_match; injection E as <- <-;
      constructor; simpl; try done.
    intros y x. rewrite lookup_insert. case_decide; [|eauto]. subst. intros [= <-].
    split; [by split|]. intros p. by rewrite Hf.
Qed.

Lemma run1_typed : typed (λ _, None) (λ _, False) run1.
Proof.
  constructor; simpl; intros l x H; try by rewrite lookup_empty in H.
  apply lookup_singleton_Some in H as [_ <-]. by split.
Qed.
Definition run_handled : commstate := after (run_calls
  [Bind (Some 100%positive); Accept (replicate 16 1%Z) 16 7 (Some 100%positive); OnListen listened;
   CreateRequest (Some 10%positive)]) run1.

(** A session at 250 that is to be replied to, on the connection 10. *)
Definition run_linked : commstate := after (clnk (list_add (Some 10%positive) (Some 302%positive))) run4.
Definition run_reply : commstate :=
  set_csessions {[250%positive := CSession (Some 300%positive) None None None 0 (TS 0 0) 0 2]}
    run_linked.
Lemma typed_set_sessions H s m :
  typed (λ _, None) H s → map_Forall (λ _ x, within 0 4 (passive x)) m →
  typed (λ _, None) H (set_csessions m s).
Proof. intros [] Hm. constructor; simpl; try done. intros l x Hx. split; [by eapply Hm|done]. Qed.
Lemma run_reply_typed : typed (λ _, None) (λ _, False) run_reply.
Proof.
  apply typed_set_sessions; [|by apply map_Forall_singleton].
  eapply (sound_clnk _ (list_add (Some 10%positive) (Some 302%positive)) _ run4 tt);
    [|vm_compute; reflexivity].
  eapply (sound_calls (CommTypeLaws0 := run_type_laws _ eq_refl)
    [Bind (Some 100%positive); Accept (replicate 16 1%Z) 16 7 (Some 100%positive);
     OnListen listened] _ run1 tt); [exact run1_typed|vm_compute; reflexivity].
Qed.

(** ** Idle connections *)

(** A target 400 with three idle connections, of which the mpoller has lost the
    first. *)
Definition idle_entry (fd : Z) : conn_entry :=
  ConnEntry (Some 230%positive) 5 fd CONN_STATE_IDLE 0 1 None None (Some 400%positive) None
    (Some 9%positive).
Definition run_idle : commstate :=
  CommState
    (list_to_map [(401, Cell (Some 11) (Some 13) None 0); (11, Cell (Some 12) (Some 401) None 0);
                  (12, Cell (Some 13) (Some 11) None 0); (13, Cell (Some 401) (Some 12) None 0)]%positive)
    (list_to_map [(11%positive, idle_entry 21); (12%positive, idle_entry 22); (13%positive, idle_entry 23)])
    {[400%positive := CTarget None 0 0 500 401 0 0 None]}
    {[200%positive := CSession None None None None 0 (TS 0 0) 0 0]} ∅ ∅ ∅ ∅ ∅ (Some 9%positive) 0 0 [].
Lemma run_idle_list : dlist (clinks run_idle) 401 [11; 12; 13]%positive.
Proof. split; [apply (bool_decide_unpack _); by vm_compute|]. split; vm_compute; by split_and!. Qed.

(** ** New connections *)

#[export] Instance run_connect_laws : CommConnectLaws run_env run_callbacks.
Proof.
  constructor; simpl; intros.
  - apply leaves_ret.
  - apply leaves_ret.
  - destruct (free_addr_fresh s l) as (? & _ & ?); [done|]. done.
Qed.
Definition run_asking : commstate :=
  set_csessions {[200%positive := CSession (Some 400%positive) None None None 0 (TS 0 0) 0 0]} run_idle.
