(* ===== verification/CommunicatorSpec.v ===== *)
(** The communicator put together from its parts: what creating one does with its
    thread pool, and how results that are queued are handled when it ends. *)
From S2P Require Import Mpoller IoService ThrdPoolSpec.
From S2P Require Export Communicator.

Section spec.
Context `{CommEnv} `{CommMemory} `{CommClient} `{CommExterns} `{CommCallbacks}.
Context `{IOKernel} `{IOClient} `{TE : ThreadEnv} `{TaskClient}.
Context `{Env} `{Poller : Client} `{MEnv} `{SysEnv} `{IO : IOServices}.
Context (me : nat).

Lemma oncs_bnd {A B} (m : M commstate A) (k : A → M communicator B) s a x :
  m (conns s) = Done (a, x) → bnd (oncs m) k s = k a (set_conns x s).
Proof. intros E. unfold bnd, oncs, zoom. by rewrite E. Qed.
Lemma onrq_bnd {A B} (m : M mqstate A) (k : A → M communicator B) s a x :
  m (rqueue s) = Done (a, x) → bnd (onrq m) k s = k a (set_rqueue x s).
Proof. intros E. unfold bnd, onrq, zoom. by rewrite E. Qed.
Lemma onpool_bnd {A B} (m : M tpstate A) (k : A → M communicator B) s a x :
  m (tpool s) = Done (a, x) → bnd (onpool m) k s = k a (set_tpool x s).
Proof. intros E. unfold bnd, onpool, zoom. by rewrite E. Qed.
Lemma onmp_bnd {A B} (m : M Mpoller.mpoller A) (k : A → M communicator B) s a x :
  m (mpollers s) = Done (a, x) → bnd (onmp m) k s = k a (set_mpollers x s).
Proof. intros E. unfold bnd, onmp, zoom. by rewrite E. Qed.
Lemma onpool_blocked {A B} (m : M tpstate A) (k : A → M communicator B) s :
  m (tpool s) = Blocked → bnd (onpool m) k s = Blocked.
Proof. intros E. unfold bnd, onpool, zoom. by rewrite E. Qed.

(** ** Creation *)

(** The handler threads are scheduled on a queue that never takes a task; without
    memory for a task the pool is destroyed, which waits for threads that are not. *)
Lemma create_handlers_run `{!ThreadLaws TE} n s q :
  (0 ≤ n)%Z → malloc_pool (tpool s) = true →
  malloc_queue (set_pool (Some (TPool 0 0 0 false)) (tpool s)) = Some q →
  (∀ x, pthread_result PAttrInit x = 0%Z) →
  get_mutex (queue (tpool s)) = None → put_mutex (queue (tpool s)) = None →
  put_mutex (rqueue s) = None → parent (tpool s) me = false →
  if (0 <? n)%Z then create_handler_threads me n s = Blocked
  else ∃ s', create_handler_threads me n s = Done (0%Z, s') ∧ conns s' = conns s ∧
    has_pool s' = true ∧ pool (tpool s') = Some (TPool n 0 0 false).
Proof.
  intros Hn Hm Hq Hi Hg Hp Hrq Hpar.
  destruct (pool_create_run me n 0 (tpool s) q Hm Hq Hi Hg Hp)
    as (t & Et & Hpool & Ht & _ & _ & Hr & _ & Hp' & Hmq).
  unfold create_handler_threads. rewrite (onpool_bnd _ _ _ _ _ Et), modify_bnd.
  cbn [schedule_loop]. destruct (Z.ltb_spec 0 n) as [Hlt|Hge]; cbn [negb].
  - assert (thrdpool_schedule me (Task HANDLER_ROUTINE 0) t =
      match malloc_entry t with Some _ => Blocked | None => Done ((-1)%Z, t) end) as Es
      by (apply schedule_blocks; [done|done|by rewrite Hmq..]).
    rewrite bnd_assoc. destruct (malloc_entry t).
    + by rewrite onpool_blocked.
    + erewrite onpool_bnd by exact Es. cbn [Z.ltb Z.compare]. rewrite ret_bnd.
      rewrite (proj2 (Z.eqb_neq 0 n)) by lia.
      erewrite onrq_bnd by exact (set_nonblock_run me (rqueue s) Hrq).
      rewrite onpool_blocked; [done|]. simpl. apply (destroy_blocks _ _ _ _ Hpool); [done| |done].
      by rewrite Ht.
  - assert (n = 0%Z) as -> by lia. rewrite ret_bnd. eexists. by split_and!.
Qed.

(** [init] once the poller threads run. *)
Lemma init_run `{!ThreadLaws TE} pt n s s1 q :
  pt ≠ 0%Z → create_poller pt s = Done (0%Z, s1) →
  (0 ≤ n)%Z → malloc_pool (tpool s1) = true →
  malloc_queue (set_pool (Some (TPool 0 0 0 false)) (tpool s1)) = Some q →
  (∀ x, pthread_result PAttrInit x = 0%Z) →
  get_mutex (queue (tpool s1)) = None → put_mutex (queue (tpool s1)) = None →
  put_mutex (rqueue s1) = None → parent (tpool s1) me = false →
  if (0 <? n)%Z then init me pt n s = Blocked
  else ∃ s', init me pt n s = Done (0%Z, s') ∧ stop_flag (conns s') = 0%Z ∧
    has_pool s' = true ∧ pool (tpool s') = Some (TPool n 0 0 false).
Proof.
  intros Hpt Hc Hn Hm Hq Hi Hg Hp Hrq Hpar.
  pose proof (create_handlers_run n s1 q Hn Hm Hq Hi Hg Hp Hrq Hpar) as Hh.
  unfold init. rewrite (proj2 (Z.eqb_neq pt 0)) by done. rewrite (bnd_done _ _ _ _ _ Hc). simpl.
  destruct (0 <? n)%Z.
  - unfold bnd. by rewrite Hh.
  - destruct Hh as (s2 & E & _ & Hhas & Hpl). rewrite (bnd_done _ _ _ _ _ E). simpl.
    rewrite (oncs_bnd _ _ _ tt (set_stop_flag 0 (conns s2))) by done.
    eexists. by split_and!.
Qed.

(** ** Handlers *)

(** [s], with all but the connections and the I/O services of [s2]. *)
Definition graft (s s2 : communicator) : communicator :=
  Communicator (conns s) (ioservices s) (rqueue s2) (results s2) (tpool s2) (has_pool s2)
    (mpollers s2).

(** Code that works on the connections and the I/O services, whatever the rest. *)
Definition local {A} (m : M communicator A) : Prop := ∀ s s2,
  m (graft s s2) =
    match m s with
    | Done (a, s') => Done (a, graft s' s2)
    | UB => UB
    | Blocked => Blocked
    | NoFuel => NoFuel
    end.

Lemma local_ret {A} (a : A) : local (ret a).
Proof. done. Qed.
Lemma local_bnd {A B} (m : M communicator A) (k : A → M communicator B) :
  local m → (∀ a, local (k a)) → local (bnd m k).
Proof.
  intros Hm Hk s s2. unfold bnd. rewrite Hm. destruct (m s) as [[a s']| | |]; try done. apply Hk.
Qed.
Lemma local_oncs {A} (m : M commstate A) : local (oncs m).
Proof. intros s s2. unfold oncs, zoom. simpl. by destruct (m (conns s)) as [[a x]| | |]. Qed.
Lemma local_onio {A} p (m : M iostate A) : local (onio p m).
Proof.
  intros s s2. destruct p as [l|]; [|done]. simpl. destruct (ioservices s !! l); [|done].
  by destruct (m i) as [[a x]| | |].
Qed.
Create HintDb local.
Hint Resolve local_ret local_bnd local_oncs local_onio : local.

(** A service that is told of its stop works on its own. *)
Hypothesis (stop_local : ∀ l e, local (io_handle_stop l e)).
Hint Resolve stop_local : local.

Lemma handle_result_local fuel res : local (handle_result fuel res).
Proof.
  unfold handle_result, handle_aio_result, shutdown_io_service.
  repeat case_match; auto with local.
Qed.

(** Handle results one after the other. *)
Fixpoint handle_all (fuel : nat) (rs : list poller_result) : M communicator unit :=
  match rs with
  | [] => ret tt
  | r :: rs => let* _ := handle_result fuel r in handle_all fuel rs
  end.

Lemma graft_same s : graft s s = s.
Proof. by destruct s. Qed.
Lemma local_keeps {A} (m : M communicator A) s a s' :
  local m → m s = Done (a, s') → s' = graft s' s.
Proof. intros Hm E. specialize (Hm s s). rewrite graft_same, E in Hm. by injection Hm. Qed.
Lemma local_run {A} (m : M communicator A) s a s' s2 :
  local m → m s = Done (a, s') → conns s2 = conns s → ioservices s2 = ioservices s →
  m s2 = Done (a, graft s' s2).
Proof.
  intros Hm E Ec Ei. replace s2 with (graft s s2) at 1
    by (unfold graft; rewrite <- Ec, <- Ei; by destruct s2).
  by rewrite Hm, E.
Qed.

(** [msgqueue_get] does not change which memory the queue lies in. *)
Definition keeps_self {A} (m : M mqstate A) : Prop :=
  ∀ s a s', m s = Done (a, s') → self (mq s') = self (mq s).
Lemma keeps_self_bnd {A B} (m : M mqstate A) (k : A → M mqstate B) :
  keeps_self m → (∀ a, keeps_self (k a)) → keeps_self (bnd m k).
Proof. intros Hm Hk s b s' (a & s1 & E1 & E2)%bnd_done_inv. by rewrite (Hk _ _ _ _ E2), (Hm _ _ _ E1). Qed.
Lemma msgqueue_get_self : keeps_self (msgqueue_get me).
Proof.
  unfold msgqueue_get, get_locked, get_first, get_pop, __msgqueue_swap.
  repeat first
    [ apply keeps_self_bnd; [|intro]
    | intros x y z; unfold que, que_set, gets, modify, ret, blocked, notify, ldw, stw, lock, unlock;
      intros ?; repeat case_match; simplify_eq/=; done
    | by intros x y z [= _ <-]
    | case_match ].
Qed.

(** What holds of the queue of a communicator while it ends: it is not shared any
    more, does not block, and holds the results [rs] in order. *)
Record ending (rs : list poller_result) (ls : list Z) (s : communicator) : Prop := {
  end_holding : holding (rqueue s) ls;
  end_off : linkoff (mq (rqueue s)) = sizeof_poller_result;
  end_nonblock : nonblock (mq (rqueue s)) ≠ 0%Z;
  end_results : Forall2 (λ l r, l ≠ sizeof_poller_result ∧
                                results s !! (l - sizeof_poller_result)%Z = Some r) ls rs;
  end_pool : has_pool s = false;
}.

Lemma handle_all_local fuel rs : local (handle_all fuel rs).
Proof.
  induction rs as [|r rs IH]; simpl; [apply local_ret|].
  apply local_bnd; [apply handle_result_local|done].
Qed.

(** The first result taken off the queue and freed. *)
Lemma ending_next r rs l ls s q gs ps :
  ending (r :: rs) (l :: ls) s → mq_rep q gs ps → gs ++ ps = ls →
  put_mutex q = None → get_mutex q = None →
  linkoff (mq q) = linkoff (mq (rqueue s)) → nonblock (mq q) = nonblock (mq (rqueue s)) →
  (l ∉ [get_head (mq q); put_head (mq q)]) → (l ∉ ls) →
  ∀ x, rqueue x = set_words (delete l (words q)) q →
    results x = delete (l - sizeof_poller_result)%Z (results s) → has_pool x = false →
    ending rs ls x.
Proof.
  intros [_ Hoff Hb Hrs _] Hr El Hp Hg Eoff Eb Hh Hl x Eq Er Hx.
  apply Forall2_cons_1 in Hrs as [_ Hrs]. constructor.
  - rewrite Eq. split; [done|]. split; [done|]. exists gs, ps. split; [|done].
    apply rep_delete_free; [done|]. rewrite El. set_unfold. tauto.
  - by rewrite Eq, <- Hoff, <- Eoff.
  - by rewrite Eq; simpl; rewrite Eb.
  - rewrite Er. eapply Forall2_impl_in; [exact Hrs|]. intros y r' Hy (Hy0 & Hr'). split; [done|].
    rewrite lookup_delete_ne; [done|]. intros E. assert (y = l) as -> by lia.
    done.
  - done.
Qed.

(** The thread handles the results in the order they were put, frees each, and
    leaves the loop when there is none. *)
Lemma handler_loop_run hfuel ls : ∀ fuel rs s sx,
  ending rs ls s → length ls < fuel → handle_all hfuel rs s = Done (tt, sx) →
  ∃ s', handler_loop me fuel hfuel s = Done (true, s') ∧
    conns s' = conns sx ∧ ioservices s' = ioservices sx ∧
    (∀ a, results s' !! a =
       if decide ((a + sizeof_poller_result)%Z ∈ ls) then None else results s !! a) ∧
    has_pool s' = false ∧ mpollers s' = mpollers s ∧ holding (rqueue s') [] ∧
    self (mq (rqueue s')) = self (mq (rqueue s)).
Proof.
  induction ls as [|l ls IH]; intros fuel rs s sx [(Hg & Hp & gs & ps & Hr & Els) Hoff Hb Hrs Hpool]
    Hf Hall; (destruct fuel as [|fuel]; [simpl in Hf; lia|]); cbn [handler_loop].
  - destruct (get_run me (rqueue s) gs ps Hr Hp Hg) as (q & gs' & ps' & Eq & Hr' & El & Hp' & Hg' & _); [done|].
    pose proof (msgqueue_get_self _ _ _ Eq) as Hself.
    rewrite <- Els in Eq, El. rewrite (onrq_bnd _ _ _ _ _ Eq). simpl.
    apply Forall2_nil_inv_l in Hrs as ->. injection Hall as <-. eexists. split; [done|].
    split_and!; [done..| |done]. split_and!; [done..|]. by exists gs', ps'.
  - pose proof Hrs as (r & rs' & (Hl0 & Hl) & _ & ->)%Forall2_cons_inv_l.
    destruct (get_run me (rqueue s) gs ps Hr Hp Hg)
      as (q & gs' & ps' & Eq & Hr' & El & Hp' & Hg' & Hoff' & Hb' & Hh); [by rewrite <- Els|].
    pose proof (msgqueue_get_self _ _ _ Eq) as Hself.
    rewrite <- Els in Eq, El. simpl in Eq, El. rewrite Hoff in Eq.
    rewrite (onrq_bnd _ _ _ _ _ Eq).
    rewrite (proj2 (Z.eqb_neq (l - sizeof_poller_result) 0)) by lia.
    erewrite bnd_done by (unfold result_at; simpl; by rewrite Hl).
    apply bnd_done_inv in Hall as (h & s2 & E1 & E2).
    erewrite bnd_done; [|apply (local_run _ _ _ _ _ (handle_result_local _ _) E1); done].
    erewrite bnd_done by (unfold free_result; simpl; by rewrite Hl).
    rewrite Z.sub_add.
    match goal with |- context [handler_loop me fuel hfuel] => idtac end.
    match goal with |- ∃ _, _ ?s1 = _ ∧ _ => set (s3 := s1) end.
    assert (NoDup (l :: ls)) as Hnd.
    { rewrite Els. apply rep_nodup in Hr. by apply NoDup_cons in Hr as [_ [_ ?]%NoDup_cons]. }
    apply NoDup_cons in Hnd as [Hn Hnd].
    destruct (IH fuel rs' s3 (graft sx s3)) as (s' & E' & H1' & H2' & H3' & H4' & H5' & H6' & H7').
    + eapply (ending_next r rs' l ls s q gs' ps'); try done.
      * constructor; try done. split; [done|]. split; [done|]. by exists gs, ps.
      * intros Hi. apply Hh in Hi. apply (rep_heads_apart _ _ _ l Hr); [done|]. rewrite <- Els. by left.
    + simpl in Hf. lia.
    + rewrite (local_run _ _ _ _ s3 (handle_all_local _ _) E2) by done. done.
    + exists s'. split; [|split_and!; try done; [|by rewrite H7'; simpl; rewrite Hself]].
      * destruct h; [done|]. rewrite gets_bnd. simpl. rewrite Hpool. done.
      * intros a. rewrite H3'. simpl. destruct (decide (a = l - sizeof_poller_result)%Z) as [->|Ha].
        -- rewrite lookup_delete_eq, Z.sub_add. rewrite (decide_True (P := l ∈ l :: ls)) by (by left).
           by case_decide.
        -- rewrite lookup_delete_ne by done.
           assert ((a + sizeof_poller_result)%Z ∈ l :: ls ↔ (a + sizeof_poller_result)%Z ∈ ls) as Hi.
           { rewrite elem_of_cons. split; [intros [?|]; [lia|done]|by right]. }
           destruct (decide ((a + sizeof_poller_result)%Z ∈ ls)),
             (decide ((a + sizeof_poller_result)%Z ∈ l :: ls)); tauto.
Qed.

(** The thread that destroys a communicator: once the results are handled the mpoller
    and the queue are freed. *)
Lemma handler_routine_run fuel hfuel s sx ls rs mp :
  ending rs ls s → length ls < fuel → handle_all hfuel rs s = Done (tt, sx) →
  Mpoller.mpoller_destroy (mpollers s) = Done (tt, mp) →
  ∃ s', handler_thread_routine me fuel hfuel s = Done (tt, s') ∧
    conns s' = conns sx ∧ ioservices s' = ioservices sx ∧
    (∀ a, results s' !! a =
       if decide ((a + sizeof_poller_result)%Z ∈ ls) then None else results s !! a) ∧
    mpollers s' = mp ∧
    (∃ q, holding q [] ∧ msgqueue_destroy q = Done (tt, rqueue s')) ∧
    words (rqueue s') !! head1_at (self (mq (rqueue s))) = None ∧
    words (rqueue s') !! head2_at (self (mq (rqueue s))) = None.
Proof.
  intros He Hf Hall Hdes.
  destruct (handler_loop_run hfuel ls fuel rs s sx He Hf Hall)
    as (s' & E' & Hc & Hi & Hres & Hhas & Hmp & Hq & Hself).
  unfold handler_thread_routine. rewrite (bnd_done _ _ _ _ _ E'), gets_bnd, Hhas. cbn [andb negb].
  erewrite onmp_bnd by (rewrite Hmp; exact Hdes).
  eexists. split; [done|]. split_and!; [done..|by eexists| |]; simpl; rewrite Hself.
  - by rewrite lookup_delete_eq.
  - destruct (decide (head1_at (self (mq (rqueue s))) = head2_at (self (mq (rqueue s))))) as [->|Hn].
    + by rewrite lookup_delete_eq.
    + by rewrite lookup_delete_ne, lookup_delete_eq.
Qed.
End spec.
