(* ===== verification/KernelExamples.v ===== *)
(** Concrete inputs for the components above the poller: a queue with messages on
    both of its lists, a pool with tasks left, a small graph of tasks, an mpoller of
    two pollers, and an I/O service. *)
From S2P Require Export Examples MpollerSpec MsgQueueSteps ThrdPoolLeave SubTaskSpec IoServiceSpec.

(** ** Message queue *)

(** A queue at 1000 that holds the messages 2000 (to be got) and 2008 (put). *)
Definition ex_queue : mqstate :=
  MQState (list_to_map [(1024, 2000); (2000, 0); (1032, 2008); (2008, 0); (3000, 7)]%Z)
    (MQ 1000 4 1 0 0 1024 1032 2008) None None [].
Lemma ex_queue_rep : mq_rep ex_queue [2000%Z] [2008%Z].
Proof.
  constructor; [by vm_compute..| |].
  - apply (bool_decide_unpack _). by vm_compute.
  - repeat (constructor; [by unfold addr_ok; simpl; lia|]). constructor.
Qed.
Lemma ex_queue_holding : holding ex_queue [2000; 2008]%Z.
Proof. split_and!; [done..|]. exists [2000%Z], [2008%Z]. split; [apply ex_queue_rep|done]. Qed.

(** Memory with the word of a message. *)
Definition ex_words : mqstate :=
  MQState (list_to_map [(3000, 7); (3008, 7)]%Z) (MQ 0 0 0 0 0 0 0 0) None None [].
Definition ex_new_queue : mqstate :=
  MQState (<[1024 := 0]> (<[1032 := 0]> (list_to_map [(3000, 7); (3008, 7)])))%Z
    (MQ 1000 4 0 0 0 1024 1032 1032) None None [].
Definition ex_qsys : qsys := QSys ex_new_queue ∅ [].
Lemma ex_qinit : qinit 1000 4 0 ex_qsys.
Proof. exists ex_words. by split_and!; try (unfold addr_ok, head1_at, head2_at; lia). Qed.

(** Thread 1 is about to put message 3000. *)
Definition ex_putting : qsys :=
  QSys (set_words (<[3000 := 0]> (words ex_new_queue))%Z ex_new_queue) {[1 := Putting 3000]} [].
Lemma ex_link : qcore ex_qsys ex_putting.
Proof.
  apply (StepLink ex_qsys 1 3000 3000); [done| |by vm_compute].
  split; [unfold addr_ok; simpl; lia|]. split; [by eexists|].
  split; [apply (bool_decide_unpack _); by vm_compute|].
  split; [apply (bool_decide_unpack _); by vm_compute|]. intros t. simpl. by rewrite lookup_empty.
Qed.
(** ... and has put it. *)
Definition ex_put : qsys :=
  QSys (MQState (<[1032 := 3000]> (<[3000 := 0]> (words ex_new_queue)))%Z
          (MQ 1000 4 1 0 0 1024 1032 3000) None None [NotifyOneGet])
    (delete 1 {[1 := Putting 3000]}) [OPut 3000].
Lemma ex_put_step : qcore ex_putting ex_put.
Proof. apply (StepPut ex_putting 1 3000); [done|by vm_compute]. Qed.
(** ... and thread 2 puts message 3008 in front of it. *)
Definition ex_headed : qsys :=
  match msgqueue_put_head 2 2 3008 (qs ex_put) with
  | Done (_, s) => QSys s (threads ex_put) [OPut 3000; OHead 3008]
  | _ => ex_put
  end.
Lemma ex_head_step : qcore ex_put ex_headed.
Proof.
  apply (StepHead ex_put 2 3008); [done| |by vm_compute].
  split; [unfold addr_ok; simpl; lia|]. split; [by eexists|].
  split; [apply (bool_decide_unpack _); by vm_compute|].
  split; [apply (bool_decide_unpack _); by vm_compute|]. by intros t.
Qed.
Lemma ex_unused : unused ex_putting 3008.
Proof.
  split; [unfold addr_ok; simpl; lia|]. split; [by eexists|].
  split; [apply (bool_decide_unpack _); by vm_compute|].
  split; [apply (bool_decide_unpack _); by vm_compute|].
  intros t. simpl. rewrite lookup_singleton. by case_decide.
Qed.
Lemma ex_put_reach : rtc qcore ex_qsys ex_put.
Proof. eapply rtc_l; [apply ex_link|]. apply rtc_once, ex_put_step. Qed.

(** ** Thread pool *)

(** An allocator with room for one entry at a time. *)
Definition ex_entry (s : tpstate) : option Z :=
  if decide (words (queue s) !! 4096%Z = None ∧ entries s !! 4096%Z = None ∧
             (4096%Z ∉ [head1_at (self (mq (queue s))); head2_at (self (mq (queue s)))]))
  then Some 4096%Z else None.
#[export] Instance ex_threads : ThreadEnv := {|
  pthread_result _ _ := 0%Z;
  malloc_pool _ := true;
  malloc_queue _ := Some 1000%Z;
  malloc_entry := ex_entry;
  pool_at := 4000%Z;
|}.
#[export] Instance ex_thread_laws : ThreadLaws ex_threads.
Proof.
  split.
  - intros s a. simpl. unfold ex_entry. case_decide as Hd; [|done]. intros [= <-].
    destruct Hd as (H1 & H2 & H3). split_and!; [unfold addr_ok; lia|done..].
  - intros s q [= <-]. unfold addr_ok, head1_at, head2_at. lia.
Qed.
#[export] Instance ex_tasks_client : TaskClient := {| run_routine _ _ := ret false |}.

(** A pool without threads, with two tasks left. *)
Definition ex_left : tpstate :=
  TPState ex_queue (list_to_map [(2000, Task 5 0); (2008, Task EXIT_ROUTINE 0)]%Z)
    (Some (TPool 0 0 0 false)) (λ _, false) 0 [].
(** Memory without a pool. *)
Definition ex_no_pool : tpstate := TPState ex_words ∅ None (λ _, false) 0 [].

Definition ex_psys : psys :=
  PSys (TPState ex_new_queue ∅ (Some (TPool 0 0 0 false)) (λ _, false) 0 []) ∅ [] NotBegun.
Lemma ex_pinit : pinit 0 ex_psys.
Proof. by exists 0%Z. Qed.
(** The pool has two threads; 7 leaves, and the other, 8, terminates the pool. *)
Definition ex_one : psys :=
  PSys (TPState ex_new_queue ∅ (Some (TPool 1 0 0 false)) (λ _, false) 0
          [PAttrDestroy; PCreate; PAttrInit]) {[7 := Running]} [] NotBegun.
Definition ex_two : psys :=
  PSys (TPState ex_new_queue ∅ (Some (TPool 2 0 0 false)) (λ _, false) 0
          [PAttrDestroy; PCreate; PAttrInit; PAttrDestroy; PCreate; PAttrInit])
    (<[8 := Running]> {[7 := Running]}) [] NotBegun.
Definition ex_stopped_queue : mqstate :=
  MQState (words ex_new_queue) (MQ 1000 4 0 0 1 1024 1032 1032) None None
    [NotifyAllPut; NotifyOneGet].
Definition ex_waiting : psys :=
  PSys (TPState ex_stopped_queue ∅ (Some (TPool 1 0 0 true)) (λ _, false) 0
          [PDetach 8; PAttrDestroy; PCreate; PAttrInit; PAttrDestroy; PCreate; PAttrInit])
    (delete 8 (<[8 := Running]> {[7 := Running]})) [] (Waiting (Some 8)).
Definition ex_gone : psys :=
  PSys (TPState ex_stopped_queue ∅ (Some (TPool 0 0 7 true)) (λ _, false) 0
          [PNotifyTerminate; PDetach 8; PAttrDestroy; PCreate; PAttrInit; PAttrDestroy; PCreate; PAttrInit])
    (<[7 := Gone]> (<[7 := Leaving 0]> (delete 8 (<[8 := Running]> {[7 := Running]})))) []
    (Waiting (Some 8)).
Definition ex_returned : psys :=
  PSys (TPState ex_stopped_queue ∅ (Some (TPool 0 0 7 true)) (λ _, false) 0
          [PJoin 7; PNotifyTerminate; PDetach 8; PAttrDestroy; PCreate; PAttrInit; PAttrDestroy; PCreate; PAttrInit])
    (workers ex_gone) [7%Z] (Returned (Some 8)).
Lemma ex_wait_reach : rtc pstep ex_psys ex_waiting.
Proof.
  eapply (rtc_l _ _ ex_one).
  { apply (LIncrease ex_psys 7); [done|unfold tid_ok; lia|done|done|by vm_compute]. }
  eapply (rtc_l _ _ ex_two).
  { apply (LIncrease ex_one 8); [done|unfold tid_ok; lia|done|done|by vm_compute]. }
  apply rtc_once, (LBeginIn ex_two 8); [done|done|by vm_compute].
Qed.
Lemma ex_return_reach : rtc pstep ex_psys ex_returned.
Proof.
  etrans; [apply ex_wait_reach|]. eapply rtc_l; [|eapply (rtc_l _ _ ex_gone), rtc_once].
  - eapply (LLeave ex_waiting 7 0); [done|by vm_compute].
  - apply (LJoin (PSys _ _ _ _) 7 0); [done|by left].
  - apply (LReturn ex_gone (Some 8) _ (TPool 0 0 7 true)); [done|done| |by vm_compute].
    right. exists 7. by split.
Qed.

(** ** Tasks *)

(** Task 1 runs 2, and 3 followed by 4, in parallel. *)
#[export] Instance ex_tasks : Tasks := {|
  next_task t := if decide (t = 3%positive) then Some 4%positive else None;
  at_once t := false;
|}.
Definition ex_own (t : positive) : option positive :=
  if decide (t ∈ [2; 3; 4]%positive) then Some 1%positive else None.
Definition ex_rank (t : positive) : nat := if decide (t = 1%positive) then 1 else 0.
Definition ex_graph : ststate :=
  STState (list_to_map [(1, new_parallel [2; 3] 2 99); (2, new_subtask); (3, new_subtask);
                        (4, new_subtask)]%positive) [].
Definition ex_running : ststate :=
  STState (list_to_map [(1, SubTask None (Some [2; 3]) 2 2); (2, SubTask (Some 1) None 0 0);
                        (3, SubTask (Some 1) None 0 0); (4, new_subtask)]%positive)
    [Dispatched 3; Dispatched 2; Dispatched 1].
Lemma ex_kids p : kids (store ex_graph) p = if decide (p = 1%positive) then [2; 3]%positive else [].
Proof.
  unfold kids. simpl. case_decide as Hp; [by subst|].
  repeat (rewrite lookup_insert; case_decide; [by subst|]). by rewrite lookup_empty.
Qed.
Lemma ex_graph_ok : graph (store ex_graph) ex_own 1.
Proof.
  constructor.
  - split; [done|by eexists].
  - intros t. simpl. case_decide; congruence.
  - intros p t. rewrite ex_kids. case_decide; [|by intros ?%elem_of_nil]. subst.
    intros [->|[->|?%elem_of_nil]%elem_of_cons]%elem_of_cons; [..|done]; split; try done; by eexists.
  - intros t u. simpl. case_decide; [|done]. intros [= <-]. subst. split; [done|]. by eexists.
  - intros t t' u. simpl. repeat case_decide; congruence.
  - intros t u p. simpl. case_decide; [|done]. intros [= <-]. rewrite ex_kids.
    case_decide; apply (bool_decide_unpack _); by vm_compute.
  - intros p. rewrite ex_kids. case_decide; [nodup|constructor].
  - intros p t ts. simpl. intros Hp Hs.
    repeat (rewrite lookup_insert in Hp; case_decide; [simplify_eq/=; try (split; [done|simpl; lia])|]).
    by rewrite lookup_empty in Hp.
Qed.
Lemma ex_tinit : tinit ex_own 1 ex_graph.
Proof. split; [apply ex_graph_ok|done]. Qed.
Lemma ex_rank_ok p t : ex_own t = Some p → ex_rank t < ex_rank p.
Proof.
  unfold ex_own. case_decide as Ht; [|done]. intros [= <-]. unfold ex_rank at 2. simpl.
  unfold ex_rank. case_decide; [|lia]. subst. exfalso. revert Ht.
  apply (bool_decide_unpack _). by vm_compute.
Qed.

(** ** Mpoller *)

#[export] Instance ex_menv : MEnv := {|
  fresh_poller b := Poller 0 0 0 0 0 0 10 None None (Some 11%positive) (Some 12%positive) [];
  malloc_mpoller := true;
  calloc_nodes := true;
|}.
Definition ex_mpoller : mpoller := MPoller ex_state [] 0 [] 0.
(** An environment in which the second [epoll_create] fails. *)
Definition ex_second : Env := {|
  sys_result c s :=
    match c with
    | CEpollCreate => if decide (calls s = []) then (3, 0)%Z else (-1, ENFILE)%Z
    | CTimerCreate => (4, 0)%Z
    | _ => (0, 0)%Z
    end;
  clock _ := TS 10 0;
  malloc_addr s := Some (ex_addr s);
  stack_addr := ex_addr;
  pipe_fds _ := (8, 9)%Z;
  poller_alloc _ := true;
  sock_error _ := 0%Z;
  event_value _ := 1%Z;
  pipe_data _ := [];
  epoll_events _ := [];
|}.

(** ** I/O service *)

(** A kernel that takes every request and completes the last one first. *)
#[export] Instance ex_kernel : IOKernel := {|
  setup_result _ _ := (0, 77, 0)%Z;
  submit_result _ _ := (1, 0)%Z;
  getevents_result s :=
    match last (inflight (iocalls s)) with
    | Some d => (Some (IOEvent d 512), 0%Z)
    | None => (None, 0%Z)
    end;
|}.
#[export] Instance ex_kernel_laws : KernelLaws ex_kernel.
Proof.
  split; intros s; simpl; destruct (last (inflight (iocalls s))) as [d|] eqn:El; try done.
  - intros e err [= <- <-]. simpl. apply last_Some in El as [l ->]. set_solver.
  - intros e err [= <- _]. done.
  - by apply last_None in El as ->.
Qed.
(** Sessions that read 4096 bytes at 8192. *)
#[export] Instance ex_io_client : IOClient := {|
  prepare l := prep_pread l 5 65536 4096 8192 ;;; ret 0%Z;
  session_handle _ _ _ := ret tt;
  handle_unbound := ret tt;
|}.
#[export] Instance ex_io_laws : IOClientLaws ex_io_client.
Proof. split; intros; simpl; eexists; by repeat split. Qed.
(** A bound service without requests, with two sessions; their buffers hold what
    the memory held. *)
Definition ex_sessions : gmap positive io_session :=
  list_to_map [(31, IOSession (replicate 64 170%Z) 0); (32, IOSession (replicate 64 170%Z) 0)]%positive.
Definition ex_io : iostate :=
  IOState (list_to_map [(30, Cell (Some 30) (Some 30) None 0); (31, Cell None None None 0);
                        (32, Cell None None None 0)]%positive)
    ex_sessions 77 6 1 30 0 [].
(** After one request, and after two. *)
Definition ex_io_one : iostate :=
  match request 31 ex_io with Done (_, s) => s | _ => ex_io end.
Definition ex_io_two : iostate :=
  match request 32 ex_io_one with Done (_, s) => s | _ => ex_io_one end.
