(* ===== verification/Properties.v ===== *)
(** The properties of the development, with a concrete instance of each. *)
From S2P Require Export Examples.

(** ** The red-black tree *)

(** C1: linking a node at an empty place of a red-black tree and fixing the
    colours ([rb_link_node], [rb_insert_color]) gives a red-black tree whose
    sequence of nodes has the new one at that place; nothing else in memory
    changes. *)
Theorem rb_insert_correct h R k y :
  rb_at h R (plug Leaf k) → y ∉ R :: inorder (plug Leaf k) → is_Some (h !! y) →
  ∃ h' t', rb_insert_at (Some y) (cpar k) (hole R k) (Some R) h = Done (tt, h') ∧
    rb_at h' R t' ∧ inorder t' = cl k ++ y :: cr k ∧
    framed (R :: y :: inorder (plug Leaf k)) h h'.
Proof. apply rb_insert_at_ok. Qed.
Lemma rb_insert_correct_witness :
  ∃ h' t', rb_insert_at (Some 22%positive) (Some 20%positive) (Link (Some 20%positive) SLeft)
      (Some 10%positive) ex_mem = Done (tt, h') ∧
    rb_at h' 10 t' ∧ inorder t' = [22; 20]%positive ∧ framed [10; 22; 20]%positive ex_mem h'.
Proof.
  apply (rb_insert_correct ex_mem 10 [FL Black 20 Leaf] 22);
    [apply ex_rb_at|apply (bool_decide_unpack _); by vm_compute|by eexists].
Defined.

(** C2: [rb_erase] of any node of a red-black tree gives a red-black tree of the
    other nodes, in the same order; nothing else in memory changes. *)
Theorem rb_erase_correct h R t xs a ys :
  rb_at h R t → inorder t = xs ++ a :: ys →
  ∃ h' t', rb_erase (Some a) (Some R) h = Done (tt, h') ∧
    rb_at h' R t' ∧ inorder t' = xs ++ ys ∧ framed (R :: inorder t) h h'.
Proof. apply rb_erase_ok. Qed.
Lemma rb_erase_correct_witness :
  ∃ h' t', rb_erase (Some 20%positive) (Some 10%positive) ex_mem = Done (tt, h') ∧
    rb_at h' 10 t' ∧ inorder t' = [] ∧ framed [10; 20]%positive ex_mem h'.
Proof. apply (rb_erase_correct ex_mem 10 ex_tree [] 20 []); [apply ex_rb_at|done]. Defined.

(** C21: the callers' loops over a tree, from [rb_first] by [rb_next] and from
    [rb_last] by [rb_prev], meet every node once, in order and in reverse, and
    leave memory as it is. *)
Theorem rb_walk_correct h R t :
  rb_at h R t →
  (let* p := rb_first (Some R) in walk_next (S (length (inorder t))) p) h =
    Done (inorder t, h) ∧
  (let* p := rb_last (Some R) in walk_prev (S (length (inorder t))) p) h =
    Done (reverse (inorder t), h).
Proof.
  intros H. rewrite (bnd_done _ _ _ _ _ (rb_first_ok _ _ _ H)).
  rewrite (bnd_done _ _ _ _ _ (rb_last_ok _ _ _ H)). split.
  - by apply (walk_next_run h R t _ []); [..|lia].
  - apply (walk_prev_run h R t _ []); [done|by rewrite app_nil_r|lia].
Qed.
Lemma rb_walk_correct_witness :
  (let* p := rb_first (Some 10%positive) in walk_next 2 p) ex_mem = Done ([20%positive], ex_mem) ∧
  (let* p := rb_last (Some 10%positive) in walk_prev 2 p) ex_mem = Done ([20%positive], ex_mem).
Proof. apply (rb_walk_correct ex_mem 10 ex_tree), ex_rb_at. Defined.

(** a red-black tree of [n] nodes is at most [2 log2 (n + 1)] high, so that
    every descent of the poller's timer tree is that short. *)
Theorem rb_height_bound h R t :
  rb_at h R t → height t ≤ 2 * Nat.log2 (S (length (inorder t))).
Proof. intros (_ & _ & _ & H). by apply rb_tree_height. Qed.
Lemma rb_height_bound_witness : height ex_tree ≤ 2 * Nat.log2 2.
Proof. apply (rb_height_bound ex_mem 10), ex_rb_at. Defined.

(** [rb_replace_node] puts the new node in the victim's place. *)
Theorem rb_replace_correct h R t xs a ys y :
  rb_at h R t → inorder t = xs ++ a :: ys → y ∉ R :: inorder t → is_Some (h !! y) →
  ∃ h' t', rb_replace_node (Some a) (Some y) (Some R) h = Done (tt, h') ∧
    rb_at h' R t' ∧ inorder t' = xs ++ y :: ys ∧ framed (R :: y :: inorder t) h h'.
Proof. apply rb_replace_node_ok. Qed.
Lemma rb_replace_correct_witness :
  ∃ h' t', rb_replace_node (Some 20%positive) (Some 22%positive) (Some 10%positive) ex_mem =
      Done (tt, h') ∧
    rb_at h' 10 t' ∧ inorder t' = [22%positive] ∧ framed [10; 22; 20]%positive ex_mem h'.
Proof.
  apply (rb_replace_correct ex_mem 10 ex_tree [] 20 [] 22);
    [apply ex_rb_at|done|apply (bool_decide_unpack _); by vm_compute|by eexists].
Defined.

(** ** The timer tree of a poller *)

(** C7: [__poller_tree_insert] refines insertion into a queue sorted by deadline,
    first come first served: the new node goes behind all whose deadline is not
    later; [tree_first] and [tree_last] stay the ends of the queue. *)
Theorem timer_insert_refines s q y n :
  tq s q → y ∉ timeo_root (po s) :: q → is_Some (mem s !! y) →
  pnodes s !! y = Some n → ts_ok (timeout n) →
  ∃ h, let s' := tree_state s h y (set_in_rbtree true n) (tq_insert s y q) in
    __poller_tree_insert (Some y) s = Done (tt, s') ∧ tq s' (tq_insert s y q) ∧
    framed (timeo_root (po s) :: y :: q) (mem s) h.
Proof. apply tree_insert_ok. Qed.
Lemma timer_insert_refines_witness :
  ∃ h, let s' := tree_state ex_state h 22 (set_in_rbtree true (ex_node 2 false (TS 8 0)))
                   [20; 22]%positive in
    __poller_tree_insert (Some 22%positive) ex_state = Done (tt, s') ∧ tq s' [20; 22]%positive ∧
    framed [10; 22; 20]%positive ex_mem h.
Proof.
  apply (timer_insert_refines ex_state [20%positive] 22 (ex_node 2 false (TS 8 0)));
    [apply ex_tq|apply (bool_decide_unpack _); by vm_compute|by eexists|done
    |apply (bool_decide_unpack _); by vm_compute].
Defined.

(** C20: [__poller_tree_erase] takes the node out of the sorted queue and keeps the
    pointers to its ends. *)
Theorem timer_erase_refines s xs y ys n :
  tq s (xs ++ y :: ys) → pnodes s !! y = Some n →
  ∃ h, let s' := tree_state s h y (set_in_rbtree false n) (xs ++ ys) in
    __poller_tree_erase (Some y) s = Done (tt, s') ∧ tq s' (xs ++ ys) ∧
    framed (timeo_root (po s) :: xs ++ y :: ys) (mem s) h.
Proof. apply tree_erase_ok. Qed.
Lemma timer_erase_refines_witness :
  ∃ h, let s' := tree_state ex_state h 20 (set_in_rbtree false (ex_node 0 true (TS 5 0))) [] in
    __poller_tree_erase (Some 20%positive) ex_state = Done (tt, s') ∧ tq s' [] ∧
    framed [10; 20]%positive ex_mem h.
Proof. apply (timer_erase_refines ex_state [] 20 []); [apply ex_tq|done]. Defined.

(** C39: inserting a node into the timer tree and erasing it again leaves the same
    queue, the same ends, and the same nodes but for [in_rbtree] of that node. *)
Theorem timer_insert_erase_roundtrip s q y n :
  tq s q → y ∉ timeo_root (po s) :: q → is_Some (mem s !! y) →
  pnodes s !! y = Some n → ts_ok (timeout n) →
  ∃ s', (__poller_tree_insert (Some y) ;;; __poller_tree_erase (Some y)) s = Done (tt, s') ∧
    tq s' q ∧ pnodes s' = <[y := set_in_rbtree false n]> (pnodes s) ∧ po s' = po s.
Proof.
  intros Hq Hy Hm Hn Hok. destruct (tree_insert_ok s q y n) as (h & E1 & Hq1 & _); [done..|].
  rewrite (bnd_done _ _ _ _ _ E1). unfold tq_insert in Hq1. set (s1 := tree_state _ _ _ _ _) in *.
  pose proof Hq as (_ & Hf & Hl & _ & Hs).
  destruct (tq_splits s q y Hs) as (xs & ys & -> & Hx & Hys).
  destruct (filter_splits (before s y) xs ys Hx Hys) as [E3 E4]. rewrite E3, E4 in Hq1.
  destruct (tree_erase_ok s1 xs y ys (set_in_rbtree true n)) as (h2 & E2 & Hq2 & _);
    [done|simpl; by rewrite lookup_insert_eq|].
  exists (tree_state s1 h2 y (set_in_rbtree false (set_in_rbtree true n)) (xs ++ ys)).
  split_and!; [done|done|simpl; by rewrite insert_insert_eq|simpl].
  by rewrite <- (set_ends_id (xs ++ ys) (po s)) by done.
Qed.
Lemma timer_insert_erase_roundtrip_witness :
  ∃ s', (__poller_tree_insert (Some 22%positive) ;;; __poller_tree_erase (Some 22%positive))
      ex_state = Done (tt, s') ∧ tq s' [20%positive] ∧
    pnodes s' = <[22%positive := ex_node 2 false (TS 8 0)]> ex_pnodes ∧ po s' = ex_po.
Proof.
  apply (timer_insert_erase_roundtrip ex_state [20%positive] 22 (ex_node 2 false (TS 8 0)));
    [apply ex_tq|apply (bool_decide_unpack _); by vm_compute|by eexists|done
    |apply (bool_decide_unpack _); by vm_compute].
Defined.

(** ** Deadlines and the timerfd *)

(** C23: the deadline [__poller_node_set_timeout] computes is [timeout] milliseconds
    after now, to the nanosecond, and is normalised. *)
Theorem deadline_exact t now :
  ts_ok now → (0 ≤ t < 2 ^ 31)%Z →
  (ns (add_timeout t now) = ns now + t * 1000000)%Z ∧
  (0 ≤ tv_nsec (add_timeout t now) < 1000000000)%Z ∧
  (tv_sec now ≤ tv_sec (add_timeout t now) ≤ tv_sec now + 2 ^ 22)%Z.
Proof. apply add_timeout_ok. Qed.
Lemma deadline_exact_witness :
  (ns (add_timeout 1500 (TS 10 700000000)) = ns (TS 10 700000000) + 1500 * 1000000)%Z ∧
  (0 ≤ tv_nsec (add_timeout 1500 (TS 10 700000000)) < 1000000000)%Z ∧
  (10 ≤ tv_sec (add_timeout 1500 (TS 10 700000000)) ≤ 10 + 2 ^ 22)%Z.
Proof.
  apply (deadline_exact 1500 (TS 10 700000000));
    [apply (bool_decide_unpack _); by vm_compute|lia].
Defined.

(** C24: [__poller_set_timer] arms the timerfd with the earlier of two deadlines, that
    of the first node of [timeo_list] and the earliest of the tree, and disarms it when
    nothing waits. While [timeo_list] is sorted by deadline that is the earliest of all
    that wait; once [__poller_insert_node] has unsorted it, it need not be. *)
Theorem set_timer_earliest `{Env} s L xs q :
  queues s L xs q →
  ∃ t, __poller_set_timer s = Done (tt, arm t s) ∧
    (xs ++ q = [] → t = TS 0 0) ∧
    (xs ++ q ≠ [] → ∃ x n, earliest s (take 1 xs) q x ∧ pnodes s !! x = Some n ∧ t = timeout n ∧
       (by_deadline s xs → earliest s xs q x)).
Proof.
  intros Hq. destruct (set_timer_ok s L xs q Hq) as (t & E & H1 & H2). exists t.
  split_and!; [done|done|]. intros (x & n & Hx & Hn & Ht)%H2. exists x, n.
  eauto using earliest_sorted.
Qed.
Lemma set_timer_earliest_witness :
  ∃ t, __poller_set_timer ex_state = Done (tt, arm t ex_state) ∧
    ([21; 20]%positive = [] → t = TS 0 0) ∧
    ([21; 20]%positive ≠ [] → ∃ x n, earliest ex_state [21%positive] [20%positive] x ∧
       ex_pnodes !! x = Some n ∧ t = timeout n ∧
       (by_deadline ex_state [21%positive] → earliest ex_state [21%positive] [20%positive] x)).
Proof. apply (set_timer_earliest ex_state 11 [21%positive] [20%positive]), ex_queues. Defined.

(** C40: while [timeo_list] is sorted by deadline, a node that expires before its last
    goes into the tree at its place, and the timerfd is set again exactly when it is the earliest of all
    that wait. *)
Theorem insert_node_sorted `{Env} s L x xs q y n :
  ordered s L (x :: xs) q → y ∉ timeo_root (po s) :: L :: (x :: xs) ++ q →
  is_Some (mem s !! y) → pnodes s !! y = Some n → ts_ok (timeout n) →
  before s y (lastof L (x :: xs)) = true →
  ∃ h, let q' := tq_insert s y q in
    let s1 := tree_state s h y (set_in_rbtree true n) q' in
    __poller_insert_node (Some y) s =
      Done (tt, if decide (first_of_all s y (x :: xs) q) then arm (timeout n) s1 else s1) ∧
    ordered s1 L (x :: xs) q' ∧ framed (timeo_root (po s) :: y :: q) (mem s) h.
Proof. apply insert_node_tree. Qed.
Lemma insert_node_sorted_witness :
  ∃ h, let s1 := tree_state ex_state h 22 (set_in_rbtree true (ex_node 2 false (TS 8 0)))
                   [20; 22]%positive in
    __poller_insert_node (Some 22%positive) ex_state = Done (tt, s1) ∧
    ordered s1 11 [21%positive] [20; 22]%positive ∧ framed [10; 22; 20]%positive ex_mem h.
Proof.
  apply (insert_node_sorted ex_state 11 21 [] [20%positive] 22 (ex_node 2 false (TS 8 0)));
    [apply ex_ordered|apply (bool_decide_unpack _); by vm_compute|by eexists|done
    |apply (bool_decide_unpack _); by vm_compute|by vm_compute].
Defined.

(** a node that expires last is chained in front of the last node of
    [timeo_list], which is then out of order: [list_add_tail] is given
    [timeo_list->prev] where it expects the head. *)
Theorem insert_node_out_of_order `{Env} s L xs l q y n :
  ordered s L (xs ++ [l]) q → y ∉ timeo_root (po s) :: L :: (xs ++ [l]) ++ q →
  is_Some (mem s !! y) → pnodes s !! y = Some n → ts_ok (timeout n) →
  before s y l = false →
  ∃ h, __poller_insert_node (Some y) s = Done (tt, set_mem h s) ∧
    flist h L (xs ++ [y; l]).
Proof. apply insert_node_behind. Qed.
(** The same poller with a node that expires after the one on the list. *)
Definition ex_late : pstate :=
  set_pnodes (<[22%positive := ex_node 2 false (TS 40 0)]> ex_pnodes) ex_state.
Lemma insert_node_out_of_order_witness :
  ∃ h, __poller_insert_node (Some 22%positive) ex_late = Done (tt, set_mem h ex_late) ∧
    flist h 11 [22; 21]%positive.
Proof.
  apply (insert_node_out_of_order ex_late 11 [] 21 [20%positive] 22 (ex_node 2 false (TS 40 0)));
    [|apply (bool_decide_unpack _); by vm_compute|by eexists|done
    |apply (bool_decide_unpack _); by vm_compute|by vm_compute].
  constructor; [|split; [nodup|by vm_compute]|repeat constructor].
  constructor; [done|apply ex_queues| |nodup|].
  - split; [exists ex_tree; split; [apply ex_rb_at|done]|].
    split; [done|split; [done|split; [|repeat constructor]]].
    intros x ->%list_elem_of_singleton. exists (ex_node 0 true (TS 5 0)).
    split; [done|apply (bool_decide_unpack _); by vm_compute].
  - intros x ->%list_elem_of_singleton. exists (ex_node 1 false (TS 30 0)).
    split; [done|apply (bool_decide_unpack _); by vm_compute].
Defined.

(** ** Expiry *)


(** when the first node of [timeo_list] has expired the handler is undefined
    behaviour: after [list_add_tail] has moved the node, the loop follows its
    [next] to the local list head and takes that for a node. *)
Theorem timeo_list_expiry_ub `{E : Env} s TL L x xs q T fuel :
  queues s TL (x :: xs) q → timed s T → before s T x = false → slot_ok s x →
  dlist (mem s) L [] → L ∉ TL :: x :: xs → pnodes s !! L = None → 2 ≤ fuel →
  timeo_list_loop fuel (Some x) (Some T) (Some L) s = UB.
Proof. apply timeo_list_loop_expired. Qed.
Lemma timeo_list_expiry_ub_witness :
  timeo_list_loop 2 (Some 21%positive) (Some 21%positive) (Some 12%positive) ex_state = UB.
Proof.
  apply (timeo_list_expiry_ub ex_state 11 12 21 [] [20%positive] 21 2);
    [apply ex_queues|by eapply ex_timed|by vm_compute| | |apply (bool_decide_unpack _); by vm_compute|done|lia].
  - split; [by eexists|]. left. apply (bool_decide_unpack _). by vm_compute.
  - split; [nodup|by vm_compute].
Defined.

(** ** The table, writing, the life of a poller *)

(** C8: in every state reached from a new poller by interface calls and removals
    by the thread, in any order, each slot of the table holds an allocated node of
    that descriptor, not removed, whose [res] is allocated, in no slot and its own. *)
Theorem table_invariant `{E : Env} `{!EnvLaws E} `{Client} max s0 s s' :
  poller_create true max s0 = Done (true, s) → rtc api s s' → table_ok s'.
Proof. intros Hc Hr. eapply api_run_table; [done|]. by eapply create_table_ok. Qed.
Lemma table_invariant_witness :
  ∃ s s', poller_create true 4 ex_state = Done (true, s) ∧
    poller_add (data (ex_node 2 false (TS 0 0))) 5 s = Done (0%Z, s') ∧ table_ok s'.
Proof.
  eexists _, _. split; [by vm_compute|]. split; [by vm_compute|].
  eapply (table_invariant 4 ex_state); [by vm_compute|].
  eapply rtc_once, (ApiAdd (data (ex_node 2 false (TS 0 0))) 5). by vm_compute.
Defined.

(** C19: [__poller_handle_write]'s loop ends, and what it handed to writev and the
    kernel took, followed by what is still pending, is what was pending before:
    no byte is lost, repeated or reordered. It ends when all is sent, the socket
    is full, or writev failed, and [count] is the number of bytes taken. *)
Theorem write_loop_accounts `{E : Env} `{!WritevLaws E} `{Client} x arr s n l pos k :
  pnodes s !! x = Some n → iovs s !! arr = Some l → lens_ok l →
  iovcnt (data n) = Z.of_nat k → pos + k ≤ length l →
  (Z.of_nat (length (pending l pos k)) < 2 ^ 63)%Z →
  ∃ rt pos' k' l' e cs out,
    let s' := wr_state (set_errno e s) x n k' arr l' in
    let s' := PState (mem s') (pnodes s') (iovs s') (po s') (errno s') (cs ++ calls s) in
    write_loop (S (length (pending l pos k) + k)) (Some x) arr pos 0 s =
      Done ((rt, pos', Z.of_nat (length out)), s') ∧
    sent (cs ++ calls s) = sent (calls s) ++ out ∧
    pending l pos k = out ++ pending l' pos' k' ∧ pos' + k' = pos + k ∧
    write_end s' rt k'.
Proof.
  intros Hn Hl Hok Hc Hp Hb.
  destruct (write_loop_run x arr (S (length (pending l pos k) + k)) s n l pos k 0)
    as (rt & pos' & k' & l' & count & e & cs & out & H1 & H2 & H3 & H4 & H5 & _ & _ & H8);
    [done..|lia|lia|].
  exists rt, pos', k', l', e, cs, out. rewrite Z.add_0_l in H4. by subst count.
Qed.
(** Two buffers of three bytes and one, to be sent by node 22. *)
Definition ex_writing : pstate :=
  set_iovs {[40%positive := [Iov 100 3; Iov 200 1]]}
    (set_pnodes {[22%positive := PNode 0 0 (PData PD_OP_WRITE 2 2 None None (UIov 40 0))
                                  false false 0 (TS 0 0) None]} ex_state).
Lemma write_loop_accounts_witness :
  ∃ rt pos' k' l' e cs out,
    let s' := wr_state (set_errno e ex_writing) 22
                (PNode 0 0 (PData PD_OP_WRITE 2 2 None None (UIov 40 0)) false false 0 (TS 0 0) None)
                k' 40 l' in
    let s' := PState (mem s') (pnodes s') (iovs s') (po s') (errno s') (cs ++ []) in
    write_loop 7 (Some 22%positive) 40 0 0 ex_writing = Done ((rt, pos', Z.of_nat (length out)), s') ∧
    sent (cs ++ []) = [] ++ out ∧
    [100; 101; 102; 200]%Z = out ++ pending l' pos' k' ∧ pos' + k' = 2 ∧ write_end s' rt k'.
Proof.
  apply (write_loop_accounts 22 40 ex_writing
    (PNode 0 0 (PData PD_OP_WRITE 2 2 None None (UIov 40 0)) false false 0 (TS 0 0) None)
    [Iov 100 3; Iov 200 1] 0 2); [done..| |done|simpl; lia|simpl; lia].
  repeat constructor; simpl; lia.
Defined.

(** an operation of the interface rejects a descriptor exactly when it is
    outside the table, with EBADF for a negative one and EMFILE for one too big;
    the comparison as [size_t] is the comparison as integers. *)
Theorem descriptor_check f s :
  (0 ≤ max_open_files (po s) < 2 ^ 31)%Z → (- 2 ^ 31 ≤ f < 2 ^ 31)%Z →
  fd_out f s =
    if decide (0 ≤ f < max_open_files (po s))%Z then Done (false, s)
    else Done (true, set_errno (if decide (f < 0)%Z then EBADF else EMFILE) s).
Proof. apply fd_out_ok. Qed.
Lemma descriptor_check_witness :
  fd_out (-1) ex_state = Done (true, set_errno EBADF ex_state).
Proof. apply (descriptor_check (-1) ex_state); simpl; lia. Defined.

(** [__poller_create] writes through [timeo_list], which is whatever the
    memory held: when that is no object, creating a poller is undefined behaviour. *)
Theorem create_uninitialised_list_ub `{E : Env} max s s1 s2 e t root :
  poller_alloc s = true → __poller_create_pfd s = Done (e, s1) → (0 ≤ e)%Z →
  __poller_create_timer (set_po (set_pfd e (po s1)) s1) = Done (t, s2) → (0 ≤ t)%Z →
  mem s2 !! timeo_root (po s2) = Some root →
  (∀ l, timeo_list (po s2) = Some l → l ≠ timeo_root (po s2) ∧ mem s2 !! l = None) →
  poller_create true max s = UB.
Proof. apply create_list_ub. Qed.
(** Fresh memory whose [timeo_list] happens to be zero. *)
Definition ex_fresh : pstate :=
  PState {[10%positive := Cell None None None 0]} ∅ ∅
    (Poller 0 0 0 0 0 0 10 None None None None []) 0 [].
Lemma create_uninitialised_list_ub_witness : poller_create true 4 ex_fresh = UB.
Proof.
  eapply (create_uninitialised_list_ub 4 ex_fresh);
    [done|by vm_compute|lia|by vm_compute|lia|by vm_compute|done].
Defined.

(** [poller_stop] takes the head of [no_timeo_list] for a node, since
    [list_add_list] links only the other list's head: stopping a poller without
    nodes in its tree is undefined behaviour. *)
Theorem stop_takes_head_for_node `{E : Env} `{!EnvLaws E} s TL xs NTL ys :
  queues s TL xs [] → dlist (mem s) TL xs → dlist (mem s) NTL ys → no_timeo_list (po s) = Some NTL →
  pnodes s !! NTL = None → TL ≠ NTL → NTL ∉ xs → TL ∉ ys → timeo_root (po s) ∉ NTL :: ys →
  (∀ s', pipe_data s' = []) →
  poller_stop s = UB.
Proof. apply stop_ub. Qed.
(** A poller on which nothing waits. *)
Definition ex_idle : pstate :=
  PState (list_to_map [(10, Cell None None None 0); (11, Cell (Some 11) (Some 11) None 0);
            (12, Cell (Some 12) (Some 12) None 0)]%positive) ∅ ∅
    (Poller 4 3 4 5 6 0 10 None None (Some 11%positive) (Some 12%positive)
       (replicate 4 None)) 0 [].
Lemma ex_idle_queues : queues ex_idle 11 [] [].
Proof.
  constructor; [done| | |nodup|set_solver].
  - split; [nodup|by vm_compute].
  - split; [exists Leaf; split; [|done]|].
    + split; [done|]. split; [by eexists|]. split; [nodup|]. split; [done|by exists 0].
    + split; [done|split; [done|split; [set_solver|constructor]]].
Qed.
Lemma stop_takes_head_for_node_witness : poller_stop ex_idle = UB.
Proof.
  apply (stop_takes_head_for_node ex_idle 11 [] 12 []);
    [apply ex_idle_queues|split; [nodup|by vm_compute]|split; [nodup|by vm_compute]|done|done|done|set_solver|set_solver| |done].
  apply (bool_decide_unpack _). by vm_compute.
Defined.

(** [__poller_remove_node] reads [removed] before it takes the mutex: when
    [poller_del] runs in between, the node is taken out twice, which here unlinks
    a node that is on no list through its stale words. *)
Theorem remove_node_race :
  (let* rm := node_get removed (Some 20%positive) in
   poller_del 0 ;;;
   remove_locked rm (Some 20%positive)) ex_state = UB ∧
  (∃ s', (poller_del 0 ;;; __poller_remove_node (Some 20%positive)) ex_state = Done (true, s')).
Proof. split; [by vm_compute|eexists; by vm_compute]. Qed.

(** ** The lists *)

(** [list_delete] takes a node out of a well-formed list and writes no other
    object. *)
Theorem list_delete_correct h head xs x ys :
  dlist h head (xs ++ x :: ys) →
  ∃ h', Dlist.list_delete (Some x) h = Done (tt, h') ∧ dlist h' head (xs ++ ys) ∧
        (∀ l, l ∉ head :: xs ++ ys → h' !! l = h !! l).
Proof. apply list_delete_dlist. Qed.
Lemma list_delete_correct_witness :
  ∃ h', Dlist.list_delete (Some 21%positive) ex_mem = Done (tt, h') ∧ dlist h' 11 [] ∧
        (∀ l, l ∉ [11%positive] → h' !! l = ex_mem !! l).
Proof.
  apply (list_delete_correct ex_mem 11 [] 21 []). split; [nodup|by vm_compute].
Defined.

(** entries added one after another with [list_add_tail] to a list that is not
    empty all take the same place: only the last of them stays on the list. *)
Theorem list_add_tail_loses h head xs ys es (e : loc) :
  xs ≠ [] → NoDup (head :: xs ++ es ++ [e]) →
  fseg h head (xs ++ ys) head → prv h head = Some (Some (lastof head xs)) →
  Forall (λ l, is_Some (h !! l)) (es ++ [e]) →
  ∃ h', list_add_tails (Some head) (es ++ [e]) h = Done (tt, h') ∧
        fseg h' head (xs ++ [e]) head ∧ prv h' head = Some (Some (lastof head xs)).
Proof. apply list_add_tails_stale. Qed.
Lemma list_add_tail_loses_witness :
  ∃ h', list_add_tails (Some 11%positive) [20; 22]%positive ex_mem = Done (tt, h') ∧
        fseg h' 11 [21; 22]%positive 11 ∧ prv h' 11 = Some (Some 21%positive).
Proof.
  apply (list_add_tail_loses ex_mem 11 [21%positive] [] [20%positive] 22);
    [done|nodup|by vm_compute|by vm_compute|].
  repeat constructor; by eexists.
Defined.
