(* ===== verification/KernelProperties.v ===== *)
(** The properties of the components above the poller, with a concrete instance of
    each. *)
From S2P Require Export KernelExamples.

(** ** The message queue *)

(** C18: the queue refines a first-in first-out sequence: [msg_queue_put] adds at
    its end, or waits when the list to put to is full; [msgqueue_get] takes the
    first, returns NULL when there is none and the queue does not block, and waits
    when it does. The two lists and the swap are not visible. *)
Theorem queue_refines_fifo me s ls :
  holding s ls →
  (∀ msg, puttable s ls (msg + linkoff (mq s)) →
     if put_full (mq s) then msg_queue_put me msg s = Blocked
     else ∃ s', msg_queue_put me msg s = Done (tt, s') ∧
       holding s' (ls ++ [(msg + linkoff (mq s))%Z])) ∧
  (if decide (ls = [] ∧ nonblock (mq s) = 0%Z) then msgqueue_get me s = Blocked
   else ∃ s', msgqueue_get me s = Done (got (linkoff (mq s)) ls, s') ∧ holding s' (tail ls)).
Proof.
  intros Hh. split; [intros msg; by apply put_run|]. destruct (decide _) as [[-> Hb]|Hn].
  - by apply get_empty_blocks.
  - apply get_holding; [done|]. intros E1 E2. by apply Hn.
Qed.
Lemma queue_refines_fifo_witness :
  (∃ s', msg_queue_put 1 3000 ex_queue = Done (tt, s') ∧ holding s' [2000; 2008; 3000]%Z) ∧
  ∃ s', msgqueue_get 1 ex_queue = Done (2000%Z, s') ∧ holding s' [2008%Z].
Proof.
  split.
  - apply (proj1 (queue_refines_fifo 1 ex_queue [2000; 2008]%Z ex_queue_holding) 3000%Z).
    split; [apply (bool_decide_unpack _); by vm_compute|].
    split; [unfold addr_ok; simpl; lia|by eexists].
  - apply (proj2 (queue_refines_fifo 1 ex_queue [2000; 2008]%Z ex_queue_holding)).
Defined.



(** C26: as long as the queue blocks and no [msgqueue_put_head] has completed, no
    interleaving puts more than [maxlen] messages on the list to put to.
    ([msgqueue_put_head] waits when the queue is full in the other mode, so it does
    exceed [maxlen] in this one.) *)
Theorem queue_capacity q max off c0 c :
  qinit q max off c0 → (0 ≤ max)%Z → rtc qcore c0 c →
  Forall (λ o, is_head o = false) (history c) → (msg_cnt (mq (qs c)) ≤ max)%Z.
Proof. apply interleaving_bound. Qed.
Lemma queue_capacity_witness : (msg_cnt (mq (qs ex_put)) ≤ 4)%Z.
Proof.
  apply (queue_capacity 1000 4 0 ex_qsys ex_put ex_qinit);
    [lia|apply ex_put_reach|repeat constructor].
Defined.

(** [msgqueue_put_head] takes a successful [try_lock] for a failed one: with
    messages on the list to get from it locks a mutex it holds, or unlocks one it
    does not. *)
Theorem put_head_mutex_ub me fuel s g gs ps msg :
  mq_rep s (g :: gs) ps → put_mutex s = None →
  (msg + linkoff (mq s) ∉ get_head (mq s) :: put_head (mq s) :: (g :: gs) ++ ps)%Z →
  msgqueue_put_head me (S (S fuel)) msg s = UB.
Proof. apply put_head_ub. Qed.
Lemma put_head_mutex_ub_witness : msgqueue_put_head 1 2 3000 ex_queue = UB.
Proof.
  apply (put_head_mutex_ub 1 0 ex_queue 2000 [] [2008%Z] 3000 ex_queue_rep);
    [done|apply (bool_decide_unpack _); by vm_compute].
Defined.

(** ** The thread pool *)

(** [thrdpool_create] counts its [n] threads before it has created one, so it
    creates none; its queue has capacity 0, so [thrdpool_schedule] waits for ever
    once it has memory for the task, and so does [thrdpool_destroy], for threads
    that do not exist. *)
Theorem pool_without_threads `{E : ThreadEnv} `{!ThreadLaws E} `{TaskClient} me n size s q :
  malloc_pool s = true → malloc_queue (set_pool (Some (TPool 0 0 0 false)) s) = Some q →
  (∀ s, pthread_result PAttrInit s = 0%Z) →
  get_mutex (queue s) = None → put_mutex (queue s) = None → (0 < n)%Z →
  ∃ s', thrdpool_create me n size s = Done (true, s') ∧
    pool s' = Some (TPool n size 0 false) ∧
    pcalls s' = PAttrDestroy :: stack_calls size ++ PAttrInit :: pcalls s ∧
    (∀ t, thrdpool_schedule me t s' =
       match malloc_entry s' with Some _ => Blocked | None => Done ((-1)%Z, s') end) ∧
    (ThrdPool.parent s me = false → ∀ pending, thrdpool_destroy me pending s' = Blocked).
Proof.
  intros Hm Hq Hi Hg Hp Hn.
  destruct (ThrdPoolSpec.pool_create_run me n size s q Hm Hq Hi Hg Hp)
    as (s' & E1 & Epool & Epar & _ & Ec & Hrep & Hg' & Hp' & Emq).
  exists s'. split_and!; [done..| |].
  - intros t. apply schedule_blocks; [done|done|by rewrite Emq..].
  - intros Hpar pending. eapply destroy_blocks; [done|done|by rewrite Epar|done].
Qed.
Lemma pool_without_threads_witness :
  ∃ s', thrdpool_create 1 4 0 ex_no_pool = Done (true, s') ∧
    pool s' = Some (TPool 4 0 0 false) ∧ pcalls s' = [PAttrDestroy; PAttrInit] ∧
    (∀ t, thrdpool_schedule 1 t s' =
       match malloc_entry s' with Some _ => Blocked | None => Done ((-1)%Z, s') end) ∧
    (false = false → ∀ pending, thrdpool_destroy 1 pending s' = Blocked).
Proof. apply (pool_without_threads 1 4 0 ex_no_pool 1000); done || lia. Defined.

(** C27: when the pool's counter [nthreads] counts no thread but a caller that is one of
    the pool's, [thrdpool_destroy] returns: it joins the
    thread that left last, hands the tasks left to [pending] in order without the
    exit tasks, frees every entry of the queue and nothing else, and frees the
    pool unless a thread of the pool destroys it. (The counter, not the threads: a pool
    that [thrdpool_create] made with [n > 0] counts [n] that do not exist, and there it
    waits for ever.) *)
Theorem pool_destroy_drains `{E : ThreadEnv} `{!ThreadLaws E} `{TaskClient} me pending s p gs ps ts :
  pool s = Some p → nthreads p = (if ThrdPool.parent s me then 1 else 0)%Z →
  mq_rep (queue s) gs ps → put_mutex (queue s) = None → get_mutex (queue s) = None →
  linkoff (mq (queue s)) = 0%Z →
  Forall2 (λ l t, entries s !! l = Some t) (gs ++ ps) ts →
  ∃ s', thrdpool_destroy me pending s = Done (tt, s') ∧
    pcalls s' = pendings pending ts
      ((if (tid p =? 0)%Z then [] else [PJoin (tid p)]) ++
       (if ThrdPool.parent s me then [PDetach (Z.of_nat me)] else []) ++ pcalls s) ∧
    (ThrdPool.parent s me = false → pool s' = None) ∧
    (∀ l, entries s' !! l = if decide (l ∈ gs ++ ps) then None else entries s !! l).
Proof. apply destroy_run. Qed.
Lemma pool_destroy_drains_witness :
  ∃ s', thrdpool_destroy 1 true ex_left = Done (tt, s') ∧ pcalls s' = [PPending (Task 5 0)] ∧
    (false = false → pool s' = None) ∧
    (∀ l, entries s' !! l = if decide (l ∈ [2000; 2008]%Z) then None else entries ex_left !! l).
Proof.
  apply (pool_destroy_drains 1 true ex_left (TPool 0 0 0 false) [2000%Z] [2008%Z]
           [Task 5 0; Task EXIT_ROUTINE 0]);
    [done|done|apply ex_queue_rep|done|done|done|by repeat constructor].
Defined.

(** C14: threads join a pool of [thrdpool_create], leave it, and one of them, or one
    from outside, terminates it, in any interleaving. When [__thrdpool_terminate] has
    returned, every thread of the pool but its caller is gone and was joined exactly
    once, and nothing else was joined: not a caller that is a thread of the pool, which
    is detached. And the pool was made with [n = 0]: the call never returns on one that
    counts [n > 0] threads [thrdpool_create] did not create. *)
Theorem pool_terminate_joins `{E : ThreadEnv} n c0 c d :
  pinit n c0 → rtc pstep c0 c → term c = Returned d →
  n = 0%Z ∧ (∀ w st, workers c !! w = Some st → st = Gone) ∧ NoDup (joined c) ∧
  (∀ t, t ∈ joined c ↔ ∃ w, t = Z.of_nat w ∧ is_Some (workers c !! w)) ∧
  (∀ w, d = Some w → workers c !! w = None).
Proof.
  intros Hi Hr Ht. destruct (terminate_joins n c0 c d Hi Hr Ht) as (H1 & H2 & H3 & H4 & H5).
  split_and!; [done..|]. intros w ->. apply H5. by rewrite Ht.
Qed.
(** Thread 7 leaves; thread 8 terminates the pool. *)
Lemma pool_terminate_joins_witness :
  0%Z = 0%Z ∧ (∀ w st, workers ex_returned !! w = Some st → st = Gone) ∧ NoDup [7%Z] ∧
  (∀ t, t ∈ [7%Z] ↔ ∃ w, t = Z.of_nat w ∧ is_Some (workers ex_returned !! w)) ∧
  (∀ w, Some 8 = Some w → workers ex_returned !! w = None).
Proof. by apply (pool_terminate_joins 0 ex_psys ex_returned (Some 8) ex_pinit ex_return_reach). Defined.

(** C28: while [__thrdpool_terminate] waits, the threads can take steps after which it
    returns exactly when the pool was made with no threads: from any state of a run,
    whatever has happened, for a pool of [thrdpool_create 0]; and never for one made
    with [n > 0], which counts [n] threads that do not exist. *)
Theorem pool_terminate_progress `{E : ThreadEnv} n c0 c d :
  pinit n c0 → rtc pstep c0 c → term c = Waiting d →
  (∃ c', rtc pstep c c' ∧ term c' = Returned d) ↔ n = 0%Z.
Proof. apply terminate_progress. Qed.
Lemma pool_terminate_progress_witness :
  (∃ c', rtc pstep ex_waiting c' ∧ term c' = Returned (Some 8)) ↔ 0%Z = 0%Z.
Proof. by apply (pool_terminate_progress 0 ex_psys ex_waiting (Some 8) ex_pinit ex_wait_reach). Defined.

(** ** Tasks *)

(** C11: in every order in which the work of leaves completes, a task is dispatched
    at most once and done at most once, only after it was dispatched, and when a
    parallel task is done every task of each of its branches is. *)
Theorem tasks_parallel_done `{Tasks} own root s0 s1 s :
  tinit own root s0 → dispatch (Some root) s0 = Done (tt, s1) → rtc tstep s1 s →
  NoDup (dispatched (events s)) ∧ NoDup (finished (events s)) ∧
  (∀ t, t ∈ finished (events s) → t ∈ dispatched (events s)) ∧
  (∀ p t, p ∈ finished (events s) → branch (store s) p t → t ∈ finished (events s)).
Proof.
  intros Hi E Hr. pose proof (dispatch_reaches _ _ _ _ _ Hi E Hr) as Hq.
  split_and!; intros *; [by eapply si_dispatched|by eapply si_finished|by eapply si_sub|by eapply si_done].
Qed.
Lemma tasks_parallel_done_witness :
  NoDup [3; 2; 1]%positive ∧ NoDup ([] : list positive) ∧
  (∀ t, t ∈ ([] : list positive) → t ∈ [3; 2; 1]%positive) ∧
  (∀ p t, p ∈ ([] : list positive) → branch (store ex_running) p t → t ∈ ([] : list positive)).
Proof.
  apply (tasks_parallel_done ex_own 1 ex_graph ex_running ex_running ex_tinit); [by vm_compute|done].
Defined.

(** C29: [dispatch] of a graph returns, and the [subtask_done] of every leaf that
    runs returns, in every order: the recursion between [dispatch] and
    [subtask_done] ends. *)
Theorem tasks_terminate `{Tasks} own root s0 :
  tinit own root s0 →
  ∃ s1, dispatch (Some root) s0 = Done (tt, s1) ∧
    ∀ s l t, rtc tstep s1 s → active s l → store s !! l = Some t → subtasks t = None →
      ∃ s', subtask_done (Some l) s = Done (tt, s').
Proof.
  intros Hi. destruct (dispatch_root own root s0 Hi) as (s1 & E & _). exists s1. split; [done|].
  intros s l t Hr Ha Hl Hleaf.
  destruct (complete_leaf own root s l t) as (s' & E' & _); [by eapply dispatch_reaches|done..|].
  by exists s'.
Qed.
Lemma tasks_terminate_witness :
  ∃ s1, dispatch (Some 1%positive) ex_graph = Done (tt, s1) ∧
    ∀ s l t, rtc tstep s1 s → active s l → store s !! l = Some t → subtasks t = None →
      ∃ s', subtask_done (Some l) s = Done (tt, s').
Proof. apply (tasks_terminate ex_own 1 ex_graph ex_tinit). Defined.

(** C30: nothing is left over: from every state a run has reached, the leaves that
    run can complete one by one until no task runs, and then the root is done. *)
Theorem tasks_complete `{Tasks} own root (rank : loc → nat) s0 s1 s :
  tinit own root s0 → (∀ p t, own t = Some p → rank t < rank p) →
  dispatch (Some root) s0 = Done (tt, s1) → rtc tstep s1 s →
  ∃ s', rtc tstep s s' ∧ (∀ x, ¬ active s' x) ∧ root ∈ finished (events s').
Proof.
  intros Hi Hrank E Hr. pose proof (dispatch_reaches _ _ _ _ _ Hi E Hr) as Hq.
  pose proof (dispatch_reaches _ _ _ _ _ Hi E (rtc_refl _ _)) as Hq1.
  destruct (drain own root rank s Hq Hrank) as (s' & Hr' & Hq' & _ & Hnone).
  exists s'. split_and!; [done|done|].
  destruct (decide (root ∈ finished (events s'))) as [|Hf]; [done|]. exfalso.
  apply (Hnone root). split; [|done].
  eapply (dispatched_mono own root s1); [done|by etrans|]. by eapply dispatch_root_seen.
Qed.
Lemma tasks_complete_witness :
  ∃ s', rtc tstep ex_running s' ∧ (∀ x, ¬ active s' x) ∧ 1%positive ∈ finished (events s').
Proof.
  apply (tasks_complete ex_own 1 ex_rank ex_graph ex_running ex_running ex_tinit ex_rank_ok);
    [by vm_compute|done].
Defined.

(** ** The mpoller *)

(** in every state reached from [mpoller_create] by calls of the interface and removals
    by the threads, in any order, each slot of the pollers' table holds an allocated node
    of that descriptor, not removed, with its own [res], whichever poller it was added
    through. (That the pollers have one table is how the model writes [nodes_buf].) *)
Theorem mpoller_one_table `{E : Env} `{!EnvLaws E} `{Client} `{MEnv} max n s0 s1 s :
  mpoller_create max n s0 = Done (true, s1) → rtc mapi s1 s →
  ∀ p, p ∈ pollers s → max_open_files p = max ∧ table_ok (view p s).
Proof.
  intros Hc Hr p Hp. assert (shared_ok max s) as [H1 H2]; [|by split; [apply H1|apply H2]].
  apply create_shared in Hc. clear Hp p. induction Hr; eauto using mapi_shared.
Qed.
Lemma mpoller_one_table_witness :
  ∃ s1, mpoller_create 4 2 ex_mpoller = Done (true, s1) ∧
    ∀ p, p ∈ pollers s1 → max_open_files p = 4%Z ∧ table_ok (view p s1).
Proof.
  eexists. split; [by vm_compute|].
  eapply (mpoller_one_table 4 2 ex_mpoller); [by vm_compute|done].
Defined.

(** C31: with at most [2^31 - 1] threads every descriptor has its poller: in every
    reached state add, del, mod and set_timeout of [f] run on poller
    [(unsigned)f % nthreads], which exists, whatever the descriptor (a negative one
    too), and that poller answers for the descriptor. *)
Theorem mpoller_routes `{E : Env} `{!EnvLaws E} `{Client} `{MEnv} max n s0 s1 s f d t :
  mpoller_create max n s0 = Done (true, s1) → (0 < thread_count n < 2 ^ 31)%Z → rtc mapi s1 s →
  fd d = f →
  let i := (u32 f mod thread_count n)%Z in
  (∃ p, pollers s !! Z.to_nat i = Some p) ∧
  mpoller_add d t s = on_poller i (poller_add d t) s ∧
  mpoller_del f s = on_poller i (poller_del f) s ∧
  mpoller_mod d t s = on_poller i (poller_mod d t) s ∧
  mpoller_set_timeout f t s = on_poller i (poller_set_timeout f t) s.
Proof.
  intros Hc Hb Hr Hf i. assert (sized (thread_count n) s) as Hs.
  { apply create_made in Hc as (H1 & H2 & _). assert (sized (thread_count n) s1) as Hs by done.
    clear -Hr Hs. induction Hr; eauto using mapi_sized. }
  destruct (mindex_run (thread_count n) f s Hs Hb) as [Hi Hp]. split; [done|].
  unfold mpoller_add, mpoller_del, mpoller_mod, mpoller_set_timeout. rewrite Hf.
  by rewrite !(bnd_done _ _ _ _ _ Hi).
Qed.
Lemma mpoller_routes_witness :
  ∃ s1, mpoller_create 4 2 ex_mpoller = Done (true, s1) ∧
    mpoller_del (-1) s1 = on_poller 1 (poller_del (-1)) s1.
Proof.
  eexists. split; [by vm_compute|].
  eapply (mpoller_routes 4 2 ex_mpoller _ _ (-1)%Z (PData 0 0 (-1) None None (UPtr None)) 0);
    [by vm_compute|by vm_compute|done|done].
Defined.

(** C32: descriptors are not leaked: a creation that fails, with any number of
    pollers already made, has closed each descriptor as often as it opened it; and
    a creation that succeeds, followed by [mpoller_destroy], too. *)
Theorem mpoller_closes_descriptors `{E : Env} `{MEnv} max n s r s' :
  mpoller_create max n s = Done (r, s') →
  if r then ∀ u s2, mpoller_destroy s' = Done (u, s2) →
    ∀ f, balance f (calls (base s2)) = balance f (calls (base s))
  else ∀ f, balance f (calls (base s')) = balance f (calls (base s)).
Proof.
  intros Hc. destruct r; [|by eapply create_fail_balance].
  apply create_made in Hc as (H1 & H2 & _ & _ & Hb). intros u s2 Hd f.
  rewrite (destroy_balance s' u s2 ltac:(by rewrite H1, H2) Hd f), Hb. lia.
Qed.
Lemma mpoller_closes_descriptors_witness :
  ∃ s', @mpoller_create ex_second ex_menv 4 2 ex_mpoller = Done (false, s') ∧
    length (calls (base s')) = 6 ∧ ∀ f, balance f (calls (base s')) = 0%Z.
Proof.
  eexists. split; [by vm_compute|]. split; [done|].
  apply (@mpoller_closes_descriptors ex_second ex_menv 4 2 ex_mpoller false). by vm_compute.
Defined.

(** [nthreads] is a [size_t] stored in an [unsigned int]: a count that is a
    multiple of [2^32] makes an mpoller without pollers, and every operation on a
    descriptor then divides by 0. *)
Theorem mpoller_count_truncated `{E : Env} `{Client} `{MEnv} max n s :
  malloc_mpoller = true → calloc_nodes = true → n ≠ 0%Z → u32 n = 0%Z →
  ∃ s', mpoller_create max n s = Done (true, s') ∧ pollers s' = [] ∧
    (∀ d t, mpoller_add d t s' = UB) ∧ ∀ f, mpoller_del f s' = UB.
Proof.
  intros Hm Hc Hn Hz. rewrite (create_zero max n s) by done. eexists. split; [done|].
  split; [done|]. split; intros; apply bnd_ub; by apply mindex_zero.
Qed.
Lemma mpoller_count_truncated_witness :
  ∃ s', mpoller_create 4 (2 ^ 32) ex_mpoller = Done (true, s') ∧ pollers s' = [] ∧
    (∀ d t, mpoller_add d t s' = UB) ∧ ∀ f, mpoller_del f s' = UB.
Proof. apply (mpoller_count_truncated 4 (2 ^ 32) ex_mpoller); done. Defined.

(** ** Asynchronous I/O *)

(** C15: what the kernel reads from the 64 bytes of a session's buffer is what the
    session prepared, for each of the six [prep_] functions, with the session as
    [data] and the service's eventfd to signal. A request the kernel takes is put on
    the list behind the session the head's [prev] names, the last of [xs], as long as
    that one is on the list: any sessions [ys] behind it drop off, since
    [list_add_tail] does not look at them. On an empty list it is the only one. *)
Theorem io_request_roundtrip `{K : IOKernel} `{C : IOClient} o l x s p r e xs ys :
  sessions s !! l = Some x → length (iocb_buf x) = sizeof_iocb →
  (0 ≤ event_fd s < 2 ^ 31)%Z → op_ok o → (Z.pos l < 2 ^ 64)%Z →
  prepare l s = (prep o l ;;; ret p) s → (0 ≤ p)%Z →
  let b := submitted o l (event_fd s) in let head := m_session_list s in
  submit_result b (with_buf l b x s) = (r, e) → (0 < r)%Z →
  fseg (iolinks s) head (xs ++ ys) head → prv (iolinks s) head = Some (Some (lastof head xs)) →
  (xs = [] → ys = []) → NoDup (head :: xs ++ [l]) → is_Some (iolinks s !! l) →
  ∃ s', request l s = Done (0%Z, s') ∧ iocalls s' = ISubmit b r :: iocalls s ∧
    read_iocb b = wanted o (Z.pos l) 1 (event_fd s) ∧
    flist (iolinks s') (m_session_list s') (xs ++ [l]) ∧
    (xs = [] → dlist (iolinks s') (m_session_list s') [l]).
Proof.
  intros Hx Hb He Ho Hl Hp Hp0 b head Hr Hpos Hf Hprev Hys Hnd Ha.
  rewrite (bnd_done _ _ _ _ _ (prep_run o l s x Hx Hb)) in Hp.
  destruct (list_add_tail_into _ _ _ _ _ Hf Hprev Hys Hnd Ha) as (h & Eh & Hf' & Hd').
  eexists. split; [by eapply (request_accepted l x)|].
  split_and!; [done|by eapply submitted_read|done|done].
Qed.
(** A second session requests while the first is in flight. *)
Lemma io_request_roundtrip_witness :
  ∃ s', request 32 ex_io_one = Done (0%Z, s') ∧
    iocalls s' = ISubmit (submitted (Pread 5 65536 4096 8192) 32 6) 1 :: iocalls ex_io_one ∧
    read_iocb (submitted (Pread 5 65536 4096 8192) 32 6) =
      Iocb 32 IO_CMD_PREAD 5 65536 4096 8192 1 6 ∧
    flist (iolinks s') (m_session_list s') [31; 32]%positive ∧
    ([31%positive] = [] → dlist (iolinks s') (m_session_list s') [32%positive]).
Proof.
  apply (io_request_roundtrip (Pread 5 65536 4096 8192) 32 (IOSession (replicate 64 170%Z) 0)
           ex_io_one 0 1 0 [31%positive] []);
    try done; try (by vm_compute); nodup.
Defined.

(** C38: a request that fails leaves the list alone and the negated errno in
    [res]: ENOENT when the service is not bound, what [prepare] left when it fails,
    what the kernel left when it refuses. *)
Theorem io_request_errors `{K : IOKernel} `{C : IOClient} l x s :
  sessions s !! l = Some x →
  ((event_fd s < 0)%Z → ∃ s', request l s = Done ((-1)%Z, s') ∧ iolinks s' = iolinks s ∧
     iocalls s' = iocalls s ∧ sres <$> sessions s' !! l = Some (- ENOENT)%Z) ∧
  (∀ p s1, (0 ≤ event_fd s)%Z → prepare l s = Done (p, s1) → (p < 0)%Z →
     is_Some (sessions s1 !! l) →
     ∃ s', request l s = Done ((-1)%Z, s') ∧ iolinks s' = iolinks s1 ∧ iocalls s' = iocalls s1 ∧
       sres <$> sessions s' !! l = Some (- ioerrno s1)%Z) ∧
  (∀ o p r e, length (iocb_buf x) = sizeof_iocb → (0 ≤ event_fd s < 2 ^ 31)%Z → op_ok o →
     prepare l s = (prep o l ;;; ret p) s → (0 ≤ p)%Z →
     let b := submitted o l (event_fd s) in
     submit_result b (with_buf l b x s) = (r, e) → (r ≤ 0)%Z →
     ∃ s', request l s = Done ((-1)%Z, s') ∧ iolinks s' = iolinks s ∧
       sres <$> sessions s' !! l = Some (- e)%Z).
Proof.
  intros Hx. split_and!.
  - intros He. rewrite (request_closed l x s Hx He). eexists. split; [done|].
    split_and!; [done|done|]. simpl. by rewrite lookup_insert_eq.
  - intros p s1 He Hp Hneg [x1 Hx1]. rewrite (request_unprepared l s p s1 x1) by done.
    eexists. split; [done|]. split_and!; [done|done|]. simpl. by rewrite lookup_insert_eq.
  - intros o p r e Hb He Ho Hp Hp0 b Hr Hneg.
    rewrite (bnd_done _ _ _ _ _ (prep_run o l s x Hx Hb)) in Hp.
    edestruct (request_refused l x s) as (s' & E & E1 & _ & E2); [done..|]. by exists s'.
Qed.
Lemma io_request_errors_witness :
  ∃ s', request 31 (set_event_fd (-1) ex_io) = Done ((-1)%Z, s') ∧ iolinks s' = iolinks ex_io ∧
    iocalls s' = [] ∧ sres <$> sessions s' !! 31%positive = Some (-2)%Z.
Proof.
  apply (io_request_errors 31 (IOSession (replicate 64 170%Z) 0) (set_event_fd (-1) ex_io));
    [done|simpl; lia].
Defined.

(** C33: giving up the last reference ends: while the list is well formed and holds
    the requests in flight, each of its sessions is told its outcome exactly once,
    in the order the kernel completes them, and then the service is unbound. *)
Theorem io_decref_drains `{K : IOKernel} `{!KernelLaws K} `{C : IOClient} `{!IOClientLaws C}
    s xs fuel :
  ref s = 1%Z → dlist (iolinks s) (m_session_list s) xs →
  inflight (iocalls s) ≡ₚ Z.pos <$> xs → (∀ y, y ∈ xs → is_Some (sessions s !! y)) →
  length xs < fuel →
  ∃ es s', decref fuel s = Done (tt, s') ∧ ev_data <$> es ≡ₚ Z.pos <$> xs ∧
    iocalls s' = IUnbound :: served es (iocalls s).
Proof. apply decref_run. Qed.
Lemma io_decref_drains_witness :
  ∃ es s', decref 2 ex_io_one = Done (tt, s') ∧ ev_data <$> es ≡ₚ [31%Z] ∧
    iocalls s' = IUnbound :: served es (iocalls ex_io_one).
Proof.
  apply (io_decref_drains ex_io_one [31%positive] 2).
  - by vm_compute.
  - split; [nodup|by vm_compute].
  - by vm_compute.
  - intros y ->%list_elem_of_singleton. by eexists.
  - simpl. lia.
Defined.

(** with two requests in flight the list that [list_add_tail] made is not well
    formed: when the kernel completes the second first, [list_delete] empties the
    list, and the service is unbound while the first is still in flight. *)
Theorem io_decref_loses `{K : IOKernel} `{!KernelLaws K} `{C : IOClient} `{!IOClientLaws C}
    s0 s a b x e err fuel h :
  let head := m_session_list s in
  dlist (iolinks s0) head [a] → NoDup [head; a; b] → is_Some (iolinks s0 !! b) →
  list_add_tail (Some head) (Some b) (iolinks s0) = Done (tt, h) → iolinks s = h →
  ref s = 1%Z → sessions s !! b = Some x → Z.pos a ∈ inflight (iocalls s) →
  getevents_result (set_ref 0 s) = (Some e, err) → ev_data e = Z.pos b →
  ∃ s', decref (S (S fuel)) s = Done (tt, s') ∧
    iocalls s' = IUnbound :: served [e] (iocalls s) ∧ Z.pos a ∈ inflight (iocalls s').
Proof. apply decref_loses. Qed.
Lemma io_decref_loses_witness :
  ∃ s', decref 2 ex_io_two = Done (tt, s') ∧
    iocalls s' = IUnbound :: served [IOEvent 32 512] (iocalls ex_io_two) ∧
    31%Z ∈ inflight (iocalls s').
Proof.
  eapply (io_decref_loses ex_io_one ex_io_two 31 32).
  - split; [nodup|by vm_compute].
  - nodup.
  - by eexists.
  - by vm_compute.
  - by vm_compute.
  - by vm_compute.
  - by vm_compute.
  - apply (bool_decide_unpack _). by vm_compute.
  - by vm_compute.
  - done.
Defined.
