(* ===== verification/CommProperties.v ===== *)
(** The properties of the communicator's connections, with a concrete instance of
    each. *)
From S2P Require Export CommSpec.

(** ** Concrete inputs *)

(** writev takes two bytes the first time and then finds the socket full; every
    other call returns 0. *)
Definition ex_ccall (c : ccall) (s : commstate) : Z * Z :=
  match c with
  | KWritev _ vec =>
      match ccalls s with
      | [] => (Z.of_nat (length (take 2 (vec_bytes vec))), 0)
      | _ => (-1, EAGAIN)
      end
  | _ => (0, 0)
  end%Z.
#[export] Instance ex_comm_env : CommEnv := {|
  ccall_result := ex_ccall;
  cclock _ := TS 12 0;
  cmalloc _ := Some 90%positive;
  sockname _ _ := ([2; 0; 0; 0; 0; 0; 0; 0]%Z ++ replicate 120 7%Z, 8%Z);
|}.
#[export] Instance ex_comm_writev : CommWritevLaws ex_comm_env.
Proof.
  split; intros f vec s; simpl; unfold ex_ccall; destruct (ccalls s); simpl.
  - rewrite length_take. lia.
  - lia.
  - intros Hv. destruct (vec_bytes vec) as [|b l]; [done|]. destruct l; simpl; lia.
  - lia.
Qed.
(** Sessions that send within a second; a message of three bytes and one. *)
Definition ex_vectors : list iovec := [Iov 100 3; Iov 200 1].
#[export] Instance ex_comm_client : CommClient := {|
  send_timeout _ := ret 1000%Z;
  receive_timeout _ := ret (-1)%Z;
  keep_alive_timeout _ := ret 60000%Z;
  first_timeout_of _ := ret 0%Z;
  encode _ _ := ret (2%Z, ex_vectors);
  service_unbound _ := ret tt;
|}.
#[export] Instance ex_comm_laws : CommClientLaws ex_comm_client.
Proof.
  split. intros l s. exists 1000%Z. split; [done|]. unfold int_range, infinite. lia.
Qed.

(** A server's connections 50 and 60, session 51, target 52 and service 53; the
    connections are alive and on the service's list, whose head is 54. *)
Definition ex_conn (fd st : Z) : conn_entry :=
  ConnEntry None 0 fd st 0 1 None (Some 51%positive) (Some 52%positive) (Some 53%positive) None.
Definition ex_comm : commstate :=
  CommState
    (list_to_map [(54, Cell (Some 50) (Some 60) None 0); (50, Cell (Some 60) (Some 54) None 0);
                  (60, Cell (Some 54) (Some 50) None 0)]%positive)
    (list_to_map [(50%positive, ex_conn 9 CONN_STATE_KEEPALIVE);
                  (60%positive, ex_conn 10 CONN_STATE_KEEPALIVE)])
    {[52%positive := CTarget None 0 0 500 55 9 1 (Some 53%positive)]}
    {[51%positive := CSession (Some 52%positive) None None None 0 (TS 11 500000000) 2000 2]}
    {[53%positive := CService None 0 (-1) 500 1 4 3 54]} ∅ ∅ ∅ ∅ None 0 7 [].
Definition ex_session : comm_session :=
  CSession (Some 52%positive) None None None 0 (TS 11 500000000) 2000 2.
Definition ex_target : comm_target := CTarget None 0 0 500 55 9 1 (Some 53%positive).
Definition ex_unbound : commstate :=
  set_cservices {[53%positive := CService None 0 (-1) 500 1 (-1) 3 54]} ex_comm.

Definition ex_short_session : comm_session :=
  CSession (Some 52%positive) None None None 0 (TS 11 500000000) 300 2.
Definition ex_short : commstate := set_csessions {[51%positive := ex_short_session]} ex_comm.

Ltac lens := repeat (constructor; [simpl; lia|]); constructor.

(** ** The properties *)

(** C9: each way out of [send_message]. When [encode] counts more buffers than
    [ENCODE_IOV_MAX], or a negative number, it is -1, with EOVERFLOW in the first case,
    and nothing is sent. Else the bytes the kernel took, followed by the bytes of the
    buffers that are [rest], are the bytes the message encoded: none is lost, repeated or
    reordered between the synchronous and the asynchronous part. When nothing is left it
    goes on to wait for the peer; when the socket is full [rest] is handed to the poller,
    or that fails, as [handed] says: a new or a server's connection is added, an idle one
    of a client changed, with each way that fails and the array freed; on any other error
    it is -1. ([encode] and [send_timeout] of the client return and change nothing of
    the communicator, and the buffers have sizes of a [size_t].) *)
Theorem send_message_splits `{E : CommEnv} `{!CommWritevLaws E} `{C : CommClient}
    `{!CommClientLaws C} fuel s entry en session se tg t k l :
  let vs := take (Z.to_nat k) l in
  centries s !! entry = Some en → session_ en = Some session →
  csessions s !! session = Some se → s_target se = Some tg → ctargets s !! tg = Some t →
  int_range (m_response_timeout t) →
  encode (s_out se) ENCODE_IOV_MAX s = Done ((k, l), s) → int_range k → lens_ok vs →
  (Z.of_nat (length (vec_bytes vs)) < 2 ^ 63)%Z → length (vec_bytes vs) + length vs < fuel →
  if decide (0 ≤ k ≤ ENCODE_IOV_MAX)%Z then
    ∃ rest e cs, vec_bytes vs = csent cs ++ vec_bytes rest ∧
      let s1 := with_calls e cs s in
      match rest with
      | [] => send_message fuel (Some entry) s =
                (sent_all (Some entry) (Some session) ;;; ret 0%Z) s1
      | _ =>
          if decide (e = EAGAIN)
          then ∃ n s', send_message fuel (Some entry) s = Done (n, s') ∧
                 handed s1 entry en rest n s'
          else send_message fuel (Some entry) s = Done ((-1)%Z, s1)
      end
  else send_message fuel (Some entry) s =
         Done ((-1)%Z, if decide (ENCODE_IOV_MAX < k)%Z then set_cerrno EOVERFLOW s else s).
Proof. apply send_message_splits_run. Qed.
Lemma send_message_splits_witness :
  ∃ rest e cs, [100; 101; 102; 200]%Z = csent cs ++ vec_bytes rest ∧
    let s1 := with_calls e cs ex_comm in
    match rest with
    | [] => send_message 7 (Some 50%positive) ex_comm =
              (sent_all (Some 50%positive) (Some 51%positive) ;;; ret 0%Z) s1
    | _ =>
        if decide (e = EAGAIN)
        then ∃ n s', send_message 7 (Some 50%positive) ex_comm = Done (n, s') ∧
               handed s1 50 (ex_conn 9 CONN_STATE_KEEPALIVE) rest n s'
        else send_message 7 (Some 50%positive) ex_comm = Done ((-1)%Z, s1)
    end.
Proof.
  apply (send_message_splits 7 ex_comm 50 (ex_conn 9 CONN_STATE_KEEPALIVE) 51 ex_session 52
           ex_target 2 ex_vectors); try done.
  - lens.
  - simpl. lia.
Defined.

(** C34: the timeouts given to the poller, where a negative one is none and the
    session's is -1 when it has none. The first is the earlier of the session's and the
    target's. When that is the session's, or the target has none, the session's is spent:
    every later one is just what the target gives, be it more than the session was given
    or none. Otherwise the session's clock starts, and a later one, as long as the
    session's is not spent and the clock has not gone back, is the smaller number of the
    target's and what is left of the session's; what is left is never negative, and when
    it is the one given the session's is spent. *)
Theorem session_timeouts `{E : CommEnv} `{C : CommClient} s session tg se t :
  csessions s !! session = Some se → s_target se = Some tg → ctargets s !! tg = Some t →
  int_range (m_response_timeout t) → int_range (s_timeout se) →
  let used := time_used (cclock s) (begin_time se) in
  ((infinite (s_timeout se) → s_timeout se = -1)%Z →
   ∃ r s1, first_timeout (Some session) s = Done (r, s1) ∧
     earlier r (s_timeout se) (m_response_timeout t) ∧
     if decide (infinite (m_response_timeout t) ∨
                (¬ infinite (s_timeout se) ∧ s_timeout se ≤ m_response_timeout t)%Z)
     then s1 = with_session s session (set_s_timeout 0 se) ∧
          next_timeout (Some session) s1 = Done (m_response_timeout t, s1)
     else s1 = with_session s session (set_times (s_timeout se) (cclock s) se)) ∧
  ((0 < s_timeout se → 0 ≤ used)%Z →
   ∃ r s', next_timeout (Some session) s = Done (r, s') ∧
     ((s_timeout se ≤ 0 ∧ r = m_response_timeout t ∧ s' = s) ∨
      (0 < s_timeout se ∧ s_timeout se - used ≤ m_response_timeout t ∧
       r = Z.max 0 (s_timeout se - used) ∧ s' = with_session s session (set_s_timeout 0 se)) ∨
      (0 < s_timeout se ∧ m_response_timeout t < s_timeout se - used ∧
       r = m_response_timeout t ∧ s' = s))%Z).
Proof.
  intros Hse Ht Htg Hr Hs used. split; intros H.
  - destruct (first_timeout_run s session tg se t Hse Ht Htg Hr Hs H) as (r & He & E1).
    eexists r, _. split; [exact E1|]. split; [done|]. case_decide; [|done]. split; [done|].
    destruct (next_timeout_run (with_session s session (set_s_timeout 0 se)) session tg
      (set_s_timeout 0 se) t) as (r' & s' & E2 & [(_ & -> & ->)|[(? & _)|(? & _)]]);
      simpl in *; try done; try lia; by rewrite lookup_insert_eq.
  - by apply (next_timeout_run s session tg se t).
Qed.
(** The session may take 300 ms, the target 500: the first wait is 300, the next 500. *)
Lemma session_timeouts_witness :
  ∃ r s1, first_timeout (Some 51%positive) ex_short = Done (r, s1) ∧ earlier r 300 500 ∧
    s1 = with_session ex_short 51 (set_s_timeout 0 ex_short_session) ∧
    next_timeout (Some 51%positive) s1 = Done (500%Z, s1).
Proof.
  apply (proj1 (session_timeouts ex_short 51 52 ex_short_session ex_target eq_refl eq_refl eq_refl
                  ltac:(by vm_compute) ltac:(by vm_compute))).
  by vm_compute.
Defined.

(** C35: [__bind_sockaddr] binds a socket exactly when its name is not set, that is
    when every byte of the name after the address family is 0; the loop from the
    end of the name agrees with that reference and stays inside the buffer. *)
Theorem bind_unnamed_only `{CommEnv} fd addr addrlen s ss len r e :
  sockname fd s = (ss, Z.of_nat len) → ccall_result (KGetsockname fd) s = (r, e) → (0 ≤ r)%Z →
  2 ≤ length ss → len ≤ length ss →
  let s1 := add_ccall (KGetsockname fd) r (set_cerrno e s) in
  __bind_sockaddr fd addr addrlen s =
    if decide (unnamed ss len) then
      let '(r, e) := ccall_result (KBind fd addr addrlen) s1 in
      Done ((if (r <? 0)%Z then -1 else 0)%Z,
            add_ccall (KBind fd addr addrlen) r (set_cerrno e s1))
    else Done (0%Z, s1).
Proof. apply bind_sockaddr_run. Qed.
Lemma bind_unnamed_only_witness :
  __bind_sockaddr 9 None 16 ex_comm =
    Done (0%Z, add_ccall (KBind 9 None 16) 0 (set_cerrno 0
      (add_ccall (KGetsockname 9) 0 (set_cerrno 0 ex_comm)))).
Proof.
  etrans; [apply (bind_unnamed_only 9 None 16 ex_comm
             ([2; 0; 0; 0; 0; 0; 0; 0]%Z ++ replicate 120 7%Z) 8 0 0)|by vm_compute];
    try done; simpl; lia.
Defined.

(** C36: [CommService::drain(max)] takes the first [max] connections off the list
    of alive ones, or all when [max] is negative or too big, in order: each is
    removed from the poller and marked as closing, no other changes, and errno is
    as before. *)
Theorem drain_closes_first `{E : CommEnv} this v max xs s :
  cservices s !! this = Some v → dlist (clinks s) (alive_list v) xs →
  (∀ x, x ∈ xs → is_Some (centries s !! x)) →
  let k := drain_count max (length xs) in
  ∃ s', drain (Some this) max s = Done (Z.of_nat k, s') ∧
    dlist (clinks s') (alive_list v) (drop k xs) ∧ cerrno s' = cerrno s ∧
    (∀ y, centries s' !! y =
       if decide (y ∈ take k xs) then set_state_ CONN_STATE_CLOSING <$> centries s !! y
       else centries s !! y) ∧
    ∃ cs, ccalls s' = cs ++ ccalls s ∧
      Forall2 (λ c x, ∃ en r, centries s !! x = Some en ∧ c = (KDel (sockfd_ en) (mpoller_ en), r))
        (reverse cs) (take k xs).
Proof. apply service_drain_run. Qed.
Lemma drain_closes_first_witness :
  ∃ s', drain (Some 53%positive) 1 ex_comm = Done (1%Z, s') ∧
    dlist (clinks s') 54 [60%positive] ∧ cerrno s' = 7%Z ∧
    (∀ y, centries s' !! y =
       if decide (y ∈ [50%positive]) then set_state_ CONN_STATE_CLOSING <$> centries ex_comm !! y
       else centries ex_comm !! y) ∧
    ∃ cs, ccalls s' = cs ++ [] ∧
      Forall2 (λ c x, ∃ en r, centries ex_comm !! x = Some en ∧
        c = (KDel (sockfd_ en) (mpoller_ en), r)) (reverse cs) [50%positive].
Proof.
  apply (drain_closes_first 53 (CService None 0 (-1) 500 1 4 3 54) 1 [50; 60]%positive ex_comm).
  - done.
  - split; [apply (bool_decide_unpack _); by vm_compute|by vm_compute].
  - intros x [->|[->|?%elem_of_nil]%elem_of_cons]%elem_of_cons; [by eexists|by eexists|done].
Defined.

(** a keep-alive connection whose reply is sent after its service was shut
    down is forgotten: it is given a timeout and a reference, but is neither marked
    as closing nor on any list. *)
Theorem keep_alive_forgotten `{E : CommEnv} `{C : CommClient} s entry en session sv v t :
  centries s !! entry = Some en → service_ en = Some sv → cservices s !! sv = Some v →
  (listen_fd v < 0)%Z → (∀ s, keep_alive_timeout session s = Done (t, s)) → t ≠ 0%Z →
  ∃ s' r, sent_all (Some entry) (Some session) s = Done (tt, s') ∧
    centries s' !! entry = Some (set_ref_ (i32 (ref_ en + 1)) en) ∧ clinks s' = clinks s ∧
    ccalls s' = (KSetTimeout (sockfd_ en) t (comm_mpoller s), r) :: ccalls s.
Proof. apply sent_all_closed. Qed.
Lemma keep_alive_forgotten_witness :
  ∃ s' r, sent_all (Some 50%positive) (Some 51%positive) ex_unbound = Done (tt, s') ∧
    centries s' !! 50%positive = Some (set_ref_ 2 (ex_conn 9 CONN_STATE_KEEPALIVE)) ∧
    clinks s' = clinks ex_unbound ∧ ccalls s' = [(KSetTimeout 9 60000 None, r)].
Proof.
  apply (keep_alive_forgotten ex_unbound 50 (ex_conn 9 CONN_STATE_KEEPALIVE) 51 53
           (CService None 0 (-1) 500 1 (-1) 3 54) 60000); done.
Defined.
