(* ===== verification/CommRunProperties.v ===== *)
(** The properties of whole runs of a communicator, with a concrete instance of
    each. *)
From stdpp Require Import relations.
From S2P Require Export CommRunExamples.

(** C4: The reference counts are right through every run of a communicator whose links
    are in order: results of every kind, the callbacks of the poller threads and the
    client's calls, in any sequence, as long as before each step [in_order] holds: each
    server connection's session is passive, the idle list of a server's target starts
    with one of its connections, and the message of a session to be replied to names its
    connection. (That is a condition, not a result: communicator.cc:623 can break it.) A
    server-side target counts its connections, its passive sessions and the accepts under
    way; a service counts its targets, its listening socket, from the [bind] that
    succeeds until the socket is given up, and one more after a [bind] that failed once
    it had set the count ([unbound]). No server-side connection, passive session or
    accept under way names a target that is freed. A service is bound when it has neither
    targets nor a socket; fewer than [2^29] accepts are under way. *)
Theorem references_counted `{E : CommEnv} `{R : CommMemory} `{C : CommClient} `{X : CommExterns}
    `{K : CommCallbacks} `{!CommRefLaws E R C K} s0 d f s :
  no_objects s0 → rtc orderly_step (RunState dzero ∅ s0) (RunState d f s) → small d →
  (∀ t x, ctargets s !! t = Some x → t_service x ≠ None →
     t_ref x = i32 (trefs t (views s) + dt d t)) ∧
  (∀ v x, cservices s !! v = Some x →
     sref x = i32 (vrefs v (views s) + dv d v + b2z (bool_decide (v ∈ f)))) ∧
  (∀ e en t, centries s !! e = Some en → target_ en = Some t → service_ en ≠ None →
     ∃ x, ctargets s !! t = Some x ∧ t_service x ≠ None) ∧
  (∀ l se t, csessions s !! l = Some se → s_target se = Some t → passive se ≠ 0%Z →
     ∃ x, ctargets s !! t = Some x ∧ t_service x ≠ None) ∧
  (∀ t, (0 < dt d t)%Z → ∃ x, ctargets s !! t = Some x ∧ t_service x ≠ None).
Proof.
  intros H0 Hr Hs. pose proof (run_counted _ _ H0 Hr) as Hc. unfold accounted in Hc. simpl in Hc.
  split_and!.
  - intros t x. by apply (counted_target_ref (owed d f)).
  - intros v x Hx. rewrite (counted_service_ref (owed d f) s v x Hc Hx). f_equal.
    cbn [owed dv]. lia.
  - intros e en t He Ht Hv. apply (counted_there (owed d f)); [done|].
    pose proof (entry_trefs _ _ _ _ He Ht Hv). specialize (Hs t). cbn [owed dt]. lia.
  - intros l se t He Ht Hv. apply (counted_there (owed d f)); [done|].
    pose proof (session_trefs _ _ _ _ He Ht Hv). specialize (Hs t). cbn [owed dt]. lia.
  - intros t Ht. apply (counted_there (owed d f)); [done|]. unfold trefs.
    pose proof (held_nonneg t (views s)). cbn [owed dt]. lia.
Qed.

#[local] Existing Instances run_env run_memory run_externs run_client run_callbacks.

(** The service that listens and has accepted a connection on which a request began
    counts 2, and the target 2. *)
Lemma references_counted_witness :
  no_objects run0 ∧ rtc orderly_step (RunState dzero ∅ run0) (RunState run_debt ∅ run5) ∧
  small run_debt ∧
  (∃ x, ctargets run5 !! 300%positive = Some x ∧ t_ref x = 2%Z ∧
     t_ref x = i32 (trefs 300 (views run5) + dt run_debt 300)) ∧
  (∃ x, cservices run5 !! 100%positive = Some x ∧ sref x = 2%Z ∧
     sref x = i32 (vrefs 100 (views run5) + dv run_debt 100 + 0)).
Proof.
  assert (no_objects run0) as H0 by done.
  assert (small run_debt) as Hs by (intros t; simpl; lia).
  assert (∀ s, csessions s = ∅ → bool_decide (map_Forall (λ _ x,
    (clinks s !! m_idle_list x ≫= next) = Some (m_idle_list x)) (ctargets s)) = true → in_order s) as Ho.
  { intros s E1 E2%bool_decide_eq_true. by apply in_order_start. }
  assert (rtc orderly_step (RunState dzero ∅ run0) (RunState run_debt ∅ run5)) as Hr.
  { eapply rtc_l.
    { split; [apply Ho; by vm_compute|]. apply (StepClient dzero ∅ run0 run1).
      replace (views run1) with (with_vv <[100%positive := 0%Z]> (views run0))
        by (vm_compute; reflexivity).
      apply NewService; vm_compute; reflexivity. }
    eapply rtc_l.
    { split; [apply Ho; by vm_compute|].
      apply (StepBind dzero ∅ _ run2 100 0); vm_compute; reflexivity. }
    replace (listens 100 run1) with true by (vm_compute; reflexivity). cbn [negb].
    replace (0 <=? 0)%Z with true by done. replace (∅ ∖ {[100%positive]} : gset loc) with (∅ : gset loc) by set_solver.
    eapply rtc_l.
    { split; [apply Ho; by vm_compute|].
      apply (StepAccept _ _ _ run3 (replicate 16 1%Z) 16 7 100 (Some 300%positive)).
      vm_compute; reflexivity. }
    eapply rtc_l.
    { split; [apply Ho; by vm_compute|].
      apply (StepListen _ _ _ run4 listened 300 100); [done|done| |done|vm_compute; reflexivity].
      intros t. simpl. unfold b2z. case_bool_decide; lia. }
    eapply rtc_l; [|apply rtc_refl]. split; [apply Ho; by vm_compute|].
    apply (StepCreateRequest _ _ _ run5 10 300 100 None (Some 210%positive));
      [|vm_compute; reflexivity..].
    intros t. simpl. unfold b2z. case_bool_decide; lia. }
  destruct (references_counted run0 run_debt ∅ run5 H0 Hr Hs) as (Ht & Hv & _).
  split; [done|]. split; [done|]. split; [done|]. split.
  - eexists. split; [vm_compute; reflexivity|]. split; [vm_compute; reflexivity|].
    apply Ht; [vm_compute; reflexivity|done].
  - eexists. split; [vm_compute; reflexivity|]. split; [vm_compute; reflexivity|].
    apply (Hv 100%positive). vm_compute; reflexivity.
Defined.

(** Whatever the handler threads, the poller threads and the client call, in any
    order, every object stays within its type: the state of a connection is one of
    the eight, [passive] one of its four values, and the counts and sequence numbers
    fit [int] and [long long]. An entry is within its type from the first write after
    its [malloc] on. *)
Theorem objects_typed `{E : CommEnv} `{R : CommMemory} `{C : CommClient} `{X : CommExterns}
    `{K : CommCallbacks} `{!CommTypeLaws C K (λ _, None)} s cs s' :
  typed (λ _, None) (λ _, False) s → run_calls cs s = Done (tt, s') →
  (∀ e x, centries s' !! e = Some x →
     (CONN_STATE_CONNECTING ≤ state_ x ≤ CONN_STATE_ERROR)%Z ∧
     (- 2 ^ 31 ≤ ref_ x < 2 ^ 31)%Z ∧ (- 2 ^ 63 ≤ seq_ x < 2 ^ 63)%Z) ∧
  (∀ l x, csessions s' !! l = Some x → (0 ≤ passive x ≤ 3)%Z) ∧
  (∀ t x, ctargets s' !! t = Some x → (- 2 ^ 31 ≤ t_ref x < 2 ^ 31)%Z) ∧
  (∀ v x, cservices s' !! v = Some x → (- 2 ^ 31 ≤ sref x < 2 ^ 31)%Z).
Proof.
  intros Ht Hr. destruct (sound_calls cs _ _ _ _ Ht Hr) as [He Hs Htg Hv].
  unfold ok_entry, ok_session, ok_target, ok_service, within in *. split_and!.
  - intros e x Hx. destruct (He e x Hx) as [[]|(? & ? & ?)]. split_and!; lia.
  - intros l x Hx. destruct (Hs l x Hx) as [? _]. lia.
  - eauto.
  - eauto.
Qed.
(** The run of [references_counted_witness], as calls. *)
Lemma objects_typed_witness :
  (∃ x, centries run_handled !! 10%positive = Some x ∧ state_ x = CONN_STATE_RECEIVING) ∧
  (∀ l x, csessions run_handled !! l = Some x → (0 ≤ passive x ≤ 3)%Z).
Proof.
  split; [eexists; split; vm_compute; reflexivity|].
  destruct (objects_typed (CommTypeLaws0 := run_type_laws _ eq_refl) run1
    [Bind (Some 100%positive); Accept (replicate 16 1%Z) 16 7 (Some 100%positive);
     OnListen listened; CreateRequest (Some 10%positive)] run_handled) as (_ & Hs & _);
    [exact run1_typed|vm_compute; reflexivity|exact Hs].
Defined.

(** C10: A passive session is ended at most once. When [reply] or [shutdown] has
    returned for it, with success or not, both refuse it: they return -1 with EINVAL
    and change nothing else. *)
Theorem ended_once `{E : CommEnv} `{R : CommMemory} `{C : CommClient} `{X : CommExterns}
    `{K : CommCallbacks} l `{!CommTypeLaws C K (replied_to l)} H s x op r s' :
  typed (λ _, None) H s → csessions s !! l = Some x → passive x = 2%Z →
  ending_call l op → op s = Done (r, s') →
  ∀ x' op', csessions s' !! l = Some x' → ending_call l op' →
    op' s' = Done ((-1)%Z, set_cerrno EINVAL s').
Proof.
  intros Ht Hx Hp Hop Hr x' op' Hx' Hop'. eapply ending_refused; [done|done|].
  by rewrite (ending_once l op H s x r s' Ht Hx Hp Hop Hr x' Hx').
Qed.
(** The session 250 is shut down, which closes its connection; then it cannot be
    replied to. *)
Lemma ended_once_witness :
  shutdown (Some 250%positive) run_reply =
    Done (0%Z, after (shutdown (Some 250%positive)) run_reply) ∧
  reply 9 (Some 250%positive) (after (shutdown (Some 250%positive)) run_reply) =
    Done ((-1)%Z, set_cerrno EINVAL (after (shutdown (Some 250%positive)) run_reply)).
Proof.
  assert (shutdown (Some 250%positive) run_reply =
    Done (0%Z, after (shutdown (Some 250%positive)) run_reply)) as Hr by (vm_compute; reflexivity).
  split; [exact Hr|].
  eapply (ended_once 250 (CommTypeLaws0 := run_type_laws (replied_to 250) eq_refl)
    (λ _, False) run_reply); [exact run_reply_typed| | | |exact Hr| |apply EndReply];
    [vm_compute; reflexivity|reflexivity|apply EndShutdown|vm_compute; reflexivity].
Defined.

(** C13: A request takes the first idle connection of its target that the mpoller still
    knows. The ones before it are made CLOSING and leave the list with it; the others
    stay, in order. The session gets the connection and its sequence number, the
    connection the session and the next number; what follows is the sending. When
    none is known, all are closed and the request fails with ENOENT. The loop ends
    within the fuel the model gives it. [known] is what the mpoller answers for a
    descriptor. *)
Theorem idle_conn_first `{E : CommEnv} `{R : CommMemory} `{C : CommClient} `{X : CommExterns}
    `{K : CommCallbacks} `{!CommListLaws X} mp known t tg es s x se fuel fd :
  (∀ f s, comm_mpoller s = mp →
     (0 <=? (ccall_result (KSetTimeout f (-1) mp) s).1)%Z = known f) →
  comm_mpoller s = mp → ctargets s !! t = Some tg → dlist (clinks s) (m_idle_list tg) es →
  (∀ e, e ∈ es → ∃ en, centries s !! e = Some en ∧ sockfd_ en = fd e) →
  csessions s !! x = Some se →
  let n := unknown (known ∘ fd) es in
  match es !! n with
  | None =>
      ∃ s', request_idle_conn fuel (Some x) (Some t) s = Done ((-1)%Z, s') ∧
        cerrno s' = ENOENT ∧ dlist (clinks s') (m_idle_list tg) [] ∧
        (∀ y, centries s' !! y = closed es (centries s) y)
  | Some e =>
      ∃ s' en, centries s !! e = Some en ∧
        request_idle_conn fuel (Some x) (Some t) s = send_on fuel (Some x) (Some e) s' ∧
        dlist (clinks s') (m_idle_list tg) (drop (S n) es) ∧
        centries s' !! e = Some (set_seq_ (i64 (seq_ en + 1)) (set_session_ (Some x) en)) ∧
        csessions s' !! x = Some (set_s_conn (conn_ en) (seq_ en) se) ∧
        (∀ y, y ≠ e → centries s' !! y = closed (take n es) (centries s) y)
  end.
Proof. intros. by eapply request_idle_run. Qed.
(** The first of three connections is lost: the second is taken. *)
Lemma idle_conn_first_witness :
  ∃ s', request_idle_conn 9 (Some 200%positive) (Some 400%positive) run_idle =
          send_on 9 (Some 200%positive) (Some 12%positive) s' ∧
    dlist (clinks s') 401 [13%positive] ∧
    centries s' !! 11%positive = Some (set_state_ CONN_STATE_CLOSING (idle_entry 21)).
Proof.
  destruct (idle_conn_first (Some 9%positive) (λ f, negb (f =? 21)%Z) 400
    (CTarget None 0 0 500 401 0 0 None) [11; 12; 13]%positive run_idle 200
    (CSession None None None None 0 (TS 0 0) 0 0) 9 (λ e, Zpos e + 10)%Z)
    as (s' & en & He & Er & Hd & _ & _ & Hc).
  - intros f s _. simpl. destruct (Z.eqb_spec f 21) as [->|Hf]; [reflexivity|].
    destruct f as [|f|f]; try reflexivity. do 6 (destruct f as [f|f|]; try reflexivity; try done).
  - reflexivity.
  - reflexivity.
  - exact run_idle_list.
  - intros e Hi. set_unfold. destruct Hi as [->|[->|[->|[]]]]; eexists; split; reflexivity.
  - reflexivity.
  - exists s'. split; [exact Er|]. split; [exact Hd|].
    rewrite (Hc 11%positive) by done. vm_compute. reflexivity.
Defined.

(** C16: A datagram is handed to the message of its session piece by piece, where a
    message that wants more ([append] returns 0) says how many bytes it took. When the
    loop ends, the pieces, one after the other, are the beginning of the datagram, and
    the whole of it when the message wants more; and then [handle_recvfrom_result] tells
    the session TOREPLY, on a connection that is now the first idle one, when the message
    is complete; ERROR with the message's errno when it is wrong; and ERROR with EBADMSG
    when the datagram was too short. The loop ends, after at most as many calls as there
    are bytes, and one, if the message takes at least a byte whenever it wants more. The
    code does not ask that of a message: it loops for ever on one that wants more and
    takes nothing. ([answers]: the message's [append] returns, takes no more than there
    is, and leaves connections, targets and lists alone.) *)
Theorem datagram_told `{E : CommEnv} `{R : CommMemory} `{C : CommClient} `{X : CommExterns}
    `{K : CommCallbacks} `{!CommListLaws X} msg e fuel buf s en t tg es res :
  answers msg →
  centries s !! e = Some en → state_ en = CONN_STATE_RECEIVING → target_ en = Some t →
  ctargets s !! t = Some tg → dlist (clinks s) (m_idle_list tg) es →
  e ∉ m_idle_list tg :: es → is_Some (clinks s !! e) →
  pr_state res = PR_ST_SUCCESS → result_ptr (pr_data res) = Some e →
  (recv_loop fuel msg (Some e) buf s = NoFuel ∨
   ∃ ps r s1, fed msg ps buf s r s1 ∧ concat ps `prefix_of` buf ∧ (r = 0%Z → concat ps = buf) ∧
    recv_loop fuel msg (Some e) buf s = Done (tt, parsed e r s1) ∧
    ∃ s', handle_recvfrom_result res (parsed e r s1) =
            recvfrom_end (session_ en) (Some e) (Some t) (told r (cerrno s1)) s' ∧
      if (0 <? r)%Z then
        dlist (clinks s') (m_idle_list tg) (e :: es) ∧
        centries s' !! e = Some (set_state_ CONN_STATE_IDLE en)
      else s' = parsed e r s1) ∧
  (progresses msg → length buf < fuel → recv_loop fuel msg (Some e) buf s ≠ NoFuel) ∧
  (buf ≠ [] → CommHandle.append msg buf s = Done ((0, 0)%Z, s) →
   recv_loop fuel msg (Some e) buf s = NoFuel).
Proof.
  intros Ht He Hst Htg Htt Hd Hn Hl Hres Hrp. split_and!.
  - destruct (recv_loop_run msg e Ht fuel buf s) as [|(ps & r & s1 & F & Er & E1 & E2 & E3)];
      [by eexists|by left|right].
    destruct (fed_prefix _ _ _ _ _ _ F) as [Hp1 Hp2]. exists ps, r, s1. split_and!; try done.
    apply (recvfrom_told res e s1 en t tg es r); by rewrite ?E1, ?E2, ?E3.
  - intros Hp Hf. by apply recv_loop_ends.
  - intros Hb Ha. by apply recv_loop_spins.
Qed.
Definition run_datagram : poller_result :=
  PResult PR_ST_SUCCESS 0
    (PData PD_OP_RECVFROM 0 4 RECVFROM (Some 100%positive) (UPtr (Some 10%positive))).
Definition run5_entry : conn_entry :=
  ConnEntry (Some 231%positive) 1 7 CONN_STATE_RECEIVING 7 1 None (Some 200%positive)
    (Some 300%positive) (Some 100%positive) (Some 9%positive).
Definition run5_target : comm_target :=
  CTarget (Some 10%positive) 16 0 500 302 7 2 (Some 100%positive).
(** A message that takes two bytes at a time gets five and wants more. *)
Lemma datagram_told_witness :
  ∃ ps r s1, fed 210 ps [1; 2; 3; 4; 5]%Z run5 r s1 ∧
    recv_loop 6 210 (Some 10%positive) [1; 2; 3; 4; 5]%Z run5 = Done (tt, parsed 10 r s1).
Proof.
  assert (∀ buf s, CommHandle.append 210 buf s = Done ((0, Z.min 2 (Z.of_nat (length buf)))%Z, s))
    as Ha by reflexivity.
  destruct (datagram_told 210 10 6 [1; 2; 3; 4; 5]%Z run5 run5_entry 300 run5_target [] run_datagram)
    as ([Hf|(ps & r & s1 & F & _ & _ & Er & _)] & Hends & _).
  - intros buf s. exists 0%Z, (Z.min 2 (Z.of_nat (length buf))), s.
    split; [apply Ha|]. split; [lia|done].
  - vm_compute. reflexivity.
  - reflexivity.
  - reflexivity.
  - vm_compute. reflexivity.
  - split; [apply (bool_decide_unpack _); by vm_compute|]. by split; vm_compute.
  - apply (bool_decide_unpack _). by vm_compute.
  - vm_compute. eexists. reflexivity.
  - reflexivity.
  - reflexivity.
  - exfalso. apply Hends; [|simpl; lia|exact Hf]. intros buf s n s'. rewrite Ha.
    intros [= <- _] Hb. destruct buf; [done|simpl; lia].
  - exists ps, r, s1. split; [exact F|exact Er].
Defined.

(** C17: Every way out of making a connection accounts for what it took. Either
    [request_new_conn] returns 0 and there is one entry more: it owns the socket,
    which is open, and is a connection being made from the session to the target,
    with one reference; or it returns -1, there is no entry more, and the socket, if
    there was one, has been closed exactly once. *)
Theorem new_conn_accounts `{E : CommEnv} `{R : CommMemory} `{C : CommClient} `{X : CommExterns}
    `{K : CommCallbacks} `{!CommConnectLaws E K} x l fd s0 s r s' :
  create_connect_fd l s = Done (fd, s0) → request_new_conn x (Some l) s = Done (r, s') →
  (r = 0%Z ∧
   ∃ e en, centries s !! e = None ∧ centries s' = <[e := en]> (centries s) ∧
     sockfd_ en = fd ∧ (0 ≤ fd)%Z ∧ closes fd (ccalls s') = closes fd (ccalls s) ∧
     state_ en = CONN_STATE_CONNECTING ∧ ref_ en = 1%Z ∧ session_ en = x ∧ target_ en = Some l) ∨
  (r = (-1)%Z ∧ centries s' = centries s ∧
   closes fd (ccalls s') = closes fd (ccalls s) + if (0 <=? fd)%Z then 1 else 0).
Proof.
  intros Hc Hr.
  destruct (request_new_owned x (Some l) l fd s0 s r s' eq_refl Hc Hr)
    as [[-> (e & en & (He & Hs & Hf & Hh) & H)]|[-> Hh]]; [left|right];
    unfold held_by in Hh; injection Hh as H1 H2.
  - split; [done|]. exists e, en. tauto.
  - split_and!; [done..|]. rewrite H2. destruct (0 <=? fd)%Z; lia.
Qed.
Lemma new_conn_accounts_witness :
  ∃ e en, centries (after (request_new_conn (Some 200%positive) (Some 400%positive)) run_asking) !! e
            = Some en ∧ sockfd_ en = 5%Z ∧ state_ en = CONN_STATE_CONNECTING.
Proof.
  destruct (new_conn_accounts (Some 200%positive) 400 5 run_asking run_asking 0
    (after (request_new_conn (Some 200%positive) (Some 400%positive)) run_asking))
    as [[_ (e & en & _ & Hce & Hs & _ & _ & Hst & _)]|[Hr _]];
    [reflexivity|vm_compute; reflexivity| |done].
  exists e, en. rewrite Hce. split; [apply lookup_insert_eq|done].
Defined.
