(* ===== verification/CommLifeProperties.v ===== *)
(** Each request is told its outcome once, and what the lists of idle connections
    hold, with a concrete run of a client. *)
From stdpp Require Import relations.
From S2P Require Export CommLifeRun CommRunExamples.

(** ** A client *)

(** Every socket takes all it is given; every other call is answered with 0. *)
Definition asking_env : CommEnv := {|
  ccall_result c _ :=
    match c with KWritev _ vec => (Z.of_nat (length (vec_bytes vec)), 0) | _ => (0, 0) end%Z;
  cclock _ := TS 12 0;
  cmalloc := free_addr;
  sockname _ _ := (replicate 128 1%Z, 16%Z);
|}.
(** A reply is complete with its first bytes. *)
Definition asking_callbacks : CommCallbacks := {|
  handle _ _ _ := ret tt;
  message_out _ := ret (Some 220%positive);
  message_in _ := message_210;
  release _ := ret tt;
  create_connect_fd _ := ret 5%Z;
  target_new_connection _ _ := ret (Some 230%positive);
  new_session _ _ _ := ret None;
  handle_stop _ _ := ret tt;
  create_listen_fd _ := ret 4%Z;
  service_new_connection _ _ := ret (Some 231%positive);
  append _ b := ret (1, Z.of_nat (length b))%Z;
  inner_feedback _ n := ret n;
  duration _ := ret (0%Z, TS 1 0);
  sleep_handle _ _ _ := ret tt;
|}.
#[local] Existing Instances asking_env run_memory run_externs run_client asking_callbacks.

#[export] Instance asking_laws : CommLifeLaws asking_env run_client asking_callbacks.
Proof.
  constructor; simpl; intros; try apply leaves_ret.
  - by intros s a s' [= <- <-].
  - by destruct (free_addr_fresh s l) as (? & ? & _).
Qed.

(** The target 400, with its list at 401, and the session 200. *)
Definition ask0 : commstate := CommState ∅ ∅ ∅ ∅ ∅ ∅ ∅ ∅ ∅ (Some 9%positive) 0 0 [].
Definition ask_alloc : commstate :=
  set_clinks {[401%positive := Cell None None None 0]}
    (set_ctargets {[400%positive := CTarget None 0 0 0 401 0 0 None]} ask0).
Definition ask1 : commstate := after (target_init (Some 400%positive) (replicate 16 1%Z) 16 500 500) ask_alloc.
Definition ask2 : commstate :=
  set_csessions {[200%positive := CSession None None None None 0 (TS 0 0) 0 0]} ask1.
(** A request is made and answered, on the connection 10. *)
Definition ask_data (op : Z) : poller_data := PData op 0 5 None (Some 10%positive) (UPtr None).
Definition ask_result (st op : Z) : poller_result := PResult st 0 (ask_data op).
Definition ask3 : commstate := after (request 9 (Some 200%positive) (Some 400%positive)) ask2.
Definition ask4 : commstate := after (handle_connect_result 9 (ask_result PR_ST_FINISHED PD_OP_CONNECT)) ask3.
Definition ask5 : commstate := after (create_reply (Some 10%positive)) ask4.
Definition ask6 : commstate := after (append_message [1; 2]%Z (Some 210%positive)) ask5.
Definition ask7 : commstate := after (handle_read_result (ask_result PR_ST_SUCCESS PD_OP_READ)) ask6.
(** Another request goes out on the same connection, and the peer closes it. *)
Definition ask8 : commstate := after (request 9 (Some 200%positive) (Some 400%positive)) ask7.
Definition ask9 : commstate := after (handle_read_result (ask_result PR_ST_FINISHED PD_OP_READ)) ask8.

(** What the pollers have for the connection 10, and nothing for others. *)
Definition only_10 (w : watch) (P : loc → watch) : Prop :=
  P 10%positive = w ∧ ∀ e, e ≠ 10%positive → P e = done_with.
(** The acts of a step are computed; the watches of other connections stay. *)
Ltac run_news :=
  repeat match goal with
  | |- context [news ?a ?b] =>
      let n := eval vm_compute in (news a b) in
      replace (news a b) with n by (vm_compute; reflexivity)
  end.
Ltac at_10 :=
  run_news; split; [vm_compute; reflexivity|]; intros e He; cbn [rewatch_all foldr rewatch nonnull Z.ltb Z.compare];
  rewrite ?fn_lookup_insert_ne by done; reflexivity.

Lemma ask_first : ∃ P, rtc life_step (life_start ask0) (P, asked 200 (λ _, 0%Z), ask7) ∧
  only_10 (Watch (Some PD_OP_READ) NoMessage) P.
Proof.
  eexists. split.
  { unfold life_start. eapply rtc_l.
    { eapply (LifeTarget _ _ _ 400 401 (Cell None None None 0) ask_alloc (replicate 16 1%Z) 16 500 500 ask1);
        [|vm_compute; reflexivity]. by split_and!. }
    eapply rtc_l; [by apply (LifeClient _ _ ask1 ask2)|].
    eapply rtc_l; [eapply (LifeRequest _ _ ask2 9 200 400 0 ask3); vm_compute; reflexivity|].
    eapply rtc_l.
    { eapply (LifeConnected _ _ ask3 9 (ask_result PR_ST_FINISHED PD_OP_CONNECT) 10 ask4);
        [done|vm_compute; reflexivity|by eexists|vm_compute; reflexivity]. }
    eapply rtc_l; [eapply (LifeBegin _ _ ask4 10 (Some 210%positive) ask5); vm_compute; reflexivity|].
    eapply rtc_l.
    { eapply (LifeAppend _ _ ask5 210 (CIn APPEND_MESSAGE (Some 10%positive)) 10 [1; 2]%Z 1 2 ask6);
        vm_compute; reflexivity. }
    eapply rtc_l; [|apply rtc_refl].
    eapply (LifeReplied _ _ ask6 (ask_result PR_ST_SUCCESS PD_OP_READ) 10 ask7);
      [done|vm_compute; reflexivity|done|vm_compute; reflexivity]. }
  at_10.
Qed.
Lemma ask_second P A : only_10 (Watch (Some PD_OP_READ) NoMessage) P →
  ∃ P', rtc life_step (P, A, ask7) (P', asked 200 A, ask9) ∧ only_10 done_with P'.
Proof.
  intros [H10 Hn]. eexists. split.
  { eapply rtc_l; [eapply (LifeRequest _ _ ask7 9 200 400 0 ask8); vm_compute; reflexivity|].
    eapply rtc_l; [|apply rtc_refl].
    eapply (LifeReadEnded _ _ ask8 (ask_result PR_ST_FINISHED PD_OP_READ) 10 ask9);
      [done| |by eexists|vm_compute; reflexivity].
    run_news. simpl rewatch_all. by rewrite H10. }
  run_news. simpl rewatch_all. split.
  - by rewrite fn_lookup_insert, H10.
  - intros e He. rewrite fn_lookup_insert_ne by done. by apply Hn.
Qed.

(** ** Properties *)

(** C3: Each request is told its outcome once. In every state a run of the client side
    reaches - requests, results of connections, reads and writes, callbacks of the
    poller threads, in any order - the outcomes a session was told, and the connections
    whose outcome it waits for, add up to the requests [request] accepted for it. So it
    is never told more than it asked. When no result is to come any more, every
    connection has been freed and each request was told. *)
Theorem requests_told_once `{E : CommEnv} `{R : CommMemory} `{C : CommClient} `{X : CommExterns}
    `{K : CommCallbacks} `{!CommLifeLaws E C K} `{!CommListLaws X} s0 P A s :
  centries s0 = ∅ → ctargets s0 = ∅ → clinks s0 = ∅ → ccalls s0 = [] →
  rtc life_step (life_start s0) (P, A, s) →
  (∀ l, tells l (acts (ccalls s)) + in_flight l P (lkey <$> centries s) = A l ∧
        tells l (acts (ccalls s)) ≤ A l)%Z ∧
  ((∀ e, w_op (P e) = None ∧ w_msg (P e) ≠ Complete) →
   centries s = ∅ ∧ ∀ l, tells l (acts (ccalls s)) = A l).
Proof.
  intros E1 E2 E3 E4 Hr. pose proof (life_run_well _ _ Hr (life_start_well s0 E1 E2 E3 E4)) as W.
  assert (∀ l, tells l (acts (ccalls s)) + in_flight l P (lkey <$> centries s) = A l)%Z as Hc
    by exact (w_count _ _ _ W).
  split.
  - intros l. split; [apply Hc|]. pose proof (in_flight_nonneg l P (lkey <$> centries s)).
    specialize (Hc l). lia.
  - intros Hq. pose proof (none_left _ _ _ W Hq) as He. simpl in He.
    split; [by apply fmap_empty_inv in He|]. intros l. rewrite <- Hc, He.
    unfold in_flight, pairs. rewrite map_imap_empty, msum_empty. lia.
Qed.
(** Two requests on one connection, the second of which the peer cuts off. *)
Lemma requests_told_once_witness :
  centries ask9 = ∅ ∧ tells 200 (acts (ccalls ask9)) = 2%Z.
Proof.
  destruct ask_first as (P & H1 & HP). destruct (ask_second _ (asked 200 (λ _, 0%Z)) HP) as (P' & H2 & H10 & Hn).
  destruct (requests_told_once ask0 P' (asked 200 (asked 200 (λ _, 0%Z))) ask9) as [_ Hq];
    [done..|by etrans|].
  destruct Hq as [He Ht].
  - intros e. destruct (decide (e = 10%positive)) as [->|He]; [by rewrite H10|by rewrite Hn].
  - split; [done|]. rewrite Ht. reflexivity.
Defined.

(** C5: A client's connection is a state machine. In every state a run reaches, a
    connection in memory has exactly one reference, that of the poller or of the result
    that is on its way; its state goes with the operation the poller has and the message
    that arrives; and the list of a target is exactly the connections to it that are
    idle: nothing else is handed to a request, and none is lost. [has_idle_conn] tells
    whether there is one. *)
Theorem connections_accounted `{E : CommEnv} `{R : CommMemory} `{C : CommClient} `{X : CommExterns}
    `{K : CommCallbacks} `{!CommLifeLaws E C K} `{!CommListLaws X} s0 P A s :
  centries s0 = ∅ → ctargets s0 = ∅ → clinks s0 = ∅ → ccalls s0 = [] →
  rtc life_step (life_start s0) (P, A, s) →
  (∀ e en, centries s !! e = Some en →
     ref_ en = 1%Z ∧ service_ en = None ∧ goes_with (P e) (lkey en) ∧
     (owes (P e) (lkey en) = true → session_ en ≠ None)) ∧
  (∀ t tg, ctargets s !! t = Some tg →
     ∃ es, dlist (clinks s) (m_idle_list tg) es ∧
       ∀ e, e ∈ es ↔ ∃ en, centries s !! e = Some en ∧ target_ en = Some t ∧
                           state_ en = CONN_STATE_IDLE ∧ P e = Watch (Some PD_OP_READ) NoMessage) ∧
  (∀ t tg, ctargets s !! t = Some tg →
     ∃ b, has_idle_conn (Some t) s = Done (b, s) ∧
       (b = true ↔ ∃ e, idle_conn P (lkey <$> centries s) t e)).
Proof.
  intros E1 E2 E3 E4 Hr. pose proof (life_run_well _ _ Hr (life_start_well s0 E1 E2 E3 E4)) as W.
  split_and!.
  - intros e en He. destruct (w_sane _ _ _ W e (lkey en)) as [Hf Hr1 Hv Hs]; [|done].
    simpl. by rewrite lookup_fmap, He.
  - intros t tg Ht. destruct (w_list _ _ _ W t (m_idle_list tg)) as (es & Hd & Hm).
    { simpl. by rewrite lookup_fmap, Ht. }
    exists es. split; [done|]. intros e. rewrite Hm. apply idle_conn_entry.
  - intros t tg. by apply (has_idle_run P A).
Qed.
Lemma connections_accounted_witness :
  ∃ es, dlist (clinks ask7) 401 es ∧ 10%positive ∈ es ∧
    ∃ en, centries ask7 !! 10%positive = Some en ∧ ref_ en = 1%Z.
Proof.
  destruct ask_first as (P & H1 & H10 & _).
  destruct (connections_accounted ask0 P (asked 200 (λ _, 0%Z)) ask7) as (He & Hl & _); [done..|].
  destruct (Hl 400%positive (CTarget (Some 10%positive) 16 500 500 401 0 0 None)) as (es & Hd & Hm);
    [vm_compute; reflexivity|].
  exists es. split; [exact Hd|]. split.
  - apply Hm. eexists. split; [vm_compute; reflexivity|]. split_and!; done.
  - eexists. split; [vm_compute; reflexivity|]. apply (He 10%positive). vm_compute; reflexivity.
Defined.
