(* ===== verification/CommunicatorProperties.v ===== *)
(** The properties of the whole communicator, with a concrete instance of each. *)
From S2P Require Import KernelExamples CommRunExamples.
From S2P Require Export CommunicatorSpec.

(** ** Concrete inputs *)

#[local] Existing Instances run_env run_memory run_externs run_client run_callbacks.
#[export] Instance ex_sys_env : SysEnv := {|
  sysconf_open_max _ := 4%Z;
  malloc_rqueue _ := Some 5000%Z;
  malloc_result _ := None;
|}.
#[export] Instance ex_io_services : IOServices := {|
  create_event_fd _ := ret 3%Z;
  io_handle_stop _ _ := ret tt;
|}.

(** A communicator before [init]. *)
Definition ex_blank : communicator :=
  Communicator run0 ∅ (MQState ∅ (MQ 0 0 0 0 0 0 0 0) None None []) ∅ ex_no_pool false ex_mpoller.

(** One that ends: a connection was accepted, and a session has slept. *)
Definition ex_slept : poller_result :=
  PResult PR_ST_FINISHED 0 (PData PD_OP_TIMER 0 0 None (Some 240%positive) (UPtr None)).
Definition ex_ending : communicator :=
  Communicator run3 ∅
    (MQState (list_to_map [(5024, 6040); (5032, 6140); (6040, 0); (6140, 0)]%Z)
       (MQ 5000 16384 1 40 1 5024 5032 6140) None None [])
    (list_to_map [(6000, ex_slept); (6100, listened)]%Z) ex_no_pool false
    (MPoller ex_state [] 0 [] 0).
Lemma ex_ending_ok : ending [ex_slept; listened] [6040; 6140]%Z ex_ending.
Proof.
  constructor; [|done|done| |done].
  - split_and!; [done..|]. exists [6040%Z], [6140%Z]. split; [|done].
    constructor; [by vm_compute..| |].
    + apply (bool_decide_unpack _). by vm_compute.
    + repeat (constructor; [by unfold addr_ok; simpl; lia|]). constructor.
  - repeat (constructor; [split; [done|by vm_compute]|]). constructor.
Qed.

(** ** The properties *)

(** C37: [Communicator::init] with handler threads never returns once the poller
    threads run. [thrdpool_create] makes a pool that counts [handler_threads]
    threads and has none, over a queue of capacity 0: the first
    [thrdpool_schedule] waits for a place that no thread will make, and where there
    is no memory for its task [thrdpool_destroy] waits for the threads. Without
    handler threads [init] succeeds. *)
Theorem init_waits `{TE : ThreadEnv} `{!ThreadLaws TE} `{E : Env} `{ME : MEnv} `{SE : SysEnv}
    me pt n s s1 q :
  pt ≠ 0%Z → create_poller pt s = Done (0%Z, s1) → (0 ≤ n)%Z →
  malloc_pool (tpool s1) = true →
  malloc_queue (set_pool (Some (TPool 0 0 0 false)) (tpool s1)) = Some q →
  (∀ x, pthread_result PAttrInit x = 0%Z) →
  get_mutex (queue (tpool s1)) = None → put_mutex (queue (tpool s1)) = None →
  put_mutex (rqueue s1) = None → ThrdPool.parent (tpool s1) me = false →
  if (0 <? n)%Z then init me pt n s = Blocked
  else ∃ s', init me pt n s = Done (0%Z, s') ∧ stop_flag (conns s') = 0%Z ∧
    has_pool s' = true ∧ pool (tpool s') = Some (TPool n 0 0 false).
Proof. intros. by eapply init_run. Qed.
Definition ex_started : communicator :=
  match create_poller 2 ex_blank with Done (_, s) => s | _ => ex_blank end.
Lemma init_waits_witness : init 1 2 3 ex_blank = Blocked.
Proof.
  apply (init_waits 1 2 3 ex_blank ex_started 1000); [done|by vm_compute|lia|by vm_compute..].
Defined.

(** C12: The thread that ends a communicator handles the results that are queued in
    the order they were put, each by the handler of its operation, frees each of them
    and no other, and returns once there is none; the mpoller is destroyed, and so is
    the queue, which is empty then: both its heads are freed. *)
Theorem results_handled_in_order `{CommEnv} `{CommMemory} `{CommClient} `{CommExterns}
    `{CommCallbacks} `{IOKernel} `{IOClient} `{TE : ThreadEnv} `{E : Env} `{IO : IOServices}
    me fuel hfuel s sx ls rs mp :
  (∀ l e, local (io_handle_stop l e)) →
  ending rs ls s → length ls < fuel → handle_all hfuel rs s = Done (tt, sx) →
  Mpoller.mpoller_destroy (mpollers s) = Done (tt, mp) →
  ∃ s', handler_thread_routine me fuel hfuel s = Done (tt, s') ∧
    conns s' = conns sx ∧ ioservices s' = ioservices sx ∧
    (∀ a, results s' !! a =
       if decide ((a + sizeof_poller_result)%Z ∈ ls) then None else results s !! a) ∧
    mpollers s' = mp ∧
    (∃ q, holding q [] ∧ msgqueue_destroy q = Done (tt, rqueue s')) ∧
    words (rqueue s') !! head1_at (self (mq (rqueue s))) = None ∧
    words (rqueue s') !! head2_at (self (mq (rqueue s))) = None.
Proof. intros. by eapply handler_routine_run. Qed.
Definition ex_handled : communicator :=
  match handle_all 5 [ex_slept; listened] ex_ending with Done (_, s) => s | _ => ex_ending end.
Definition ex_destroyed : Mpoller.mpoller :=
  match Mpoller.mpoller_destroy (mpollers ex_ending) with
  | Done (_, m) => m | _ => mpollers ex_ending end.
(** The sleeping session is told first, then the connection accepted gets its entry. *)
Lemma results_handled_in_order_witness :
  ∃ s', handler_thread_routine 1 3 5 ex_ending = Done (tt, s') ∧
    take 4 (ccalls (conns s')).*1 =
      [KAdd (PData PD_OP_READ 0 7 CREATE_REQUEST (Some 10%positive) (UPtr None)) 500
         (Some 9%positive); KSetFl 7 O_NONBLOCK; KGetFl 7; KSleepHandle 240 SS_STATE_COMPLETE 0].
Proof.
  destruct (results_handled_in_order 1 3 5 ex_ending ex_handled [6040; 6140]%Z
    [ex_slept; listened] ex_destroyed) as (s' & E & Hc & _);
    [by intros|apply ex_ending_ok|simpl; lia|by vm_compute|by vm_compute|].
  exists s'. split; [done|]. rewrite Hc. vm_compute. reflexivity.
Defined.
